(* ===== verification/_CoqProject ===== *)
-Q . S2P
Prelude.v
Containers.v
Ring.v
Params.v
Component.v
EventQueue.v
TLB.v
Crossbar.v
MemoryController.v
Cache.v
CacheL1.v
CacheL2.v
Directory.v
O3Core.v
O3Pipeline.v
O3Machine.v
Frontend.v
Handshake.v
PthreadAttr.v
PthreadSync.v
PthreadThreads.v
PthreadScheduler.v
Trace.v
PthreadSim.v
PthreadInv.v
PthreadReach.v
PthreadCalls.v
Instrument.v
Schedules.v
Machine.v
McSim.v
Report.v
Server.v
Invariants.v
System.v
Replay.v
Launch.v
Tests.v
