(* ===== verification/Prelude.v ===== *)
(** * McSimA+ : a shallow embedding of the simulator and of its front end (root file)

    McSimA+ simulates a many-core machine.  Every program that is simulated runs under Pin
    with a tool (the _front end_, src/Pthread) that replaces the thread library of the
    program, decides which thread runs, and reports each instruction; the _back end_
    (src/McSim) simulates, event by event, cores, TLBs, caches, directories, a crossbar and
    memory controllers, and says which thread it wants to hear from next.  The two talk
    through a shared page per process.  src/TraceGen writes the instructions of a program
    to files that a front end can play back.

    ** The parts, and the files that model them

    Back end (C++ sources in src/McSim):
    - Params.v: the parameters of the machine description (PTS.cc).
    - Component.v, Containers.v: messages, queues and identities of components
      (PTSComponent.h), and the ordered containers of the C++ library they live in.
    - EventQueue.v: [GlobalEventQueue] (PTSComponent.cc), against the class [Machine], which
      says what a component does when it is woken.
    - TLB.v, Crossbar.v, MemoryController.v, Cache.v, CacheL1.v, CacheL2.v, Directory.v: the
      component of the same name (PTSTLB, PTSXbar, PTSMemoryController, PTSCache,
      PTSDirectory).  Each has a [config] (what its constructor reads), a [state] (its
      fields), one definition per method, and its theorems.
    - O3Core.v (PTSO3Core.cc and the instruction fetch of McSim.cc), with its theorems in
      O3Pipeline.v and O3Machine.v; Ring.v has the circular arrays.
    - Machine.v: all components connected; a call of a method of another component is
      delivered to it, and the instance [machine] of the class [Machine] runs the event
      queue on it.  Schedules.v proves for every component which ticks its calls carry: none
      earlier than the present one, and strictly later ones when no latency is 0, except that
      a core that asks for instructions schedules itself for the present tick.
    - McSim.v: [McSim] (McSim.cc): construction and wiring, [add_instruction],
      [resume_simulation], [set_active], the totals kept between reports.
    - Report.v: what the simulator prints: the reports of intervals and of the destructors,
      show_state, the display of the queues, the check of the tags (every file of src/McSim
      that prints).
    - Server.v: the run file (PTSProcessDescription.cc) and the loop of main.cc that serves
      the front ends; Launch.v: the processes main.cc starts and the options, which the
      constructor of [PthreadSim] (EEPthreadSim.cpp) reads.  main.cc passes the text of three
      options in temporary strings that are gone when [execve] reads them; what it finds
      there is a parameter.
    - Invariants.v: the class [PromisesKept] says what each component keeps of itself; what
      they all keep, the machine, the simulator and the server keep.

    Both ends:
    - System.v: one program on the simulator.  The instance [simulated] of [Backend] is the
      server of Server.v on the machine of Machine.v, and [simulated_laws] discharges what
      the thread library asks of it ([BackendLaws] of PthreadInv.v).
    - Replay.v: a program is traced, and its trace played on the simulator.

    Between the two: Handshake.v, the two flags of the shared page (main.cc, PTS.cpp), as a
    transition system whose steps are single accesses of either side.

    Front end (src/Pthread):
    - Frontend.v: the proxy of the simulator (PTS.cpp), which piles instructions up; the
      simulator is an instance of the class [Backend].
    - PthreadAttr.v, PthreadSync.v, PthreadThreads.v: the managers of attributes, mutexes,
      condition variables, barriers, joining, cancellation, cleanup, thread-specific data
      and the allocator.
    - PthreadScheduler.v (EEPthreadScheduler.cpp) and PthreadSim.v (EEPthreadSim.cpp): the
      threads, and the calls of the program.  Pin's contexts are the class [Pin].  A front
      end that is given the name of a trace plays it ([player], [initiate]) and ends.
      PthreadInv.v, PthreadReach.v and PthreadCalls.v have the invariant of the library.
    - Instrument.v: the tool itself (mypthreadtool.cpp): which routines are replaced by what,
      what is called before instructions; the instrumentation of tracegen.cpp; and the
      library of empty functions the program is linked with (mypthread.cpp).
    - Trace.v: the trace generator (tracegen.cpp), to the bytes of its files, and the player
      ([PlayTraces] of EEPthreadScheduler.cpp).

    Tests.v runs the unit tests of the repository (src/McSim/test) on these definitions: each
    is an example that computes what the test expects, up to the coherence cases on a whole
    machine built from the machine description of the test.

    ** How the code is rendered

    A word is the [Z] of its value and wraps around where the code's does ([⊕], [⊖], [⊗] for
    64 bits, with ₃₂ for 32).  A method is a [proc W S A]: from a state [S] it gives a value,
    the next state and the list of calls [W] it makes on others, or a [failure]: [Fatal] for
    an assertion, LOG(FATAL) or an exit, [Undef] for undefined behaviour (an index out of
    range, a freed message, a shift that is too wide, a division by zero).  The calls of a
    handler are delivered when it returns, in order, each with all that follows from it; the
    code makes them on the way.  The order of effects on each component is the same: a
    handler reads no other component in between, and the one call that comes back, the
    answer of a memory controller of fixed latency to its directory, only joins the queue
    of replies, which the rest of the handler leaves alone.  Only when caller and callee
    both fail in one step is it the caller's failure
    that is reported.  Memory that a constructor leaves as it is (queue slots of a core, tRP,
    a thread attribute) is a parameter.

    ** What the theorems show

    - The event loop refines "wake the earliest pair" ([process_event_refines]).  On the
      machine of all components, with latencies of at least one tick as in the sample
      configurations, it comes past every tick, returns or fails ([machine_progress]); from
      any state of the whole machine, resuming answers an active thread at the current time, or that there is
      nothing left ([resume_answers]), and a round of the server answers the right process
      ([serve_answers]).
    - From end to end: what a program has its threads do reaches the cores as if it had
      called the simulator itself ([program_reaches_simulator]); the thread library and the
      simulator agree on which threads run and on the time, and no guarded call meets
      undefined behaviour ([program_on_simulator]); a trace that was recorded brings the
      machine where its instructions would ([recorded_reaches_cores]); whatever messages come,
      caches, TLBs and cores keep their shape, so that the check of the tags never fires and
      the report is printed ([simulator_keeps_shape]), and what it says of an L2 is right
      ([l2_report]).
    - Construction connects every pointer to a component of the right type
      ([create_comps_connects]); starting numbers the threads of the processes
      ([start_numbers_threads]) and keeps their addresses apart ([addresses_isolated]); a
      tool reads the options that do not come from temporary strings as they were meant, and
      the others as what is found in the place of these ([options_roundtrip]).
    - Caches: no line twice, requests answered once, fills that install the line, and
      coherence invariants of every reachable state of an L2 and of a directory
      ([l1_..], [l2_..], [dir_..]).  A fill that replaces a line whose owner was asked for it
      leaves a simulation that the answer of the owner aborts ([l2_evicts_waiting_line]).
    - TLBs are LRU lists; the crossbar loses nothing, keeps order and is fair; the memory
      controller follows the DRAM protocol, keeps bursts apart, serves each request once
      ([tlb_..], [crossbar_..], [port..], [mc_..]).
    - A core moves instructions in order, loses no wake-up and is never stuck ([core_..],
      [reg_dep_newest]).
    - Batching is transparent ([pts_batching_transparent]); the handshake is exclusive and
      ends, as long as the simulator answers only processes it has heard of
      ([handshake_safe]; it may do otherwise: [switch_before_request]); mutexes refine an abstract lock ([mutex_refines]); a thread
      that does not run waits in exactly one queue in every state that guarded calls lead to
      ([waiting_in_one_place]; [create_after_exit] and [cancel_while_waiting] are why there
      are guards); attributes read
      back ([attr_roundtrip]); a trace is played as it was recorded ([trace_replayed]); the
      tool skips what it should, hands over the rest unless it plays a trace, and passes
      hooks what they take ([skips_then_reports], [hooks_well_typed]).
    - Where the code does not do what it means to, a lemma computes an execution that shows
      it (among others [tlb_wide_overflows], [precharge_waits_twice],
      [l1_wide_line_undefined], [dir_resumed_read_undefined], [default_predictor_undefined],
      [resume_without_threads], [create_after_exit], [stubs_left]).

    ** Bounds and fuel

    - The logarithm of a 64-bit number needs at most 64 rounds.  Loops over waiters, groups
      of a trace or pages have the length of what they consume as fuel; their lemmas show
      that this is enough.
    - Calls nest at most [max_depth] = 3 deep (lemma [deliver_depth] of Machine.v).
    - [process_event] and [resume_simulation] have fuel, since a simulation need not end:
      [machine_progress] shows that everything scheduled up to a tick is processed with
      enough of it, and what holds of an answer holds for every fuel.
    - Ticks are 64-bit; theorems on several components assume that the simulated time stays
      below [horizon] = 2^63, which Schedules.v needs to exclude that ticks wrap around.
      The definitions themselves wrap.
    - The group size of a trace, 100000 in the code, is a parameter of Trace.v.
    - A program that waits for an answer that does not come (the server has ended or aborted,
      has used up its fuel, or is at the horizon) waits for ever: System.v has the state
      [Gone] for it, so that [Backend] is total, and the theorems of System.v and Replay.v
      speak of the machine only while the server is in its loop.

    ** Not modelled, and why

    - The messages of LOG_TRACE, LOG(FATAL) and of the front end on the console, and
      [display_event], which nothing calls.  In Report.v a stream is the list of what is
      written to it; how a stream formats a number, and the rounding of a quotient of
      doubles, are the library's.
    - fork, execve, mmap, signals and the clock in main.cc: the operating system.  What they
      are given is in Launch.v and Server.v.
    - Pin, XED, Snappy, the TOML parser, gflags and glog are not part of the source: Pin's
      contexts and the numbers of instruction categories are parameters ([Pin],
      [XedCategories]), compression is a pair of functions with the documented round trip
      as a hypothesis, a TOML file is its parsed table.
    - mcsim_pthread.h repeats a header of the C library; only its constants are used.
    - Scripts, benchmarks and sample applications of the repository, and the frame of its
      unit tests. *)

From Stdlib Require Export ZArith Lia Bool.
From coqutil Require Export Datatypes.RecordSettersUsingExistingGetters.
From stdpp Require Export base tactics option list list_numbers gmap sets
  sorting fin_maps numbers.
Export RecordSetNotations1.
Export stdpp.list_basics.list stdpp.list_relations.list stdpp.list_monad.list
  stdpp.list_misc.list stdpp.list_tactics.list stdpp.list_numbers.list.

#[global] Arguments RecordSettersUsingExistingGetters.const {_} _ _ /.

#[global] Open Scope Z_scope.

(** ** Machine words

    The C++ code computes with [uint32_t], [uint64_t] and [int32_t].  A word is
    the [Z] of its value; every operation that can wrap around is written with
    one of the operators below. *)

Declare Scope mcsim_scope.
Delimit Scope mcsim_scope with mc.
#[global] Open Scope mcsim_scope.

Definition u32 (x : Z) : Z := x mod 2 ^ 32.
Definition u64 (x : Z) : Z := x mod 2 ^ 64.

(** Conversion to [int32_t] (two's complement). *)
Definition i32 (x : Z) : Z := (x + 2 ^ 31) mod 2 ^ 32 - 2 ^ 31.

Definition in_u32 (x : Z) : Prop := 0 <= x < 2 ^ 32.
Definition in_u64 (x : Z) : Prop := 0 <= x < 2 ^ 64.

Notation "x ⊕ y" := (u64 (x + y)) (at level 50, left associativity) : mcsim_scope.
Notation "x ⊖ y" := (u64 (x - y)) (at level 50, left associativity) : mcsim_scope.
Notation "x ⊗ y" := (u64 (x * y)) (at level 40, left associativity) : mcsim_scope.
Notation "x ⊕₃₂ y" := (u32 (x + y)) (at level 50, left associativity) : mcsim_scope.
Notation "x ⊖₃₂ y" := (u32 (x - y)) (at level 50, left associativity) : mcsim_scope.
Notation "x ⊗₃₂ y" := (u32 (x * y)) (at level 40, left associativity) : mcsim_scope.

(** [x << n] on [uint64_t], and [x >> n]. *)
Definition shl64 (x n : Z) : Z := u64 (Z.shiftl x n).
Definition shr (x n : Z) : Z := Z.shiftr x n.

Lemma u64_id x : in_u64 x → u64 x = x.
Proof. intros H. by apply Z.mod_small. Qed.
Lemma u32_id x : in_u32 x → u32 x = x.
Proof. intros H. by apply Z.mod_small. Qed.
Lemma u64_range x : in_u64 (u64 x).
Proof. apply Z.mod_pos_bound. lia. Qed.
Lemma u32_range x : in_u32 (u32 x).
Proof. apply Z.mod_pos_bound. lia. Qed.
Lemma u64_u64 x : u64 (u64 x) = u64 x.
Proof. apply u64_id, u64_range. Qed.
Lemma u64_add_l a b : u64 (u64 a + b) = u64 (a + b).
Proof. unfold u64. by rewrite Z.add_mod_idemp_l. Qed.
#[export] Hint Resolve u64_range u32_range : core.

(** ** Outcomes

    [Fatal] is [LOG(FATAL)], a failed [CHECK]/[assert]/[ASSERTX] or [exit];
    [Undef] is behaviour the C++ standard leaves undefined (an empty
    [std::stack] read, a null or dangling pointer dereferenced, an index past
    the end of an array, a division by zero). *)

Inductive failure : Set := Fatal | Undef.

Inductive outcome (A : Type) : Type :=
| Ok (a : A)
| Err (f : failure).
Arguments Ok {A} a.
Arguments Err {A} f.

#[export] Instance outcome_ret : MRet outcome := fun A a => Ok a.
#[export] Instance outcome_bind : MBind outcome := fun A B k m =>
  match m with Ok a => k a | Err f => Err f end.

(** [option] read as "present, or undefined behaviour". *)
Definition some_or_undef {A} (o : option A) : outcome A :=
  match o with Some a => Ok a | None => Err Undef end.

#[export] Instance failure_eq_dec : EqDecision failure.
Proof. solve_decision. Defined.
#[export] Instance outcome_eq_dec {A} `{EqDecision A} : EqDecision (outcome A).
Proof. solve_decision. Defined.

(** [v[i]] for a [std::vector] or an array indexed by an unsigned number: undefined past
    the end. *)
Definition vec_get {A} (l : list A) (i : Z) : outcome A :=
  if i <? 0 then Err Undef else some_or_undef (l !! Z.to_nat i).

(** [v[i] = f(v[i])]. *)
Definition vec_alter {A} (f : A → A) (i : Z) (l : list A) : list A :=
  if i <? 0 then l else alter f (Z.to_nat i) l.
Definition vec_set {A} (i : Z) (x : A) (l : list A) : list A := vec_alter (λ _, x) i l.

(** [0, 1, ..., n - 1], the values of the counter of a [for] loop. *)
Definition upto (n : Z) : list Z := seqZ 0 n.

(** ** Generic list facts *)

Lemma vec_get_Some {A} (l : list A) i x :
  vec_get l i = Ok x ↔ 0 ≤ i ∧ l !! Z.to_nat i = Some x.
Proof.
  unfold vec_get, some_or_undef. destruct (Z.ltb_spec i 0); [naive_solver lia|].
  destruct (l !! Z.to_nat i); naive_solver lia.
Qed.

Lemma vec_get_range {A} (l : list A) i x : vec_get l i = Ok x → 0 ≤ i < Z.of_nat (length l).
Proof. rewrite vec_get_Some. intros [Hi H%lookup_lt_Some]. lia. Qed.

Lemma vec_get_lt {A} (l : list A) i : 0 ≤ i < Z.of_nat (length l) → ∃ x, vec_get l i = Ok x.
Proof.
  intros Hi. destruct (lookup_lt_is_Some_2 l (Z.to_nat i)) as [x Hx]; [lia|].
  exists x. apply vec_get_Some. split; [lia|done].
Qed.

Lemma bind_Ok {A B} (m : outcome A) (k : A → outcome B) b :
  m ≫= k = Ok b → ∃ a, m = Ok a ∧ k a = Ok b.
Proof. destruct m as [a|]; [|done]. intros H. by exists a. Qed.

(** [mapM] over the counter of a loop: the objects a constructor makes. *)
Lemma mapM_Ok {A B} (f : A → outcome B) l k : mapM f l = Ok k ↔ Forall2 (λ x y, f x = Ok y) l k.
Proof.
  split.
  - revert k. induction l as [|x l IH]; intros k; cbn; [by intros [= <-]|].
    destruct (f x) as [y|] eqn:Hx; cbn; [|done]. destruct (mapM f l) as [k'|]; cbn; [|done]. intros [= <-]. eauto.
  - induction 1 as [|x y l k Hx _ IH]; cbn; [done|]. by rewrite Hx; cbn; rewrite IH.
Qed.

Lemma mapM_upto {B} (f : Z → outcome B) n l :
  mapM f (upto n) = Ok l →
  Z.of_nat (length l) = Z.max 0 n ∧ ∀ i y, vec_get l i = Ok y → 0 ≤ i < n ∧ f i = Ok y.
Proof.
  intros H%mapM_Ok. pose proof (Forall2_length _ _ _ H) as Hl. unfold upto in *. rewrite length_seqZ in Hl. split; [lia|].
  intros i y [Hi Hy]%vec_get_Some. destruct (Forall2_lookup_r _ _ _ _ _ H Hy) as (j & Hj & Hf).
  apply lookup_seqZ in Hj as [-> Hj]. rewrite Z.add_0_l, Z2Nat.id in * by lia. split; [lia|done].
Qed.

Lemma mapM_upto_total {B} (f : Z → outcome B) n :
  (∀ i, 0 ≤ i < n → ∃ y, f i = Ok y) → ∃ l, mapM f (upto n) = Ok l.
Proof.
  intros Hf. assert (∀ l, Forall (λ i, 0 ≤ i < n) l → ∃ k, mapM f l = Ok k) as Hgen.
  { induction 1 as [|i l Hi _ [k Hk]]; cbn; [by eexists|]. destruct (Hf i Hi) as [y ->]. cbn. rewrite Hk. by eexists. }
  apply Hgen, Forall_forall. intros i Hi%elem_of_seqZ. lia.
Qed.

Lemma vec_get_upto {B} (f : Z → B) n i y : vec_get (f <$> upto n) i = Ok y ↔ 0 ≤ i < n ∧ y = f i.
Proof.
  rewrite vec_get_Some. unfold upto. rewrite list_lookup_fmap. split.
  - intros [Hi Hy]. destruct (_ !! Z.to_nat i) as [j|] eqn:Hj; [|done]. apply lookup_seqZ in Hj as [-> Hj].
    injection Hy as <-. rewrite Z.add_0_l, Z2Nat.id by lia. split; [lia|done].
  - intros [Hi ->]. split; [lia|]. rewrite lookup_seqZ_lt by lia. cbn. do 2 f_equal. lia.
Qed.

Lemma length_vec_alter {A} (f : A → A) i l : length (vec_alter f i l) = length l.
Proof. unfold vec_alter. case_match; [done|]. apply length_alter. Qed.

Lemma vec_get_alter {A} (f : A → A) i l x :
  vec_get l i = Ok x → vec_get (vec_alter f i l) i = Ok (f x).
Proof.
  rewrite !vec_get_Some. intros [Hi Hx]. split; [done|]. unfold vec_alter.
  destruct (Z.ltb_spec i 0); [lia|]. by rewrite list_lookup_alter_eq, Hx.
Qed.

Lemma vec_get_alter_ne {A} (f : A → A) i j (l : list A) :
  i ≠ j → vec_get (vec_alter f i l) j = vec_get l j.
Proof.
  intros Hne. unfold vec_get, vec_alter. destruct (Z.ltb_spec i 0), (Z.ltb_spec j 0); try done.
  by rewrite list_lookup_alter_ne by lia.
Qed.

Lemma Forall_vec_alter {A} (P : A → Prop) (f : A → A) i (l : list A) :
  Forall P l → (∀ x, vec_get l i = Ok x → P x → P (f x)) → Forall P (vec_alter f i l).
Proof.
  intros Hl Hf. unfold vec_alter. destruct (Z.ltb_spec i 0); [done|].
  apply Forall_alter; [done|]. intros x Hx. apply Hf. by apply vec_get_Some.
Qed.

Lemma Forall_vec_get {A} (P : A → Prop) i (l : list A) x : Forall P l → vec_get l i = Ok x → P x.
Proof. intros Hl [_ Hx]%vec_get_Some. by eapply Forall_lookup_1. Qed.

Lemma vec_get_set {A} i (l : list A) x y : vec_get l i = Ok x → vec_get (vec_set i y l) i = Ok y.
Proof. apply (vec_get_alter (λ _, y)). Qed.

Lemma vec_get_set_ne {A} i j (l : list A) y : i ≠ j → vec_get (vec_set i y l) j = vec_get l j.
Proof. apply vec_get_alter_ne. Qed.

(** The update of an element that was read. *)
Lemma vec_alter_const {A} (f : A → A) i (l : list A) x :
  vec_get l i = Ok x → vec_alter f i l = vec_alter (λ _, f x) i l.
Proof.
  intros [Hi Hx]%vec_get_Some. unfold vec_alter. destruct (Z.ltb_spec i 0); [done|].
  apply list_eq. intros k. destruct (decide (k = Z.to_nat i)) as [->|Hne].
  - by rewrite !list_lookup_alter_eq, Hx.
  - by rewrite !list_lookup_alter_ne.
Qed.

Lemma vec_alter_self {A} i (l : list A) x : vec_get l i = Ok x → vec_alter (λ _, x) i l = l.
Proof.
  intros Hx. rewrite <- (vec_alter_const (λ y, y) _ _ _ Hx). unfold vec_alter.
  case_match; [done|]. by apply list_alter_id.
Qed.

Lemma upto_cons n : 0 < n → ∃ l, upto n = 0 :: l ∧ Forall (λ i, 0 < i) l.
Proof.
  intros Hn. exists (seqZ 1 (n - 1)). split; [unfold upto; rewrite seqZ_cons by lia; f_equal; f_equal; lia|].
  apply Forall_forall. intros i Hi%elem_of_seqZ. lia.
Qed.

Lemma elem_of_upto n i : i ∈ upto n ↔ 0 ≤ i < n.
Proof. unfold upto. rewrite elem_of_seqZ. lia. Qed.


Lemma Forall_weaken {A} (P Q : A → Prop) (l : list A) :
  Forall P l → (∀ x, P x → Q x) → Forall Q l.
Proof. induction 1; auto. Qed.

Lemma sublist_Forall {A} (P : A → Prop) (l k : list A) :
  l `sublist_of` k → Forall P k → Forall P l.
Proof. induction 1; intros Hk; [done|..]; inv Hk; [constructor|]; auto. Qed.

Section FilterFacts.
Context {A : Type} (P : A → Prop) `{!∀ x, Decision (P x)}.

Lemma filter_none (l : list A) : Forall (λ x, ¬ P x) l → filter P l = [].
Proof. induction 1; [done|]. by rewrite filter_cons_False. Qed.

Lemma filter_all (l : list A) : Forall P l → filter P l = l.
Proof. induction 1 as [|x l Hx Hl IH]; [done|]. rewrite filter_cons_True by done. by rewrite IH. Qed.
End FilterFacts.

(** ** The handler monad

    A handler of a component reads and writes the component's own state [S],
    calls other components (the calls are collected, in order, as a list of
    [W]) and may fail. *)

Definition proc (W S A : Type) : Type := S → outcome (A * S * list W).

Section Proc.
Context {W S : Type}.

#[global] Instance proc_ret : MRet (proc W S) := fun A a s => Ok (a, s, []).
#[global] Instance proc_bind : MBind (proc W S) := fun A B k m s =>
  match m s with
  | Ok (a, s1, o1) =>
      match k a s1 with
      | Ok (b, s2, o2) => Ok (b, s2, o1 ++ o2)
      | Err f => Err f
      end
  | Err f => Err f
  end.

Definition reads {A} (f : S → A) : proc W S A := fun s => Ok (f s, s, []).
Definition modify (f : S → S) : proc W S unit := fun s => Ok (tt, f s, []).
Definition emit (w : W) : proc W S unit := fun s => Ok (tt, s, [w]).
Definition fails {A} (f : failure) : proc W S A := fun _ => Err f.
Definition lift {A} (m : outcome A) : proc W S A := fun s =>
  match m with Ok a => Ok (a, s, []) | Err f => Err f end.

(** [ASSERTX], [assert] and the exits of the code: [Fatal] when the condition fails. *)
Definition ASSERTX (b : bool) : proc W S unit := if b then mret tt else fails Fatal.

(** [if (b) { m }] *)
Definition when (b : bool) (m : proc W S unit) : proc W S unit :=
  if b then m else mret tt.

(** [for (auto x : l) f(x)] *)
Fixpoint for_each {A} (l : list A) (f : A → proc W S unit) : proc W S unit :=
  match l with
  | [] => mret tt
  | x :: l' => _ ← f x; for_each l' f
  end.
End Proc.
Arguments proc : clear implicits.

(** The monad laws, at a state. *)
Section ProcLaws.
Context {W S : Type}.

Lemma proc_bind_ret {A B} (a : A) (k : A → proc W S B) s : (mret a ≫= k) s = k a s.
Proof. unfold mbind, proc_bind, mret, proc_ret. by destruct (k a s) as [[[b s'] o]|]. Qed.

Lemma proc_bind_assoc {A B C} (m : proc W S A) (k : A → proc W S B) (h : B → proc W S C) s :
  ((m ≫= k) ≫= h) s = (m ≫= λ a, k a ≫= h) s.
Proof.
  unfold mbind, proc_bind. destruct (m s) as [[[a s1] o1]|]; [|done]. destruct (k a s1) as [[[b s2] o2]|]; [|done].
  destruct (h b s2) as [[[c s3] o3]|]; [|done]. by rewrite app_assoc.
Qed.

Lemma proc_bind_ext {A B} (m : proc W S A) (k h : A → proc W S B) s :
  (∀ a s', k a s' = h a s') → (m ≫= k) s = (m ≫= h) s.
Proof. intros Hk. unfold mbind, proc_bind. destruct (m s) as [[[a s1] o1]|]; [|done]. by rewrite Hk. Qed.

Lemma proc_bind_ext_l {A B} (m m' : proc W S A) (k : A → proc W S B) s :
  m s = m' s → (m ≫= k) s = (m' ≫= k) s.
Proof. intros Hm. unfold mbind, proc_bind. by rewrite Hm. Qed.

(** The two runs that make up one of a sequence. *)
Lemma bind_run {A B} (m : proc W S A) (k : A → proc W S B) s b s' o :
  (m ≫= k) s = Ok (b, s', o) →
  ∃ a s1 o1 o2, m s = Ok (a, s1, o1) ∧ k a s1 = Ok (b, s', o2) ∧ o = o1 ++ o2.
Proof.
  unfold mbind, proc_bind. destruct (m s) as [[[a s1] o1]|]; [|done]. destruct (k a s1) as [[[b' s2] o2]|] eqn:Hk; [|done].
  intros [= <- <- <-]. eauto 10.
Qed.
(** The definition of a sequence, to rewrite with. *)
Lemma bind_unfold {A B} (m : proc W S A) (k : A → proc W S B) s :
  (m ≫= k) s = match m s with
               | Ok (a, s1, o1) => match k a s1 with Ok (b, s2, o2) => Ok (b, s2, o1 ++ o2) | Err f => Err f end
               | Err f => Err f
               end.
Proof. done. Qed.

Lemma for_each_app {A} (l l' : list A) (f : A → proc W S unit) s :
  for_each (l ++ l') f s = (_ ← for_each l f; for_each l' f) s.
Proof.
  revert s. induction l as [|x l IH]; intros s; cbn [for_each app]; [by rewrite proc_bind_ret|].
  rewrite proc_bind_assoc. by apply proc_bind_ext.
Qed.
End ProcLaws.

(** A component [T] that is a part of the state [S]: its handler, run on the whole. *)
Definition zoom {W S T A} (get : S → T) (put : (T → T) → S → S) (m : proc W T A) : proc W S A :=
  fun s =>
    match m (get s) with
    | Ok (a, t, o) => Ok (a, put (λ _, t) s, o)
    | Err f => Err f
    end.

(** ** A weakest-precondition calculus for handlers

    [E] says which failures are acceptable: [λ _, True] gives partial
    correctness, [λ _, False] total correctness, [λ f, f = Fatal] freedom from
    undefined behaviour. *)

Definition wp {W S A} (E : failure → Prop) (m : proc W S A) (s : S)
    (Q : A → S → list W → Prop) : Prop :=
  match m s with
  | Ok (a, s', o) => Q a s' o
  | Err f => E f
  end.

Definition any_failure (f : failure) : Prop := True.
Definition no_failure (f : failure) : Prop := False.

Section WpRules.
Context {W S : Type} (E : failure → Prop).
Implicit Types (s : S).

Lemma wp_ret {A} (a : A) s (Q : A → S → list W → Prop) :
  Q a s [] → wp E (mret a) s Q.
Proof. done. Qed.

Lemma wp_bind {A B} (m : proc W S A) (k : A → proc W S B) s Q :
  wp E m s (λ a s1 o1, wp E (k a) s1 (λ b s2 o2, Q b s2 (o1 ++ o2))) →
  wp E (m ≫= k) s Q.
Proof.
  unfold wp, mbind, proc_bind. intros H. destruct (m s) as [[[a s1] o1]|f]; [|done].
  by destruct (k a s1) as [[[b s2] o2]|f].
Qed.

Lemma wp_mono {A} (m : proc W S A) s (Q Q' : A → S → list W → Prop) :
  wp E m s Q → (∀ a s' o, Q a s' o → Q' a s' o) → wp E m s Q'.
Proof. unfold wp. destruct (m s) as [[[a s1] o1]|f]; auto. Qed.

Lemma wp_conj {A} (m : proc W S A) s (Q Q' : A → S → list W → Prop) :
  wp E m s Q → wp E m s Q' → wp E m s (λ a s' o, Q a s' o ∧ Q' a s' o).
Proof. unfold wp. destruct (m s) as [[[a s1] o1]|f]; auto. Qed.

Lemma wp_weaken {A} (E' : failure → Prop) (m : proc W S A) s (Q : A → S → list W → Prop) :
  (∀ f, E' f → E f) → wp E' m s Q → wp E m s Q.
Proof. unfold wp. destruct (m s) as [[[a s1] o1]|f]; auto. Qed.

Lemma wp_reads {A} (f : S → A) s (Q : A → S → list W → Prop) :
  Q (f s) s [] → wp E (reads f) s Q.
Proof. done. Qed.

Lemma wp_modify (f : S → S) s (Q : unit → S → list W → Prop) :
  Q tt (f s) [] → wp E (modify f) s Q.
Proof. done. Qed.

Lemma wp_emit (w : W) s (Q : unit → S → list W → Prop) :
  Q tt s [w] → wp E (emit w) s Q.
Proof. done. Qed.

Lemma wp_fails {A} f s (Q : A → S → list W → Prop) :
  E f → wp E (fails f) s Q.
Proof. done. Qed.

Lemma wp_lift {A} (m : outcome A) s (Q : A → S → list W → Prop) :
  (∀ a, m = Ok a → Q a s []) → (∀ f, m = Err f → E f) → wp E (lift m) s Q.
Proof. unfold wp, lift. destruct m; eauto. Qed.

Lemma wp_lift_ok {A} (m : outcome A) a s (Q : A → S → list W → Prop) :
  m = Ok a → Q a s [] → wp E (lift m) s Q.
Proof. by intros ->. Qed.

Lemma wp_when b (m : proc W S unit) s (Q : unit → S → list W → Prop) :
  (b = true → wp E m s Q) → (b = false → Q tt s []) → wp E (when b m) s Q.
Proof. destruct b; cbn; eauto. Qed.

(** A loop whose rounds satisfy a reflexive and transitive relation of states and calls. *)
Lemma wp_for_each {A} (R : S → S → list W → Prop) (I : S → Prop) (l : list A)
    (f : A → proc W S unit) s :
  (∀ s, R s s []) →
  (∀ s1 s2 s3 o1 o2, R s1 s2 o1 → R s2 s3 o2 → R s1 s3 (o1 ++ o2)) →
  (∀ x s, x ∈ l → I s → wp E (f x) s (λ _ s' o, I s' ∧ R s s' o)) →
  I s → wp E (for_each l f) s (λ _ s' o, I s' ∧ R s s' o).
Proof.
  intros Hrefl Htrans. revert s. induction l as [|x l IH]; intros s Hf Hs; cbn [for_each].
  { by apply wp_ret. }
  apply wp_bind. eapply wp_mono; [apply Hf; [by left|done]|].
  intros _ s1 o1 [H1 R1]. eapply wp_mono; [apply IH; [|done]|].
  - intros y s' Hy. apply Hf. by right.
  - intros _ s2 o2 [H2 R2]. split; [done|]. by eapply Htrans.
Qed.

(** The result of a run, read off the [wp]. *)
Lemma wp_run {A} (m : proc W S A) s (Q : A → S → list W → Prop) a s' o :
  wp E m s Q → m s = Ok (a, s', o) → Q a s' o.
Proof. unfold wp. intros H Hr. by rewrite Hr in H. Qed.

(** What holds of a run may speak of the run. *)
Lemma wp_remember {A} (m : proc W S A) s (Q : A → S → list W → Prop) :
  wp E m s Q → wp E m s (λ a s' o, m s = Ok (a, s', o) ∧ Q a s' o).
Proof. unfold wp. by destruct (m s) as [[[a s'] o]|f]. Qed.

(** Total correctness gives a result. *)
Lemma wp_total {A} (m : proc W S A) s (Q : A → S → list W → Prop) :
  wp (λ _, False) m s Q → ∃ a s' o, m s = Ok (a, s', o) ∧ Q a s' o.
Proof. unfold wp. destruct (m s) as [[[a s'] o]|f]; [|done]. intros H. by exists a, s', o. Qed.

Lemma wp_intro {A} (m : proc W S A) s (Q : A → S → list W → Prop) :
  (∀ a s' o, m s = Ok (a, s', o) → Q a s' o) →
  (∀ f, m s = Err f → E f) → wp E m s Q.
Proof. unfold wp. destruct (m s) as [[[a s1] o1]|f]; auto. Qed.
End WpRules.

(** Steps through the primitive operations of a handler. *)
Ltac wp_step :=
  lazymatch goal with
  | |- wp _ (_ ≫= _) _ _ => apply wp_bind
  | |- wp _ (mret _) _ _ => apply wp_ret
  | |- wp _ (reads _) _ _ => apply wp_reads
  | |- wp _ (modify _) _ _ => apply wp_modify
  | |- wp _ (emit _) _ _ => apply wp_emit
  end; cbv beta.
Ltac wp_steps := repeat wp_step.

(** Case analysis on the condition the handler tests next. *)
Ltac wp_if H :=
  lazymatch goal with
  | |- wp _ (if ?g then _ else _) _ _ => destruct g eqn:H
  | |- wp _ ((if ?g then _ else _) ≫= _) _ _ => destruct g eqn:H
  end.

(** *** Weakest preconditions with the calls made so far

    [wpl E m s o Q]: run after the calls [o], [m] ends with a result, a state and all calls
    that satisfy [Q].  An invariant of the state and of the calls is carried through a
    handler without re-association. *)

Definition wpl {W S A} (E : failure → Prop) (m : proc W S A) (s : S) (o : list W)
    (Q : A → S → list W → Prop) : Prop :=
  wp E m s (λ a s' o', Q a s' (o ++ o')).

Section WplRules.
Context {W S : Type} (E : failure → Prop).
Implicit Types (s : S) (o : list W).

Lemma wpl_ret {A} (a : A) s o (Q : A → S → list W → Prop) : Q a s o → wpl E (mret a) s o Q.
Proof. intros H. apply wp_ret. by rewrite app_nil_r. Qed.

Lemma wpl_bind {A B} (m : proc W S A) (k : A → proc W S B) s o Q :
  wpl E m s o (λ a s1 o1, wpl E (k a) s1 o1 Q) → wpl E (m ≫= k) s o Q.
Proof.
  intros H. apply wp_bind. eapply wp_mono; [apply H|]. intros a s1 o1 Hk. cbv beta in *.
  eapply wp_mono; [apply Hk|]. intros b s2 o2. by rewrite app_assoc.
Qed.

Lemma wpl_mono {A} (m : proc W S A) s o (Q Q' : A → S → list W → Prop) :
  wpl E m s o Q → (∀ a s' o', Q a s' o' → Q' a s' o') → wpl E m s o Q'.
Proof. intros H HQ. eapply wp_mono; [apply H|]. eauto. Qed.

Lemma wpl_reads {A} (f : S → A) s o (Q : A → S → list W → Prop) :
  Q (f s) s o → wpl E (reads f) s o Q.
Proof. intros H. apply wp_reads. by rewrite app_nil_r. Qed.

Lemma wpl_modify (f : S → S) s o (Q : unit → S → list W → Prop) :
  Q tt (f s) o → wpl E (modify f) s o Q.
Proof. intros H. apply wp_modify. by rewrite app_nil_r. Qed.

Lemma wpl_emit w s o (Q : unit → S → list W → Prop) : Q tt s (o ++ [w]) → wpl E (emit w) s o Q.
Proof. intros H. by apply wp_emit. Qed.

Lemma wpl_lift_ok {A} (m : outcome A) a s o (Q : A → S → list W → Prop) :
  m = Ok a → Q a s o → wpl E (lift m) s o Q.
Proof. intros H HQ. eapply wp_lift_ok; [done|]. by rewrite app_nil_r. Qed.

Lemma wpl_lift {A} (m : outcome A) s o (Q : A → S → list W → Prop) :
  (∀ a, m = Ok a → Q a s o) → (∀ f, m = Err f → E f) → wpl E (lift m) s o Q.
Proof. intros H HE. apply wp_lift; [|done]. intros a Ha. rewrite app_nil_r. by apply H. Qed.

Lemma wpl_ASSERTX b s o (Q : unit → S → list W → Prop) :
  (b = true → Q tt s o) → (b = false → E Fatal) → wpl E (ASSERTX b) s o Q.
Proof. destruct b; intros H1 H2; [by apply wpl_ret, H1 | by apply wp_fails, H2]. Qed.

Lemma wpl_zoom {T A} get put (m : proc W T A) s o (Q : A → S → list W → Prop) :
  wpl E m (get s) o (λ a t o', Q a (put (λ _, t) s) o') → wpl E (zoom get put m) s o Q.
Proof. unfold wpl, wp, zoom. destruct (m (get s)) as [[[a t] o']|f]; done. Qed.

Lemma wpl_fails {A} f s o (Q : A → S → list W → Prop) : E f → wpl E (fails f) s o Q.
Proof. intros H. by apply wp_fails. Qed.

Lemma wpl_when b (m : proc W S unit) s o (Q : unit → S → list W → Prop) :
  (b = true → wpl E m s o Q) → (b = false → Q tt s o) → wpl E (when b m) s o Q.
Proof. destruct b; intros H1 H2; [by apply H1 | by apply wpl_ret, H2]. Qed.

Lemma wpl_for_each {A} (I : S → list W → Prop) (l : list A) (f : A → proc W S unit) s o :
  (∀ x s o, x ∈ l → I s o → wpl E (f x) s o (λ _, I)) →
  I s o → wpl E (for_each l f) s o (λ _, I).
Proof.
  revert s o. induction l as [|x l IH]; intros s o Hf Hs; cbn [for_each]; [by apply wpl_ret|].
  apply wpl_bind. eapply wpl_mono; [apply Hf; [left|done]|]. intros [] s1 o1 H1.
  apply IH; [|done]. intros y s2 o2 Hy. apply Hf. by right.
Qed.

(** A loop over a range of numbers, with an invariant that depends on the counter. *)
Lemma wpl_for_range (I : Z → S → list W → Prop) a n (f : Z → proc W S unit) s o :
  0 ≤ n →
  (∀ i s o, a ≤ i < a + n → I i s o → wpl E (f i) s o (λ _, I (i + 1))) →
  I a s o → wpl E (for_each (seqZ a n) f) s o (λ _, I (a + n)).
Proof.
  intros Hn. revert a s o. pattern n. revert n Hn. apply natlike_ind.
  - intros a s o _ Ha. rewrite seqZ_nil, Z.add_0_r by lia. by apply wpl_ret.
  - intros n Hn IH a s o Hf Ha. rewrite seqZ_cons by lia. cbn [for_each]. apply wpl_bind.
    eapply wpl_mono; [apply Hf; [lia|exact Ha]|]. intros [] s1 o1 H1. cbv beta in H1.
    replace (a + Z.succ n) with (Z.succ a + n) by lia. replace (Z.pred (Z.succ n)) with n by lia.
    apply IH; [|done]. intros i s2 o2 Hi. apply Hf. lia.
Qed.

(** The calls made before do not matter. *)
Lemma wpl_wp {A} (m : proc W S A) s Q : wpl E m s [] Q ↔ wp E m s Q.
Proof. done. Qed.

Lemma wpl_conj {A} (m : proc W S A) s o (Q Q' : A → S → list W → Prop) :
  wpl E m s o Q → wpl E m s o Q' → wpl E m s o (λ a s' o', Q a s' o' ∧ Q' a s' o').
Proof. apply wp_conj. Qed.

Lemma wpl_of_wp {A} (m : proc W S A) s o (Q : A → S → list W → Prop) :
  wp E m s (λ a s' o', Q a s' (o ++ o')) → wpl E m s o Q.
Proof. done. Qed.
End WplRules.

Ltac log_step :=
  lazymatch goal with
  | |- wpl _ (_ ≫= _) _ _ _ => apply wpl_bind
  | |- wpl _ (mret _) _ _ _ => apply wpl_ret
  | |- wpl _ (reads _) _ _ _ => apply wpl_reads
  | |- wpl _ (modify _) _ _ _ => apply wpl_modify
  | |- wpl _ (emit _) _ _ _ => apply wpl_emit
  end; cbv beta iota.
Ltac log_steps := repeat log_step.

(** *** Handlers that end well or stop the program

    [safe m s Q]: [m] ends with a result and a state that satisfy [Q], or the program
    stops at a failed assertion; nothing undefined happens. *)

Definition safe {W S A} (m : proc W S A) (s : S) (Q : A → S → Prop) : Prop :=
  wp (λ f, f = Fatal) m s (λ a s' _, Q a s').

Section SafeRules.
Context {W S : Type}.
Implicit Types (s : S).

Lemma safe_ret {A} (a : A) s (Q : A → S → Prop) : Q a s → safe (mret a : proc W S A) s Q.
Proof. done. Qed.
Lemma safe_bind {A B} (m : proc W S A) (k : A → proc W S B) s Q :
  safe m s (λ a s1, safe (k a) s1 Q) → safe (m ≫= k) s Q.
Proof. intros H. apply wp_bind. eapply wp_mono; [apply H|]. done. Qed.
Lemma safe_mono {A} (m : proc W S A) s (Q Q' : A → S → Prop) :
  safe m s Q → (∀ a s', Q a s' → Q' a s') → safe m s Q'.
Proof. intros H HQ. eapply wp_mono; [apply H|]. eauto. Qed.
Lemma safe_reads {A} (f : S → A) s (Q : A → S → Prop) : Q (f s) s → safe (reads f : proc W S A) s Q.
Proof. done. Qed.
Lemma safe_modify (f : S → S) s (Q : unit → S → Prop) : Q tt (f s) → safe (modify f : proc W S unit) s Q.
Proof. done. Qed.
Lemma safe_emit (w : W) s (Q : unit → S → Prop) : Q tt s → safe (emit w) s Q.
Proof. done. Qed.
Lemma safe_fatal {A} s (Q : A → S → Prop) : safe (fails Fatal : proc W S A) s Q.
Proof. done. Qed.
Lemma safe_ASSERTX b s (Q : unit → S → Prop) : (b = true → Q tt s) → safe (ASSERTX b : proc W S unit) s Q.
Proof. destruct b; intros H; [by apply H|done]. Qed.
Lemma safe_when b (m : proc W S unit) s (Q : unit → S → Prop) :
  (b = true → safe m s Q) → (b = false → Q tt s) → safe (when b m) s Q.
Proof. destruct b; cbn; auto. Qed.
Lemma safe_lift_ok {A} (m : outcome A) a s (Q : A → S → Prop) :
  m = Ok a → Q a s → safe (lift m : proc W S A) s Q.
Proof. by intros ->. Qed.
Lemma safe_run {A} (m : proc W S A) s (Q : A → S → Prop) a s' o :
  safe m s Q → m s = Ok (a, s', o) → Q a s'.
Proof. apply wp_run. Qed.
Lemma safe_zoom {T A} get put (m : proc W T A) s (Q : A → S → Prop) :
  safe m (get s) (λ a t, Q a (put (λ _, t) s)) → safe (zoom get put m) s Q.
Proof. unfold safe, wp, zoom. destruct (m (get s)) as [[[a t] o']|f]; done. Qed.
Lemma safe_for_each {A} (I : S → Prop) (l : list A) (f : A → proc W S unit) s :
  (∀ x s, x ∈ l → I s → safe (f x) s (λ _, I)) → I s → safe (for_each l f) s (λ _, I).
Proof.
  revert s. induction l as [|x l IH]; intros s Hf Hs; cbn [for_each]; [done|].
  apply safe_bind. eapply safe_mono; [apply Hf; [left|done]|]. intros [] s1 H1.
  apply IH; [|done]. intros y s2 Hy. apply Hf. by right.
Qed.
Lemma safe_of_wpl {A} (m : proc W S A) s o (Q : A → S → Prop) :
  wpl no_failure m s o (λ a s' _, Q a s') → safe m s Q.
Proof. intros H. eapply wp_weaken; [|exact H]. by intros f. Qed.
End SafeRules.

Ltac safe_step :=
  lazymatch goal with
  | |- safe (_ ≫= _) _ _ => apply safe_bind
  | |- safe (mret _) _ _ => apply safe_ret
  | |- safe (reads _) _ _ => apply safe_reads
  | |- safe (modify _) _ _ => apply safe_modify
  | |- safe (emit _) _ _ => apply safe_emit
  | |- safe (fails Fatal) _ _ => apply safe_fatal
  | |- safe (zoom _ _ _) _ _ => apply safe_zoom
  | |- safe (ASSERTX _) _ _ => apply safe_ASSERTX; intros ?
  end; cbv beta iota.
Ltac safe_steps := repeat safe_step.

(** *** Two judgements that compose: what a handler emits, and what it keeps. *)

(** Every call the handler makes satisfies [P]. *)
Definition emits {W S A} (P : W → Prop) (m : proc W S A) : Prop :=
  ∀ s, wp any_failure m s (λ _ _ o, Forall P o).

(** The handler keeps [I] of its state. *)
Definition keeps {W S A} (I : S → Prop) (m : proc W S A) : Prop :=
  ∀ s, I s → wp any_failure m s (λ _ s' _, I s').

Create HintDb handler.

Section Judgements.
Context {W S : Type} (P : W → Prop) (I : S → Prop).

Lemma emits_ret {A} (a : A) : emits P (mret a : proc W S A).
Proof. intros s. apply wp_ret. constructor. Qed.
Lemma emits_reads {A} (f : S → A) : emits P (reads f).
Proof. intros s. constructor. Qed.
Lemma emits_modify (f : S → S) : emits P (modify f).
Proof. intros s. constructor. Qed.
Lemma emits_emit w : P w → emits P (emit (S:=S) w).
Proof. intros H s. by repeat constructor. Qed.
Lemma emits_fails {A} f : emits P (fails f : proc W S A).
Proof. by intros s. Qed.
Lemma emits_lift {A} (m : outcome A) : emits P (lift m : proc W S A).
Proof. intros s. apply wp_lift; [constructor | done]. Qed.
Lemma emits_bind {A B} (m : proc W S A) (k : A → proc W S B) :
  emits P m → (∀ a, emits P (k a)) → emits P (m ≫= k).
Proof.
  intros Hm Hk s. apply wp_bind. eapply wp_mono; [apply Hm|].
  intros a s1 o1 H1. eapply wp_mono; [apply Hk|].
  intros b s2 o2 H2. by apply Forall_app.
Qed.
Lemma emits_when b (m : proc W S unit) : (b = true → emits P m) → emits P (when b m).
Proof. destruct b; intros H; [by apply H | apply emits_ret]. Qed.
Lemma emits_for_each {A} (l : list A) (f : A → proc W S unit) :
  (∀ x, x ∈ l → emits P (f x)) → emits P (for_each l f).
Proof.
  induction l as [|x l IH]; intros H; cbn [for_each]; [apply emits_ret|].
  apply emits_bind; [apply H; left|]. intros _. apply IH. intros y Hy. apply H. by right.
Qed.

Lemma keeps_ret {A} (a : A) : keeps I (mret a : proc W S A).
Proof. by intros s. Qed.
Lemma keeps_reads {A} (f : S → A) : keeps I (reads f : proc W S A).
Proof. by intros s. Qed.
Lemma keeps_emit w : keeps I (emit w : proc W S unit).
Proof. by intros s. Qed.
Lemma keeps_modify (f : S → S) :
  (∀ s, I s → I (f s)) → keeps I (modify f : proc W S unit).
Proof. intros H s Hs. by apply H. Qed.
Lemma keeps_fails {A} f : keeps I (fails f : proc W S A).
Proof. by intros s. Qed.
Lemma keeps_lift {A} (m : outcome A) : keeps I (lift m : proc W S A).
Proof. intros s Hs. by apply wp_lift. Qed.
Lemma keeps_bind {A B} (m : proc W S A) (k : A → proc W S B) :
  keeps I m → (∀ a, keeps I (k a)) → keeps I (m ≫= k).
Proof.
  intros Hm Hk s Hs. apply wp_bind. eapply wp_mono; [by apply Hm|].
  intros a s1 o1 H1. eapply wp_mono; [by apply Hk|]. auto.
Qed.
Lemma keeps_when b (m : proc W S unit) : (b = true → keeps I m) → keeps I (when b m).
Proof. destruct b; intros H; [by apply H | apply keeps_ret]. Qed.
Lemma keeps_for_each {A} (l : list A) (f : A → proc W S unit) :
  (∀ x, x ∈ l → keeps I (f x)) → keeps I (for_each l f).
Proof.
  induction l as [|x l IH]; intros H; cbn [for_each]; [apply keeps_ret|].
  apply keeps_bind; [apply H; left|]. intros _. apply IH. intros y Hy. apply H. by right.
Qed.
End Judgements.

#[export] Hint Resolve emits_ret emits_reads emits_modify emits_emit emits_fails
  emits_lift emits_bind emits_when emits_for_each : handler.
#[export] Hint Resolve keeps_ret keeps_reads keeps_emit keeps_fails keeps_lift
  keeps_bind keeps_when keeps_for_each : handler.

(** Structural steps for the two judgements; what is left are the updates and the calls
    themselves. *)
Ltac keeps_step :=
  lazymatch goal with
  | |- keeps _ (_ ≫= _) => apply keeps_bind; [|intros ?]
  | |- keeps _ (mret _) => apply keeps_ret
  | |- keeps _ (reads _) => apply keeps_reads
  | |- keeps _ (emit _) => apply keeps_emit
  | |- keeps _ (fails _) => apply keeps_fails
  | |- keeps _ (lift _) => apply keeps_lift
  | |- keeps _ (when _ _) => apply keeps_when; intros ?
  | |- keeps _ (for_each _ _) => apply keeps_for_each; intros ? ?
  | |- keeps _ (if ?b then _ else _) => destruct b eqn:?
  | |- keeps _ (match ?x with _ => _ end) => destruct x eqn:?
  end.
Ltac emits_step :=
  lazymatch goal with
  | |- emits _ (_ ≫= _) => apply emits_bind; [|intros ?]
  | |- emits _ (mret _) => apply emits_ret
  | |- emits _ (reads _) => apply emits_reads
  | |- emits _ (modify _) => apply emits_modify
  | |- emits _ (fails _) => apply emits_fails
  | |- emits _ (lift _) => apply emits_lift
  | |- emits _ (when _ _) => apply emits_when; intros ?
  | |- emits _ (for_each _ _) => apply emits_for_each; intros ? ?
  | |- emits _ (if ?b then _ else _) => destruct b eqn:?
  | |- emits _ (match ?x with _ => _ end) => destruct x eqn:?
  end.
