(* ===== verification/Containers.v ===== *)
(** * The standard containers the simulator uses

    - [std::map<uint64_t, X>] is a [gmap Z X]; its ordered operations
      ([begin], [lower_bound], erasing the range below a key) are defined here.
    - [std::multimap<K, X>] is the list of its pairs in iteration order: sorted by
      key, and in insertion order among equal keys (the order C++11 guarantees).
    - the loops [while (it != m.end() && it->first == t)] that move the events of
      one tick out of a multimap are [mm_drain]. *)

From S2P Require Import Prelude.

(** Pairs compared by their key, as the ordered containers compare them. *)
Definition key_le {A} (a b : Z * A) : Prop := a.1 ≤ b.1.

#[export] Instance key_le_dec {A} : RelDecision (@key_le A).
Proof. intros a b. unfold key_le. apply _. Defined.
#[export] Instance key_le_total {A} : Total (@key_le A).
Proof. intros a b. unfold key_le. lia. Qed.
#[export] Instance key_le_trans {A} : Transitive (@key_le A).
Proof. intros a b c. unfold key_le. lia. Qed.

(** ** Ordered maps *)

Module OrdMap.
Section OrdMap.
Context {A : Type}.
Implicit Types (m : gmap Z A).

(** The pair of least key in an unordered list of pairs. *)
Fixpoint least (l : list (Z * A)) : option (Z * A) :=
  match l with
  | [] => None
  | kv :: l' =>
      match least l' with
      | None => Some kv
      | Some kv' => if kv.1 <=? kv'.1 then Some kv else Some kv'
      end
  end.

(** [*m.begin()], [None] when [m.begin() == m.end()]. *)
Definition map_begin m : option (Z * A) := least (map_to_list m).

(** The pairs of key at least [t]: what [m.erase(m.begin(), m.lower_bound(t))] leaves. *)
Definition from_key (t : Z) m : gmap Z A := filter (λ kv, t ≤ kv.1) m.

(** [*m.lower_bound(t)]. *)
Definition lower_bound (t : Z) m : option (Z * A) := map_begin (from_key t m).

(** The pairs in iteration order. *)
Definition in_order m : list (Z * A) := merge_sort key_le (map_to_list m).
End OrdMap.
End OrdMap.

(** ** Multimaps *)

Module MultiMap.
Section MultiMap.
Context {A : Type}.
Implicit Types (m : list (Z * A)).

(** [m.insert(std::pair(k, x))]: after the pairs of key at most [k]. *)
Fixpoint mm_insert (k : Z) (x : A) (m : list (Z * A)) : list (Z * A) :=
  match m with
  | [] => [(k, x)]
  | (k', y) :: m' =>
      if k <? k' then (k, x) :: (k', y) :: m' else (k', y) :: mm_insert k x m'
  end.

(** The values at the front whose key is [t], and the pairs after them. *)
Fixpoint mm_drain (t : Z) (m : list (Z * A)) : list A * list (Z * A) :=
  match m with
  | [] => ([], [])
  | (k, x) :: m' =>
      if k =? t then let '(xs, rest) := mm_drain t m' in (x :: xs, rest) else ([], m)
  end.

(** [m.erase(t)]: every pair of key [t]. *)
Definition mm_erase (t : Z) m : list (Z * A) := filter (λ kv, kv.1 ≠ t) m.

(** The values of key [t], in order. *)
Definition mm_values (t : Z) m : list A := (filter (λ kv, kv.1 = t) m).*2.

Definition mm_sorted m : Prop := StronglySorted key_le m.
End MultiMap.
#[global] Arguments mm_values : simpl never.
#[global] Arguments mm_erase : simpl never.
End MultiMap.

(** ** Facts about ordered maps *)

Section OrdMapFacts.
Context {A : Type}.
Implicit Types (m : gmap Z A) (l : list (Z * A)).
Import OrdMap.

Lemma least_None l : least l = None ↔ l = [].
Proof.
  split; [|by intros ->]. destruct l as [|kv l]; [done|]. cbn.
  destruct (least l); [|done]. by case_match.
Qed.

Lemma least_Some l kv :
  least l = Some kv → kv ∈ l ∧ ∀ kv', kv' ∈ l → kv.1 ≤ kv'.1.
Proof.
  revert kv. induction l as [|x l IH]; intros kv; cbn; [done|].
  destruct (least l) as [y|] eqn:Hl.
  - destruct (IH y eq_refl) as [Hy Hmin]. destruct (Z.leb_spec x.1 y.1) as [Hle|Hlt];
      intros [= <-]; (split; [set_solver|]); intros z [->|Hz]%elem_of_cons; try lia;
      specialize (Hmin _ Hz); lia.
  - apply least_None in Hl as ->. intros [= <-].
    split; [set_solver|]. intros z ->%list_elem_of_singleton. lia.
Qed.

Lemma map_begin_None m : map_begin m = None ↔ m = ∅.
Proof. unfold map_begin. rewrite least_None. apply map_to_list_empty_iff. Qed.

Lemma map_begin_Some m k x :
  map_begin m = Some (k, x) → m !! k = Some x ∧ ∀ k', is_Some (m !! k') → k ≤ k'.
Proof.
  intros [Hin Hmin]%least_Some. split; [by apply elem_of_map_to_list|].
  intros k' [x' Hx']. apply (Hmin (k', x')). by apply elem_of_map_to_list.
Qed.

Lemma map_begin_is_Some m : m ≠ ∅ → is_Some (map_begin m).
Proof. intros Hm. destruct (map_begin m) eqn:E; [by eexists|]. by apply map_begin_None in E. Qed.

Lemma lookup_from_key t m k :
  from_key t m !! k = if decide (t ≤ k) then m !! k else None.
Proof.
  unfold from_key. rewrite map_lookup_filter. cbn.
  destruct (m !! k) as [x|]; cbn; repeat case_decide; cbn; repeat case_guard; done.
Qed.

Lemma lower_bound_None t m : lower_bound t m = None ↔ ∀ k, t ≤ k → m !! k = None.
Proof.
  unfold lower_bound. rewrite map_begin_None, map_empty. setoid_rewrite lookup_from_key.
  split; intros H k; specialize (H k); case_decide; tauto.
Qed.

Lemma lower_bound_Some t m k x :
  lower_bound t m = Some (k, x) →
  t ≤ k ∧ m !! k = Some x ∧ ∀ k', t ≤ k' → is_Some (m !! k') → k ≤ k'.
Proof.
  intros [Hk Hmin]%map_begin_Some. rewrite lookup_from_key in Hk.
  case_decide as Htk; [|done]. split_and!; [done..|].
  intros k' Htk' Hk'. apply Hmin. rewrite lookup_from_key. by rewrite decide_True.
Qed.

(** [m] holds exactly the pairs of [l]. *)
Definition holds m l : Prop := ∀ k x, m !! k = Some x ↔ (k, x) ∈ l.

Lemma holds_size m l : holds m l → NoDup l.*1 → size m = length l.
Proof.
  intros Hm Hl. assert (m = list_to_map l) as ->.
  { apply map_eq. intros k. apply option_eq. intros x. rewrite (Hm k x). by apply elem_of_list_to_map. }
  rewrite <- length_map_to_list. by rewrite map_to_list_to_map.
Qed.

Lemma holds_begin m l k x :
  holds m l → (k, x) ∈ l → (∀ kv, kv ∈ l → k ≤ kv.1) → NoDup l.*1 → map_begin m = Some (k, x).
Proof.
  intros Hm Hin Hmin Hnd. destruct (map_begin m) as [[k' x']|] eqn:E; cycle 1.
  { apply map_begin_None in E as ->. apply Hm in Hin. by rewrite lookup_empty in Hin. }
  apply map_begin_Some in E as [Hk' Hmin']. apply Hm in Hin as Hk.
  assert (k' = k) as ->.
  { apply Hm in Hk' as Hin'. specialize (Hmin _ Hin'). cbn in Hmin.
    specialize (Hmin' k ltac:(eauto)). lia. }
  congruence.
Qed.
End OrdMapFacts.

(** ** Facts about multimaps *)

Section MultiMapFacts.
Context {A : Type}.
Implicit Types (m : list (Z * A)).
Import MultiMap.

Lemma mm_insert_perm k x m : mm_insert k x m ≡ₚ (k, x) :: m.
Proof.
  induction m as [|[k' y] m IH]; cbn; [done|].
  case_match; [done|]. rewrite IH. by constructor.
Qed.

Lemma elem_of_mm_insert k x m p : p ∈ mm_insert k x m ↔ p = (k, x) ∨ p ∈ m.
Proof. rewrite (mm_insert_perm k x m). set_solver. Qed.

Lemma mm_insert_sorted k x m : mm_sorted m → mm_sorted (mm_insert k x m).
Proof.
  induction 1 as [|[k' y] m Hm IH Hall]; cbn; [repeat constructor|].
  destruct (Z.ltb_spec k k') as [Hlt|Hge].
  - constructor; [by constructor|]. constructor; [unfold key_le; cbn; lia|].
    eapply Forall_weaken; [exact Hall|]. unfold key_le. cbn. lia.
  - constructor; [done|]. apply Forall_forall. intros p [->|Hp]%elem_of_mm_insert;
      [unfold key_le; cbn; lia|]. by eapply Forall_forall in Hall.
Qed.

(** Events of one tick leave in the order they came: [insert] is FIFO per key. *)
Lemma mm_values_insert k x m :
  mm_sorted m → mm_values k (mm_insert k x m) = mm_values k m ++ [x].
Proof.
  unfold mm_values. induction 1 as [|[k' y] m Hm IH Hall]; cbn [mm_insert].
  - by rewrite filter_cons_True.
  - destruct (Z.ltb_spec k k') as [Hlt|Hge].
    + rewrite (filter_cons_True _ (k, x)) by done.
      assert (filter (λ kv : Z * A, kv.1 = k) ((k', y) :: m) = []) as Hnil; [|by rewrite Hnil].
      apply filter_none. constructor; [cbn; lia|].
      eapply Forall_weaken; [exact Hall|]. unfold key_le. cbn. lia.
    + rewrite !filter_cons. case_decide; rewrite ?fmap_cons, IH; done.
Qed.

Lemma mm_values_insert_ne k k' x m :
  k ≠ k' → mm_values k (mm_insert k' x m) = mm_values k m.
Proof.
  intros Hne. unfold mm_values. induction m as [|[j y] m IH]; cbn [mm_insert].
  - by rewrite filter_cons_False by (cbn; congruence).
  - case_match; rewrite !filter_cons.
    + by rewrite (decide_False (P := (k', x).1 = k)) by (cbn; congruence).
    + case_decide; rewrite ?fmap_cons, IH; done.
Qed.

Lemma mm_drain_app t m xs rest :
  mm_drain t m = (xs, rest) → m = map (pair t) xs ++ rest.
Proof.
  revert xs rest. induction m as [|[k x] m IH]; cbn; intros xs rest; [by intros [= <- <-]|].
  destruct (Z.eqb_spec k t) as [->|Hne].
  - destruct (mm_drain t m) as [ys r]. intros [= <- <-]. cbn. f_equal. by apply IH.
  - by intros [= <- <-].
Qed.

(** Draining a sorted multimap whose keys are all at least [t] leaves no event of [t]. *)
Lemma mm_drain_later t m xs rest :
  mm_sorted m → Forall (λ kv, t ≤ kv.1) m → mm_drain t m = (xs, rest) →
  mm_sorted rest ∧ Forall (λ kv, t < kv.1) rest.
Proof.
  intros Hs. revert xs rest. induction Hs as [|[k x] m Hm IH Hall]; cbn; intros xs rest Hge.
  - intros [= <- <-]. repeat constructor.
  - destruct (Z.eqb_spec k t) as [->|Hne].
    + destruct (mm_drain t m) as [ys r]. intros [= <- <-].
      apply (IH ys r); [|done]. by inv Hge.
    + intros [= <- <-]. split; [by constructor|]. inv Hge. cbn in *. constructor; [cbn; lia|].
      eapply Forall_weaken; [exact Hall|]. unfold key_le. cbn. lia.
Qed.

Lemma mm_drain_values t m :
  mm_sorted m → Forall (λ kv, t ≤ kv.1) m → (mm_drain t m).1 = mm_values t m.
Proof.
  unfold mm_values. induction 1 as [|[k x] m Hm IH Hall]; intros Hge; cbn [mm_drain]; [done|].
  inv Hge. destruct (Z.eqb_spec k t) as [->|Hne].
  - rewrite (filter_cons_True _ (t, x)) by done.
    destruct (mm_drain t m) as [ys r]. cbn in *. f_equal. by apply IH.
  - rewrite filter_cons_False by (cbn in *; lia). cbn in *. symmetry.
    rewrite filter_none; [done|].
    eapply Forall_weaken; [exact Hall|]. unfold key_le. cbn. lia.
Qed.

(** [erase(t)] after the draining loop removes exactly what the loop visited. *)
Lemma mm_drain_erase t m :
  mm_sorted m → Forall (λ kv, t ≤ kv.1) m → (mm_drain t m).2 = mm_erase t m.
Proof.
  intros Hs Hge. destruct (mm_drain t m) as [xs rest] eqn:E. cbn.
  pose proof (mm_drain_later _ _ _ _ Hs Hge E) as [_ Hlt].
  apply mm_drain_app in E as ->. unfold mm_erase. rewrite filter_app.
  rewrite (filter_all _ rest) by (eapply Forall_weaken; [exact Hlt|]; cbn; lia).
  assert (filter (λ kv : Z * A, kv.1 ≠ t) (map (pair t) xs) = []) as ->; [|done].
  apply filter_none. apply Forall_forall. intros p Hp.
  apply list_elem_of_fmap in Hp as (x & -> & _). cbn. tauto.
Qed.
End MultiMapFacts.
