(* ===== verification/Ring.v ===== *)
(** * Circular buffers

    An array indexed modulo its length from a head, as the instruction queue and the
    reorder buffer of a core are: the slot of an offset, the list of live elements a
    buffer stands for, and what the updates of the code do to that list. *)

From S2P Require Export Prelude.

Module Ring.

(** [(head + i) % n] on [uint32_t]. *)
Definition slot (n head i : Z) : Z := (head ⊕₃₂ i) mod n.

(** [(head + size - 1 - j) % n]: the [j]-th element from the tail. *)
Definition newest (n head size j : Z) : Z := (head ⊕₃₂ size ⊖₃₂ 1 ⊖₃₂ j) mod n.

(** The buffer [l] of capacity [n] holds the elements [V], oldest first, from slot [h]. *)
Record ring {A} (n h : Z) (l : list A) (V : list A) : Prop := {
  ring_length : Z.of_nat (length l) = n;
  ring_capacity : 0 < n < 2 ^ 31;
  ring_head : 0 ≤ h < n;
  ring_size : Z.of_nat (length V) ≤ n;
  ring_view i x : V !! i = Some x → l !! Z.to_nat (slot n h (Z.of_nat i)) = Some x }.

Lemma slot_value n h i :
  0 < n < 2 ^ 31 → 0 ≤ h < n → 0 ≤ i ≤ n → slot n h i = if h + i <? n then h + i else h + i - n.
Proof.
  intros Hn Hh Hi. unfold slot, u32. rewrite (Z.mod_small (h + i) (2 ^ 32)) by lia.
  destruct (Z.ltb_spec (h + i) n); [by apply Z.mod_small; lia|].
  symmetry. apply (Z.mod_unique _ _ 1); lia.
Qed.

Lemma slot_range n h i : 0 < n → 0 ≤ slot n h i < n.
Proof. intros Hn. by apply Z.mod_pos_bound. Qed.

Lemma slot_0 n h : 0 < n < 2 ^ 31 → 0 ≤ h < n → slot n h 0 = h.
Proof. intros Hn Hh. rewrite slot_value by lia. destruct (Z.ltb_spec (h + 0) n); lia. Qed.

Lemma slot_inj n h i j :
  0 < n < 2 ^ 31 → 0 ≤ h < n → 0 ≤ i < n → 0 ≤ j < n → slot n h i = slot n h j → i = j.
Proof.
  intros Hn Hh Hi Hj. rewrite !slot_value by lia.
  destruct (Z.ltb_spec (h + i) n), (Z.ltb_spec (h + j) n); lia.
Qed.

(** The slot after the slot of an offset. *)
Lemma slot_succ n h i :
  0 < n < 2 ^ 31 → 0 ≤ h < n → 0 ≤ i < n → slot n (slot n h i) 1 = slot n h (i + 1).
Proof.
  intros Hn Hh Hi. pose proof (slot_range n h i ltac:(lia)).
  rewrite (slot_value n (slot n h i)), !slot_value by lia.
  destruct (Z.ltb_spec (h + i) n), (Z.ltb_spec (h + (i + 1)) n);
    match goal with |- context [?a <? ?b] => destruct (Z.ltb_spec a b) end; lia.
Qed.

(** Moving the head by one shifts the offsets. *)
Lemma slot_shift n h i :
  0 < n < 2 ^ 31 → 0 ≤ h < n → 0 ≤ i < n → slot n (slot n h 1) i = slot n h (i + 1).
Proof.
  intros Hn Hh Hi. pose proof (slot_range n h 1 ltac:(lia)).
  rewrite (slot_value n (slot n h 1)), !slot_value by lia.
  destruct (Z.ltb_spec (h + 1) n), (Z.ltb_spec (h + (i + 1)) n);
    match goal with |- context [?a <? ?b] => destruct (Z.ltb_spec a b) end; lia.
Qed.

Lemma newest_slot n h size j :
  0 < n < 2 ^ 31 → 0 ≤ h < n → 0 ≤ j < size → size ≤ n →
  newest n h size j = slot n h (size - 1 - j).
Proof.
  intros Hn Hh Hj Hs. unfold newest, slot, u32.
  rewrite (Z.mod_small (h + size)), (Z.mod_small (h + size - 1)),
    (Z.mod_small (h + size - 1 - j)), (Z.mod_small (h + (size - 1 - j))) by lia.
  f_equal. lia.
Qed.

Section Ring.
Context {A : Type}.
Implicit Types (n h : Z) (l V : list A) (x : A).

Lemma ring_get n h l V i x :
  ring n h l V → V !! i = Some x → vec_get l (slot n h (Z.of_nat i)) = Ok x.
Proof.
  intros R Hi. apply vec_get_Some. split; [apply slot_range; destruct R; lia|].
  by eapply ring_view.
Qed.

Lemma ring_get_head n h l V x : ring n h l (x :: V) → vec_get l h = Ok x.
Proof.
  intros R. rewrite <- (slot_0 n h) by (destruct R; lia). by apply (ring_get _ _ _ _ 0 _ R).
Qed.

Lemma ring_index n h l V i x : ring n h l V → V !! i = Some x → 0 ≤ Z.of_nat i < n.
Proof. intros [] Hi%lookup_lt_Some. lia. Qed.

(** The slots of two live elements differ. *)
Lemma ring_slot_inj n h l V i j x y :
  ring n h l V → V !! i = Some x → V !! j = Some y →
  slot n h (Z.of_nat i) = slot n h (Z.of_nat j) → i = j.
Proof.
  intros R Hi Hj E. pose proof (ring_index _ _ _ _ _ _ R Hi). pose proof (ring_index _ _ _ _ _ _ R Hj).
  destruct R. apply slot_inj in E; lia.
Qed.

Lemma vec_lookup_alter_ne (f : A → A) i j l :
  0 ≤ i → 0 ≤ j → i ≠ j → vec_alter f i l !! Z.to_nat j = l !! Z.to_nat j.
Proof.
  intros Hi Hj Hne. unfold vec_alter. destruct (Z.ltb_spec i 0); [lia|].
  apply list_lookup_alter_ne. lia.
Qed.

Lemma vec_lookup_alter (f : A → A) i l :
  0 ≤ i → vec_alter f i l !! Z.to_nat i = f <$> l !! Z.to_nat i.
Proof.
  intros Hi. unfold vec_alter. destruct (Z.ltb_spec i 0); [lia|]. apply list_lookup_alter_eq.
Qed.

(** An update of a live slot. *)
Lemma ring_alter (f : A → A) n h l V i x :
  ring n h l V → V !! i = Some x →
  ring n h (vec_alter f (slot n h (Z.of_nat i)) l) (<[i := f x]> V).
Proof.
  intros R Hi. pose proof (ring_index _ _ _ _ _ _ R Hi) as Hr.
  pose proof (slot_range n h (Z.of_nat i) ltac:(destruct R; lia)).
  constructor; rewrite ?length_vec_alter, ?length_insert; try apply R.
  intros j y Hj. apply list_lookup_insert_Some in Hj as [(<- & <- & _)|[Hne Hj]].
  - rewrite vec_lookup_alter by lia. by rewrite (ring_view _ _ _ _ R _ _ Hi).
  - rewrite vec_lookup_alter_ne.
    + by eapply ring_view.
    + lia.
    + apply slot_range. destruct R; lia.
    + intros E. apply Hne. by eapply ring_slot_inj.
Qed.

(** An update of a slot that is not live. *)
Lemma ring_alter_dead (f : A → A) n h l V j :
  ring n h l V → Z.of_nat (length V) ≤ j < n → ring n h (vec_alter f (slot n h j) l) V.
Proof.
  intros R Hj. constructor; rewrite ?length_vec_alter; try apply R.
  intros i x Hi. pose proof (lookup_lt_Some _ _ _ Hi). destruct R.
  rewrite vec_lookup_alter_ne; [by eauto|apply slot_range; lia..|].
  intros E%slot_inj; lia.
Qed.

(** The slot behind the tail becomes live. *)
Lemma ring_push n h l V x :
  ring n h l V → Z.of_nat (length V) < n →
  vec_get l (slot n h (Z.of_nat (length V))) = Ok x → ring n h l (V ++ [x]).
Proof.
  intros R Hlt [_ Hx]%vec_get_Some. constructor; try apply R.
  { rewrite length_app. cbn. lia. }
  intros i y Hi. apply lookup_app_Some in Hi as [Hi|[Hlen Hi]]; [by eapply ring_view|].
  apply list_lookup_singleton_Some in Hi as [Hi <-].
  by replace i with (length V) by lia.
Qed.

(** The head moves on. *)
Lemma ring_pop n h l V x : ring n h l (x :: V) → ring n (slot n h 1) l V.
Proof.
  intros R. pose proof (ring_size _ _ _ _ R) as Hs. cbn in Hs. constructor; try apply R.
  - apply slot_range. destruct R; lia.
  - lia.
  - intros i y Hi. pose proof (lookup_lt_Some _ _ _ Hi). rewrite slot_shift by (destruct R; lia).
    replace (Z.of_nat i + 1) with (Z.of_nat (S i)) by lia. by apply (ring_view _ _ _ _ R).
Qed.

(** An empty buffer. *)
Lemma ring_nil n h l : Z.of_nat (length l) = n → 0 < n < 2 ^ 31 → 0 ≤ h < n → ring n h l [].
Proof. intros Hl Hn Hh. constructor; [done..|cbn; lia|by intros i x]. Qed.

(** Dropping the elements of a buffer without moving its head. *)
Lemma ring_clear n h l V : ring n h l V → ring n h l [].
Proof. intros []. by apply ring_nil. Qed.
End Ring.
End Ring.
