(* ===== verification/Params.v ===== *)
(** * Machine-description parameters (PTS.cc, and the accessors of PTSComponent.cc)

    [PthreadTimingSimulator] reads a TOML file into three maps whose keys are the
    dotted paths of the entries; a component reads its own parameters under the
    prefix of its type.  The TOML parser is a library: a parsed table is a value of
    [toml], and the order in which a table lists its entries is the order of the list. *)

From S2P Require Import Prelude.
From stdpp Require Export strings.

#[local] Open Scope string_scope.
#[global] Open Scope Z_scope.

Module Params.

(** [enum component_type] (PTSComponent.h). *)
Inductive component_type : Set :=
| ct_core | ct_o3core | ct_cachel1d | ct_cachel1i | ct_cachel2 | ct_directory
| ct_crossbar | ct_memory_controller | ct_tlbl1d | ct_tlbl1i | ct_tlbl2.

#[export] Instance component_type_eq_dec : EqDecision component_type.
Proof. solve_decision. Defined.

(** A parsed TOML value; [TOther] stands for the kinds the decoder refuses
    (floats, arrays, dates). *)
Inductive toml : Type :=
| TBool (b : bool)
| TInt (i : Z)
| TString (s : string)
| TTable (entries : list (string * toml))
| TOther.

Record params := {
  params_bool : gmap string bool;
  params_uint64_t : gmap string Z;
  params_string : gmap string string }.

Definition no_params : params := Build_params ∅ ∅ ∅.

(** [PthreadTimingSimulator::md_table_decoding]: [as_integer()] is an [int64_t]
    stored in a [UINT64]. *)
Fixpoint md_value_decoding (v : toml) (key : string) (p : params) : outcome params :=
  match v with
  | TTable entries =>
      (fix md_table_decoding (l : list (string * toml)) (p : params) : outcome params :=
         match l with
         | [] => mret p
         | (k, v) :: l' =>
             p' ← md_value_decoding v (key +:+ k +:+ match v with TTable _ => "." | _ => "" end) p;
             md_table_decoding l' p'
         end) entries p
  | TBool b => mret (p <| params_bool ::= <[key := b]> |>)
  | TInt i => mret (p <| params_uint64_t ::= <[key := u64 i]> |>)
  | TString s => mret (p <| params_string ::= <[key := s]> |>)
  | TOther => Err Fatal
  end.

Definition md_table_decoding (entries : list (string * toml)) (prefix : string) (p : params)
    : outcome params :=
  md_value_decoding (TTable entries) prefix p.

(** [PthreadTimingSimulator::get_param_uint64], [get_param_str], [get_param_bool]. *)
Definition pts_get_param_uint64 (p : params) (str : string) (def : Z) : Z :=
  default def (params_uint64_t p !! str).
Definition pts_get_param_str (p : params) (str : string) : string :=
  default "" (params_string p !! str).
Definition pts_get_param_bool (p : params) (str : string) (def_value : bool) : bool :=
  default def_value (params_bool p !! str).

(** [Component::prefix_str]. *)
Definition prefix_str (t : component_type) : string :=
  match t with
  | ct_core => "pts.core."
  | ct_o3core => "pts.o3core."
  | ct_cachel1d => "pts.l1d$."
  | ct_cachel1i => "pts.l1i$."
  | ct_cachel2 => "pts.l2$."
  | ct_directory => "pts.dir."
  | ct_crossbar => "pts.xbar."
  | ct_memory_controller => "pts.mc."
  | ct_tlbl1d => "pts.l1dtlb."
  | ct_tlbl1i => "pts.l1itlb."
  | ct_tlbl2 => "pts.l2tlb."
  end.

(** [Component::get_param_uint64] returns a [uint32_t], whatever its name says: the
    default and the result are both truncated. *)
Definition get_param_uint64 (p : params) (t : component_type) (param : string) (def : Z) : Z :=
  u32 (pts_get_param_uint64 p (prefix_str t +:+ param) (u32 def)).
Definition get_param_str (p : params) (t : component_type) (param : string) : string :=
  pts_get_param_str p (prefix_str t +:+ param).
Definition get_param_bool (p : params) (t : component_type) (param : string) (def_value : bool)
    : bool :=
  pts_get_param_bool p (prefix_str t +:+ param) def_value.
End Params.
Export Params.

(** A parameter a component reads always fits the 32 bits it is stored in. *)
Lemma get_param_u32 p t param def : in_u32 (get_param_uint64 p t param def).
Proof. apply Z.mod_pos_bound. lia. Qed.

#[export] Hint Resolve get_param_u32 : core.
