(* ===== verification/Component.v ===== *)
(** * What all components share (PTSComponent.h, PTSComponent.cc)

    The identity of a component, the local queue elements (requests and replies)
    that components pass to one another, the calls a component makes on the others,
    the four queues of the base class and its arithmetic helpers. *)

From S2P Require Export Prelude Containers Params.

(** ** Component identities *)

(** A [Component *] is determined by the component's type and number. *)
Record Comp := { c_type : component_type; c_num : Z }.

#[export] Instance Comp_eq_dec : EqDecision Comp.
Proof. solve_decision. Defined.

Definition component_type_code (t : component_type) : Z :=
  match t with
  | ct_core => 0 | ct_o3core => 1 | ct_cachel1d => 2 | ct_cachel1i => 3 | ct_cachel2 => 4
  | ct_directory => 5 | ct_crossbar => 6 | ct_memory_controller => 7
  | ct_tlbl1d => 8 | ct_tlbl1i => 9 | ct_tlbl2 => 10
  end.

#[export] Instance Comp_countable : Countable Comp.
Proof.
  apply (inj_countable' (λ c, (component_type_code (c_type c), c_num c))
    (λ p, Build_Comp
       match p.1 with
       | 0 => ct_core | 1 => ct_o3core | 2 => ct_cachel1d | 3 => ct_cachel1i
       | 4 => ct_cachel2 | 5 => ct_directory | 6 => ct_crossbar
       | 7 => ct_memory_controller | 8 => ct_tlbl1d | 9 => ct_tlbl1i | _ => ct_tlbl2
       end p.2)).
  by intros [[] n].
Defined.

(** A [std::set<Component *>] is iterated in the order of the addresses the allocator
    returned: distinct objects have distinct addresses, and nothing else is known. *)
Class Addresses := {
  ptr_addr : Comp → Z;
  ptr_addr_inj : Inj (=) (=) ptr_addr }.
#[export] Existing Instance ptr_addr_inj.

Module PtrSet.
Section PtrSet.
Context {AD : Addresses}.

Definition ptr_le (a b : Comp) : Prop := ptr_addr a ≤ ptr_addr b.

#[export] Instance ptr_le_dec : RelDecision ptr_le.
Proof. intros a b. unfold ptr_le. apply _. Defined.

(** The elements in iteration order, and [*s.begin()]. *)
Definition set_iter (s : gset Comp) : list Comp := merge_sort ptr_le (elements s).
Definition set_begin (s : gset Comp) : option Comp := head (set_iter s).
End PtrSet.
End PtrSet.

(** ** Requests and replies *)

(** [enum event_type] (PTSComponent.h). *)
Inductive event_type : Set :=
| et_read | et_write | et_write_nd | et_evict | et_evict_nd | et_dir_evict
| et_e_to_m | et_e_to_i | et_e_to_s | et_e_to_s_nd
| et_m_to_s | et_m_to_m | et_m_to_i | et_s_to_s | et_s_to_s_nd | et_m_to_e
| et_dir_rd | et_dir_rd_nd | et_e_rd | et_s_rd | et_nack
| et_invalidate | et_invalidate_nd | et_s_rd_wr | et_rd_bypass
| et_tlb_rd | et_i_to_e | et_rd_dir_info_req | et_rd_dir_info_rep | et_nop.

#[export] Instance event_type_eq_dec : EqDecision event_type.
Proof. solve_decision. Defined.

(** [enum coherence_state_type] (McSim.h). *)
Inductive coherence_state_type : Set :=
| cs_invalid | cs_shared | cs_exclusive | cs_modified | cs_tr_to_i | cs_tr_to_s
| cs_tr_to_m | cs_tr_to_e | cs_m_to_s.

#[export] Instance coherence_state_eq_dec : EqDecision coherence_state_type.
Proof. solve_decision. Defined.

(** [struct LocalQueueElement]; the head of [from] is the top of the stack. *)
Record LQE := {
  from : list Comp;
  type : event_type;
  address : Z;
  th_id : Z;
  dummy : bool;
  rob_entry : Z }.

#[export] Instance LQE_eq_dec : EqDecision LQE.
Proof. solve_decision. Defined.

(** [LocalQueueElement(comp, type_, address_, th_id_)]. *)
Definition new_lqe (comp : Comp) (t : event_type) (addr th : Z) : LQE :=
  {| from := [comp]; type := t; address := addr; th_id := th; dummy := false; rob_entry := -1 |}.

(** [from.top()], [from.pop()] and [from.push(c)]; the first two are undefined on an
    empty stack. *)
Definition from_top (l : LQE) : outcome Comp := some_or_undef (head (from l)).
Definition from_pop (l : LQE) : outcome LQE :=
  match from l with
  | [] => Err Undef
  | _ :: r => Ok (l <| from := r |>)
  end.
Definition from_push (c : Comp) (l : LQE) : LQE := l <| from := c :: from l |>.

(** ** The calls a component makes on the others

    The receiver of a call reads its arguments only; so a handler's calls are
    collected in the order it makes them, and the machine (Machine.v) delivers
    them in that order. *)
Inductive call : Type :=
| geq_add_event (t : Z) (c : Comp)
    (** [geq->add_event(t, c)] *)
| add_req_event (dst : Comp) (t : Z) (l : LQE) (src : option Comp)
    (** [dst->add_req_event(t, l, src)] *)
| add_rep_event (dst : Comp) (t : Z) (l : LQE) (src : option Comp)
| add_crq_event (dst : Comp) (t : Z) (l : LQE) (src : option Comp)
| add_rep_flits (dst : Comp) (t : Z) (l : LQE) (num_flits : Z) (src : option Comp)
    (** [dst->add_rep_event(t, l, num_flits, src)] *)
| add_crq_flits (dst : Comp) (t : Z) (l : LQE) (num_flits : Z) (src : option Comp)
| free_lqe (l : LQE)
    (** [delete l] *)
| update_os_page_req_dist (addr : Z).
    (** [mcsim->update_os_page_req_dist(addr)] *)

(** The tick at which a call wakes its receiver, if it does. *)
Definition call_time (w : call) : option Z :=
  match w with
  | geq_add_event t _ | add_req_event _ t _ _ | add_rep_event _ t _ _
  | add_crq_event _ t _ _ | add_rep_flits _ t _ _ _ | add_crq_flits _ t _ _ _ => Some t
  | free_lqe _ | update_os_page_req_dist _ => None
  end.

(** No event is scheduled in the past of [now]: what the event queue needs of
    every component. *)
Definition not_before (now : Z) (w : call) : Prop :=
  match call_time w with Some t => now ≤ t | None => True end.

(** The local queue elements a call passes on. *)
Definition call_lqe (w : call) : option LQE :=
  match w with
  | add_req_event _ _ l _ | add_rep_event _ _ l _ | add_crq_event _ _ l _
  | add_rep_flits _ _ l _ _ | add_crq_flits _ _ l _ _ => Some l
  | geq_add_event _ _ | free_lqe _ | update_os_page_req_dist _ => None
  end.

(** ** The queues of the base class *)

Record Queues := {
  req_event : list (Z * LQE);
  rep_event : list (Z * LQE);
  req_q : list LQE;
  rep_q : list LQE }.

Definition empty_queues : Queues := Build_Queues [] [] [] [].

Module Queueing.
Import MultiMap.

(** The loops that open each [process_event] and move the events of [curr_time]
    to the queues:
    [while (it != req_event.end() && it->first == curr_time) { req_q.push(it->second); ++it; }]
    [req_event.erase(curr_time);] *)
Definition drain_req (curr_time : Z) (q : Queues) : Queues :=
  q <| req_q := req_q q ++ (mm_drain curr_time (req_event q)).1 |>
    <| req_event := mm_erase curr_time (req_event q) |>.
Definition drain_rep (curr_time : Z) (q : Queues) : Queues :=
  q <| rep_q := rep_q q ++ (mm_drain curr_time (rep_event q)).1 |>
    <| rep_event := mm_erase curr_time (rep_event q) |>.

(** The reply to process: the oldest queued one, or else the first of the tick; the other
    replies of the tick are queued.
    [if (!rep_q.empty()) { rep_lqe = rep_q.front(); rep_q.pop(); } else if (...) ...] *)
Definition take_rep (curr_time : Z) (q : Queues) : option LQE * Queues :=
  let '(due, later) := mm_drain curr_time (rep_event q) in
  match rep_q q ++ due with
  | [] => (None, q)
  | l :: rest => (Some l, q <| rep_q := rest |> <| rep_event := later |>)
  end.

(** [req_event.insert(pair(t, l))], and the same for replies. *)
Definition insert_req (t : Z) (l : LQE) (q : Queues) : Queues :=
  q <| req_event ::= mm_insert t l |>.
Definition insert_rep (t : Z) (l : LQE) (q : Queues) : Queues :=
  q <| rep_event ::= mm_insert t l |>.
End Queueing.
Export Queueing.

(** ** Arithmetic helpers of the base class *)

(** [Component::log2]: the number of times [num] can be halved before it is at most 1. *)
Fixpoint log2_loop (fuel : nat) (num log2 : Z) : Z :=
  match fuel with
  | O => log2
  | S fuel' => if 1 <? num then log2_loop fuel' (shr num 1) (log2 ⊕₃₂ 1) else log2
  end.
Definition log2 (num : Z) : outcome Z :=
  if num =? 0 then Err Fatal else Ok (log2_loop 64 num 0).

(** [x >> n] for a 64-bit [x] and a shift amount the configuration chooses: undefined
    from 64 on. *)
Definition c_shr (x n : Z) : outcome Z := if n <? 64 then Ok (shr x n) else Err Undef.

(** [ceil_by_y]: [((x + y - 1) / y) * y] on [UINT64]. *)
Definition ceil_by_y (x y : Z) : outcome Z :=
  if y =? 0 then Err Undef else Ok (((x ⊕ y ⊖ 1) / y) ⊗ y).

(** [event_time + process_interval - event_time % process_interval] unless aligned, as
    the [add_*_event] of the crossbar, the directory and the caches round up. *)
Definition align_up (event_time process_interval : Z) : outcome Z :=
  if process_interval =? 0 then Err Undef
  else if event_time mod process_interval =? 0 then Ok event_time
  else Ok (event_time ⊕ process_interval ⊖ event_time mod process_interval).

(** ** Facts *)

Lemma shr_1 x : shr x 1 = x / 2.
Proof. unfold shr. by rewrite Z.shiftr_div_pow2. Qed.

Lemma log2_loop_spec fuel num acc :
  1 ≤ num < 2 ^ Z.of_nat fuel → 0 ≤ acc → acc + Z.of_nat fuel < 2 ^ 32 →
  log2_loop fuel num acc = acc + Z.log2 num.
Proof.
  revert num acc. induction fuel as [|fuel IH]; intros num acc Hn Ha Hf; cbn [log2_loop].
  { cbn in Hn. lia. }
  rewrite Nat2Z.inj_succ in *. rewrite Z.pow_succ_r in Hn by lia.
  destruct (Z.ltb_spec 1 num) as [Hlt|Hge].
  - rewrite (u32_id (acc + 1)) by (unfold in_u32; lia).
    assert (1 ≤ Z.log2 num) by (apply Z.log2_le_pow2; lia).
    rewrite IH; unfold shr.
    + rewrite Z.log2_shiftr by lia. lia.
    + rewrite Z.shiftr_div_pow2 by lia. change (2 ^ 1) with 2.
      split; [apply Z.div_le_lower_bound | apply Z.div_lt_upper_bound]; lia.
    + lia.
    + lia.
  - assert (num = 1) as -> by lia. cbn. lia.
Qed.

(** [log2] computes the integer logarithm of every non-zero 64-bit number; the fuel of
    the loop is the width of the word. *)
Lemma log2_spec num : 1 ≤ num < 2 ^ 64 → log2 num = Ok (Z.log2 num).
Proof.
  intros Hn. unfold log2. destruct (Z.eqb_spec num 0) as [->|_]; [lia|].
  rewrite (log2_loop_spec 64) by (cbn; lia). done.
Qed.

(** [ceil_by_y] is the least multiple of [y] that is at least [x]. *)
Lemma ceil_by_y_spec x y :
  0 ≤ x → 0 < y → x + y ≤ 2 ^ 64 →
  ∃ r, ceil_by_y x y = Ok r ∧ x ≤ r < x + y ∧ r mod y = 0.
Proof.
  intros Hx Hy Hxy. unfold ceil_by_y. destruct (Z.eqb_spec y 0) as [->|_]; [lia|].
  assert (x ⊕ y ⊖ 1 = x + y - 1) as ->.
  { destruct (decide (x + y = 2 ^ 64)) as [E|Hne].
    - rewrite E. unfold u64 at 2. rewrite Z.mod_same by lia. reflexivity.
    - rewrite !u64_id by (unfold in_u64; rewrite ?u64_id; unfold in_u64; lia). done. }
  pose proof (Z.div_mod (x + y - 1) y ltac:(lia)).
  pose proof (Z.mod_pos_bound (x + y - 1) y ltac:(lia)).
  exists ((x + y - 1) / y * y). rewrite u64_id by (unfold in_u64; nia).
  split_and!; [done|nia|nia|]. apply Z.mod_mul. lia.
Qed.

Lemma align_up_spec t p :
  0 ≤ t → 0 < p → t + p < 2 ^ 64 →
  ∃ r, align_up t p = Ok r ∧ t ≤ r < t + p ∧ r mod p = 0.
Proof.
  intros Ht Hp Htp. unfold align_up. destruct (Z.eqb_spec p 0) as [->|_]; [lia|].
  pose proof (Z.mod_pos_bound t p ltac:(lia)). pose proof (Z.div_mod t p ltac:(lia)).
  destruct (Z.eqb_spec (t mod p) 0) as [E|Hne]; [exists t; split_and!; lia || done|].
  exists (t + p - t mod p).
  rewrite (u64_id (t + p)), u64_id by (unfold in_u64; lia).
  split_and!; [done|lia|lia|].
  replace (t + p - t mod p) with ((t / p + 1) * p) by lia. apply Z.mod_mul. lia.
Qed.

(** *** Sets of pointers *)

Section PtrSetFacts.
Context {AD : Addresses}.
Import PtrSet.

#[export] Instance ptr_le_total : Total ptr_le.
Proof. intros a b. unfold ptr_le. lia. Qed.
#[export] Instance ptr_le_trans : Transitive ptr_le.
Proof. intros a b c. unfold ptr_le. lia. Qed.

Lemma set_iter_perm s : set_iter s ≡ₚ elements s.
Proof. apply merge_sort_Permutation. Qed.

Lemma elem_of_set_iter c s : c ∈ set_iter s ↔ c ∈ s.
Proof. rewrite set_iter_perm. apply elem_of_elements. Qed.

Lemma set_iter_NoDup s : NoDup (set_iter s).
Proof. rewrite set_iter_perm. apply NoDup_elements. Qed.

Lemma set_iter_size s : Z.of_nat (length (set_iter s)) = Z.of_nat (size s).
Proof. by rewrite set_iter_perm. Qed.

Lemma set_begin_None s : set_begin s = None ↔ s = ∅.
Proof.
  unfold set_begin. rewrite head_None. split.
  - intros H. apply set_eq. intros c. rewrite <- elem_of_set_iter, H. set_solver.
  - intros ->. unfold set_iter. by rewrite elements_empty.
Qed.

Lemma set_begin_elem c s : set_begin s = Some c → c ∈ s.
Proof.
  unfold set_begin. intros Hc%head_Some_elem_of. by apply elem_of_set_iter.
Qed.

Lemma set_begin_is_Some s : s ≠ ∅ → ∃ c, set_begin s = Some c ∧ c ∈ s.
Proof.
  intros Hs. destruct (set_begin s) as [c|] eqn:E; [|by apply set_begin_None in E].
  exists c. split; [done|]. by apply set_begin_elem.
Qed.

(** [begin] is the element of least address. *)
Lemma set_begin_least c s : set_begin s = Some c → ∀ d, d ∈ s → ptr_addr c ≤ ptr_addr d.
Proof.
  unfold set_begin. intros Hh d Hd%elem_of_set_iter.
  pose proof (StronglySorted_merge_sort ptr_le (elements s)) as Hs.
  fold (set_iter s) in Hs. destruct (set_iter s) as [|x l]; [done|].
  injection Hh as ->. apply elem_of_cons in Hd as [->|Hd]; [lia|].
  apply StronglySorted_inv in Hs as [_ Hall]. by eapply Forall_forall in Hall.
Qed.
End PtrSetFacts.

(** *** The law of scheduled calls *)

Lemma not_before_mono now now' w : now' ≤ now → not_before now w → not_before now' w.
Proof. unfold not_before. destruct (call_time w); lia || done. Qed.

(** Adding a 32-bit latency to a tick below [2^64 - 2^34] does not wrap. *)
Definition tick_ok (now : Z) : Prop := 0 <= now < 2 ^ 64 - 2 ^ 34.

Lemma not_before_latency now t lat w :
  tick_ok now → in_u32 lat → now ≤ t ≤ now + 2 ^ 32 → call_time w = Some (t ⊕ lat) → not_before now w.
Proof.
  unfold tick_ok, in_u32, not_before. intros Hn Hl Ht ->. rewrite u64_id by (unfold in_u64; lia). lia.
Qed.

Lemma not_before_add now lat w :
  tick_ok now → in_u32 lat → call_time w = Some (now ⊕ lat) → not_before now w.
Proof. intros Hn Hl. by apply not_before_latency; [..|lia]. Qed.

(** A call after a latency. *)
Ltac solve_latency :=
  eapply not_before_add; [eassumption| |reflexivity]; assumption.

Lemma not_before_none now w : call_time w = None → not_before now w.
Proof. unfold not_before. by intros ->. Qed.

(** *** An allocator for the concrete examples: the code of the component. *)

Definition code_addresses : Addresses := {| ptr_addr c := Z.pos (encode c) |}.
