(* ===== verification/EventQueue.v ===== *)
(** * The global event queue (GlobalEventQueue, PTSComponent.h and PTSComponent.cc)

    The queue keeps, for each tick, the set of components to wake.  [process_event] wakes
    them one by one, earliest tick first and by address within a tick, until a core
    returns a hardware thread that needs instructions. *)

From S2P Require Export Component.

Module GlobalEventQueue.
Import OrdMap PtrSet.

(** [class GlobalEventQueue]. *)
Record GEQ := {
  event_queue : gmap Z (gset Comp);
  curr_time : Z;
  num_hthreads : Z;
  num_mcs : Z;
  interleave_base_bit : Z;
  interleave_xor_base_bit : Z;
  page_sz_base_bit : Z }.

Definition max_hthreads : Z := 1024.

(** The constructor. *)
Definition make (p : params) : GEQ :=
  {| event_queue := ∅;
     curr_time := 0;
     num_hthreads := u32 (pts_get_param_uint64 p "pts.num_hthreads" max_hthreads);
     num_mcs := u32 (pts_get_param_uint64 p "pts.num_mcs" 2);
     interleave_base_bit := u32 (pts_get_param_uint64 p "pts.mc.interleave_base_bit" 12);
     interleave_xor_base_bit := u32 (pts_get_param_uint64 p "pts.mc.interleave_xor_base_bit" 20);
     page_sz_base_bit := u32 (pts_get_param_uint64 p "pts.mc.page_sz_base_bit" 12) |}.

(** [event_queue[event_time].insert(event_target)]. *)
Definition add_event (event_time : Z) (event_target : Comp) (g : GEQ) : GEQ :=
  g <| event_queue ::= <[event_time := {[event_target]} ∪ default ∅ (event_queue g !! event_time)]> |>.

Definition add_events (evs : list (Z * Comp)) (g : GEQ) : GEQ :=
  foldl (λ g e, add_event e.1 e.2 g) g evs.

(** [event_queue[t].erase(c)], and erasing the tick once its set is empty. *)
Definition erase_event (t : Z) (c : Comp) (g : GEQ) : GEQ :=
  let s := default ∅ (event_queue g !! t) ∖ {[c]} in
  g <| event_queue ::= if bool_decide (s = ∅) then delete t else <[t := s]> |>.

(** [which_mc]: the memory controller an address belongs to. *)
Definition which_mc (g : GEQ) (addr : Z) : outcome Z :=
  if (64 <=? interleave_base_bit g) || (64 <=? interleave_xor_base_bit g) || (num_mcs g =? 0)
  then Err Undef
  else Ok (Z.lxor (shr addr (interleave_base_bit g)) (shr addr (interleave_xor_base_bit g))
             mod num_mcs g).

(** What the queue needs to know of the components: [p_comp->process_event(curr_time)]
    changes their state, calls [add_event], and returns a hardware thread number. *)
Class Machine (World : Type) := {
  run_component : Comp → Z → World → outcome (Z * World * list (Z * Comp)) }.

(** No component schedules an event before the tick it runs at. *)
Class MachineLaws (World : Type) `{!Machine World} := {
  run_not_before c t w r w' evs :
    run_component c t w = Ok (r, w', evs) → Forall (λ e, t ≤ e.1) evs }.

Section Loop.
Context {AD : Addresses} {World : Type} `{!Machine World}.

(** One round of the loop of [process_event]: [Some r] when the function returns [r]. *)
Definition process_one (g : GEQ) (w : World) : outcome (option Z * GEQ * World) :=
  match map_begin (event_queue g) with
  | None => Ok (Some (num_hthreads g), g, w)
  | Some (t, comps) =>
      let g := g <| curr_time := t |> in
      match set_begin comps with
      | None => Err Fatal
      | Some p_comp =>
          match c_type p_comp with
          | ct_core | ct_o3core =>
              let g := erase_event t p_comp g in
              '(ret_val, w, evs) ← run_component p_comp t w;
              let g := add_events evs g in
              Ok (if ret_val <? num_hthreads g then Some ret_val else None, g, w)
          | ct_cachel1d | ct_cachel1i | ct_cachel2 | ct_directory | ct_memory_controller
          | ct_crossbar | ct_tlbl1d | ct_tlbl1i =>
              '(_, w, evs) ← run_component p_comp t w;
              let g := add_events evs g in
              (* the iterator belongs to the set of tick [t]: erasing it from another
                 set is undefined *)
              match map_begin (event_queue g) with
              | Some (t', _) =>
                  if t' =? t then Ok (None, erase_event t p_comp g, w) else Err Undef
              | None => Err Undef
              end
          | ct_tlbl2 => Err Fatal
          end
      end
  end.

(** [process_event]: the value returned, [None] when [fuel] rounds do not reach a
    return, and the state then. *)
Fixpoint process_event (fuel : nat) (g : GEQ) (w : World) : outcome (option Z * GEQ * World) :=
  match fuel with
  | O => Ok (None, g, w)
  | S fuel' =>
      '(ret, g', w') ← process_one g w;
      match ret with
      | Some r => Ok (Some r, g', w')
      | None => process_event fuel' g' w'
      end
  end.
End Loop.

(** ** Properties *)

(** [c] is scheduled at [t]. *)
Definition pending (g : GEQ) (t : Z) (c : Comp) : Prop :=
  c ∈ default ∅ (event_queue g !! t).

(** Every scheduled tick has a component to wake, and none lies in the past. *)
Definition wf (g : GEQ) : Prop :=
  ∀ t s, event_queue g !! t = Some s → s ≠ ∅ ∧ curr_time g ≤ t.

Lemma pending_add t c g t' c' :
  pending (add_event t c g) t' c' ↔ (t' = t ∧ c' = c) ∨ pending g t' c'.
Proof.
  unfold pending, add_event. cbn. destruct (decide (t = t')) as [->|Hne].
  - rewrite lookup_insert_eq. cbn. set_solver.
  - rewrite lookup_insert_ne by done. naive_solver.
Qed.

Lemma pending_adds evs g t c :
  pending (add_events evs g) t c ↔ (t, c) ∈ evs ∨ pending g t c.
Proof.
  unfold add_events. revert g. induction evs as [|[t1 c1] evs IH]; intros g; cbn [foldl].
  - set_solver.
  - rewrite IH, pending_add, elem_of_cons. cbn. naive_solver.
Qed.

Lemma pending_erase t c g t' c' :
  pending (erase_event t c g) t' c' ↔ pending g t' c' ∧ ¬ (t' = t ∧ c' = c).
Proof.
  unfold pending, erase_event. cbn. case_bool_decide as Hs;
    (destruct (decide (t = t')) as [->|Hne];
      [rewrite ?lookup_delete_eq, ?lookup_insert_eq
      |rewrite ?lookup_delete_ne, ?lookup_insert_ne by done; naive_solver]); cbn.
  - split; [set_solver|]. intros [Hin Hn].
    assert (c' ∈ default ∅ (event_queue g !! t') ∖ {[c]}) as Hx; [|rewrite Hs in Hx; set_solver].
    apply elem_of_difference. split; [done|]. intros ->%elem_of_singleton. naive_solver.
  - rewrite elem_of_difference, elem_of_singleton. naive_solver.
Qed.

Lemma curr_time_add_events evs g : curr_time (add_events evs g) = curr_time g.
Proof. unfold add_events. revert g. induction evs as [|e evs IH]; intros g; [done|]. cbn. by rewrite IH. Qed.
Lemma curr_time_erase t c g : curr_time (erase_event t c g) = curr_time g.
Proof. done. Qed.

Lemma wf_add_event t c g : wf g → curr_time g ≤ t → wf (add_event t c g).
Proof.
  intros Hg Ht t' s. unfold add_event. cbn. destruct (decide (t = t')) as [->|Hne].
  - rewrite lookup_insert_eq. intros [= <-]. split; [set_solver|done].
  - rewrite lookup_insert_ne by done. apply Hg.
Qed.

Lemma wf_add_events evs g : wf g → Forall (λ e, curr_time g ≤ e.1) evs → wf (add_events evs g).
Proof.
  unfold add_events. revert g. induction evs as [|e evs IH]; intros g Hg Hall; [done|].
  inv Hall. cbn. apply IH; [by apply wf_add_event | done].
Qed.

Lemma wf_erase_event t c g : wf g → wf (erase_event t c g).
Proof.
  intros Hg t' s. unfold erase_event. cbn. case_bool_decide as Hs.
  - intros [_ H]%lookup_delete_Some. by apply Hg.
  - intros [[<- <-]|[_ H]]%lookup_insert_Some; [|by apply Hg].
    split; [done|]. destruct (event_queue g !! t) as [s0|] eqn:E; [by apply Hg in E as []|].
    cbn in Hs. set_solver.
Qed.

Lemma wf_set_time t s g : wf g → map_begin (event_queue g) = Some (t, s) → wf (g <| curr_time := t |>).
Proof.
  intros Hg [_ Hmin]%map_begin_Some t' s' E. cbn in *. split; [by apply Hg in E as []|]. apply Hmin; eauto.
Qed.

Lemma pending_earliest g t s :
  map_begin (event_queue g) = Some (t, s) → ∀ t' c', pending g t' c' → t ≤ t'.
Proof.
  intros [_ Hmin]%map_begin_Some t' c' Hp. unfold pending in Hp.
  destruct (event_queue g !! t') eqn:E; [apply Hmin; eauto | set_solver].
Qed.

(** *** The abstract queue *)

Definition is_core (c : Comp) : bool :=
  match c_type c with ct_core | ct_o3core => true | _ => false end.

Section Spec.
Context {AD : Addresses} {World : Type} `{!Machine World}.

(** What a round of the loop does to the set of scheduled pairs, without the map of
    sets: it wakes a pair of least tick and, within the tick, of least address.  The
    pair of a core leaves the queue before the core runs, that of any other component
    after it ran. *)
Inductive wakes (g : GEQ) (w : World) : option Z → GEQ → World → Prop :=
| wakes_none :
    (∀ t c, ¬ pending g t c) → wakes g w (Some (num_hthreads g)) g w
| wakes_component t c r evs g' w' ret :
    pending g t c →
    (∀ t' c', pending g t' c' → t < t' ∨ (t' = t ∧ ptr_addr c ≤ ptr_addr c')) →
    run_component c t w = Ok (r, w', evs) →
    g' = g <| curr_time := t |> <| event_queue := event_queue g' |> →
    (∀ t' c', pending g' t' c' ↔
       if is_core c
       then (pending g t' c' ∧ ¬ (t' = t ∧ c' = c)) ∨ (t', c') ∈ evs
       else (pending g t' c' ∨ (t', c') ∈ evs) ∧ ¬ (t' = t ∧ c' = c)) →
    ret = (if is_core c && (r <? num_hthreads g) then Some r else None) →
    wakes g w ret g' w'.

Lemma add_events_frame evs g :
  add_events evs g = g <| event_queue := event_queue (add_events evs g) |>.
Proof.
  unfold add_events. revert g. induction evs as [|e evs IH]; intros g; [by destruct g|].
  cbn [foldl]. rewrite IH at 1. done.
Qed.

Lemma num_hthreads_adds evs g : num_hthreads (add_events evs g) = num_hthreads g.
Proof. by rewrite add_events_frame. Qed.

(** The pair [process_one] picks is the earliest. *)
Lemma picked_least g t s c :
  map_begin (event_queue g) = Some (t, s) → set_begin s = Some c →
  pending g t c ∧
  ∀ t' c', pending g t' c' → t < t' ∨ (t' = t ∧ ptr_addr c ≤ ptr_addr c').
Proof.
  intros Hb Hc. pose proof (map_begin_Some _ _ _ Hb) as [Hs _]. split.
  { unfold pending. rewrite Hs. by apply set_begin_elem. }
  intros t' c' Hp. pose proof (pending_earliest _ _ _ Hb _ _ Hp).
  destruct (decide (t' = t)) as [->|]; [|lia]. right. split; [done|].
  eapply set_begin_least; [done|]. unfold pending in Hp. by rewrite Hs in Hp.
Qed.

Lemma process_one_wakes `{!MachineLaws World} g w ret g' w' :
  wf g → process_one g w = Ok (ret, g', w') →
  wakes g w ret g' w' ∧ wf g' ∧ curr_time g ≤ curr_time g'.
Proof.
  intros Hwf. unfold process_one.
  destruct (map_begin (event_queue g)) as [[t s]|] eqn:Hb; cycle 1.
  { apply map_begin_None in Hb. intros [= <- <- <-]. split_and!; [|done|lia].
    apply wakes_none. unfold pending. rewrite Hb. set_solver. }
  pose proof (map_begin_Some _ _ _ Hb) as [Hs _].
  pose proof (Hwf _ _ Hs) as [_ Ht].
  destruct (set_begin s) as [c|] eqn:Hc; [|done].
  pose proof (picked_least _ _ _ _ Hb Hc) as [Hpc Hleast].
  pose proof (wf_set_time _ _ _ Hwf Hb) as Hwf1.
  set (g1 := g <| curr_time := t |>) in *.
  assert (∀ t' c', pending g1 t' c' ↔ pending g t' c') as Hg1 by done.
  destruct (run_component c t w) as [[[r w1] evs]|f] eqn:Hrun; cycle 1.
  { by destruct (c_type c). }
  pose proof (run_not_before _ _ _ _ _ _ Hrun) as Hlaw. cbn.
  destruct (is_core c) eqn:Hcore.
  - assert (Ok (if r <? num_hthreads (add_events evs (erase_event t c g1)) then Some r else None,
      add_events evs (erase_event t c g1), w1) = Ok (ret, g', w') →
      wakes g w ret g' w' ∧ wf g' ∧ curr_time g ≤ curr_time g') as Hgoal.
    { intros [= <- <- <-]. rewrite curr_time_add_events, num_hthreads_adds. split_and!.
      - eapply wakes_component; [done..| | |]; rewrite ?Hcore; [by rewrite add_events_frame| |done].
        intros t' c'. rewrite pending_adds, pending_erase, Hg1. tauto.
      - apply wf_add_events; [by apply wf_erase_event | done].
      - done. }
    unfold is_core in Hcore. by destruct (c_type c).
  - assert (match map_begin (event_queue (add_events evs g1)) with
      | Some (t', _) => if t' =? t then Ok (None, erase_event t c (add_events evs g1), w1) else Err Undef
      | None => Err Undef end = Ok (ret, g', w') →
      wakes g w ret g' w' ∧ wf g' ∧ curr_time g ≤ curr_time g') as Hgoal.
    { destruct (map_begin (event_queue (add_events evs g1))) as [[t' s']|]; [|done].
      destruct (t' =? t); [|done]. intros [= <- <- <-].
      split_and!.
      - eapply wakes_component; [done..| | |]; rewrite ?Hcore; [by rewrite add_events_frame| |done].
        intros t0 c0. rewrite pending_erase, pending_adds, Hg1. tauto.
      - apply wf_erase_event, wf_add_events; done.
      - cbn. by rewrite curr_time_add_events. }
    unfold is_core in Hcore. by destruct (c_type c).
Qed.

(** A round fails only when a component does, or when the type is one the queue refuses:
    the queue itself never loses its place. *)
Lemma process_one_fails `{!MachineLaws World} g w f :
  wf g → process_one g w = Err f →
  ∃ t c, pending g t c ∧ (∀ t' c', pending g t' c' → t ≤ t') ∧
    (run_component c t w = Err f ∨ (c_type c = ct_tlbl2 ∧ f = Fatal)).
Proof.
  intros Hwf. unfold process_one.
  destruct (map_begin (event_queue g)) as [[t s]|] eqn:Hb; [|done].
  pose proof (map_begin_Some _ _ _ Hb) as [Hs Hmin].
  destruct (set_begin s) as [c|] eqn:Hc; cycle 1.
  { apply set_begin_None in Hc. by destruct (Hwf _ _ Hs). }
  pose proof (picked_least _ _ _ _ Hb Hc) as [Hpc _]. intros H. exists t, c. split; [done|].
  split; [by eapply pending_earliest|].
  destruct (c_type c) eqn:Hct; try (right; split; congruence); left.
  all: destruct (run_component c t w) as [[[r w1] evs]|f'] eqn:Hrun; cbn in H; try congruence.
  all: exfalso; pose proof (run_not_before _ _ _ _ _ _ Hrun) as Hlaw.
  all: set (g1 := g <| curr_time := t |>) in *.
  all: assert (pending (add_events evs g1) t c) as Hp1 by (apply pending_adds; by right).
  all: destruct (map_begin (event_queue (add_events evs g1))) as [[t' s']|] eqn:Hb'.
  all: try (apply map_begin_None in Hb'; unfold pending in Hp1; rewrite Hb' in Hp1; set_solver).
  all: apply map_begin_Some in Hb' as Hb''; destruct Hb'' as [Hs' _].
  all: assert (t' = t) as ->; [|by rewrite Z.eqb_refl in H].
  all: pose proof (pending_earliest _ _ _ Hb' _ _ Hp1) as Hle.
  all: assert (wf (add_events evs g1)) as Hwf' by (apply wf_add_events; [by eapply wf_set_time | done]).
  all: destruct (Hwf' _ _ Hs') as [_ Hge]; rewrite curr_time_add_events in Hge; unfold g1 in Hge; cbn in Hge; lia.
Qed.

(** A run of the loop: silent rounds of the abstract queue, then the one that returns. *)
Inductive runs (g : GEQ) (w : World) : option Z → GEQ → World → Prop :=
| runs_stop : runs g w None g w
| runs_return r g' w' : wakes g w (Some r) g' w' → runs g w (Some r) g' w'
| runs_step g1 w1 ret g' w' :
    wakes g w None g1 w1 → runs g1 w1 ret g' w' → runs g w ret g' w'.

Lemma process_event_runs `{!MachineLaws World} fuel g w ret g' w' :
  wf g → process_event fuel g w = Ok (ret, g', w') →
  runs g w ret g' w' ∧ wf g' ∧ curr_time g ≤ curr_time g'.
Proof.
  revert g w. induction fuel as [|fuel IH]; intros g w Hwf; cbn [process_event].
  { intros [= <- <- <-]. split_and!; [constructor | done | lia]. }
  destruct (process_one g w) as [[[ret1 g1] w1]|f] eqn:H1; [cbn | done].
  destruct (process_one_wakes _ _ _ _ _ Hwf H1) as (Hw & Hwf1 & Ht).
  destruct ret1 as [r1|].
  - intros [= <- <- <-]. split_and!; [by constructor | done..].
  - intros H2. destruct (IH _ _ Hwf1 H2) as (? & ? & ?).
    split_and!; [by eapply runs_step | done | lia].
Qed.

(** What the loop returns: a hardware thread, or [num_hthreads] on an empty queue. *)
Lemma runs_returns g w r g' w' :
  runs g w (Some r) g' w' →
  r < num_hthreads g' ∨ (r = num_hthreads g' ∧ ∀ t c, ¬ pending g' t c).
Proof.
  intros H. remember (Some r) as ret eqn:Hret.
  induction H as [| g w r' g' w' Hw | ]; [done| |by auto]. injection Hret as ->.
  inversion Hw as [|t c r0 evs ? ? ? Hp Hl Hrun Hg' Hpend Hr]; subst; [by right|left].
  rewrite Hg'. cbn. destruct (is_core c), (Z.ltb_spec r0 (num_hthreads g)); cbn in Hr; congruence.
Qed.

(** *** Progress *)

(** The components scheduled at tick [t]. *)
Definition at_tick (g : GEQ) (t : Z) : gset Comp := default ∅ (event_queue g !! t).

(** A component other than a core that asks for instructions schedules strictly later
    events only. *)
Definition strictly_later (N : Z) : Prop :=
  ∀ c t w r w' evs, run_component c t w = Ok (r, w', evs) →
    (is_core c = true ∧ r < N) ∨ Forall (λ e, t < e.1) evs.

(** A round that does not return leaves a pair less at the least tick. *)
Lemma wakes_shrinks g w g' w' T :
  wakes g w None g' w' → strictly_later (num_hthreads g) →
  (∀ t c, pending g t c → T ≤ t) →
  (∀ t c, pending g' t c → T ≤ t) ∧ (at_tick g T ≠ ∅ → at_tick g' T ⊂ at_tick g T).
Proof.
  intros Hw Hlater HT. inversion Hw as [|t c r evs ? ? ? Hp Hl Hrun Hg' Hpend Hr]; subst. clear Hw.
  destruct (Hlater _ _ _ _ _ _ Hrun) as [[Hc Hlt]|Hstrict].
  { rewrite Hc, (proj2 (Z.ltb_lt _ _) Hlt) in Hr. done. }
  rewrite Forall_forall in Hstrict. pose proof (HT _ _ Hp) as HTt.
  assert (∀ t' c', pending g' t' c' →
    (pending g t' c' ∧ ¬ (t' = t ∧ c' = c)) ∨ t < t') as Hkeep.
  { intros t' c' Hp'. apply Hpend in Hp'. destruct (is_core c).
    - destruct Hp' as [?|Hin]; [by left|right; by apply Hstrict in Hin].
    - destruct Hp' as [[?|Hin] ?]; [by left|right; by apply Hstrict in Hin]. }
  split.
  - intros t' c' [[? _]|?]%Hkeep; [by eapply HT | lia].
  - intros Hne. assert (t = T) as ->.
    { apply set_choose_L in Hne as [d Hd]. destruct (Hl T d Hd); lia. }
    split.
    + intros d Hd. destruct (Hkeep T d Hd) as [[? _]|?]; [done|lia].
    + intros Hsub. destruct (Hkeep T c (Hsub c Hp)) as [[_ ?]|?]; [tauto|lia].
Qed.

(** A run fails as a component does, or at a component of a type the queue refuses. *)
Definition component_fails (H : Z) (f : failure) : Prop :=
  ∃ t c w, t < H ∧ (run_component c t w = Err f ∨ (c_type c = ct_tlbl2 ∧ f = Fatal)).

(** [n] rounds, none at tick [H] or later, reach a state that satisfies [P], return before,
    or fail. *)
Definition after (H : Z) (n : nat) (g : GEQ) (w : World) (P : GEQ → World → Prop) : Prop :=
  match process_event n g w with
  | Ok (None, g', w') => P g' w'
  | Ok (Some _, _, _) => True
  | Err f => component_fails H f
  end.

Lemma after_app H n m g w P :
  after H n g w (λ g' w', after H m g' w' P) → after H (n + m) g w P.
Proof.
  unfold after. revert g w. induction n as [|n IH]; intros g w; [done|]. cbn [process_event Nat.add].
  destruct (process_one g w) as [[[[r|] g1] w1]|f]; cbn; [done| |done]. apply IH.
Qed.

(** If [n] can be chosen in each state that the first rounds reach, they compose. *)
Lemma after_then H n g w (Q P : GEQ → World → Prop) :
  after H n g w Q → (∀ g' w', Q g' w' → ∃ m, after H m g' w' P) → ∃ m, after H m g w P.
Proof.
  intros Hn HQ. destruct (process_event n g w) as [[[ret g1] w1]|f] eqn:E; cycle 1.
  { exists n. revert Hn. unfold after. by rewrite E. }
  destruct ret as [r|]; [exists n; unfold after; by rewrite E|].
  unfold after in Hn. rewrite E in Hn. destruct (HQ _ _ Hn) as [m Hm].
  exists (n + m)%nat. apply after_app. unfold after at 1. by rewrite E.
Qed.
End Spec.

(** *** The main properties *)

(** C1: [GlobalEventQueue::process_event] refines the abstract queue of scheduled
    pairs: every round wakes a pair of least tick and address, the other pairs and the
    pairs the woken component adds stay, simulated time never goes back, and the function
    returns only with a hardware thread below [num_hthreads], or with [num_hthreads] when
    nothing is scheduled. *)
Theorem process_event_refines {AD : Addresses} {World} `{!Machine World} `{!MachineLaws World}
    fuel g w ret g' w' :
  wf g → process_event fuel g w = Ok (ret, g', w') →
  runs g w ret g' w' ∧ wf g' ∧ curr_time g ≤ curr_time g' ∧
  ∀ r, ret = Some r →
    r < num_hthreads g' ∨ (r = num_hthreads g' ∧ ∀ t c, ¬ pending g' t c).
Proof.
  intros Hwf H. destruct (process_event_runs _ _ _ _ _ _ Hwf H) as (Hr & ? & ?).
  split_and!; [done..|]. intros r ->. by eapply runs_returns.
Qed.

(** [which_mc] names an existing memory controller, and gives the same one to the
    addresses of one interleaving unit. *)
Theorem which_mc_interleaves g a b :
  0 ≤ a → 0 ≤ b → 0 < num_mcs g →
  0 ≤ interleave_base_bit g ≤ interleave_xor_base_bit g → interleave_xor_base_bit g < 64 →
  shr a (interleave_base_bit g) = shr b (interleave_base_bit g) →
  ∃ m, which_mc g a = Ok m ∧ which_mc g b = Ok m ∧ 0 ≤ m < num_mcs g.
Proof.
  intros Ha Hb Hn Hbit Hx Hab. unfold which_mc.
  rewrite (proj2 (Z.leb_gt _ _)), (proj2 (Z.leb_gt _ _)), (proj2 (Z.eqb_neq _ _)) by lia. cbn.
  assert (∀ x, shr x (interleave_xor_base_bit g) =
    shr (shr x (interleave_base_bit g)) (interleave_xor_base_bit g - interleave_base_bit g)) as Hsh.
  { intros x. unfold shr. rewrite Z.shiftr_shiftr by lia. f_equal. lia. }
  rewrite (Hsh a), (Hsh b), Hab. eexists. split_and!; [done|done|..]; apply Z.mod_pos_bound; lia.
Qed.

(** *** A concrete machine *)

(** A memory controller re-arms itself and then a core runs out of instructions. *)
Definition toy_run (c : Comp) (t : Z) (w : Z) : outcome (Z * Z * list (Z * Comp)) :=
  match c_type c with
  | ct_core => Ok (c_num c, w + 1, [])
  | _ => Ok (0, w + 1, [(t + 10, Build_Comp ct_core 3)])
  end.

#[local] Instance toy_machine : Machine Z := {| run_component := toy_run |}.

#[local] Instance toy_laws : MachineLaws Z.
Proof.
  constructor. cbn. unfold toy_run. intros c t w r w' evs.
  destruct (c_type c); intros [= <- <- <-]; repeat constructor; cbn; lia.
Defined.

Definition toy_queue : GEQ :=
  add_event 5 (Build_Comp ct_memory_controller 0) (make no_params).

Lemma wf_empty g : event_queue g = ∅ → wf g.
Proof. intros E t s H. by rewrite E in H. Qed.

Lemma toy_wf : wf toy_queue.
Proof. apply wf_add_event; [by apply wf_empty | by vm_compute]. Qed.

Example process_event_refines_witness :
  ∃ g' w', @process_event code_addresses Z _ 5 toy_queue 0 = Ok (Some 3, g', w') ∧
    curr_time g' = 15 ∧ wf g'.
Proof.
  destruct (@process_event code_addresses Z _ 5 toy_queue 0) as [[[ret g'] w']|f] eqn:E;
    [|by vm_compute in E].
  pose proof (@process_event_refines code_addresses Z _ _ 5 toy_queue 0 ret g' w' toy_wf E)
    as (_ & Hwf & _ & _).
  exists g', w'. vm_compute in E. injection E as <- <- <-. split_and!; [done|done|exact Hwf].
Defined.

Example which_mc_interleaves_witness :
  ∃ m, which_mc toy_queue 4096 = Ok m ∧ which_mc toy_queue 8191 = Ok m ∧ 0 ≤ m < 2.
Proof.
  apply (which_mc_interleaves toy_queue 4096 8191); vm_compute; (split; congruence) || congruence.
Defined.
End GlobalEventQueue.
