(* ===== verification/TLB.v ===== *)
(** * The L1 TLBs (TLBL1, PTSTLB.h and PTSTLB.cc)

    A fully associative translation buffer with least-recently-used replacement.
    [entries] maps a page to the tick of its last access and [LRU] maps a tick to the
    page accessed then: the victim is the page of the first tick of [LRU]. *)

From S2P Require Export Component.

Module TLBL1.
Import OrdMap.

(** The fields the constructor sets and nothing changes afterwards. *)
Record config := {
  this : Comp;
  process_interval : Z;
  num_entries : Z;
  l1_to_lsu_t : Z;
  page_sz_log2 : Z;
  miss_penalty : Z;
  speedup : Z }.

Definition make_config (p : params) (c : Comp) : config :=
  let get := get_param_uint64 p (c_type c) in
  {| this := c;
     process_interval := get "process_interval" 10;
     num_entries := get "num_entries" 64;
     l1_to_lsu_t := get "to_lsu_t" 0;
     page_sz_log2 := get "page_sz_log2" 13;
     miss_penalty := get "miss_penalty" 100;
     speedup := get "speedup" 1 |}.

(** An iterator into [entries] is the page it points to. *)
Record state := {
  queues : Queues;
  num_access : Z;
  num_miss : Z;
  entries : gmap Z Z;
  LRU : gmap Z Z }.

Definition init : state := Build_state empty_queues 0 0 ∅ ∅.

Section Handlers.
Context (cfg : config).

Definition add_req_event (event_time : Z) (local_event : LQE) : proc call state unit :=
  _ ← emit (geq_add_event event_time (this cfg));
  modify (λ s, s <| queues ::= insert_req event_time local_event |>).

(** [req_lqe->from.top()->add_req_event(t, req_lqe)] for an instruction TLB,
    [add_rep_event] for a data TLB. *)
Definition answer (event_time : Z) (req_lqe : LQE) : proc call state unit :=
  top ← lift (from_top req_lqe);
  emit (if bool_decide (c_type (this cfg) = ct_tlbl1i)
        then Component.add_req_event top event_time req_lqe None
        else add_rep_event top event_time req_lqe None).

(** [if (LRU.size() >= num_entries) { entries.erase(LRU.begin()->second); LRU.erase(LRU.begin()); }] *)
Definition evict_lru : proc call state unit :=
  s ← reads (λ s, s);
  when (num_entries cfg <=? Z.of_nat (size (LRU s)))
    match map_begin (LRU s) with
    | Some (t, page) =>
        match entries s !! page with
        | Some _ => modify (λ s, s <| entries ::= delete page |> <| LRU ::= delete t |>)
        | None => fails Undef
        end
    | None => fails Undef
    end.

(** [LRU.insert(pair(t, it))], which leaves an existing key alone. *)
Definition lru_insert (t page : Z) (m : gmap Z Z) : gmap Z Z :=
  match m !! t with Some _ => m | None => <[t := page]> m end.

(** The body of the loop for one request at the head of [req_q]. *)
Definition process_request (curr_time : Z) (req_lqe : LQE) : proc call state unit :=
  page_num ← lift (c_shr (address req_lqe) (page_sz_log2 cfg));
  _ ← modify (λ s, s <| num_access ::= λ n, n ⊕ 1 |>);
  e ← reads entries;
  match e !! page_num with
  | None =>
      _ ← modify (λ s, s <| num_miss ::= λ n, n ⊕ 1 |>);
      _ ← answer (curr_time ⊕ l1_to_lsu_t cfg ⊕ miss_penalty cfg) req_lqe;
      _ ← evict_lru;
      modify (λ s, s <| entries ::= <[page_num := curr_time]> |>
                     <| LRU ::= lru_insert curr_time page_num |>)
  | Some last =>
      _ ← answer (curr_time ⊕ l1_to_lsu_t cfg) req_lqe;
      modify (λ s, s <| LRU := lru_insert curr_time page_num (delete last (LRU s)) |>
                     <| entries ::= <[page_num := curr_time]> |>)
  end.

(** [for (i = 0; i < speedup; i++) { if (req_q.empty()) break; ... }] *)
Fixpoint process_requests (i : nat) (curr_time : Z) : proc call state unit :=
  match i with
  | O => mret tt
  | S i' =>
      q ← reads (λ s, req_q (queues s));
      match q with
      | [] => mret tt
      | req_lqe :: rest =>
          _ ← modify (λ s, s <| queues ::= λ q, q <| req_q := rest |> |>);
          _ ← process_request curr_time req_lqe;
          process_requests i' curr_time
      end
  end.

Definition process_event (curr_time : Z) : proc call state Z :=
  _ ← modify (λ s, s <| queues ::= drain_req curr_time |>);
  _ ← process_requests (Z.to_nat (speedup cfg)) curr_time;
  q ← reads (λ s, req_q (queues s));
  _ ← when (negb (bool_decide (q = [])))
        (emit (geq_add_event (curr_time ⊕ process_interval cfg) (this cfg)));
  mret 0.
End Handlers.

(** ** The reference model: a list of pages, most recently used first *)

Definition lru_access (capacity : nat) (page : Z) (pages : list Z) : list Z :=
  page :: (if bool_decide (page ∈ pages) then filter (λ q, q ≠ page) pages
           else take (capacity - 1) pages).

(** [stamps] lists the pages in the buffer with the tick of their last access, the most
    recent first; all of them were accessed before [now]. *)
Record tracks (capacity : nat) (stamps : list (Z * Z)) (now : Z) (s : state) : Prop := {
  tr_sorted : StronglySorted (λ a b, b.1 < a.1) stamps;
  tr_past : Forall (λ e, e.1 < now) stamps;
  tr_pages : NoDup stamps.*2;
  tr_LRU : holds (LRU s) stamps;
  tr_entries : ∀ t page, entries s !! page = Some t ↔ (t, page) ∈ stamps;
  tr_capacity : (length stamps ≤ capacity)%nat }.

Lemma sorted_NoDup (l : list (Z * Z)) : StronglySorted (λ a b, b.1 < a.1) l → NoDup l.*1.
Proof.
  induction 1 as [|x l Hs IH Hall]; cbn; constructor; [|done].
  intros (y & Hy & Hin)%list_elem_of_fmap. rewrite Forall_forall in Hall. specialize (Hall y Hin). lia.
Qed.

Lemma sorted_sublist (l k : list (Z * Z)) :
  l `sublist_of` k → StronglySorted (λ a b, b.1 < a.1) k → StronglySorted (λ a b, b.1 < a.1) l.
Proof.
  induction 1 as [|x l k Hlk IH|x l k Hlk IH]; intros Hk; [done|..];
    apply StronglySorted_inv in Hk as [Hk Hall]; [|by apply IH].
  constructor; [by apply IH|]. by eapply sublist_Forall.
Qed.

Lemma filter_pages (page : Z) (l : list (Z * Z)) :
  (filter (λ e, e.2 ≠ page) l).*2 = filter (λ q, q ≠ page) l.*2.
Proof.
  induction l as [|e l IH]; [done|]. rewrite fmap_cons, !filter_cons. repeat case_decide; try done.
  rewrite fmap_cons. by rewrite IH.
Qed.

Lemma stamp_unique (l : list (Z * Z)) t t' page :
  NoDup l.*2 → (t, page) ∈ l → (t', page) ∈ l → t = t'.
Proof.
  induction l as [|e l IH]; cbn; [set_solver|]. intros [Hn Hnd]%NoDup_cons.
  assert (∀ t, (t, page) ∈ l → page ∈ l.*2) as Hin.
  { intros t0 H0. apply list_elem_of_fmap. by exists (t0, page). }
  intros [<-|H1]%elem_of_cons [H2|H2]%elem_of_cons; cbn in *; try congruence.
  - by apply Hin in H2.
  - subst e. by apply Hin in H1.
  - auto.
Qed.

Lemma stamp_unique_fst (l : list (Z * Z)) t page page' :
  NoDup l.*1 → (t, page) ∈ l → (t, page') ∈ l → page = page'.
Proof.
  intros Hnd H1 H2. apply (elem_of_list_to_map (M := gmap Z)) in H1, H2; try done. congruence.
Qed.

(** Moving a page to the front. *)
Lemma tracks_push capacity stamps rest now page s s' :
  tracks capacity stamps now s → rest `sublist_of` stamps → page ∉ rest.*2 →
  (length rest < capacity)%nat →
  (∀ t q, LRU s' !! t = Some q ↔ (t = now ∧ q = page) ∨ (t, q) ∈ rest) →
  (∀ t q, entries s' !! q = Some t ↔ (t = now ∧ q = page) ∨ (t, q) ∈ rest) →
  tracks capacity ((now, page) :: rest) (now + 1) s'.
Proof.
  intros Ht Hsub Hpage Hcap HL HE. pose proof (sublist_Forall _ _ _ Hsub (tr_past _ _ _ _ Ht)) as Hpast.
  constructor; cbn.
  - constructor; [by eapply sorted_sublist, Ht|]. eapply Forall_weaken; [exact Hpast|]. done.
  - constructor; [cbn; lia|]. eapply Forall_weaken; [exact Hpast|]. cbn. lia.
  - constructor; [done|]. eapply sublist_NoDup; [apply Ht|]. by apply fmap_sublist.
  - intros t q. rewrite HL, elem_of_cons. naive_solver.
  - intros t q. rewrite HE, elem_of_cons. naive_solver.
  - lia.
Qed.
Definition answer_call (cfg : config) (top : Comp) (t : Z) (l : LQE) : call :=
  if bool_decide (c_type (this cfg) = ct_tlbl1i)
  then Component.add_req_event top t l None else add_rep_event top t l None.

Lemma wp_answer E cfg t l top r s (Q : unit → state → list call → Prop) :
  from l = top :: r → Q tt s [answer_call cfg top t l] → wp E (answer cfg t l) s Q.
Proof.
  intros Hl HQ. unfold answer. wp_step. apply (wp_lift_ok _ _ top).
  - unfold from_top. by rewrite Hl.
  - by wp_step.
Qed.

Lemma wp_evict_lru cfg capacity stamps now s (Q : unit → state → list call → Prop) :
  tracks capacity stamps now s → num_entries cfg = Z.of_nat capacity → (0 < capacity)%nat →
  (∀ s', queues s' = queues s → num_access s' = num_access s → num_miss s' = num_miss s →
     holds (LRU s') (take (capacity - 1) stamps) →
     (∀ t page, entries s' !! page = Some t ↔ (t, page) ∈ take (capacity - 1) stamps) →
     Q tt s' []) →
  wp no_failure (evict_lru cfg) s Q.
Proof.
  intros Ht Hcfg Hpos HQ. unfold evict_lru. wp_steps.
  pose proof (sorted_NoDup _ (tr_sorted _ _ _ _ Ht)) as Hnd.
  rewrite Hcfg, (holds_size (LRU s) stamps) by (done || apply Ht).
  pose proof (tr_capacity _ _ _ _ Ht) as Hcap. apply wp_when.
  - intros Hfull%Z.leb_le. assert (length stamps = capacity) as Hlen by lia.
    destruct stamps as [|[t page] older _] using rev_ind; [cbn in Hlen; lia|].
    rewrite length_app in Hlen. cbn in Hlen.
    assert (take (capacity - 1) (older ++ [(t, page)]) = older) as Htake.
    { rewrite <- Hlen, Nat.add_sub. by rewrite take_app_length. }
    rewrite Htake in HQ. rewrite fmap_app in Hnd. apply NoDup_app in Hnd as (_ & Hlast & _).
    assert (∀ k q, (k, q) ∈ older → k ≠ t) as Hk.
    { intros k q Hin ->. apply (Hlast t); [|by left]. apply list_elem_of_fmap. by exists (t, q). }
    pose proof (tr_pages _ _ _ _ Ht) as Hpg. rewrite fmap_app in Hpg.
    apply NoDup_app in Hpg as (_ & Hplast & _).
    assert (∀ k q, (k, q) ∈ older → q ≠ page) as Hq.
    { intros k q Hin ->. apply (Hplast page); [|by left]. apply list_elem_of_fmap. by exists (k, page). }
    rewrite (holds_begin (LRU s) (older ++ [(t, page)]) t page).
    + pose proof (proj2 (tr_entries _ _ _ _ Ht t page) ltac:(set_solver)) as ->.
      wp_step. apply HQ; try done; cbn.
      * intros k q. rewrite lookup_delete_Some, (tr_LRU _ _ _ _ Ht k q). set_solver.
      * intros k q. rewrite lookup_delete_Some, (tr_entries _ _ _ _ Ht k q). set_solver.
    + apply Ht.
    + set_solver.
    + pose proof (tr_sorted _ _ _ _ Ht) as Hs. intros kv [Hin|Hin]%elem_of_app; [|set_solver by lia].
      apply StronglySorted_app in Hs as (Hall & _ & _).
      specialize (Hall kv (t, page) Hin ltac:(by left)). cbn in Hall. lia.
    + apply sorted_NoDup, Ht.
  - intros Hfull%Z.leb_gt. apply HQ; try done; rewrite take_ge by lia; apply Ht.
Qed.
Lemma lru_insert_fresh t page m : m !! t = None → lru_insert t page m = <[t := page]> m.
Proof. unfold lru_insert. by intros ->. Qed.

(** The answer of a request that finds its page, or not, in [pages]. *)
Definition lru_answer (cfg : config) (pages : list Z) (now : Z) (top : Comp) (l : LQE) : call :=
  answer_call cfg top
    (if bool_decide (shr (address l) (page_sz_log2 cfg) ∈ pages) then now ⊕ l1_to_lsu_t cfg
     else now ⊕ l1_to_lsu_t cfg ⊕ miss_penalty cfg) l.

Lemma tracks_hit capacity stamps now s page last :
  tracks capacity stamps now s → entries s !! page = Some last →
  page ∈ stamps.*2 ∧
  tracks capacity ((now, page) :: filter (λ e, e.2 ≠ page) stamps) (now + 1)
    (s <| LRU := lru_insert now page (delete last (LRU s)) |> <| entries ::= <[page := now]> |>).
Proof.
  intros Ht Hlast. pose proof (proj1 (tr_entries _ _ _ _ Ht _ _) Hlast) as Hin.
  pose proof (sorted_NoDup _ (tr_sorted _ _ _ _ Ht)) as Hnd.
  pose proof (tr_past _ _ _ _ Ht) as Hpast. rewrite Forall_forall in Hpast.
  split. { apply list_elem_of_fmap. by exists (last, page). }
  assert (∀ q, LRU s !! now ≠ Some q) as Hnow.
  { intros q Hq%(tr_LRU _ _ _ _ Ht)%Hpast. cbn in Hq. lia. }
  apply (tracks_push _ _ _ _ _ _ _ Ht); [apply sublist_filter| | |intros t q; cbn..].
  - rewrite filter_pages, list_elem_of_filter. tauto.
  - eapply Nat.lt_le_trans; [|apply (tr_capacity _ _ _ _ Ht)].
    eapply length_filter_lt; [exact Hin|]. cbn. tauto.
  - rewrite lru_insert_fresh by (apply lookup_delete_None; right; by apply eq_None_not_Some; intros [q0 Hq%Hnow]).
    rewrite lookup_insert_Some, lookup_delete_Some, list_elem_of_filter, (tr_LRU _ _ _ _ Ht t q).
    cbn. split; [intros [[-> ->]|(Hne & Hlt & Htq)]|intros [[-> ->]|[Hq Htq]]].
    + by left.
    + right. split; [|done]. intros ->. destruct Hlt. eapply stamp_unique; [apply Ht|exact Hin|exact Htq].
    + by left.
    + right. pose proof (Hpast _ Htq). cbn in *. split_and!; [lia| |done]. intros ->. apply Hq.
      eapply (stamp_unique_fst stamps); [done|exact Htq|exact Hin].
  - rewrite lookup_insert_Some, list_elem_of_filter, (tr_entries _ _ _ _ Ht t q). naive_solver.
Qed.
Lemma tracks_miss capacity stamps now s s' page :
  tracks capacity stamps now s → entries s !! page = None → (0 < capacity)%nat →
  holds (LRU s') (take (capacity - 1) stamps) →
  (∀ t q, entries s' !! q = Some t ↔ (t, q) ∈ take (capacity - 1) stamps) →
  page ∉ stamps.*2 ∧
  tracks capacity ((now, page) :: take (capacity - 1) stamps) (now + 1)
    (s' <| entries ::= <[page := now]> |> <| LRU ::= lru_insert now page |>).
Proof.
  intros Ht Hmiss Hpos HL HE. pose proof (tr_past _ _ _ _ Ht) as Hpast. rewrite Forall_forall in Hpast.
  assert (page ∉ stamps.*2) as Hpage.
  { intros ([t q] & -> & Hin)%list_elem_of_fmap. apply (tr_entries _ _ _ _ Ht) in Hin. cbn in *. congruence. }
  split; [done|].
  assert (page ∉ (take (capacity - 1) stamps).*2) as Hpage'.
  { intros Hin. apply Hpage. rewrite fmap_take in Hin. by eapply subseteq_take. }
  assert (LRU s' !! now = None) as Hnow.
  { apply eq_None_not_Some. intros [q Hq%HL]. apply subseteq_take in Hq. apply Hpast in Hq. cbn in Hq. lia. }
  apply (tracks_push _ _ _ _ _ _ _ Ht); [apply sublist_take|done| |intros t q; cbn..].
  - rewrite length_take. lia.
  - rewrite lru_insert_fresh by done. rewrite lookup_insert_Some, (HL t q).
    split; [intros [[-> ->]|[_ ?]]|intros [[-> ->]|Hq]]; [by left|by right|by left|].
    right. split; [|done]. intros <-. apply subseteq_take in Hq. apply Hpast in Hq. cbn in Hq. lia.
  - rewrite lookup_insert_Some, (HE t q).
    split; [intros [[-> ->]|[_ ?]]|intros [[-> ->]|Hq]]; [by left|by right|by left|].
    right. split; [|done]. intros <-. apply Hpage'. apply list_elem_of_fmap. by exists (t, page).
Qed.

(** One request against a buffer that tracks a list of pages. *)
Lemma process_request_lru cfg capacity stamps now s l top r :
  tracks capacity stamps now s → num_entries cfg = Z.of_nat capacity → (0 < capacity)%nat →
  page_sz_log2 cfg < 64 → from l = top :: r →
  let page := shr (address l) (page_sz_log2 cfg) in
  wp no_failure (process_request cfg now l) s (λ _ s' o,
    queues s' = queues s ∧ o = [lru_answer cfg stamps.*2 now top l] ∧
    ∃ stamps', tracks capacity stamps' (now + 1) s' ∧
      stamps'.*2 = lru_access capacity page stamps.*2).
Proof.
  intros Ht Hcfg Hpos Hpg Hl page. unfold process_request. wp_step.
  apply (wp_lift_ok _ _ page); [unfold c_shr; by rewrite (proj2 (Z.ltb_lt _ _))|]. wp_steps.
  set (s1 := s <| num_access ::= λ n, n ⊕ 1 |>).
  assert (tracks capacity stamps now s1) as Ht1 by (by constructor; apply Ht).
  change (queues s) with (queues s1). clearbody s1. clear s Ht.
  destruct (entries s1 !! page) as [last|] eqn:E; wp_steps; eapply wp_answer; try done; wp_steps.
  - destruct (tracks_hit _ _ _ _ _ _ Ht1 E) as [Hin Ht']. split_and!; [done| |].
    + unfold lru_answer. fold page. by rewrite bool_decide_true.
    + eexists. split; [exact Ht'|]. cbn. unfold lru_access. rewrite bool_decide_true by done.
      by rewrite filter_pages.
  - eapply (wp_evict_lru _ capacity stamps now); [by constructor; apply Ht1|done|done|].
    intros s' Hq' _ _ HL HE. wp_steps.
    destruct (tracks_miss _ _ _ _ s' _ Ht1 E Hpos HL HE) as [Hin Ht']. split_and!; [done| |].
    + unfold lru_answer. fold page. by rewrite bool_decide_false.
    + eexists. split; [exact Ht'|]. cbn. unfold lru_access. rewrite bool_decide_false by done.
      by rewrite fmap_take.
Qed.
(** *** Any number of requests per cycle *)

(** Every tick of [LRU] is the last access of its page: the iterators are valid. *)
Record consistent (s : state) : Prop := {
  iterators_valid t page : LRU s !! t = Some page → entries s !! page = Some t }.

Definition answers (now : Z) (l : LQE) (w : call) : Prop :=
  ∃ top r t, from l = top :: r ∧ now ≤ t ∧
    (w = Component.add_req_event top t l None ∨ w = add_rep_event top t l None).

(** Latencies that cannot wrap a 64-bit tick. *)
Definition in_time (cfg : config) (now : Z) : Prop :=
  0 <= now < 2 ^ 64 - 2 ^ 34 ∧ in_u32 (l1_to_lsu_t cfg) ∧ in_u32 (miss_penalty cfg) ∧
  in_u32 (process_interval cfg).

Lemma answer_call_answers cfg now top r t l :
  from l = top :: r → now ≤ t → answers now l (answer_call cfg top t l).
Proof. intros Hl Ht. exists top, r, t. unfold answer_call. split_and!; [done|done|]. case_bool_decide; auto. Qed.

Lemma consistent_move now page last s :
  consistent s → entries s !! page = Some last →
  consistent (s <| LRU := lru_insert now page (delete last (LRU s)) |> <| entries ::= <[page := now]> |>).
Proof.
  intros Hc E. constructor. intros t q. cbn. unfold lru_insert.
  intros H. destruct (delete last (LRU s) !! now) as [q'|] eqn:E'.
  - apply lookup_delete_Some in H as [Ht H], E' as [Hlt E'].
    apply (iterators_valid _ Hc) in H, E'. rewrite lookup_insert_ne; congruence.
  - apply lookup_insert_Some in H as [[<- <-]|[Hne H]]; [by rewrite lookup_insert_eq|].
    apply lookup_delete_Some in H as [Ht H]. apply (iterators_valid _ Hc) in H.
    rewrite lookup_insert_ne; congruence.
Qed.

Lemma consistent_add now page s :
  consistent s → entries s !! page = None →
  consistent (s <| entries ::= <[page := now]> |> <| LRU ::= lru_insert now page |>).
Proof.
  intros Hc E. constructor. intros t q. cbn. unfold lru_insert.
  intros H. destruct (LRU s !! now) as [q'|] eqn:E2.
  - apply (iterators_valid _ Hc) in H. rewrite lookup_insert_ne; congruence.
  - apply lookup_insert_Some in H as [[<- <-]|[Hne H]]; [by rewrite lookup_insert_eq|].
    apply (iterators_valid _ Hc) in H. rewrite lookup_insert_ne; congruence.
Qed.

Lemma consistent_evict t page s :
  consistent s → LRU s !! t = Some page →
  consistent (s <| entries ::= delete page |> <| LRU ::= delete t |>).
Proof.
  intros Hc Et. pose proof (iterators_valid _ Hc _ _ Et) as Eq. constructor. cbn. intros t' q' [Hne H]%lookup_delete_Some.
  apply (iterators_valid _ Hc) in H. rewrite lookup_delete_ne; congruence.
Qed.

(** Any request keeps the buffer consistent. *)
Lemma keeps_tlb_request cfg now l : keeps consistent (process_request cfg now l).
Proof.
  intros s Hc. unfold process_request. wp_step. apply wp_lift; [|done]. intros page _. wp_steps. cbn.
  assert (consistent (s <| num_access ::= λ n, n ⊕ 1 |>)) as H1 by (by constructor; apply Hc).
  destruct (entries s !! page) as [last|] eqn:E; wp_steps.
  - unfold answer. wp_step. apply wp_lift; [|done]. intros top _. wp_steps. by apply consistent_move.
  - unfold answer. wp_step. apply wp_lift; [|done]. intros top _. wp_steps. unfold evict_lru. wp_steps.
    set (s2 := s <| num_access ::= λ n, n ⊕ 1 |> <| num_miss ::= λ n, n ⊕ 1 |>).
    assert (consistent s2) as H2 by (by constructor; apply Hc).
    apply wp_when; intros _; [|wp_steps; by apply consistent_add].
    destruct (map_begin _) as [[t q]|] eqn:Eb; [|done].
    apply map_begin_Some in Eb as [Et _]. destruct (_ !! q); [|done]. wp_steps.
    apply consistent_add; [by apply consistent_evict|]. cbn. by rewrite lookup_delete_None; right.
Qed.

Lemma keeps_tlb_event cfg now : keeps consistent (process_event cfg now).
Proof.
  assert (∀ f, keeps (W:=call) consistent (modify (set queues f))) as Hq
    by (intros f; apply keeps_modify; intros s Hc; by constructor; apply Hc).
  unfold process_event. keeps_step; [apply Hq|]. keeps_step; [|by repeat keeps_step].
  generalize (Z.to_nat (speedup cfg)). intros n. induction n as [|n IH]; cbn [process_requests]; repeat keeps_step;
    first [apply Hq|apply keeps_tlb_request|apply IH].
Qed.

Lemma process_request_safe cfg now s l :
  consistent s → 0 < num_entries cfg → page_sz_log2 cfg < 64 → in_time cfg now → from l ≠ [] →
  wp no_failure (process_request cfg now l) s (λ _ s' o,
    consistent s' ∧ queues s' = queues s ∧ ∃ w, o = [w] ∧ answers now l w).
Proof.
  intros Hc Hn Hpg (Hnow & Hl1 & Hmp & _) Hl. destruct (from l) as [|top r] eqn:El; [done|].
  unfold in_u32 in *. unfold process_request. wp_step.
  apply (wp_lift_ok _ _ (shr (address l) (page_sz_log2 cfg)));
    [unfold c_shr; by rewrite (proj2 (Z.ltb_lt _ _))|]. wp_steps.
  set (page := shr _ _). cbn [entries set]. destruct (entries s !! page) as [last|] eqn:E; wp_steps.
  - eapply wp_answer; [done|]. wp_steps. split_and!; [by apply consistent_move; [constructor; apply Hc|]|done|].
    + eexists. split; [done|]. eapply answer_call_answers; [done|]. rewrite u64_id; unfold in_u64; lia.
  - eapply wp_answer; [done|]. wp_steps. unfold evict_lru. wp_steps. cbn.
    assert (∃ w, [answer_call cfg top (now ⊕ l1_to_lsu_t cfg ⊕ miss_penalty cfg) l] ++ [] ++ [] = [w]
      ∧ answers now l w) as Hans.
    { eexists. split; [done|]. eapply answer_call_answers; [done|].
      rewrite (u64_id (now + _)), u64_id; unfold in_u64; lia. }
    apply wp_when.
    + intros Hfull%Z.leb_le.
      destruct (map_begin (LRU s)) as [[t q]|] eqn:Eb; cycle 1.
      { apply map_begin_None in Eb. rewrite Eb, map_size_empty in Hfull. lia. }
      apply map_begin_Some in Eb as [Et _]. rewrite (iterators_valid _ Hc _ _ Et).
      wp_steps. split_and!; [|done|exact Hans].
      apply consistent_add; [by apply consistent_evict; [constructor; apply Hc|]|].
      cbn. by rewrite lookup_delete_None; right.
    + intros _. wp_steps. split_and!; [|done|exact Hans]. apply consistent_add; [by constructor; apply Hc|done].
Qed.

Lemma process_requests_safe cfg now i s :
  consistent s → 0 < num_entries cfg → page_sz_log2 cfg < 64 → in_time cfg now →
  Forall (λ l, from l ≠ []) (req_q (queues s)) →
  wp no_failure (process_requests cfg i now) s (λ _ s' o,
    consistent s' ∧ queues s' = (queues s) <| req_q := drop i (req_q (queues s)) |> ∧
    Forall2 (answers now) (take i (req_q (queues s))) o).
Proof.
  intros Hc Hn Hpg Ht. revert s Hc. induction i as [|i IH]; intros s Hc Hq; cbn [process_requests].
  { wp_steps. split_and!; [done| |constructor]. by destruct s as [[]]. }
  wp_steps. destruct (req_q (queues s)) as [|l q] eqn:Eq.
  { wp_steps. split_and!; [done| |constructor]. destruct s as [[]]. cbn in *. by subst. }
  inv Hq. wp_steps. eapply wp_mono; [apply process_request_safe; try done; by constructor; apply Hc|].
  cbn. intros _ s1 o1 (Hc1 & Hq1 & w & -> & Hw).
  eapply wp_mono; [apply IH; [done|by rewrite Hq1]|].
  cbn. intros _ s2 o2 (Hc2 & Hq2 & Ho). rewrite Hq1 in *. cbn in *.
  split_and!; [done..|]. constructor; done.
Qed.
(** *** The main properties *)

Lemma tracks_init capacity now : 0 <= now → tracks capacity [] now init.
Proof.
  intros Hn. constructor; cbn; try constructor; try set_solver by lia; lia.
Qed.

Lemma tracks_queues capacity stamps now s f :
  tracks capacity stamps now s → tracks capacity stamps now (s <| queues ::= f |>).
Proof. intros []. by constructor. Qed.

Definition rearm (cfg : config) (now : Z) (rest : list LQE) : list call :=
  match rest with
  | [] => []
  | _ => [geq_add_event (now ⊕ process_interval cfg) (this cfg)]
  end.

(** C25: with one request per cycle the TLB refines a least-recently-used list of pages:
    the oldest request is served; it hits exactly when its page is one of the last
    [num_entries] distinct pages accessed, is answered after the hit latency or after
    the hit latency and the miss penalty, and moves its page to the front, pushing the
    least recently used page out of a full buffer. *)
Theorem tlb_refines_lru cfg capacity stamps now s l rest top r :
  tracks capacity stamps now s → num_entries cfg = Z.of_nat capacity → (0 < capacity)%nat →
  speedup cfg = 1 → page_sz_log2 cfg < 64 →
  req_q (drain_req now (queues s)) = l :: rest → from l = top :: r →
  ∃ s' stamps',
    process_event cfg now s =
      Ok (0, s', lru_answer cfg stamps.*2 now top l :: rearm cfg now rest) ∧
    req_q (queues s') = rest ∧
    tracks capacity stamps' (now + 1) s' ∧
    stamps'.*2 = lru_access capacity (shr (address l) (page_sz_log2 cfg)) stamps.*2.
Proof.
  intros Ht Hcfg Hpos Hspeed Hpg Hq Hl.
  assert (wp no_failure (process_event cfg now) s (λ a s' o, a = 0 ∧
    o = lru_answer cfg stamps.*2 now top l :: rearm cfg now rest ∧ req_q (queues s') = rest ∧
    ∃ stamps', tracks capacity stamps' (now + 1) s' ∧
      stamps'.*2 = lru_access capacity (shr (address l) (page_sz_log2 cfg)) stamps.*2)) as H.
  { unfold process_event. rewrite Hspeed. change (Z.to_nat 1) with 1%nat. cbn [process_requests].
    wp_steps. cbn [queues set]. rewrite Hq. wp_steps.
    eapply wp_mono; [eapply (process_request_lru _ capacity stamps); [|done..]; by do 2 apply tracks_queues|].
    cbn. intros _ s' o (Hqs & -> & stamps' & Ht' & Hs'). wp_steps. rewrite Hqs. cbn.
    destruct rest; cbn; wp_steps; rewrite Hqs; (split_and!; [done..|by eauto]). }
  apply wp_total in H as (a & s' & o & E & -> & -> & Hrest & stamps' & Ht' & Hs').
  by exists s', stamps'.
Qed.

(** C26: whatever [speedup] is, the TLB answers the oldest [speedup] requests in the order
    they came, each exactly once, to the component on top of its stack and not before
    [curr_time]; the others stay queued, in order; and it never uses an iterator of
    [LRU] that is no longer valid. *)
Theorem tlb_answers_in_order cfg now s :
  consistent s → 0 < num_entries cfg → page_sz_log2 cfg < 64 → in_time cfg now →
  Forall (λ l, from l ≠ []) (req_q (drain_req now (queues s))) →
  let q := req_q (drain_req now (queues s)) in
  let n := Z.to_nat (speedup cfg) in
  ∃ s' o, process_event cfg now s = Ok (0, s', o ++ rearm cfg now (drop n q)) ∧
    consistent s' ∧ req_q (queues s') = drop n q ∧ Forall2 (answers now) (take n q) o.
Proof.
  intros Hc Hn Hpg Ht Hall q n.
  assert (wp no_failure (process_event cfg now) s (λ a s' o, a = 0 ∧
    ∃ o', o = o' ++ rearm cfg now (drop n q) ∧ consistent s' ∧
      req_q (queues s') = drop n q ∧ Forall2 (answers now) (take n q) o')) as H.
  { unfold process_event. wp_steps.
    eapply wp_mono; [apply process_requests_safe; try done; by constructor; apply Hc|].
    cbn [queues set]. intros _ s1 o1 (Hc1 & Hq1 & Ho1). wp_steps. rewrite Hq1.
    cbn [req_q set RecordSettersUsingExistingGetters.const]. fold q n. fold q n in Ho1.
    destruct (drop n q) eqn:Ed; cbn; wp_steps; (split; [done|]); exists o1; cbn;
      rewrite ?Hq1, ?app_nil_r; split_and!; try done. }
  apply wp_total in H as (a & s' & o & E & -> & o' & -> & Hc' & Hrest & Ho). by exists s', o'.
Qed.

(** Two data-TLB requests of one tick, for two pages each time. *)
Definition wide_cfg : config :=
  {| this := Build_Comp ct_tlbl1d 0; process_interval := 10; num_entries := 2; l1_to_lsu_t := 0;
     page_sz_log2 := 12; miss_penalty := 100; speedup := 2 |}.
Definition page_request (page : Z) : LQE :=
  new_lqe (Build_Comp ct_o3core 0) et_tlb_rd (page * 4096) 0.
Definition two_requests (t p1 p2 : Z) (s : state) : state :=
  s <| queues ::= insert_req t (page_request p1) |> <| queues ::= insert_req t (page_request p2) |>.

Definition two_ticks : outcome state :=
  '(_, s1, _) ← process_event wide_cfg 10 (two_requests 10 1 2 init);
  '(_, s2, _) ← process_event wide_cfg 20 (two_requests 20 3 4 s1);
  mret s2.

(** With [speedup] two (the sample machine uses four) the buffer outgrows
    [num_entries]: the second page accessed in a tick finds the tick taken in [LRU], so
    it never becomes a victim, and the size test looks at [LRU] only. *)
Theorem tlb_wide_overflows :
  ∃ s, two_ticks = Ok s ∧ num_entries wide_cfg = 2 ∧
    Z.of_nat (size (entries s)) = 3 ∧ Z.of_nat (size (LRU s)) = 1.
Proof.
  assert (match two_ticks with
          | Ok s => (Z.of_nat (size (entries s)), Z.of_nat (size (LRU s)))
          | Err _ => (0, 0)
          end = (3, 1)) as H by (vm_compute; reflexivity).
  destruct two_ticks as [s|f]; [|discriminate]. injection H as H1 H2. by exists s.
Qed.

Definition narrow_cfg : config := wide_cfg <| speedup := 1 |>.

Example tlb_refines_lru_witness :
  ∃ s' stamps',
    process_event narrow_cfg 10 (two_requests 10 1 2 init) =
      Ok (0, s', lru_answer narrow_cfg [] 10 (Build_Comp ct_o3core 0) (page_request 1)
                 :: rearm narrow_cfg 10 [page_request 2]) ∧
    req_q (queues s') = [page_request 2] ∧
    tracks 2 stamps' 11 s' ∧ stamps'.*2 = lru_access 2 1 [].
Proof.
  apply (tlb_refines_lru narrow_cfg 2 [] 10 (two_requests 10 1 2 init)
    (page_request 1) [page_request 2] (Build_Comp ct_o3core 0) []).
  - apply tracks_queues, tracks_queues, tracks_init. lia.
  - reflexivity.
  - lia.
  - reflexivity.
  - reflexivity.
  - reflexivity.
  - reflexivity.
Defined.

Example tlb_answers_in_order_witness :
  ∃ s' o, process_event wide_cfg 10 (two_requests 10 1 2 init) = Ok (0, s', o ++ []) ∧
    consistent s' ∧ req_q (queues s') = [] ∧ Forall2 (answers 10) [page_request 1; page_request 2] o.
Proof.
  apply (tlb_answers_in_order wide_cfg 10 (two_requests 10 1 2 init)).
  - constructor. intros t page. cbn. by rewrite lookup_empty.
  - reflexivity.
  - reflexivity.
  - unfold in_time, in_u32. cbn. lia.
  - cbn. repeat constructor; done.
Defined.
End TLBL1.
