(* ===== verification/Crossbar.v ===== *)
(** * The crossbar between the L2 caches and the directories (Crossbar, PTSXbar.h and
    PTSXbar.cc)

    Messages wait in one queue per source port, replies before coherence requests before
    requests.  Each cycle the ports are served in a rotating order, a port sends at most
    two messages, and a destination receives at most one. *)

From S2P Require Export Component.

Module Crossbar.
Import MultiMap.

(** [enum noc_priority]: the order of the keys of the queues. *)
Inductive noc_priority : Set := noc_rep | noc_crq | noc_req.

Definition rank (p : noc_priority) : Z :=
  match p with noc_rep => 0 | noc_crq => 1 | noc_req => 2 end.

#[export] Instance noc_priority_eq_dec : EqDecision noc_priority.
Proof. solve_decision. Defined.

(** [EventPair], with the priority it is queued under. *)
Record message := { prio : noc_priority; lqe : LQE; dest : Comp }.

Record config := {
  this : Comp;
  process_interval : Z;
  xbar_to_dir_t : Z;
  xbar_to_l2_t : Z;
  num_ports : Z;
  directory : list Comp;
  which_mc : Z → outcome Z }.

Definition make_config (p : params) (c : Comp) (num_ports_ : Z) (dirs : list Comp)
    (which_mc_ : Z → outcome Z) : config :=
  let get := get_param_uint64 p (c_type c) in
  {| this := c;
     process_interval := get "process_interval" 10;
     xbar_to_dir_t := get "to_dir_t" 90;
     xbar_to_l2_t := get "to_l2_t" 90;
     num_ports := num_ports_;
     directory := dirs;
     which_mc := which_mc_ |}.

Record state := {
  num_req : Z;
  num_rep : Z;
  num_crq : Z;
  num_flits : Z;
  num_data_transfers : Z;
  crq_events : list (Z * (LQE * Comp));
  req_events : list (Z * (LQE * Comp));
  rep_events : list (Z * (LQE * Comp));
  queues : list (list (Z * message));
  already_sent : list bool;
  clockwise : bool;
  top_priority : Z }.

Definition init (num_ports_ : Z) : state :=
  {| num_req := 0; num_rep := 0; num_crq := 0; num_flits := 0; num_data_transfers := 0;
     crq_events := []; req_events := []; rep_events := [];
     queues := replicate (Z.to_nat num_ports_) [];
     already_sent := replicate (Z.to_nat num_ports_) false;
     clockwise := true; top_priority := 0 |}.

Section Handlers.
Context (cfg : config).

(** [ASSERTX(from)]. *)
Definition checked_source (src : option Comp) : outcome Comp :=
  match src with Some c => Ok c | None => Err Fatal end.

Definition add_req_event (event_time : Z) (local_event : LQE) (src : option Comp)
    : proc call state unit :=
  c ← lift (checked_source src);
  t ← lift (align_up event_time (process_interval cfg));
  _ ← modify (λ s, s <| num_req ::= λ n, n ⊕ 1 |> <| num_flits ::= λ n, n ⊕ 1 |>);
  _ ← emit (geq_add_event t (this cfg));
  modify (λ s, s <| req_events ::= mm_insert t (local_event, c) |>).

Definition add_crq_event (event_time : Z) (local_event : LQE) (src : option Comp)
    : proc call state unit :=
  c ← lift (checked_source src);
  t ← lift (align_up event_time (process_interval cfg));
  _ ← modify (λ s, s <| num_crq ::= λ n, n ⊕ 1 |> <| num_flits ::= λ n, n ⊕ 1 |>);
  _ ← emit (geq_add_event t (this cfg));
  modify (λ s, s <| crq_events ::= mm_insert t (local_event, c) |>).

Definition add_rep_event (event_time : Z) (local_event : LQE) (src : option Comp)
    : proc call state unit :=
  c ← lift (checked_source src);
  t ← lift (align_up event_time (process_interval cfg));
  _ ← modify (λ s, s <| num_rep ::= λ n, n ⊕ 1 |> <| num_flits ::= λ n, n ⊕ 1 |>);
  _ ← emit (geq_add_event t (this cfg));
  modify (λ s, s <| rep_events ::= mm_insert t (local_event, c) |>).

(** The copy a data transfer sends for each of its flits but the last. *)
Definition dummy_lqe (l : LQE) : LQE := l <| dummy := true |> <| rob_entry := -1 |>.

(** The overloads with [num_flits]: the loop bound [num_flits - 1] is a [uint32_t]. *)
Definition add_crq_flits (event_time : Z) (local_event : LQE) (flits : Z) (src : option Comp)
    : proc call state unit :=
  _ ← for_each (upto (flits ⊖₃₂ 1)) (λ _,
        _ ← add_crq_event event_time (dummy_lqe local_event) src;
        modify (λ s, s <| num_crq ::= λ n, n ⊕ 1 |>));
  _ ← add_crq_event event_time local_event src;
  modify (λ s, s <| num_data_transfers ::= λ n, n ⊕ 1 |>).

Definition add_rep_flits (event_time : Z) (local_event : LQE) (flits : Z) (src : option Comp)
    : proc call state unit :=
  _ ← for_each (upto (flits ⊖₃₂ 1)) (λ _,
        _ ← add_rep_event event_time (dummy_lqe local_event) src;
        modify (λ s, s <| num_rep ::= λ n, n ⊕ 1 |>));
  _ ← add_rep_event event_time local_event src;
  modify (λ s, s <| num_data_transfers ::= λ n, n ⊕ 1 |>).

(** [queues[port].insert(pair(p, EventPair(l, d)))]. *)
Definition enqueue (port : Z) (p : noc_priority) (l : LQE) (d : Comp) : proc call state unit :=
  q ← reads queues;
  _ ← lift (vec_get q port);
  modify (λ s, s <| queues ::= vec_alter (mm_insert (rank p) (Build_message p l d)) port |>).

(** The reply types whose target is the directory of the address. *)
Definition to_directory (t : event_type) : bool :=
  match t with
  | et_evict | et_invalidate | et_invalidate_nd | et_nop | et_e_to_i | et_e_to_m => true
  | _ => false
  end.

Definition home_directory (addr : Z) : outcome Comp :=
  i ← which_mc cfg addr;
  vec_get (directory cfg) i.

(** The three loops that queue the events of [curr_time]. *)
Definition route_rep (e : LQE * Comp) : proc call state unit :=
  let '(l, src) := e in
  d ← lift (if to_directory (type l) then home_directory (address l) else from_top l);
  enqueue (c_num src) noc_rep l d.

(** The target L2 is on top of the stack, and leaves it. *)
Definition route_crq (e : LQE * Comp) : proc call state unit :=
  let '(l, src) := e in
  d ← lift (from_top l);
  l' ← lift (from_pop l);
  enqueue (c_num src) noc_crq l' d.

Definition route_req (e : LQE * Comp) : proc call state unit :=
  let '(l, src) := e in
  d ← lift (home_directory (address l));
  enqueue (c_num src) noc_req l d.

Definition receive (curr_time : Z) : proc call state unit :=
  s ← reads (λ s, s);
  _ ← for_each (mm_drain curr_time (rep_events s)).1 route_rep;
  _ ← for_each (mm_drain curr_time (crq_events s)).1 route_crq;
  _ ← for_each (mm_drain curr_time (req_events s)).1 route_req;
  modify (λ s, s <| req_events ::= mm_erase curr_time |>
                 <| crq_events ::= mm_erase curr_time |>
                 <| rep_events ::= mm_erase curr_time |>).

(** One attempt to send the message at position [pos] of queue [idx]; whether it left. *)
Definition send_at (curr_time idx : Z) (pos : nat) : proc call state bool :=
  qs ← reads queues;
  q ← lift (vec_get qs idx);
  match q !! pos with
  | None => mret false
  | Some (_, m) =>
      sent ← reads already_sent;
      busy ← lift (vec_get sent (c_num (dest m)));
      if busy : bool then mret false
      else
        _ ← modify (λ s, s <| already_sent ::= vec_set (c_num (dest m)) true |>);
        _ ← emit (if dummy (lqe m) then free_lqe (lqe m)
                  else if bool_decide (prio m = noc_req)
                  then Component.add_req_event (dest m) (curr_time ⊕ xbar_to_dir_t cfg) (lqe m) None
                  else Component.add_rep_event (dest m) (curr_time ⊕ xbar_to_dir_t cfg) (lqe m) None);
        _ ← modify (λ s, s <| queues ::= vec_alter (delete pos) idx |>);
        mret true
  end.

(** The port served in round [i]. *)
Definition port_of (s : state) (i : Z) : Z :=
  (top_priority s ⊕₃₂ num_ports cfg ⊕₃₂ (if clockwise s then i else 0 ⊖₃₂ i)) mod num_ports cfg.

(** A port tries its first message and then the next one: the second if the first was
    held back, the new first otherwise. *)
Definition serve_port (curr_time i : Z) : proc call state unit :=
  idx ← reads (λ s, port_of s i);
  sent ← send_at curr_time idx 0;
  _ ← send_at curr_time idx (if sent : bool then 0%nat else 1%nat);
  mret tt.

Definition rotate (s : state) : state :=
  if clockwise s then s <| clockwise := false |>
  else s <| clockwise := true |> <| top_priority ::= λ p, (p ⊕₃₂ 1) mod num_ports cfg |>.

Definition process_event (curr_time : Z) : proc call state Z :=
  _ ← receive curr_time;
  _ ← modify (λ s, s <| already_sent := replicate (length (already_sent s)) false |>);
  _ ← for_each (upto (num_ports cfg)) (serve_port curr_time);
  c ← reads clockwise;
  _ ← when (negb c && (num_ports cfg =? 0)) (fails Undef);
  _ ← modify rotate;
  qs ← reads queues;
  _ ← when (existsb (λ q, negb (bool_decide (length q = 0%nat))) qs)
        (emit (geq_add_event (curr_time ⊕ process_interval cfg) (this cfg)));
  mret 0.
End Handlers.

(** ** What a cycle does *)

(** The messages waiting in the queues. *)
Definition waiting (s : state) : list message := concat (map (λ q, q.*2) (queues s)).

Definition num_of (m : message) : Z := c_num (dest m).

(** The call that delivers a message; a dummy flit only occupies the channel. *)
Definition deliver (cfg : config) (curr_time : Z) (m : message) : call :=
  if dummy (lqe m) then free_lqe (lqe m)
  else if bool_decide (prio m = noc_req)
  then Component.add_req_event (dest m) (curr_time ⊕ xbar_to_dir_t cfg) (lqe m) None
  else Component.add_rep_event (dest m) (curr_time ⊕ xbar_to_dir_t cfg) (lqe m) None.

Definition busy (s : state) (n : Z) : Prop := vec_get (already_sent s) n = Ok true.

(** One queue and one flag per port, and every waiting message for an existing port. *)
Record wf (cfg : config) (s : state) : Prop := {
  wf_queues : Z.of_nat (length (queues s)) = num_ports cfg;
  wf_sent : Z.of_nat (length (already_sent s)) = num_ports cfg;
  wf_dest : Forall (λ m, 0 ≤ num_of m < num_ports cfg) (waiting s) }.

(** The cycle turned [s] into [s'] by delivering [ms]. *)
Record sends (cfg : config) (now : Z) (s s' : state) (o : list call) : Prop := {
  sends_messages : ∃ ms, o = map (deliver cfg now) ms ∧
    waiting s ≡ₚ ms ++ waiting s' ∧ NoDup (map num_of ms) ∧
    Forall (λ m, ¬ busy s (num_of m) ∧ busy s' (num_of m)) ms;
  sends_busy n : busy s n → busy s' n;
  sends_clockwise : clockwise s' = clockwise s;
  sends_top : top_priority s' = top_priority s }.

Lemma sends_refl cfg now s : sends cfg now s s [].
Proof. constructor; [|done..]. exists []. split_and!; [done..|constructor|constructor]. Qed.

Lemma sends_trans cfg now s1 s2 s3 o1 o2 :
  sends cfg now s1 s2 o1 → sends cfg now s2 s3 o2 → sends cfg now s1 s3 (o1 ++ o2).
Proof.
  intros [(ms1 & -> & Hp1 & Hn1 & Hf1) Hb1 ? ?] [(ms2 & -> & Hp2 & Hn2 & Hf2) Hb2 ? ?].
  rewrite Forall_forall in Hf1, Hf2. constructor; [|by auto|congruence..].
  exists (ms1 ++ ms2). rewrite !map_app. split_and!; [done| | |].
  - by rewrite Hp1, Hp2, app_assoc.
  - apply NoDup_app. split_and!; [done| |done].
    intros n (m1 & -> & Hm1)%list_elem_of_fmap (m2 & Heq & Hm2)%list_elem_of_fmap.
    destruct (Hf1 _ Hm1) as [_ Hbusy], (Hf2 _ Hm2) as [Hfree _].
    rewrite Heq in Hbusy. done.
  - apply Forall_app. rewrite !Forall_forall. split.
    + intros m Hm. destruct (Hf1 _ Hm). auto.
    + intros m Hm. destruct (Hf2 _ Hm). auto.
Qed.

(** Taking one message out of, or putting one into, the queue of a port. *)
Lemma waiting_alter (s : state) f idx q :
  vec_get (queues s) idx = Ok q →
  ∃ before after, waiting s = before ++ q.*2 ++ after ∧
    concat (map (λ q, q.*2) (vec_alter f idx (queues s))) = before ++ (f q).*2 ++ after.
Proof.
  unfold waiting. rewrite vec_get_Some. intros [Hi Hq]. unfold vec_alter.
  destruct (Z.ltb_spec idx 0); [lia|].
  pose proof (take_drop_middle _ _ _ Hq) as Hsplit.
  assert (length (take (Z.to_nat idx) (queues s)) = Z.to_nat idx) as Hlen.
  { apply length_take_le. apply lookup_lt_Some in Hq. lia. }
  revert Hsplit Hlen. generalize (take (Z.to_nat idx) (queues s)) as l1.
  generalize (drop (S (Z.to_nat idx)) (queues s)) as l2. intros l2 l1 <- Hlen.
  exists (concat (map (λ q, q.*2) l1)), (concat (map (λ q, q.*2) l2)). split.
  - by rewrite map_app, concat_app.
  - rewrite alter_app_r_alt by lia. rewrite Hlen, Nat.sub_diag.
    by rewrite map_app, concat_app.
Qed.

Lemma delete_perm {A} (l : list A) i x : l !! i = Some x → l ≡ₚ x :: delete i l.
Proof. intros H. rewrite (delete_take_drop l i). rewrite <- (take_drop_middle l i x) at 1 by done. solve_Permutation. Qed.

Lemma wp_send_at cfg now idx pos s :
  wf cfg s → 0 ≤ idx < num_ports cfg →
  wp no_failure (send_at cfg now idx pos) s (λ _ s' o, wf cfg s' ∧ sends cfg now s s' o).
Proof.
  intros Hwf Hidx. unfold send_at. wp_steps.
  destruct (vec_get_lt (queues s) idx) as [q Hq]; [destruct Hwf; lia|].
  apply (wp_lift_ok _ _ q); [done|].
  destruct (q !! pos) as [[k m]|] eqn:Hpos; [|wp_steps; split; [done|apply sends_refl]].
  destruct (waiting_alter s (delete pos) idx q Hq) as (before & after & Hw & Hw').
  assert (waiting s ≡ₚ m :: concat (map (λ q, q.*2) (vec_alter (delete pos) idx (queues s)))) as Hperm.
  { rewrite Hw, Hw'. rewrite (delete_perm q pos (k, m) Hpos) at 1. cbn. solve_Permutation. }
  assert (0 ≤ num_of m < num_ports cfg) as Hm.
  { pose proof (wf_dest _ _ Hwf) as Hd. rewrite Hperm in Hd. by inv Hd. }
  wp_steps. destruct (vec_get_lt (already_sent s) (num_of m)) as [b Hb]; [destruct Hwf; lia|].
  apply (wp_lift_ok _ _ b); [done|]. destruct b; [wp_steps; split; [done|apply sends_refl]|].
  wp_steps. cbn. split.
  - destruct Hwf as [Hlq Hls Hd]. constructor; cbn; unfold vec_set; rewrite ?length_vec_alter; [done..|].
    unfold waiting. cbn. rewrite Hperm in Hd. by inv Hd.
  - constructor; cbn; [|intros n Hn|done..].
    + exists [m]. split_and!; [done|done|apply NoDup_singleton|]. repeat constructor; unfold busy; cbn.
      * unfold num_of in *. congruence.
      * by eapply vec_get_set.
    + unfold busy in *. cbn. destruct (decide (n = c_num (dest m))) as [->|Hne].
      * by eapply vec_get_set.
      * by rewrite vec_get_set_ne.
Qed.
Lemma port_of_range cfg s i : 0 < num_ports cfg → 0 ≤ port_of cfg s i < num_ports cfg.
Proof. intros Hn. apply Z.mod_pos_bound. lia. Qed.

Lemma wp_serve_port cfg now i s :
  wf cfg s → 0 < num_ports cfg →
  wp no_failure (serve_port cfg now i) s (λ _ s' o, wf cfg s' ∧ sends cfg now s s' o).
Proof.
  intros Hwf Hn. unfold serve_port. wp_steps. pose proof (port_of_range cfg s i Hn) as Hidx.
  eapply wp_mono; [by apply wp_send_at|]. cbn. intros sent s1 o1 [Hwf1 Hs1].
  wp_steps. eapply wp_mono; [by apply wp_send_at|]. cbn. intros _ s2 o2 [Hwf2 Hs2]. wp_steps.
  split; [done|]. rewrite app_nil_r. by eapply sends_trans.
Qed.

Lemma wp_serve_all cfg now l s :
  wf cfg s → 0 < num_ports cfg →
  wp no_failure (for_each l (serve_port cfg now)) s
    (λ _ s' o, wf cfg s' ∧ sends cfg now s s' o).
Proof.
  intros Hwf Hn. apply (wp_for_each _ (sends cfg now) (wf cfg)); [apply sends_refl|apply sends_trans| |done].
  intros i s' _ Hs'. by apply wp_serve_port.
Qed.

(** *** Receiving the events of the tick *)

(** An event the crossbar can route: it comes from a port, and its target exists. *)
Definition routable (cfg : config) (target : LQE → outcome Comp) (e : LQE * Comp) : Prop :=
  0 ≤ c_num e.2 < num_ports cfg ∧
  ∃ d, target e.1 = Ok d ∧ 0 ≤ c_num d < num_ports cfg.

(** The message an event becomes. *)
Definition routed (p : noc_priority) (target : LQE → outcome Comp) (popped : LQE → outcome LQE)
    (e : LQE * Comp) (m : message) : Prop :=
  prio m = p ∧ target e.1 = Ok (dest m) ∧ popped e.1 = Ok (lqe m).

Definition rep_target (cfg : config) (l : LQE) : outcome Comp :=
  if to_directory (type l) then home_directory cfg (address l) else from_top l.
Definition req_target (cfg : config) (l : LQE) : outcome Comp := home_directory cfg (address l).

(** [s'] is [s] with the messages [ms] added to its queues. *)
Definition receives (s s' : state) (o : list call) (ms : list message) : Prop :=
  o = [] ∧ waiting s' ≡ₚ ms ++ waiting s ∧ already_sent s' = already_sent s ∧
  clockwise s' = clockwise s ∧ top_priority s' = top_priority s ∧
  crq_events s' = crq_events s ∧ req_events s' = req_events s ∧ rep_events s' = rep_events s.

Lemma wp_enqueue cfg port p l d s :
  wf cfg s → 0 ≤ port < num_ports cfg → 0 ≤ c_num d < num_ports cfg →
  wp no_failure (enqueue port p l d) s (λ _ s' o,
    wf cfg s' ∧ receives s s' o [Build_message p l d]).
Proof.
  intros Hwf Hport Hd. unfold enqueue. wp_steps.
  destruct (vec_get_lt (queues s) port) as [q Hq]; [destruct Hwf; lia|].
  apply (wp_lift_ok _ _ q); [done|]. wp_steps.
  set (m := Build_message p l d).
  destruct (waiting_alter s (mm_insert (rank p) m) port q Hq) as (before & after & Hw & Hw').
  assert (concat (map (λ q, q.*2) (vec_alter (mm_insert (rank p) m) port (queues s))) ≡ₚ m :: waiting s) as Hperm.
  { rewrite Hw, Hw'. rewrite mm_insert_perm. cbn. solve_Permutation. }
  split; [|by split_and!]. destruct Hwf as [Hlq Hls Hdest]. constructor; cbn; rewrite ?length_vec_alter; [done..|].
  unfold waiting. cbn. rewrite Hperm. by constructor.
Qed.
Lemma receives_trans s1 s2 s3 o1 o2 ms1 ms2 :
  receives s1 s2 o1 ms1 → receives s2 s3 o2 ms2 → receives s1 s3 (o1 ++ o2) (ms1 ++ ms2).
Proof.
  intros (-> & Hw1 & ? & ? & ? & ? & ? & ?) (-> & Hw2 & ? & ? & ? & ? & ? & ?).
  split_and!; [done| |congruence..]. rewrite Hw2, Hw1. solve_Permutation.
Qed.

Lemma wp_route cfg p target popped (f : LQE * Comp → proc call state unit) es s :
  (∀ e s, e ∈ es → routable cfg target e → wf cfg s →
     wp no_failure (f e) s (λ _ s' o, wf cfg s' ∧
       ∃ m, receives s s' o [m] ∧ routed p target popped e m)) →
  Forall (routable cfg target) es → wf cfg s →
  wp no_failure (for_each es f) s (λ _ s' o, wf cfg s' ∧
    ∃ ms, receives s s' o ms ∧ Forall2 (routed p target popped) es ms).
Proof.
  intros Hf Hes. revert s. induction Hes as [|e es He Hes IH]; intros s Hwf; cbn [for_each].
  { wp_steps. split; [done|]. exists []. split; [by split_and!|constructor]. }
  wp_step. eapply wp_mono; [apply Hf; [by left|done|done]|].
  cbn. intros _ s1 o1 [Hwf1 (m & Hr1 & Hm)].
  eapply wp_mono; [apply IH; [|done]|].
  { intros e' s' He'. apply Hf. by right. }
  cbn. intros _ s2 o2 [Hwf2 (ms & Hr2 & Hms)]. split; [done|].
  exists (m :: ms). split; [|by constructor]. by apply (receives_trans s s1 s2 o1 o2 [m] ms).
Qed.

(** The events a cycle finds on its three lists can all be routed. *)
Record due_routable (cfg : config) (now : Z) (s : state) : Prop := {
  due_rep : Forall (routable cfg (rep_target cfg)) (mm_drain now (rep_events s)).1;
  due_crq : Forall (routable cfg from_top) (mm_drain now (crq_events s)).1;
  due_req : Forall (routable cfg (req_target cfg)) (mm_drain now (req_events s)).1 }.

(** The messages that the events of the tick become. *)
Definition arrivals (cfg : config) (now : Z) (s : state) (ms : list message) : Prop :=
  ∃ reps crqs reqs, ms = reps ++ crqs ++ reqs ∧
    Forall2 (routed noc_rep (rep_target cfg) Ok) (mm_drain now (rep_events s)).1 reps ∧
    Forall2 (routed noc_crq from_top from_pop) (mm_drain now (crq_events s)).1 crqs ∧
    Forall2 (routed noc_req (req_target cfg) Ok) (mm_drain now (req_events s)).1 reqs.

Lemma wp_receive cfg now s :
  wf cfg s → due_routable cfg now s →
  wp no_failure (receive cfg now) s (λ _ s' o, wf cfg s' ∧ o = [] ∧
    clockwise s' = clockwise s ∧ top_priority s' = top_priority s ∧
    rep_events s' = mm_erase now (rep_events s) ∧ crq_events s' = mm_erase now (crq_events s) ∧
    req_events s' = mm_erase now (req_events s) ∧
    ∃ ms, arrivals cfg now s ms ∧ waiting s' ≡ₚ ms ++ waiting s).
Proof.
  intros Hwf [Hrep Hcrq Hreq]. unfold receive. wp_steps.
  eapply wp_mono; [apply (wp_route cfg noc_rep (rep_target cfg) Ok); [|done|done]|].
  { intros [l src] s' _ (Hp & d & Hd & Hdn) Hwf'. cbn in Hp, Hd. unfold route_rep. wp_step.
    apply (wp_lift_ok _ _ d); [done|]. eapply wp_mono; [by eapply wp_enqueue|].
    cbn. intros _ s2 o2 [? ?]. split; [done|]. eexists. split; [done|]. by split_and!. }
  cbn. intros _ s1 o1 [Hwf1 (reps & R1 & Hreps)]. wp_step.
  eapply wp_mono; [apply (wp_route cfg noc_crq from_top from_pop); [|done|done]|].
  { intros [l src] s' _ (Hp & d & Hd & Hdn) Hwf'. cbn in Hp, Hd. unfold route_crq. wp_step.
    apply (wp_lift_ok _ _ d); [done|]. wp_step.
    unfold from_top in Hd. destruct (from l) as [|top r] eqn:El; [done|]. injection Hd as ->.
    apply (wp_lift_ok _ _ (l <| from := r |>)); [by unfold from_pop; rewrite El|].
    eapply wp_mono; [by eapply wp_enqueue|]. cbn. intros _ s2 o2 [? ?]. split; [done|].
    eexists. split; [done|]. unfold routed, from_top, from_pop. cbn. by rewrite El. }
  cbn. intros _ s2 o2 [Hwf2 (crqs & R2 & Hcrqs)]. wp_step.
  eapply wp_mono; [apply (wp_route cfg noc_req (req_target cfg) Ok); [|done|done]|].
  { intros [l src] s' _ (Hp & d & Hd & Hdn) Hwf'. cbn in Hp, Hd. unfold route_req. wp_step.
    apply (wp_lift_ok _ _ d); [done|]. eapply wp_mono; [by eapply wp_enqueue|].
    cbn. intros _ s3 o3 [? ?]. split; [done|]. eexists. split; [done|]. by split_and!. }
  cbn. intros _ s3 o3 [Hwf3 (reqs & R3 & Hreqs)]. wp_steps.
  pose proof (receives_trans _ _ _ _ _ _ _ (receives_trans _ _ _ _ _ _ _ R1 R2) R3)
    as (Ho & Hw & _ & Hc & Ht & He1 & He2 & He3).
  split_and!; cbn; rewrite <- ?He1, <- ?He2, <- ?He3; try done.
  - destruct Hwf3. by constructor.
  - rewrite !app_nil_r. by rewrite <- app_assoc in Ho.
  - exists (reps ++ crqs ++ reqs). split; [by exists reps, crqs, reqs|].
    etrans; [exact Hw|]. by rewrite <- !app_assoc.
Qed.
(** *** Every port is served once, from a rotating start *)

Lemma port_of_spec cfg s i :
  0 < num_ports cfg < 2 ^ 30 → 0 ≤ top_priority s < num_ports cfg → 0 ≤ i < num_ports cfg →
  port_of cfg s i =
    (if clockwise s then top_priority s + i else top_priority s - i) mod num_ports cfg.
Proof.
  intros Hn Ht Hi. unfold port_of, u32.
  rewrite (Z.mod_small (top_priority s + num_ports cfg)) by lia.
  destruct (clockwise s).
  - rewrite (Z.mod_small _ (2 ^ 32)) by lia. rewrite <- (Z.mod_add (top_priority s + i) 1) by lia. f_equal. lia.
  - rewrite Z.add_mod_idemp_r by lia. rewrite (Z.mod_small _ (2 ^ 32)) by lia.
    rewrite <- (Z.mod_add (top_priority s - i) 1) by lia. f_equal. lia.
Qed.

Lemma mod_inj n a b : 0 < n → - n < a - b < n → a mod n = b mod n → a = b.
Proof.
  intros Hn Hab Hm. pose proof (Z.div_mod a n ltac:(lia)). pose proof (Z.div_mod b n ltac:(lia)).
  destruct (Z.lt_trichotomy (a / n) (b / n)) as [?|[?|?]]; nia.
Qed.

Lemma port_of_perm cfg s :
  0 < num_ports cfg < 2 ^ 30 → 0 ≤ top_priority s < num_ports cfg →
  map (port_of cfg s) (upto (num_ports cfg)) ≡ₚ upto (num_ports cfg).
Proof.
  intros Hn Ht. apply NoDup_Permutation.
  - apply NoDup_fmap_2_strong; [|apply NoDup_seqZ].
    intros i j Hi%elem_of_upto Hj%elem_of_upto. rewrite !port_of_spec by done.
    destruct (clockwise s); intros H%mod_inj; lia.
  - apply NoDup_seqZ.
  - intros p. rewrite elem_of_upto. split.
    + intros (i & -> & _)%list_elem_of_fmap. apply port_of_range. lia.
    + intros Hp. apply list_elem_of_fmap. destruct (clockwise s) eqn:Hc.
      * pose proof (Z.mod_pos_bound (p - top_priority s) (num_ports cfg) ltac:(lia)).
        exists ((p - top_priority s) mod num_ports cfg). split; [|by apply elem_of_upto].
        rewrite port_of_spec, Hc by done. rewrite Z.add_mod_idemp_r by lia.
        rewrite <- (Z.mod_small p (num_ports cfg)) at 1 by lia. f_equal. lia.
      * pose proof (Z.mod_pos_bound (top_priority s - p) (num_ports cfg) ltac:(lia)).
        exists ((top_priority s - p) mod num_ports cfg). split; [|by apply elem_of_upto].
        rewrite port_of_spec, Hc by done. rewrite Zminus_mod_idemp_r.
        rewrite <- (Z.mod_small p (num_ports cfg)) at 1 by lia. f_equal. lia.
Qed.

Lemma rotate_twice cfg s :
  clockwise s = true → clockwise (rotate cfg (rotate cfg s)) = true ∧
  top_priority (rotate cfg (rotate cfg s)) = (top_priority s ⊕₃₂ 1) mod num_ports cfg.
Proof. intros Hc. unfold rotate. rewrite Hc. by destruct s. Qed.

Lemma rotate_iter cfg s k :
  0 < num_ports cfg < 2 ^ 30 → 0 ≤ top_priority s < num_ports cfg → clockwise s = true →
  clockwise (Nat.iter (2 * k) (rotate cfg) s) = true ∧
  top_priority (Nat.iter (2 * k) (rotate cfg) s) = (top_priority s + Z.of_nat k) mod num_ports cfg.
Proof.
  intros Hn Ht Hc. induction k as [|k [IHc IHt]].
  { cbn. split; [done|]. rewrite Z.add_0_r. by rewrite Z.mod_small. }
  replace (2 * S k)%nat with (S (S (2 * k))) by lia.
  change (Nat.iter (S (S (2 * k))) (rotate cfg) s)
    with (rotate cfg (rotate cfg (Nat.iter (2 * k) (rotate cfg) s))).
  destruct (rotate_twice cfg _ IHc) as [Hc' Ht']. split; [exact Hc'|].
  rewrite Ht', IHt. pose proof (Z.mod_pos_bound (top_priority s + Z.of_nat k) (num_ports cfg) ltac:(lia)).
  rewrite u32_id by (unfold in_u32; lia). rewrite Z.add_mod_idemp_l by lia. f_equal. lia.
Qed.

(** *** Progress *)

Definition all_free (s : state) : Prop := ∀ n, ¬ busy s n.

Lemma wp_send_idle cfg now idx pos s q :
  vec_get (queues s) idx = Ok q →
  wp any_failure (send_at cfg now idx pos) s (λ b s' o,
    (b = false → s' = s ∧ o = [] ∧
       ∀ k m, q !! pos = Some (k, m) → busy s (num_of m)) ∧
    (b = true → ∃ k m, q !! pos = Some (k, m) ∧ ¬ busy s (num_of m) ∧ o = [deliver cfg now m] ∧
       vec_get (queues s') idx = Ok (delete pos q) ∧
       already_sent s' = vec_set (num_of m) true (already_sent s))).
Proof.
  intros Hq. unfold send_at. wp_steps. apply (wp_lift_ok _ _ q); [done|].
  destruct (q !! pos) as [[k m]|] eqn:Hpos; [|by wp_steps].
  wp_steps. apply wp_lift; [|done]. intros b Hb. destruct b; wp_steps.
  - split; [|done]. intros _. split_and!; [done..|]. by intros ? ? [= <- <-].
  - split; [done|]. intros _. exists k, m. split_and!; [done| |done| |done].
    + unfold busy, num_of. congruence.
    + cbn. by apply vec_get_alter.
Qed.

Lemma wp_serve_idle cfg now i s q :
  all_free s → vec_get (queues s) (port_of cfg s i) = Ok q →
  wp any_failure (serve_port cfg now i) s (λ _ s' o, o = [] → s' = s ∧ q = []).
Proof.
  intros Hfree Hq. unfold serve_port. wp_steps.
  eapply wp_mono; [by apply wp_send_idle|]. cbn. intros [] s1 o1 [Hf Ht].
  - destruct (Ht eq_refl) as (k & m & _ & _ & -> & _).
    wp_step. eapply wp_mono; [by apply wp_intro with (Q := λ _ _ _, True)|]. by intros; wp_steps.
  - destruct (Hf eq_refl) as (-> & -> & Hbusy). wp_step.
    destruct q as [|[k m] q]; [|by destruct (Hfree _ (Hbusy k m eq_refl))].
    eapply wp_mono; [by apply (wp_send_idle _ _ _ _ _ [])|]. cbn. intros b s2 o2 [Hf2 Ht2]. wp_steps.
    destruct b; [by destruct (Ht2 eq_refl) as (? & ? & ? & _)|].
    by destruct (Hf2 eq_refl) as (-> & -> & _).
Qed.

Lemma wp_serve_all_idle cfg now l s :
  all_free s → wf cfg s → 0 < num_ports cfg →
  wp any_failure (for_each l (serve_port cfg now)) s (λ _ s' o,
    o = [] → s' = s ∧ ∀ i, i ∈ l → vec_get (queues s) (port_of cfg s i) = Ok []).
Proof.
  intros Hfree Hwf Hn. induction l as [|i l IH]; cbn [for_each].
  { wp_steps. intros _. split; [done|]. set_solver. }
  destruct (vec_get_lt (queues s) (port_of cfg s i)) as [q Hq].
  { rewrite (wf_queues _ _ Hwf). by apply port_of_range. }
  wp_step. eapply wp_mono; [by apply wp_serve_idle|]. cbn. intros _ s1 o1 Hs1.
  destruct o1 as [|w o1].
  - destruct (Hs1 eq_refl) as [-> ->]. eapply wp_mono; [exact IH|]. cbn. intros _ s2 o2 Hs2 Ho2.
    destruct (Hs2 Ho2) as [-> Hl]. split; [done|]. intros j [->|Hj]%elem_of_cons; auto.
  - eapply wp_mono; [by apply wp_intro with (Q := λ _ _ _, True)|]. by intros.
Qed.

Lemma waiting_nil s : (∀ i, 0 ≤ i < Z.of_nat (length (queues s)) → vec_get (queues s) i = Ok []) →
  waiting s = [].
Proof.
  unfold waiting. intros H. apply concat_nil_Forall. apply Forall_forall.
  intros q' (q & -> & Hq)%list_elem_of_fmap. apply list_elem_of_lookup in Hq as [k Hk].
  apply lookup_lt_Some in Hk as Hlt. specialize (H (Z.of_nat k) ltac:(lia)).
  apply vec_get_Some in H as [_ H]. rewrite Nat2Z.id in H. by simplify_eq.
Qed.

Lemma any_waiting s :
  existsb (λ q, negb (bool_decide (length q = 0%nat))) (queues s) = negb (bool_decide (waiting s = [])).
Proof.
  unfold waiting. induction (queues s) as [|q qs IH]; [done|]. cbn. rewrite IH.
  destruct q; cbn; [done|]. rewrite bool_decide_false by done. done.
Qed.
Lemma all_free_reset s : all_free (s <| already_sent := replicate (length (already_sent s)) false |>).
Proof.
  intros n Hb. unfold busy in Hb. cbn in Hb. apply vec_get_Some in Hb as [_ Hb].
  by apply lookup_replicate_1 in Hb as [? _].
Qed.

Lemma nothing_sent cfg s :
  wf cfg s → 0 < num_ports cfg < 2 ^ 30 → 0 ≤ top_priority s < num_ports cfg →
  (∀ i, i ∈ upto (num_ports cfg) → vec_get (queues s) (port_of cfg s i) = Ok []) → waiting s = [].
Proof.
  intros Hwf Hn Ht Hq. apply waiting_nil. rewrite (wf_queues _ _ Hwf). intros p Hp.
  assert (p ∈ map (port_of cfg s) (upto (num_ports cfg))) as (i & -> & Hi)%list_elem_of_fmap.
  { rewrite port_of_perm by done. by apply elem_of_upto. }
  by apply Hq.
Qed.

Definition rearm (cfg : config) (now : Z) (ms : list message) : list call :=
  match ms with
  | [] => []
  | _ => [geq_add_event (now ⊕ process_interval cfg) (this cfg)]
  end.

(** *** The main properties *)

(** C27: a cycle of the crossbar.  When the due events can be routed it never fails; the
    messages that were waiting or arrived are, each exactly once, delivered or still
    waiting; no destination receives two; at least one message leaves when there is any;
    and as long as messages wait the crossbar wakes itself up for the next cycle. *)
Theorem crossbar_cycle cfg now s :
  wf cfg s → due_routable cfg now s → 0 < num_ports cfg < 2 ^ 30 →
  0 ≤ top_priority s < num_ports cfg →
  ∃ s' arrived sent,
    process_event cfg now s =
      Ok (0, s', map (deliver cfg now) sent ++ rearm cfg now (waiting s')) ∧
    wf cfg s' ∧ arrivals cfg now s arrived ∧
    arrived ++ waiting s ≡ₚ sent ++ waiting s' ∧
    NoDup (map num_of sent) ∧
    (arrived ++ waiting s ≠ [] → sent ≠ []) ∧
    clockwise s' = clockwise (rotate cfg s) ∧ top_priority s' = top_priority (rotate cfg s).
Proof.
  intros Hwf Hdue Hn Htop.
  assert (wp no_failure (process_event cfg now) s (λ a s' o, a = 0 ∧ ∃ arrived sent,
    o = map (deliver cfg now) sent ++ rearm cfg now (waiting s') ∧
    wf cfg s' ∧ arrivals cfg now s arrived ∧
    arrived ++ waiting s ≡ₚ sent ++ waiting s' ∧ NoDup (map num_of sent) ∧
    (arrived ++ waiting s ≠ [] → sent ≠ []) ∧
    clockwise s' = clockwise (rotate cfg s) ∧ top_priority s' = top_priority (rotate cfg s))) as H.
  2: { apply wp_total in H as (a & s' & o & E & -> & arrived & sent & -> & H).
       by exists s', arrived, sent. }
  unfold process_event. wp_steps. eapply wp_mono; [by apply wp_receive|].
  cbn. intros _ s1 o1 (Hwf1 & -> & Hc1 & Ht1 & _ & _ & _ & arrived & Harr & Hw1). wp_steps.
  set (s2 := s1 <| already_sent := _ |>).
  assert (wf cfg s2) as Hwf2.
  { destruct Hwf1. constructor; cbn; rewrite ?length_replicate; done. }
  assert (waiting s2 = waiting s1) as Hw2 by done.
  assert (clockwise s2 = clockwise s) as Hc2 by done.
  assert (top_priority s2 = top_priority s) as Ht2 by done.
  assert (all_free s2) as Hfree by apply all_free_reset. clearbody s2.
  assert (wp no_failure (for_each (upto (num_ports cfg)) (serve_port cfg now)) s2
    (λ _ s' o, (wf cfg s' ∧ sends cfg now s2 s' o) ∧ (o = [] → waiting s2 = []))) as Hserve.
  { pose proof (wp_serve_all cfg now (upto (num_ports cfg)) s2 Hwf2 ltac:(lia)) as Hall.
    pose proof (wp_serve_all_idle cfg now (upto (num_ports cfg)) s2 Hfree Hwf2 ltac:(lia)) as Hidle.
    unfold wp in *. destruct (for_each _ _ s2) as [[[u s3] o3]|f]; [|done]. split; [done|].
    intros Ho. destruct (Hidle Ho) as [_ Hq]. apply (nothing_sent cfg s2); try done; lia. }
  eapply wp_mono; [exact Hserve|]. cbn. intros _ s3 o3 [[Hwf3 Hsends] Hidle].
  destruct Hsends as [(sent & -> & Hperm & Hnd & _) _ Hc3 Ht3]. wp_steps.
  apply wp_when; [rewrite (proj2 (Z.eqb_neq _ _)), andb_false_r by lia; done|]. intros _. wp_steps.
  assert (waiting (rotate cfg s3) = waiting s3) as Hw4 by (unfold rotate; by case_match).
  assert (queues (rotate cfg s3) = queues s3) as Hq4 by (unfold rotate; by case_match).
  rewrite Hq4, any_waiting.
  assert (∀ o, o = rearm cfg now (waiting s3) → 0 = 0 ∧ ∃ arrived0 sent0,
    [] ++ [] ++ map (deliver cfg now) sent ++ [] ++ [] ++ [] ++ [] ++ o ++ [] =
      map (deliver cfg now) sent0 ++ rearm cfg now (waiting (rotate cfg s3)) ∧
    wf cfg (rotate cfg s3) ∧ arrivals cfg now s arrived0 ∧
    arrived0 ++ waiting s ≡ₚ sent0 ++ waiting (rotate cfg s3) ∧ NoDup (map num_of sent0) ∧
    (arrived0 ++ waiting s ≠ [] → sent0 ≠ []) ∧
    clockwise (rotate cfg s3) = clockwise (rotate cfg s) ∧
    top_priority (rotate cfg s3) = top_priority (rotate cfg s)) as Hend.
  { intros o ->. split; [done|]. exists arrived, sent. rewrite Hw4. split_and!.
    - cbn. by rewrite app_nil_r.
    - destruct Hwf3. unfold rotate. case_match; by constructor.
    - done.
    - by rewrite <- Hw1, <- Hw2.
    - done.
    - intros Hne ->. apply Hne. apply Permutation_nil_r. rewrite <- Hw1, <- Hw2. by rewrite Hidle.
    - unfold rotate. rewrite Hc3, Hc2. by destruct (clockwise s).
    - unfold rotate. rewrite Hc3, Hc2. destruct (clockwise s); cbn; congruence. }
  apply wp_when; intros Hcase; wp_steps; apply Hend; revert Hcase; unfold rearm;
    destruct (waiting s3); cbn; (done || rewrite bool_decide_true by done || rewrite bool_decide_false by done);
    done.
Qed.
(** *** Order within a port *)

Definition towards (n : Z) (ms : list message) : list message := filter (λ m, num_of m = n) ms.

Lemma towards_app n a b : towards n (a ++ b) = towards n a ++ towards n b.
Proof. apply filter_app. Qed.

Lemma towards_cons_ne n m1 m2 ms :
  num_of m1 ≠ num_of m2 → towards n (m1 :: m2 :: ms) = towards n (m2 :: m1 :: ms).
Proof. intros Hne. unfold towards. rewrite !filter_cons. repeat case_decide; congruence. Qed.

(** C28: within a port, messages for the same destination leave in the order of its queue
    (replies first, then coherence requests, then requests, and in order of arrival within
    each class): a message overtakes another only towards a different destination.  A
    port sends at most two messages per cycle. *)
Theorem port_in_order cfg now i s s' o q :
  vec_get (queues s) (port_of cfg s i) = Ok q →
  serve_port cfg now i s = Ok (tt, s', o) →
  ∃ ms q', vec_get (queues s') (port_of cfg s i) = Ok q' ∧
    o = map (deliver cfg now) ms ∧ (length ms ≤ 2)%nat ∧
    ∀ n, towards n q.*2 = towards n ms ++ towards n q'.*2.
Proof.
  intros Hq Hrun.
  assert (wp any_failure (serve_port cfg now i) s (λ _ s' o, ∃ ms q',
    vec_get (queues s') (port_of cfg s i) = Ok q' ∧ o = map (deliver cfg now) ms ∧
    (length ms ≤ 2)%nat ∧ ∀ n, towards n q.*2 = towards n ms ++ towards n q'.*2)) as H;
    [|by eapply (wp_run _ _ _ _ _ _ _ H)].
  clear Hrun s' o. unfold serve_port. wp_steps. eapply wp_mono; [by apply wp_send_idle|].
  cbn. intros [] s1 o1 [Hf Ht].
  - destruct (Ht eq_refl) as (k & m & Hm & _ & -> & Hq1 & _). destruct q as [|e q]; [done|].
    injection Hm as ->. cbn in Hq1. wp_step. eapply wp_mono; [by apply wp_send_idle|].
    cbn. intros [] s2 o2 [Hf2 Ht2]; wp_steps.
    + destruct (Ht2 eq_refl) as (k2 & m2 & Hm2 & _ & -> & Hq2 & _). destruct q as [|e q]; [done|].
      injection Hm2 as ->. exists [m; m2], q. split_and!; [done|done|cbn; lia|].
      intros n. apply (towards_app n [m; m2]).
    + destruct (Hf2 eq_refl) as (-> & -> & _). exists [m], q. split_and!; [done|done|cbn; lia|].
      intros n. apply (towards_app n [m]).
  - destruct (Hf eq_refl) as (-> & -> & Hb). wp_step. eapply wp_mono; [by apply wp_send_idle|].
    cbn. intros [] s2 o2 [Hf2 Ht2]; wp_steps.
    + destruct (Ht2 eq_refl) as (k2 & m2 & Hm2 & Hfree & -> & Hq2 & _).
      destruct q as [|[k m] [|e q]]; [done..|]. injection Hm2 as ->. cbn in Hq2.
      specialize (Hb k m eq_refl). exists [m2], ((k, m) :: q). split_and!; [done|done|cbn; lia|].
      intros n. change ((k, m) :: (k2, m2) :: q).*2 with (m :: m2 :: q.*2).
      rewrite towards_cons_ne by congruence. apply (towards_app n [m2]).
    + destruct (Hf2 eq_refl) as (-> & -> & _). exists [], q. split_and!; [done|done|cbn; lia|done].
Qed.

(** Arbitration is fair: a cycle serves every port exactly once, and after [2 * k]
    cycles the port served first is the [k]-th after the first one now, so every port is
    the first once in [2 * num_ports] cycles. *)
Theorem ports_served_fairly cfg s k :
  0 < num_ports cfg < 2 ^ 30 → 0 ≤ top_priority s < num_ports cfg → clockwise s = true →
  map (port_of cfg s) (upto (num_ports cfg)) ≡ₚ upto (num_ports cfg) ∧
  port_of cfg (Nat.iter (2 * k) (rotate cfg) s) 0 = (top_priority s + Z.of_nat k) mod num_ports cfg.
Proof.
  intros Hn Ht Hc. split; [by apply port_of_perm|].
  destruct (rotate_iter cfg s k Hn Ht Hc) as [Hc' Ht'].
  pose proof (Z.mod_pos_bound (top_priority s + Z.of_nat k) (num_ports cfg) ltac:(lia)).
  rewrite port_of_spec by (rewrite ?Ht'; lia). rewrite Hc', Ht', Z.add_0_r.
  by rewrite Z.mod_small.
Qed.

(** *** Data transfers *)

Lemma wp_add_rep_event cfg t l c s t' :
  align_up t (process_interval cfg) = Ok t' →
  wp no_failure (add_rep_event cfg t l (Some c)) s (λ _ s' o,
    o = [geq_add_event t' (this cfg)] ∧
    s' = s <| num_rep ::= λ n, n ⊕ 1 |> <| num_flits ::= λ n, n ⊕ 1 |>
           <| rep_events ::= mm_insert t' (l, c) |>).
Proof.
  intros Ht. unfold add_rep_event. wp_step. apply (wp_lift_ok _ _ c); [done|].
  wp_step. apply (wp_lift_ok _ _ t'); [done|]. wp_steps. done.
Qed.

(** The dummy flits of a transfer. *)
Lemma wp_dummies cfg t l c s t' (xs : list Z) :
  align_up t (process_interval cfg) = Ok t' → mm_sorted (rep_events s) →
  wp no_failure (for_each xs (λ _,
      _ ← add_rep_event cfg t (dummy_lqe l) (Some c);
      modify (λ s, s <| num_rep ::= λ n, n ⊕ 1 |>))) s (λ _ s' o,
    o = replicate (length xs) (geq_add_event t' (this cfg)) ∧ mm_sorted (rep_events s') ∧
    mm_values t' (rep_events s') =
      mm_values t' (rep_events s) ++ replicate (length xs) (dummy_lqe l, c) ∧
    u64 (num_flits s') = u64 (num_flits s + Z.of_nat (length xs)) ∧
    u64 (num_rep s') = u64 (num_rep s + 2 * Z.of_nat (length xs))).
Proof.
  intros Ht. revert s. induction xs as [|x xs IH]; intros s Hs; cbn [for_each].
  { wp_steps. cbn. rewrite app_nil_r, !Z.add_0_r. done. }
  wp_steps. eapply wp_mono; [by apply wp_add_rep_event|]. cbn. intros _ s1 o1 [-> ->]. wp_steps.
  eapply wp_mono; [apply IH; by apply mm_insert_sorted|]. cbn. intros _ s2 o2 (-> & Hs2 & Hv & Hf & Hr).
  split_and!; [done|done| | |].
  - rewrite Hv, mm_values_insert by done. by rewrite <- app_assoc.
  - rewrite Hf, u64_add_l. f_equal. lia.
  - rewrite Hr, u64_add_l. rewrite <- Z.add_assoc, u64_add_l. f_equal. lia.
Qed.

(** A data transfer of [n] flits arrives as [n - 1] dummy flits followed by the
    message itself, all at the first cycle boundary not before [t]; each wakes the
    crossbar at that cycle.  [num_flits] counts [n] flits, [num_rep] counts each dummy
    twice. *)
Theorem rep_flits_arrive cfg t l n c s :
  0 < process_interval cfg → 0 ≤ t → t + process_interval cfg < 2 ^ 64 → 1 ≤ n < 2 ^ 32 →
  mm_sorted (rep_events s) →
  ∃ t' s', add_rep_flits cfg t l n (Some c) s =
      Ok (tt, s', replicate (Z.to_nat n) (geq_add_event t' (this cfg))) ∧
    t ≤ t' < t + process_interval cfg ∧ t' mod process_interval cfg = 0 ∧
    mm_sorted (rep_events s') ∧
    mm_values t' (rep_events s') =
      mm_values t' (rep_events s) ++ replicate (Z.to_nat (n - 1)) (dummy_lqe l, c) ++ [(l, c)] ∧
    u64 (num_flits s') = u64 (num_flits s + n) ∧
    u64 (num_rep s') = u64 (num_rep s + (2 * n - 1)).
Proof.
  intros Hp Ht Htp Hn Hs. destruct (align_up_spec t (process_interval cfg)) as (t' & Ha & Hrange & Hmod); [done..|].
  assert (wp no_failure (add_rep_flits cfg t l n (Some c)) s (λ _ s' o,
    o = replicate (Z.to_nat n) (geq_add_event t' (this cfg)) ∧ mm_sorted (rep_events s') ∧
    mm_values t' (rep_events s') =
      mm_values t' (rep_events s) ++ replicate (Z.to_nat (n - 1)) (dummy_lqe l, c) ++ [(l, c)] ∧
    u64 (num_flits s') = u64 (num_flits s + n) ∧
    u64 (num_rep s') = u64 (num_rep s + (2 * n - 1)))) as H.
  2: { apply wp_total in H as ([] & s' & o & E & -> & ? & ? & ? & ?). exists t', s'.
       destruct Hrange. by split_and!. }
  unfold add_rep_flits. rewrite (u32_id (n - 1)) by (unfold in_u32; lia).
  assert (length (upto (n - 1)) = Z.to_nat (n - 1)) as Hlen by (unfold upto; by rewrite length_seqZ).
  wp_step. eapply wp_mono; [by apply (wp_dummies _ _ _ _ _ t')|]. rewrite Hlen.
  cbn. intros _ s1 o1 (-> & Hs1 & Hv & Hf & Hr). wp_step.
  eapply wp_mono; [by apply wp_add_rep_event|]. cbn. intros _ s2 o2 [-> ->]. wp_steps. cbn.
  split_and!.
  - replace (Z.to_nat n) with (Z.to_nat (n - 1) + 1)%nat by lia. by rewrite replicate_add.
  - by apply mm_insert_sorted.
  - rewrite mm_values_insert, Hv by done. by rewrite <- app_assoc.
  - rewrite u64_u64. rewrite <- u64_add_l, Hf, u64_add_l. f_equal. lia.
  - rewrite u64_u64. rewrite <- u64_add_l, Hr, u64_add_l. f_equal. lia.
Qed.
(** *** A concrete crossbar: two L2 caches and two directories *)

Definition l2 (n : Z) : Comp := Build_Comp ct_cachel2 n.
Definition dir (n : Z) : Comp := Build_Comp ct_directory n.

Definition small_cfg : config :=
  make_config no_params (Build_Comp ct_crossbar 0) 2 [dir 0; dir 1]
    (λ addr, Ok (shr addr 12 mod 2)).

Definition request_of (n addr : Z) : LQE := new_lqe (l2 n) et_read addr 0.

Definition small_state : state :=
  (init 2) <| req_events := [(10, (request_of 0 4096, l2 0)); (10, (request_of 1 4096, l2 1))] |>.

Lemma small_wf : wf small_cfg small_state.
Proof. by constructor; vm_compute. Qed.

Lemma small_due : due_routable small_cfg 10 small_state.
Proof.
  constructor; cbn; [constructor..|].
  repeat (constructor; [split; [cbn; lia|exists (dir 1); split; [reflexivity|cbn; lia]]|]). constructor.
Qed.

Example crossbar_cycle_witness :
  ∃ s' arrived sent,
    process_event small_cfg 10 small_state =
      Ok (0, s', map (deliver small_cfg 10) sent ++ rearm small_cfg 10 (waiting s')) ∧
    wf small_cfg s' ∧ arrivals small_cfg 10 small_state arrived ∧
    arrived ++ waiting small_state ≡ₚ sent ++ waiting s' ∧
    NoDup (map num_of sent) ∧
    (arrived ++ waiting small_state ≠ [] → sent ≠ []) ∧
    clockwise s' = false ∧ top_priority s' = 0.
Proof.
  apply (crossbar_cycle small_cfg 10 small_state small_wf small_due); cbn; lia.
Defined.

Definition queued_state : state :=
  small_state <| queues := [[(0, Build_message noc_rep (request_of 0 0) (dir 0));
                             (2, Build_message noc_req (request_of 0 4096) (dir 1))]; []] |>.

Example port_in_order_witness :
  ∃ ms (q' : list (Z * message)),
    vec_get [[]; []] 0 = Ok q' ∧ (length ms ≤ 2)%nat ∧
    ∀ n, towards n [Build_message noc_rep (request_of 0 0) (dir 0);
                    Build_message noc_req (request_of 0 4096) (dir 1)] =
      towards n ms ++ towards n q'.*2.
Proof.
  edestruct (port_in_order small_cfg 10 0 queued_state) as (ms & q' & Hq & Ho & Hl & Hall);
    [reflexivity|vm_compute; reflexivity|].
  exists ms, q'. split_and!; [exact Hq|exact Hl|exact Hall].
Defined.

Example ports_served_fairly_witness :
  map (port_of small_cfg small_state) (upto 2) ≡ₚ upto 2 ∧
  port_of small_cfg (Nat.iter 2 (rotate small_cfg) small_state) 0 = 1.
Proof.
  destruct (ports_served_fairly small_cfg small_state 1) as [Hp Hr];
    [vm_compute; split; reflexivity|vm_compute; split; [discriminate|reflexivity]|reflexivity|].
  split; [exact Hp|exact Hr].
Defined.

Example rep_flits_arrive_witness :
  ∃ t' s', add_rep_flits small_cfg 15 (request_of 0 0) 5 (Some (dir 0)) (init 2) =
      Ok (tt, s', replicate 5 (geq_add_event t' (this small_cfg))) ∧
    15 ≤ t' < 25 ∧ t' mod 10 = 0 ∧ mm_sorted (rep_events s') ∧
    mm_values t' (rep_events s') =
      replicate 4 (dummy_lqe (request_of 0 0), dir 0) ++ [(request_of 0 0, dir 0)] ∧
    u64 (num_flits s') = 5 ∧ u64 (num_rep s') = 9.
Proof.
  apply (rep_flits_arrive small_cfg 15 (request_of 0 0) 5 (dir 0) (init 2));
    [reflexivity|discriminate|reflexivity|split; [discriminate|reflexivity]|constructor].
Defined.
End Crossbar.
