(* ===== verification/MemoryController.v ===== *)
(** * The memory controller (MemoryController, PTSMemoryController.h and
    PTSMemoryController.cc)

    A DRAM scheduler: a window of pending requests, the state of every bank, and the
    occupation of the data bus.  Each cycle it looks for a request that can progress
    (activate a row, precharge, or transfer a burst), row hits first and threads with
    few requests first, and issues one command for it. *)

From S2P Require Export Component.

Module MemoryController.
Import OrdMap MultiMap.

Inductive mc_bank_action : Set :=
| mc_bank_activate | mc_bank_read | mc_bank_write | mc_bank_precharge | mc_bank_idle.
Inductive mc_scheduling_policy : Set :=
| mc_scheduling_open | mc_scheduling_closed | mc_scheduling_pred.

#[export] Instance mc_bank_action_eq_dec : EqDecision mc_bank_action.
Proof. solve_decision. Defined.
#[export] Instance mc_scheduling_policy_eq_dec : EqDecision mc_scheduling_policy.
Proof. solve_decision. Defined.

Record BankStatus := {
  action_time : Z;
  page_num : Z;
  action_type : mc_bank_action;
  bank_last_activate_time : Z }.

Record config := {
  this : Comp;
  process_interval : Z;
  directory : Comp;
  tRCD : Z; tRR : Z; tRP : Z; tCL : Z; tBL : Z; tBBL : Z; tRAS : Z;
  tWRBUB : Z; tRWBUB : Z; tRRBUB : Z; tWTR : Z;
  req_window_sz : Z;
  mc_to_dir_t : Z;
  rank_interleave_base_bit : Z;
  bank_interleave_base_bit : Z;
  page_sz_base_bit : Z;
  mc_interleave_base_bit : Z;
  interleave_xor_base_bit : Z;
  num_hthreads : Z;
  num_mcs : Z;
  num_ranks_per_mc : Z;
  num_banks_per_rank : Z;
  par_bs : bool;
  policy : mc_scheduling_policy;
  refresh_interval : Z;
  full_duplex : bool;
  is_fixed_latency : bool;
  is_fixed_bw_n_latency : bool }.

(** The constructor reads [tRP] itself as the default of the parameter ["tRP"], before it
    is initialised: [indeterminate] is what it finds there. *)
Definition make_config (p : params) (c dir : Comp) (num_hthreads_ indeterminate : Z) : config :=
  let get := get_param_uint64 p (c_type c) in
  let tBL := get "tBL" 10 in
  let sched := get_param_str p (c_type c) "scheduling_policy" in
  {| this := c;
     process_interval := get "process_interval" 10;
     directory := dir;
     tRCD := get "tRCD" 10; tRR := get "tRR" 5; tRP := get "tRP" indeterminate;
     tCL := get "tCL" 10; tBL := tBL; tBBL := get "tBBL" tBL; tRAS := get "tRAS" 15;
     tWRBUB := get "tWRBUB" 2; tRWBUB := get "tRWBUB" 2; tRRBUB := get "tRRBUB" 2;
     tWTR := get "tWTR" 8;
     req_window_sz := get "req_window_sz" 16;
     mc_to_dir_t := get "to_dir_t" 1000;
     rank_interleave_base_bit := get "rank_interleave_base_bit" 14;
     bank_interleave_base_bit := get "bank_interleave_base_bit" 14;
     page_sz_base_bit := get "page_sz_base_bit" 12;
     mc_interleave_base_bit := get "interleave_base_bit" 12;
     interleave_xor_base_bit := get "interleave_xor_base_bit" 20;
     num_hthreads := num_hthreads_;
     num_mcs := u32 (pts_get_param_uint64 p "pts.num_mcs" 2);
     num_ranks_per_mc := get "num_ranks_per_mc" 1;
     num_banks_per_rank := get "num_banks_per_rank" 8;
     par_bs := get_param_bool p (c_type c) "par_bs" false;
     policy := if bool_decide (sched = "open"%string) then mc_scheduling_open
               else if bool_decide (sched = "pred"%string) then mc_scheduling_pred
               else mc_scheduling_closed;
     refresh_interval := get "refresh_interval" 0;
     full_duplex := get_param_bool p (c_type c) "full_duplex" false;
     is_fixed_latency := get_param_bool p (c_type c) "is_fixed_latency" false;
     is_fixed_bw_n_latency := get_param_bool p (c_type c) "is_fixed_bw_n_latency" false |}.

Record state := {
  queues : Queues;
  req_l : list LQE;
  num_reqs : Z;
  num_read : Z;
  num_write : Z;
  num_activate : Z;
  num_precharge : Z;
  num_write_to_read_switch : Z;
  num_rw_interval : Z;
  num_conflict_interval : Z;
  curr_batch_last : Z;
  num_req_from_a_th : list Z;
  bank_status : list (list BankStatus);
  last_activate_time : list Z;
  last_write_time : list Z;
  last_read_time : Z * Z;
  last_read_time_rank : list Z;
  is_last_time_write : list bool;
  dp_status : gmap Z mc_bank_action;
  rd_dp_status : gmap Z mc_bank_action;
  wr_dp_status : gmap Z mc_bank_action;
  last_process_time : Z;
  packet_time_in_mc_acc : Z;
  os_page_acc_dist : gmap Z Z;
  os_page_acc_dist_curr : gmap Z Z }.

Definition idle_bank : BankStatus := Build_BankStatus 0 0 mc_bank_idle 0.

Definition init (cfg : config) : state :=
  let ranks := Z.to_nat (num_ranks_per_mc cfg) in
  {| queues := empty_queues; req_l := []; num_reqs := 0; num_read := 0; num_write := 0;
     num_activate := 0; num_precharge := 0; num_write_to_read_switch := 0;
     num_rw_interval := 0; num_conflict_interval := 0; curr_batch_last := -1;
     num_req_from_a_th := replicate (Z.to_nat (num_hthreads cfg)) 0;
     bank_status := replicate ranks (replicate (Z.to_nat (num_banks_per_rank cfg)) idle_bank);
     last_activate_time := replicate ranks 0; last_write_time := replicate ranks 0;
     last_read_time := (0, 0); last_read_time_rank := replicate ranks 0;
     is_last_time_write := replicate ranks false;
     dp_status := ∅; rd_dp_status := ∅; wr_dp_status := ∅;
     last_process_time := 0; packet_time_in_mc_acc := 0;
     os_page_acc_dist := ∅; os_page_acc_dist_curr := ∅ |}.

Section Handlers.
Context (cfg : config).

(** [tX*process_interval] is a product of two [uint32_t]. *)
Definition ticks (t : Z) : Z := t ⊗₃₂ process_interval cfg.

(** ** Address mapping *)

Definition hash_mod (base : Z) (n addr : Z) : outcome Z :=
  a ← c_shr addr base;
  b ← c_shr addr (interleave_xor_base_bit cfg);
  if n =? 0 then Err Undef else Ok (Z.lxor a b mod n).

Definition get_rank_num (addr : Z) : outcome Z :=
  hash_mod (rank_interleave_base_bit cfg) (num_ranks_per_mc cfg) addr.
Definition get_bank_num (addr : Z) : outcome Z :=
  hash_mod (bank_interleave_base_bit cfg) (num_banks_per_rank cfg) addr.

(** The three interleaving fields, by base bit: [(base2, width2)], [(base1, width1)],
    [(base0, width0)]. *)
Definition interleavers : list (Z * Z) :=
  mm_insert (mc_interleave_base_bit cfg) (num_mcs cfg)
    (mm_insert (bank_interleave_base_bit cfg) (num_banks_per_rank cfg)
       (mm_insert (rank_interleave_base_bit cfg) (num_ranks_per_mc cfg) [])).

(** [(((page_num >> base) / width) << base) + (page_num % (1 << base))]: [1 << base] is an
    [int], undefined from 31 on. *)
Definition squeeze (page : Z) (f : Z * Z) : outcome Z :=
  let '(base, width) := f in
  if (31 <=? base) || (width =? 0) then Err Undef
  else Ok (shl64 (shr page base / width) base ⊕ page mod 2 ^ base).

Definition squeeze_all (fs : list (Z * Z)) (addr : Z) : outcome Z :=
  foldr (λ f acc, page ← acc; squeeze page f) (Ok addr) fs.

Definition get_page_num (addr : Z) : outcome Z :=
  page ← squeeze_all interleavers addr;
  c_shr page (page_sz_base_bit cfg).

(** Rank, bank and page of an address.  Whether these are defined depends on the
    configuration only. *)
Definition locate (addr : Z) : outcome (Z * Z * Z) :=
  rank ← get_rank_num addr;
  bank ← get_bank_num addr;
  page ← get_page_num addr;
  Ok (rank, bank, page).

(** ** Requests *)

(** [add_req_event]; in the fixed-latency modes a request that was deleted is read again
    to count its page. *)
Definition is_writeback (t : event_type) : bool :=
  match t with et_evict | et_dir_evict => true | _ => false end.

Definition count_page (addr : Z) : proc call state unit :=
  _ ← modify (λ s, s <| num_reqs ::= λ n, n ⊕ 1 |>);
  page ← lift (get_page_num addr);
  modify (λ s, s <| os_page_acc_dist_curr ::=
    λ m, <[page := match m !! page with Some n => n ⊕ 1 | None => 1 end]> m |>).

Definition add_req_event (event_time : Z) (local_event : LQE) : proc call state unit :=
  event_time ← lift (ceil_by_y event_time (process_interval cfg));
  _ ← (if is_fixed_latency cfg then
         if is_writeback (type local_event) then
           _ ← emit (free_lqe local_event); fails Undef
         else emit (add_rep_event (directory cfg) (event_time ⊕ mc_to_dir_t cfg) local_event None)
       else if is_fixed_bw_n_latency cfg then
         _ ← modify (λ s, s <| last_process_time ::= λ last,
               if (event_time =? 0) || (last <? event_time) then event_time
               else last ⊕ process_interval cfg |>);
         if is_writeback (type local_event) then
           _ ← modify (λ s, s <| num_write ::= λ n, n ⊕ 1 |>);
           _ ← emit (free_lqe local_event); fails Undef
         else
           _ ← modify (λ s, s <| num_read ::= λ n, n ⊕ 1 |>);
           last ← reads last_process_time;
           emit (add_rep_event (directory cfg) (last ⊕ mc_to_dir_t cfg) local_event None)
       else
         _ ← emit (geq_add_event event_time (this cfg));
         modify (λ s, s <| queues ::= insert_req event_time local_event |>));
  count_page (address local_event).

Definition add_rep_event (event_time : Z) (local_event : LQE) : proc call state unit :=
  add_req_event event_time local_event.

(** [pre_processing]: the requests of the tick join the pending ones. *)
Definition accept (l : LQE) : proc call state unit :=
  _ ← (if par_bs cfg then
         n ← reads num_req_from_a_th;
         _ ← lift (vec_get n (th_id l));
         modify (λ s, s <| num_req_from_a_th ::= vec_alter (λ k, i32 (k + 1)) (th_id l) |>)
       else mret tt);
  modify (λ s, s <| req_l ::= λ r, r ++ [l] |>).

Definition pre_processing (curr_time : Z) : proc call state unit :=
  ev ← reads (λ s, mm_drain curr_time (req_event (queues s)));
  _ ← for_each ev.1 accept;
  _ ← modify (λ s, s <| queues ::= λ q, q <| req_event := ev.2 |> |>);
  s ← reads (λ s, s);
  when (par_bs cfg && (curr_batch_last s =? -1) && negb (bool_decide (req_l s = [])))
    (modify (λ s, s <| curr_batch_last :=
       i32 (Z.min (Z.of_nat (length (req_l s))) (req_window_sz cfg) ⊖₃₂ 1) |>)).

(** [update_acc_dist]: a page seen for the first time is recorded with one access,
    however many the interval had. *)
Definition update_acc_dist : proc call state unit :=
  modify (λ s, s
    <| os_page_acc_dist := foldl (λ m kv,
         match m !! kv.1 with
         | None => <[kv.1 := 1]> m
         | Some n => <[kv.1 := n ⊕ kv.2]> m
         end) (os_page_acc_dist s) (in_order (os_page_acc_dist_curr s)) |>
    <| os_page_acc_dist_curr := ∅ |>).

(** ** Scheduling *)

(** The candidate of the scan: [c_idx], [page_hit] and [num_req_from_the_same_thread]. *)
Record candidate := { c_idx : Z; page_hit : bool; fewest : Z }.

Definition bank_of (s : state) (rank bank : Z) : outcome BankStatus :=
  banks ← vec_get (bank_status s) rank;
  vec_get banks bank.

(** The request at [i] replaces the candidate when its thread has fewer requests. *)
Definition prefer_activate (i rank : Z) (l : LQE) (curr_time : Z) (c : candidate)
    : proc call state candidate :=
  s ← reads (λ s, s);
  last ← lift (vec_get (last_activate_time s) rank);
  if negb (page_hit c) && (last ⊕ ticks (tRR cfg) <=? curr_time) then
    n ← lift (vec_get (num_req_from_a_th s) (th_id l));
    if (n <? fewest c) || ((n =? fewest c) && (c_idx c =? -1))
    then mret (Build_candidate i (page_hit c) n)
    else mret c
  else mret c.

(** Whether another request of the window (of the batch, for a request of the batch)
    wants the row that the bank has open; [k] counts the requests visited. *)
Fixpoint row_wanted (i batch_last rank bank row : Z) (l : list LQE) (k : Z) : outcome bool :=
  match l with
  | [] => Ok false
  | r :: l' =>
      if k <? req_window_sz cfg then
        let k := k + 1 in
        if (i <=? batch_last) && (batch_last + 1 <? k) then Ok false
        else if k - 1 =? i then row_wanted i batch_last rank bank row l' k
        else
          '(rank', bank', page') ← locate (address r);
          if (rank =? rank') && (bank =? bank') && (row =? page') then Ok true
          else row_wanted i batch_last rank bank row l' k
      else Ok false
  end.

(** No burst on the bus from [curr_time + tCL] to the end of a burst issued now. *)
Definition bus_free (curr_time : Z) (m : gmap Z mc_bank_action) : bool :=
  match lower_bound (curr_time ⊕ ticks (tCL cfg)) m with
  | None => true
  | Some (t, _) => curr_time ⊕ ticks (tCL cfg ⊕₃₂ tBL cfg) <=? t
  end.

(** The loop over [dp_status] that looks for a burst of kind [a] before [limit]. *)
Fixpoint bubble_loop (limit : Z) (a : mc_bank_action) (l : list (Z * mc_bank_action)) : bool :=
  match l with
  | [] => false
  | (t, b) :: l' =>
      if t <? limit then bool_decide (b = a) || bubble_loop limit a l' else false
  end.
Definition bubble (curr_time width : Z) (a : mc_bank_action) (m : gmap Z mc_bank_action) : bool :=
  bubble_loop (curr_time ⊕ ticks (tCL cfg)) a
    (in_order (from_key (curr_time ⊕ ticks (tCL cfg) ⊖ ticks width) m)).

Definition is_mc_read (t : event_type) : bool :=
  match t with
  | et_rd_dir_info_req | et_rd_dir_info_rep | et_read | et_e_rd | et_s_rd => true
  | _ => false
  end.
Definition is_mc_write (t : event_type) : bool :=
  match t with et_evict | et_dir_evict | et_s_rd_wr => true | _ => false end.

(** The constraints of a read and of a write that hit the open row. *)
Definition read_ready (curr_time rank : Z) (s : state) : outcome bool :=
  last_write ← vec_get (last_write_time s) rank;
  let wrbub :=
    (negb (full_duplex cfg) && bubble curr_time (tWRBUB cfg) mc_bank_write (dp_status s)) ||
    ((0 <? tWTR cfg) && (curr_time <? last_write ⊕ ticks (tWTR cfg))) ||
    (negb ((last_read_time s).1 =? rank) &&
       (curr_time <? ticks (tRRBUB cfg) ⊕ (last_read_time s).2)) in
  Ok (bus_free curr_time (if full_duplex cfg then rd_dp_status s else dp_status s) && negb wrbub).

Definition write_ready (curr_time rank : Z) (s : state) : outcome bool :=
  last_read ← vec_get (last_read_time_rank s) rank;
  let rwbub :=
    (negb (full_duplex cfg) && bubble curr_time (tRWBUB cfg) mc_bank_read (dp_status s)) ||
    (curr_time <? last_read ⊕ ticks (tRWBUB cfg)) in
  Ok (bus_free curr_time (if full_duplex cfg then wr_dp_status s else dp_status s) && negb rwbub).

(** A row hit: entries of the past leave the bus maps, then the constraints are checked. *)
Definition consider_hit (curr_time i rank : Z) (l : LQE) (c : candidate)
    : proc call state candidate :=
  _ ← modify (λ s, s <| dp_status ::= from_key curr_time |>);
  met ← (if is_mc_read (type l) then
           _ ← modify (λ s, s <| rd_dp_status ::= from_key curr_time |>);
           s ← reads (λ s, s);
           lift (read_ready curr_time rank s)
         else if is_mc_write (type l) then
           _ ← modify (λ s, s <| wr_dp_status ::= from_key curr_time |>);
           s ← reads (λ s, s);
           lift (write_ready curr_time rank s)
         else fails Fatal);
  if met : bool then
    s ← reads (λ s, s);
    n ← lift (vec_get (num_req_from_a_th s) (th_id l));
    if negb (page_hit c) || (n <? fewest c) then mret (Build_candidate i true n) else mret c
  else mret c.

(** A bank with an open row. *)
Definition consider_open (curr_time i rank bank page : Z) (b : BankStatus) (l : LQE)
    (c : candidate) : proc call state candidate :=
  if curr_time <? action_time b ⊕ ticks (tBBL cfg) then mret c
  else if negb (page_num b =? page) then
    if bool_decide (policy cfg = mc_scheduling_open) then
      s ← reads (λ s, s);
      wanted ← lift (row_wanted i (curr_batch_last s) rank bank (page_num b) (req_l s) 0);
      if wanted : bool then mret c else prefer_activate i rank l curr_time c
    else mret c
  else consider_hit curr_time i rank l c.

(** The body of the scan for the request [l] at position [i]. *)
Definition consider (curr_time i : Z) (l : LQE) (c : candidate) : proc call state candidate :=
  '(rank, bank, page) ← lift (locate (address l));
  s ← reads (λ s, s);
  b ← lift (bank_of s rank bank);
  if curr_time <? action_time b then mret c
  else match action_type b with
  | mc_bank_precharge =>
      if curr_time <? action_time b ⊕ ticks (tRP cfg) then mret c
      else prefer_activate i rank l curr_time c
  | mc_bank_idle => prefer_activate i rank l curr_time c
  | mc_bank_activate =>
      if curr_time <? action_time b ⊕ ticks (tRCD cfg) then mret c
      else consider_open curr_time i rank bank page b l c
  | mc_bank_read | mc_bank_write => consider_open curr_time i rank bank page b l c
  end.

(** The scan; positions fit an [int32_t]. *)
Fixpoint scan (curr_time : Z) (rest : list LQE) (i : Z) (c : candidate)
    : proc call state candidate :=
  match rest with
  | [] => mret c
  | l :: rest' =>
      batch_last ← reads curr_batch_last;
      if (0 <=? c_idx c) && negb (i =? 0) && (batch_last <? i) then mret c
      else if req_window_sz cfg <=? i then mret c
      else
        c' ← consider curr_time i l c;
        scan curr_time rest' (i + 1) c'
  end.

(** ** Issuing a command *)

Definition set_bank (rank bank : Z) (b : BankStatus) (s : state) : state :=
  s <| bank_status ::= vec_alter (vec_set bank b) rank |>.

(** [for (j = 0; j < tBL; j++) { next_time = ...; dp_status.insert(...); ... }] *)
Definition burst (curr_time : Z) (a : mc_bank_action) (m : gmap Z mc_bank_action)
    : gmap Z mc_bank_action :=
  foldl (λ m j, let next_time := curr_time ⊕ ticks (tCL cfg ⊕₃₂ j) in
                match m !! next_time with Some _ => m | None => <[next_time := a]> m end)
    m (upto (tBL cfg)).

(** [tRP*process_interval + std::max(curr_time, tRAS*process_interval + last_activate_time)] *)
Definition precharge_time (curr_time : Z) (b : BankStatus) : Z :=
  ticks (tRP cfg) ⊕ Z.max curr_time (ticks (tRAS cfg) ⊕ bank_last_activate_time b).

Definition transfer_read (curr_time rank : Z) (l : LQE) : proc call state unit :=
  s ← reads (λ s, s);
  was_write ← lift (vec_get (is_last_time_write s) rank);
  _ ← when was_write
        (modify (λ s, s <| is_last_time_write ::= vec_set rank false |>
                        <| num_write_to_read_switch ::= λ n, n ⊕ 1 |>));
  _ ← modify (λ s, s <| num_read ::= λ n, n ⊕ 1 |>
                     <| dp_status ::= burst curr_time mc_bank_read |>
                     <| rd_dp_status ::= burst curr_time mc_bank_read |>
                     <| last_read_time := (rank, curr_time) |>
                     <| last_read_time_rank ::=
                          vec_set rank (curr_time ⊕ ticks (tCL cfg ⊕₃₂ tBL cfg)) |>);
  emit (Component.add_rep_event (directory cfg) (curr_time ⊕ mc_to_dir_t cfg) l None).

Definition transfer_write (curr_time rank : Z) (l : LQE) : proc call state unit :=
  _ ← modify (λ s, s <| is_last_time_write ::= vec_set rank true |>
                     <| num_write ::= λ n, n ⊕ 1 |>
                     <| dp_status ::= burst curr_time mc_bank_write |>
                     <| wr_dp_status ::= burst curr_time mc_bank_write |>
                     <| last_write_time ::=
                          vec_set rank (curr_time ⊕ ticks (tCL cfg ⊕₃₂ tBL cfg)) |>);
  emit (if bool_decide (type l = et_s_rd_wr)
        then Component.add_rep_event (directory cfg) (curr_time ⊕ mc_to_dir_t cfg)
               (l <| type := et_s_rd |>) None
        else free_lqe l).

(** The loop that looks, after the served request, for another one of the same row. *)
Fixpoint row_wanted_after (rank bank page : Z) (l : list LQE) (i2 : Z) : outcome bool :=
  match l with
  | [] => Ok false
  | r :: l' =>
      if i2 <? req_window_sz cfg then
        '(rank', bank', page') ← locate (address r);
        if (rank =? rank') && (bank =? bank') && (page =? page') then Ok true
        else row_wanted_after rank bank page l' (i2 + 1)
      else Ok false
  end.

(** The state of the bank after the transfer: with the closed policies the row is
    precharged unless a later request of the window wants it. *)
Definition close_row (curr_time i rank bank page : Z) (b : BankStatus) (act : mc_bank_action)
    : proc call state unit :=
  if bool_decide (policy cfg = mc_scheduling_open)
  then modify (set_bank rank bank (b <| action_type := act |>))
  else
    s ← reads (λ s, s);
    wanted ← lift (row_wanted_after rank bank page (drop (Z.to_nat (i + 1)) (req_l s)) (i + 1));
    let t := precharge_time curr_time b in
    if wanted : bool
    then modify (set_bank rank bank (b <| action_time := t ⊖ ticks (tRP cfg) |> <| action_type := act |>))
    else modify (λ s, (set_bank rank bank (b <| action_time := t |> <| action_type := mc_bank_precharge |>) s)
                        <| num_precharge ::= λ n, n ⊕ 1 |>).

Definition batch_step (i : Z) (s : state) : state :=
  if par_bs cfg && (curr_batch_last s =? i) then
    if i =? 0
    then s <| curr_batch_last := Z.min (i32 (req_window_sz cfg) - 1) (Z.of_nat (length (req_l s)) - 2) |>
    else s <| curr_batch_last ::= λ k, k - 1 |>
  else if par_bs cfg && (i <? curr_batch_last s) then s <| curr_batch_last ::= λ k, k - 1 |>
  else s.

(** A transfer for the request at [i], whose row is open. *)
Definition serve (curr_time i rank bank page : Z) (b : BankStatus) (l : LQE)
    : proc call state unit :=
  _ ← (if par_bs cfg then
         n ← reads num_req_from_a_th;
         _ ← lift (vec_get n (th_id l));
         modify (λ s, s <| num_req_from_a_th ::= vec_alter (λ k, i32 (k - 1)) (th_id l) |>)
       else mret tt);
  act ← (if is_mc_read (type l) then
           _ ← transfer_read curr_time rank l; mret mc_bank_read
         else if is_mc_write (type l) then
           _ ← transfer_write curr_time rank l; mret mc_bank_write
         else fails Fatal);
  _ ← close_row curr_time i rank bank page (b <| action_time := curr_time |>) act;
  modify (λ s, (batch_step i s) <| req_l := delete (Z.to_nat i) (req_l s) |>).

Definition issue (curr_time i : Z) : proc call state unit :=
  s ← reads (λ s, s);
  l ← lift (vec_get (req_l s) i);
  '(rank, bank, page) ← lift (locate (address l));
  b ← lift (bank_of s rank bank);
  match action_type b with
  | mc_bank_precharge | mc_bank_idle =>
      modify (λ s, (set_bank rank bank (Build_BankStatus curr_time page mc_bank_activate curr_time) s)
        <| last_activate_time ::= vec_set rank curr_time |>
        <| num_activate ::= λ n, n ⊕ 1 |>)
  | mc_bank_activate | mc_bank_read | mc_bank_write =>
      if negb (page_num b =? page) then
        when (bool_decide (policy cfg = mc_scheduling_open))
          (modify (λ s, (set_bank rank bank
             (b <| action_time := precharge_time curr_time b |> <| action_type := mc_bank_precharge |>) s)
             <| num_precharge ::= λ n, n ⊕ 1 |>))
      else serve curr_time i rank bank page b l
  end.

Definition process_event (curr_time : Z) : proc call state Z :=
  _ ← modify (λ s, s <| packet_time_in_mc_acc ::= λ n,
        if 0 <? last_process_time s
        then n ⊕ (curr_time ⊖ last_process_time s) ⊗ Z.of_nat (length (req_l s)) else n |>);
  _ ← modify (λ s, s <| last_process_time := curr_time |>);
  _ ← pre_processing curr_time;
  s ← reads (λ s, s);
  c ← scan curr_time (req_l s) 0
        (Build_candidate (-1) false (i32 (Z.of_nat (length (req_l s)) + 1)));
  _ ← when (0 <=? c_idx c) (issue curr_time (c_idx c));
  rest ← reads req_l;
  _ ← when (negb (bool_decide (length rest = 0%nat)))
        (emit (geq_add_event (curr_time ⊕ process_interval cfg) (this cfg)));
  mret 0.

(** [check_bank_status] (not called by the code above). *)
Definition check_bank_status (l : LQE) : proc call state unit :=
  '(rank, bank, page) ← lift (locate (address l));
  s ← reads (λ s, s);
  b ← lift (bank_of s rank bank);
  _ ← when (negb (page =? page_num b)) (modify (λ s, s <| num_conflict_interval ::= λ n, n ⊕ 1 |>));
  modify (λ s, s <| num_rw_interval ::= λ n, n ⊕ 1 |>).
End Handlers.
#[local] Arguments batch_step : simpl never.

(** ** Well-formed controllers *)

(** The configurations for which address mapping is defined. *)
Record geometry_ok (cfg : config) : Prop := {
  rank_bit_ok : rank_interleave_base_bit cfg < 31;
  bank_bit_ok : bank_interleave_base_bit cfg < 31;
  mc_bit_ok : mc_interleave_base_bit cfg < 31;
  xor_bit_ok : interleave_xor_base_bit cfg < 64;
  page_bit_ok : page_sz_base_bit cfg < 64;
  ranks_ok : 0 < num_ranks_per_mc cfg;
  banks_ok : 0 < num_banks_per_rank cfg;
  mcs_ok : 0 < num_mcs cfg }.

(** A request the scheduler accepts: a known thread and a known type. *)
Definition servable (cfg : config) (l : LQE) : Prop :=
  0 ≤ th_id l < num_hthreads cfg ∧ (is_mc_read (type l) || is_mc_write (type l) = true).

Record wf (cfg : config) (s : state) : Prop := {
  wf_threads : Z.of_nat (length (num_req_from_a_th s)) = num_hthreads cfg;
  wf_ranks : Z.of_nat (length (bank_status s)) = num_ranks_per_mc cfg;
  wf_banks : Forall (λ r, Z.of_nat (length r) = num_banks_per_rank cfg) (bank_status s);
  wf_activate : Z.of_nat (length (last_activate_time s)) = num_ranks_per_mc cfg;
  wf_last_write : Z.of_nat (length (last_write_time s)) = num_ranks_per_mc cfg;
  wf_last_read : Z.of_nat (length (last_read_time_rank s)) = num_ranks_per_mc cfg;
  wf_was_write : Z.of_nat (length (is_last_time_write s)) = num_ranks_per_mc cfg;
  wf_requests : Forall (servable cfg) (req_l s) }.

Section Facts.
Context (cfg : config) (Hgeo : geometry_ok cfg).

Lemma c_shr_ok x n : n < 64 → c_shr x n = Ok (shr x n).
Proof. intros H. unfold c_shr. by rewrite (proj2 (Z.ltb_lt _ _)). Qed.

Lemma hash_mod_ok base n addr :
  base < 64 → 0 < n → ∃ r, hash_mod cfg base n addr = Ok r ∧ 0 ≤ r < n.
Proof.
  intros Hb Hn. unfold hash_mod. rewrite !c_shr_ok by (done || apply Hgeo). cbn.
  rewrite (proj2 (Z.eqb_neq _ _)) by lia. eexists. split; [done|]. apply Z.mod_pos_bound. lia.
Qed.

Lemma squeeze_all_ok fs addr :
  Forall (λ f, f.1 < 31 ∧ 0 < f.2) fs → ∃ p, squeeze_all fs addr = Ok p.
Proof.
  induction 1 as [|[b w] fs [Hb Hw] _ [p IH]]; cbn; [by eexists|]. cbn in Hb, Hw.
  unfold squeeze_all in IH. rewrite IH. cbn.
  rewrite (proj2 (Z.leb_gt _ _)), (proj2 (Z.eqb_neq _ _)) by lia. by eexists.
Qed.

Lemma interleavers_ok : Forall (λ f, f.1 < 31 ∧ 0 < f.2) (interleavers cfg).
Proof.
  unfold interleavers. destruct Hgeo. apply Forall_forall.
  intros f [->|[->|[->|Hf]%elem_of_mm_insert]%elem_of_mm_insert]%elem_of_mm_insert; cbn; [lia..|set_solver].
Qed.

Lemma mc_locate_ok addr :
  ∃ rank bank page, locate cfg addr = Ok (rank, bank, page) ∧
    0 ≤ rank < num_ranks_per_mc cfg ∧ 0 ≤ bank < num_banks_per_rank cfg.
Proof.
  destruct Hgeo. unfold locate, get_rank_num, get_bank_num, get_page_num.
  destruct (hash_mod_ok (rank_interleave_base_bit cfg) (num_ranks_per_mc cfg) addr) as (r & -> & Hr); [lia..|].
  destruct (hash_mod_ok (bank_interleave_base_bit cfg) (num_banks_per_rank cfg) addr) as (b & -> & Hb); [lia..|].
  destruct (squeeze_all_ok (interleavers cfg) addr interleavers_ok) as [p Hp]. rewrite Hp. cbn.
  rewrite c_shr_ok by done. cbn. eauto 10.
Qed.

Lemma mc_bank_of_ok s rank bank :
  wf cfg s → 0 ≤ rank < num_ranks_per_mc cfg → 0 ≤ bank < num_banks_per_rank cfg →
  ∃ b, bank_of s rank bank = Ok b.
Proof.
  intros Hwf Hr Hb. unfold bank_of.
  destruct (vec_get_lt (bank_status s) rank) as [banks Hbs]; [destruct Hwf; lia|].
  rewrite Hbs. cbn. apply vec_get_lt.
  apply vec_get_Some in Hbs as [_ Hbs]. apply list_elem_of_lookup_2 in Hbs.
  pose proof (wf_banks _ _ Hwf) as H. rewrite Forall_forall in H. rewrite (H _ Hbs). lia.
Qed.

Lemma row_wanted_ok i bl rank bank row l k : ∃ b, row_wanted cfg i bl rank bank row l k = Ok b.
Proof.
  revert k. induction l as [|r l IH]; intros k; cbn [row_wanted]; [by eexists|].
  repeat case_match; try (by eexists); try apply IH.
  destruct (mc_locate_ok (address r)) as (? & ? & ? & -> & _). cbn. case_match; [by eexists|apply IH].
Qed.

Lemma row_wanted_after_ok rank bank page l i :
  ∃ b, row_wanted_after cfg rank bank page l i = Ok b.
Proof.
  revert i. induction l as [|r l IH]; intros i; cbn [row_wanted_after]; [by eexists|].
  case_match; [|by eexists].
  destruct (mc_locate_ok (address r)) as (? & ? & ? & -> & _). cbn. case_match; [by eexists|apply IH].
Qed.

(** ** What the scan finds *)

(** The scan forgets bus entries of the past and changes nothing else. *)
Definition trims (now : Z) (m m' : gmap Z mc_bank_action) : Prop := m' = m ∨ m' = from_key now m.

Record trimmed (now : Z) (s s' : state) : Prop := {
  tm_frame : s' = s <| dp_status := dp_status s' |> <| rd_dp_status := rd_dp_status s' |>
                    <| wr_dp_status := wr_dp_status s' |>;
  tm_dp : trims now (dp_status s) (dp_status s');
  tm_rd : trims now (rd_dp_status s) (rd_dp_status s');
  tm_wr : trims now (wr_dp_status s) (wr_dp_status s') }.

Lemma from_key_idemp {A} (t : Z) (m : gmap Z A) : from_key t (from_key t m) = from_key t m.
Proof. apply map_eq. intros k. rewrite !lookup_from_key. by case_decide. Qed.

Lemma trims_trans now m1 m2 m3 : trims now m1 m2 → trims now m2 m3 → trims now m1 m3.
Proof.
  intros [->| ->] [->| ->]; unfold trims; auto. right. by rewrite from_key_idemp.
Qed.

Lemma trims_fixed now m m' : trims now m m' → m = from_key now m → m' = m.
Proof. intros [->| ->] H; congruence. Qed.

Lemma trimmed_refl now s : trimmed now s s.
Proof. constructor; [by destruct s|by left..]. Qed.

Lemma trimmed_trans now s1 s2 s3 : trimmed now s1 s2 → trimmed now s2 s3 → trimmed now s1 s3.
Proof.
  intros [Hf1 ? ? ?] [Hf2 ? ? ?]. constructor; try by eapply trims_trans.
  rewrite Hf2 at 1. rewrite Hf1 at 1. by destruct s1.
Qed.

(** The commands a bank accepts at [now] (the constraints of the scan, read together). *)
Definition activate_ok (now rank : Z) (s : state) : Prop :=
  ∃ last, vec_get (last_activate_time s) rank = Ok last ∧ last ⊕ ticks cfg (tRR cfg) ≤ now.

Definition hit_ok (now rank : Z) (l : LQE) (s : state) : Prop :=
  dp_status s = from_key now (dp_status s) ∧
  ((is_mc_read (type l) = true ∧ rd_dp_status s = from_key now (rd_dp_status s) ∧
      read_ready cfg now rank s = Ok true) ∨
   (is_mc_read (type l) = false ∧ is_mc_write (type l) = true ∧
      wr_dp_status s = from_key now (wr_dp_status s) ∧ write_ready cfg now rank s = Ok true)).

Definition open_ok (now i rank bank page : Z) (b : BankStatus) (l : LQE) (s : state) : Prop :=
  action_time b ⊕ ticks cfg (tBBL cfg) ≤ now ∧
  (if page_num b =? page then hit_ok now rank l s
   else policy cfg = mc_scheduling_open ∧ activate_ok now rank s ∧
        row_wanted cfg i (curr_batch_last s) rank bank (page_num b) (req_l s) 0 = Ok false).

Definition command_ok (now i rank bank page : Z) (b : BankStatus) (l : LQE) (s : state) : Prop :=
  action_time b ≤ now ∧
  match action_type b with
  | mc_bank_idle => activate_ok now rank s
  | mc_bank_precharge => action_time b ⊕ ticks cfg (tRP cfg) ≤ now ∧ activate_ok now rank s
  | mc_bank_activate =>
      action_time b ⊕ ticks cfg (tRCD cfg) ≤ now ∧ open_ok now i rank bank page b l s
  | mc_bank_read | mc_bank_write => open_ok now i rank bank page b l s
  end.

(** The request at [i] can make progress. *)
Definition ready (now i : Z) (s : state) : Prop :=
  ∃ l rank bank page b,
    vec_get (req_l s) i = Ok l ∧ locate cfg (address l) = Ok (rank, bank, page) ∧
    bank_of s rank bank = Ok b ∧ command_ok now i rank bank page b l s.

Lemma hit_ok_trimmed now rank l s s' : trimmed now s s' → hit_ok now rank l s → hit_ok now rank l s'.
Proof.
  intros [Hf Hdp Hrd Hwr] [Hfix Hcase]. pose proof (trims_fixed _ _ _ Hdp Hfix) as Edp.
  split; [congruence|]. destruct Hcase as [(Ht & Hfix' & Hr)|(Ht & Ht' & Hfix' & Hr)].
  - left. pose proof (trims_fixed _ _ _ Hrd Hfix') as Erd. split_and!; [done|congruence|].
    rewrite <- Hr. unfold read_ready. rewrite Hf. cbn. by rewrite Edp, Erd.
  - right. pose proof (trims_fixed _ _ _ Hwr Hfix') as Ewr. split_and!; [done|done|congruence|].
    rewrite <- Hr. unfold write_ready. rewrite Hf. cbn. by rewrite Edp, Ewr.
Qed.

Lemma ready_trimmed now i s s' : trimmed now s s' → ready now i s → ready now i s'.
Proof.
  intros Ht (l & rank & bank & page & b & Hl & Hloc & Hb & Htime & Hok).
  pose proof (tm_frame _ _ _ Ht) as Hf.
  assert (req_l s' = req_l s) as Er by by rewrite Hf.
  assert (bank_status s' = bank_status s) as Eb by by rewrite Hf.
  assert (last_activate_time s' = last_activate_time s) as Ea by by rewrite Hf.
  assert (curr_batch_last s' = curr_batch_last s) as Ec by by rewrite Hf.
  exists l, rank, bank, page, b. rewrite Er. split_and!; [done|done| |].
  { unfold bank_of. by rewrite Eb. }
  assert (activate_ok now rank s → activate_ok now rank s') as Hact.
  { unfold activate_ok. by rewrite Ea. }
  assert (open_ok now i rank bank page b l s → open_ok now i rank bank page b l s') as Hopen.
  { unfold open_ok. rewrite Ec, Er. intros [? Ho]. split; [done|].
    case_match; [by eapply hit_ok_trimmed|naive_solver]. }
  split; [done|]. destruct (action_type b); naive_solver.
Qed.

Lemma trimmed_wf now s s' : trimmed now s s' → wf cfg s → wf cfg s'.
Proof. intros [Hf _ _ _] []. rewrite Hf. by constructor. Qed.

Lemma trimmed_reqs now s s' : trimmed now s s' → req_l s' = req_l s.
Proof. intros [Hf _ _ _]. by rewrite Hf. Qed.

(** What considering the request at [i] returns: the candidate as it was, or [i]. *)
Definition considered (now i : Z) (s : state) (c c' : candidate) (s' : state) (o : list call) : Prop :=
  trimmed now s s' ∧ o = [] ∧ (c' = c ∨ (c_idx c' = i ∧ ready now i s')).

Lemma wp_prefer_activate now i rank l c s :
  wf cfg s → servable cfg l → 0 ≤ rank < num_ranks_per_mc cfg →
  wp no_failure (prefer_activate cfg i rank l now c) s (λ c' s' o,
    s' = s ∧ o = [] ∧ (c' = c ∨ (c_idx c' = i ∧ activate_ok now rank s))).
Proof.
  intros Hwf [Hth _] Hr. unfold prefer_activate. wp_steps.
  destruct (vec_get_lt (last_activate_time s) rank) as [last Hlast]; [destruct Hwf; lia|].
  apply (wp_lift_ok _ _ last); [done|].
  destruct (negb (page_hit c) && _) eqn:E; [|wp_steps; by eauto].
  apply andb_true_iff in E as [_ E%Z.leb_le]. wp_step.
  destruct (vec_get_lt (num_req_from_a_th s) (th_id l)) as [n Hn]; [destruct Hwf; lia|].
  apply (wp_lift_ok _ _ n); [done|]. wp_if Hn'; wp_steps; [|split_and!; [done..|by left]].
  split_and!; [done..|]. right. split; [done|]. by exists last.
Qed.

Lemma wp_consider_hit now i rank l c s :
  wf cfg s → servable cfg l → 0 ≤ rank < num_ranks_per_mc cfg →
  wp no_failure (consider_hit cfg now i rank l c) s (λ c' s' o,
    trimmed now s s' ∧ o = [] ∧ (c' = c ∨ (c_idx c' = i ∧ hit_ok now rank l s'))).
Proof.
  intros Hwf [Hth Hty] Hr. unfold consider_hit. wp_steps.
  destruct (is_mc_read (type l)) eqn:Hrd; [|destruct (is_mc_write (type l)) eqn:Hwr; [|done]]; wp_steps.
  - destruct (vec_get_lt (last_write_time s) rank) as [last Hlast]; [destruct Hwf; lia|].
    eapply wp_lift_ok; [unfold read_ready; cbn; by rewrite Hlast|].
    set (s' := s <| dp_status ::= from_key now |> <| rd_dp_status ::= from_key now |>).
    assert (trimmed now s s') as Ht by (constructor; [by destruct s|by right|by right|by left]).
    wp_if Hg; wp_steps; [|split_and!; [done..|by left]].
    destruct (vec_get_lt (num_req_from_a_th s) (th_id l)) as [n Hn]; [destruct Hwf; lia|].
    apply (wp_lift_ok _ _ n); [done|]. wp_if Hn'; wp_steps; [|split_and!; [done..|by left]].
    split_and!; [done..|]. right. split; [done|]. split; [symmetry; apply from_key_idemp|]. left.
    split_and!; [done|symmetry; apply from_key_idemp|]. unfold read_ready. cbn. rewrite Hlast. cbn. by f_equal.
  - destruct (vec_get_lt (last_read_time_rank s) rank) as [last Hlast]; [destruct Hwf; lia|].
    eapply wp_lift_ok; [unfold write_ready; cbn; by rewrite Hlast|].
    set (s' := s <| dp_status ::= from_key now |> <| wr_dp_status ::= from_key now |>).
    assert (trimmed now s s') as Ht by (constructor; [by destruct s|by right|by left|by right]).
    wp_if Hg; wp_steps; [|split_and!; [done..|by left]].
    destruct (vec_get_lt (num_req_from_a_th s) (th_id l)) as [n Hn]; [destruct Hwf; lia|].
    apply (wp_lift_ok _ _ n); [done|]. wp_if Hn'; wp_steps; [|split_and!; [done..|by left]].
    split_and!; [done..|]. right. split; [done|]. split; [symmetry; apply from_key_idemp|]. right.
    split_and!; [done|done|symmetry; apply from_key_idemp|]. unfold write_ready. cbn. rewrite Hlast. cbn. by f_equal.
Qed.

Lemma wp_consider_open now i rank bank page b l c s :
  wf cfg s → servable cfg l → 0 ≤ rank < num_ranks_per_mc cfg →
  wp no_failure (consider_open cfg now i rank bank page b l c) s (λ c' s' o,
    trimmed now s s' ∧ o = [] ∧
    (c' = c ∨ (c_idx c' = i ∧ open_ok now i rank bank page b l s'))).
Proof.
  intros Hwf Hl Hr. unfold consider_open, open_ok.
  wp_if Ht; [wp_steps; split_and!; [apply trimmed_refl|done|by left]|]. apply Z.ltb_ge in Ht.
  destruct (page_num b =? page); cbn [negb].
  { eapply wp_mono; [by apply wp_consider_hit|]. cbn. intros c' s' o (? & ? & [?|[? ?]]); auto 6. }
  wp_if Hp; [|wp_steps; split_and!; [apply trimmed_refl|done|by left]].
  apply bool_decide_eq_true in Hp. wp_steps.
  destruct (row_wanted_ok i (curr_batch_last s) rank bank (page_num b) (req_l s) 0) as [w Hw].
  apply (wp_lift_ok _ _ w); [done|].
  destruct w; [wp_steps; split_and!; [apply trimmed_refl|done|by left]|].
  eapply wp_mono; [by apply wp_prefer_activate|]. cbn. intros c' s' o (-> & -> & Hc).
  split_and!; [apply trimmed_refl|done|]. destruct Hc as [?|[? ?]]; [by left|by right].
Qed.

Lemma wp_consider now i l c s :
  wf cfg s → vec_get (req_l s) i = Ok l → servable cfg l →
  wp no_failure (consider cfg now i l c) s (considered now i s c).
Proof.
  intros Hwf Hi Hl. unfold consider, considered. wp_step.
  destruct (mc_locate_ok (address l)) as (rank & bank & page & Hloc & Hr & Hbk).
  apply (wp_lift_ok _ _ (rank, bank, page)); [done|]. wp_steps.
  destruct (mc_bank_of_ok s rank bank Hwf Hr Hbk) as [b Hb]. apply (wp_lift_ok _ _ b); [done|].
  wp_if Ht; [wp_steps; split_and!; [apply trimmed_refl|done|by left]|]. apply Z.ltb_ge in Ht.
  assert (∀ s', trimmed now s s' → command_ok now i rank bank page b l s' → ready now i s') as Hready.
  { intros s' Hs' Hok. exists l, rank, bank, page, b. rewrite (trimmed_reqs _ _ _ Hs').
    split_and!; [done|done| |done]. unfold bank_of. by rewrite (tm_frame _ _ _ Hs'). }
  assert (∀ (P : state → Prop) (m : proc call state candidate),
    (∀ s', P s' → trimmed now s s' → command_ok now i rank bank page b l s') →
    wp no_failure m s (λ c' s' o, trimmed now s s' ∧ o = [] ∧ (c' = c ∨ (c_idx c' = i ∧ P s'))) →
    wp no_failure m s (λ c' s' o, trimmed now s s' ∧ o = [] ∧ (c' = c ∨ (c_idx c' = i ∧ ready now i s')))) as Hwp.
  { intros P m HP Hm. eapply wp_mono; [exact Hm|]. intros c' s' o (? & ? & [?|[? ?]]); auto 7. }
  assert (wp no_failure (prefer_activate cfg i rank l now c) s (λ c' s' o,
    trimmed now s s' ∧ o = [] ∧ (c' = c ∨ (c_idx c' = i ∧ activate_ok now rank s')))) as Hact.
  { eapply wp_mono; [by apply wp_prefer_activate|]. cbn. intros c' s' o (-> & ? & ?).
    split_and!; [apply trimmed_refl|done|done]. }
  pose proof (wp_consider_open now i rank bank page b l c s Hwf Hl Hr) as Hopen.
  unfold command_ok in *.
  destruct (action_type b) eqn:Hty.
  - wp_if Hd; [wp_steps; split_and!; [apply trimmed_refl|done|by left]|]. apply Z.ltb_ge in Hd.
    eapply Hwp; [|exact Hopen]. auto.
  - eapply Hwp; [|exact Hopen]. auto.
  - eapply Hwp; [|exact Hopen]. auto.
  - wp_if Hd; [wp_steps; split_and!; [apply trimmed_refl|done|by left]|]. apply Z.ltb_ge in Hd.
    eapply Hwp; [|exact Hact]. auto.
  - eapply Hwp; [|exact Hact]. auto.
Qed.

(** The scan returns no candidate, or one in the window that can make progress. *)
Lemma wp_scan now rest i c s done_ :
  wf cfg s → req_l s = done_ ++ rest → i = Z.of_nat (length done_) →
  wp no_failure (scan cfg now rest i c) s (λ c' s' o, trimmed now s s' ∧ o = [] ∧
    (c' = c ∨ (0 ≤ c_idx c' < req_window_sz cfg ∧ ready now (c_idx c') s'))).
Proof.
  revert i c s done_. induction rest as [|l rest IH]; intros i c s done_ Hwf Hreq Hi; cbn [scan].
  { wp_steps. split_and!; [apply trimmed_refl|done|by left]. }
  wp_steps. wp_if H1; [wp_steps; split_and!; [apply trimmed_refl|done|by left]|].
  wp_if H2; [wp_steps; split_and!; [apply trimmed_refl|done|by left]|]. apply Z.leb_gt in H2.
  assert (vec_get (req_l s) i = Ok l) as Hl.
  { apply vec_get_Some. split; [lia|]. rewrite Hreq, Hi, Nat2Z.id. by rewrite list_lookup_middle. }
  assert (servable cfg l) as Hsl.
  { pose proof (wf_requests _ _ Hwf) as H. rewrite Hreq in H. apply Forall_app in H as [_ H]. by inv H. }
  wp_step. eapply wp_mono; [by apply wp_consider|]. cbn. intros c1 s1 o1 (Ht1 & -> & Hc1).
  eapply wp_mono; [apply (IH (i + 1) c1 s1 (done_ ++ [l])); [by eapply trimmed_wf| |]|].
  { rewrite (trimmed_reqs _ _ _ Ht1), Hreq. by rewrite <- app_assoc. }
  { rewrite length_app. cbn. lia. }
  cbn. intros c2 s2 o2 (Ht2 & -> & Hc2). split_and!; [by eapply trimmed_trans|done|].
  destruct Hc2 as [->|?]; [|by right]. destruct Hc1 as [->|[<- Hready]]; [by left|].
  right. split; [lia|by eapply ready_trimmed].
Qed.

(** ** What issuing a command does *)

(** The reply to a request that was transferred; a written-back line is just freed. *)
Definition served (now : Z) (l : LQE) : call :=
  if is_mc_read (type l)
  then Component.add_rep_event (directory cfg) (now ⊕ mc_to_dir_t cfg) l None
  else if bool_decide (type l = et_s_rd_wr)
  then Component.add_rep_event (directory cfg) (now ⊕ mc_to_dir_t cfg) (l <| type := et_s_rd |>) None
  else free_lqe l.

Definition kind_of (l : LQE) : mc_bank_action :=
  if is_mc_read (type l) then mc_bank_read else mc_bank_write.

(** The bank after a transfer: the row stays open under the open policy, or when a later
    request of the window wants it; otherwise it is precharged. *)
Definition after_transfer (now i rank bank page : Z) (b : BankStatus) (l : LQE) (s : state)
    (b' : BankStatus) : Prop :=
  if bool_decide (policy cfg = mc_scheduling_open)
  then b' = b <| action_time := now |> <| action_type := kind_of l |>
  else ∃ wanted,
    row_wanted_after cfg rank bank page (drop (Z.to_nat (i + 1)) (req_l s)) (i + 1) = Ok wanted ∧
    b' = if wanted : bool
         then b <| action_time := precharge_time cfg now b ⊖ ticks cfg (tRP cfg) |>
                <| action_type := kind_of l |>
         else b <| action_time := precharge_time cfg now b |> <| action_type := mc_bank_precharge |>.

Definition drop_thread (l : LQE) (s : state) : list Z :=
  if par_bs cfg then vec_alter (λ k, i32 (k - 1)) (th_id l) (num_req_from_a_th s)
  else num_req_from_a_th s.

(** The three commands, by their effect on what later decisions read. *)
Inductive issued (now i rank bank page : Z) (b : BankStatus) (l : LQE) (s s' : state)
    : list call → Prop :=
| issued_activate :
    (action_type b = mc_bank_idle ∨ action_type b = mc_bank_precharge) →
    bank_status s' = bank_status (set_bank rank bank (Build_BankStatus now page mc_bank_activate now) s) →
    last_activate_time s' = vec_set rank now (last_activate_time s) →
    req_l s' = req_l s → num_req_from_a_th s' = num_req_from_a_th s →
    curr_batch_last s' = curr_batch_last s → dp_status s' = dp_status s → queues s' = queues s →
    issued now i rank bank page b l s s' []
| issued_precharge :
    policy cfg = mc_scheduling_open → page_num b ≠ page →
    action_type b ≠ mc_bank_idle → action_type b ≠ mc_bank_precharge →
    bank_status s' = bank_status (set_bank rank bank
      (b <| action_time := precharge_time cfg now b |> <| action_type := mc_bank_precharge |>) s) →
    last_activate_time s' = last_activate_time s →
    req_l s' = req_l s → num_req_from_a_th s' = num_req_from_a_th s →
    curr_batch_last s' = curr_batch_last s → dp_status s' = dp_status s → queues s' = queues s →
    issued now i rank bank page b l s s' []
| issued_transfer b' :
    page_num b = page → action_type b ≠ mc_bank_idle → action_type b ≠ mc_bank_precharge →
    after_transfer now i rank bank page b l s b' →
    bank_status s' = bank_status (set_bank rank bank b' s) →
    last_activate_time s' = last_activate_time s →
    req_l s' = delete (Z.to_nat i) (req_l s) →
    num_req_from_a_th s' = drop_thread l s →
    curr_batch_last s' = curr_batch_last (batch_step cfg i s) →
    dp_status s' = burst cfg now (kind_of l) (dp_status s) → queues s' = queues s →
    issued now i rank bank page b l s s' [served now l].

Lemma length_vec_set {A} i (x : A) l : length (vec_set i x l) = length l.
Proof. apply length_vec_alter. Qed.

Lemma wf_set_bank rank bank b s : wf cfg s → wf cfg (set_bank rank bank b s).
Proof.
  intros []. constructor; cbn; rewrite ?length_vec_alter; try done.
  unfold vec_alter. case_match; [done|]. apply Forall_alter; [done|].
  intros r _ Hr. by rewrite length_vec_set.
Qed.

Lemma wf_batch_step i s : wf cfg s → wf cfg (batch_step cfg i s).
Proof. intros []. unfold batch_step. repeat case_match; by constructor. Qed.

Lemma wp_transfer_read now rank l s :
  wf cfg s → 0 ≤ rank < num_ranks_per_mc cfg → is_mc_read (type l) = true →
  wp no_failure (transfer_read cfg now rank l) s (λ _ s' o, wf cfg s' ∧ o = [served now l] ∧
    bank_status s' = bank_status s ∧ last_activate_time s' = last_activate_time s ∧
    req_l s' = req_l s ∧ num_req_from_a_th s' = num_req_from_a_th s ∧
    curr_batch_last s' = curr_batch_last s ∧ queues s' = queues s ∧
    dp_status s' = burst cfg now mc_bank_read (dp_status s)).
Proof.
  intros Hwf Hr Hrd. unfold transfer_read. wp_steps.
  destruct (vec_get_lt (is_last_time_write s) rank) as [w Hw]; [destruct Hwf; lia|].
  apply (wp_lift_ok _ _ w); [done|]. wp_step. apply wp_when; intros _; wp_steps;
    (split; [destruct Hwf; constructor; cbn; rewrite ?length_vec_set; done|]);
    unfold served; rewrite Hrd; split_and!; done.
Qed.

Lemma wp_transfer_write now rank l s :
  wf cfg s → is_mc_read (type l) = false →
  wp no_failure (transfer_write cfg now rank l) s (λ _ s' o, wf cfg s' ∧ o = [served now l] ∧
    bank_status s' = bank_status s ∧ last_activate_time s' = last_activate_time s ∧
    req_l s' = req_l s ∧ num_req_from_a_th s' = num_req_from_a_th s ∧
    curr_batch_last s' = curr_batch_last s ∧ queues s' = queues s ∧
    dp_status s' = burst cfg now mc_bank_write (dp_status s)).
Proof.
  intros Hwf Hrd. unfold transfer_write. wp_steps.
  split; [destruct Hwf; constructor; cbn; rewrite ?length_vec_set; done|].
  unfold served. rewrite Hrd. split_and!; done.
Qed.

Lemma wp_close_row now i rank bank page b l s :
  wf cfg s →
  wp no_failure (close_row cfg now i rank bank page (b <| action_time := now |>) (kind_of l)) s
    (λ _ s' o, wf cfg s' ∧ o = [] ∧
      (∃ b', after_transfer now i rank bank page b l s b' ∧
        bank_status s' = bank_status (set_bank rank bank b' s)) ∧
      last_activate_time s' = last_activate_time s ∧
      req_l s' = req_l s ∧ num_req_from_a_th s' = num_req_from_a_th s ∧
      curr_batch_last s' = curr_batch_last s ∧ queues s' = queues s ∧ dp_status s' = dp_status s).
Proof.
  intros Hwf. unfold close_row, after_transfer. case_bool_decide as Hp; wp_steps.
  { split; [by apply wf_set_bank|]. split_and!; try done. by eexists. }
  destruct (row_wanted_after_ok rank bank page (drop (Z.to_nat (i + 1)) (req_l s)) (i + 1)) as [w Hw].
  apply (wp_lift_ok _ _ w); [done|]. wp_if Hw'; subst w; wp_steps.
  - split; [by apply wf_set_bank|]. split_and!; try done. eexists. split; [by exists true|]. done.
  - split; [|split_and!; try done; eexists; split; [by exists false|]; done].
    pose proof (wf_set_bank rank bank (b <| action_time := precharge_time cfg now b |>
      <| action_type := mc_bank_precharge |>) s Hwf) as []. by constructor.
Qed.

Lemma wp_serve now i rank bank page b l s :
  wf cfg s → servable cfg l → 0 ≤ rank < num_ranks_per_mc cfg →
  action_type b ≠ mc_bank_idle → action_type b ≠ mc_bank_precharge → page_num b = page →
  vec_get (req_l s) i = Ok l →
  wp no_failure (serve cfg now i rank bank page b l) s (λ _ s' o,
    wf cfg s' ∧ issued now i rank bank page b l s s' o).
Proof.
  intros Hwf [Hth Hty] Hr Hb1 Hb2 Hpg Hl. unfold serve.
  set (s1 := s <| num_req_from_a_th := drop_thread l s |>).
  assert (wf cfg s1) as Hwf1.
  { destruct Hwf. constructor; cbn; try done. unfold drop_thread. case_match; [by rewrite length_vec_alter|done]. }
  wp_step. eapply (wp_mono _ _ _ (λ _ s' o, s' = s1 ∧ o = [])).
  { unfold s1, drop_thread. destruct (par_bs cfg); wp_steps; [|by destruct s].
    destruct (vec_get_lt (num_req_from_a_th s) (th_id l)) as [n Hn]; [destruct Hwf; lia|].
    apply (wp_lift_ok _ _ n); [done|]. wp_steps. by destruct s. }
  cbn. intros _ s1' o1 [-> ->]. wp_step.
  eapply (wp_mono _ _ _ (λ act s' o, act = kind_of l ∧ wf cfg s' ∧ o = [served now l] ∧
    bank_status s' = bank_status s1 ∧ last_activate_time s' = last_activate_time s1 ∧
    req_l s' = req_l s1 ∧ num_req_from_a_th s' = num_req_from_a_th s1 ∧
    curr_batch_last s' = curr_batch_last s1 ∧ queues s' = queues s1 ∧
    dp_status s' = burst cfg now (kind_of l) (dp_status s1))).
  { unfold kind_of. destruct (is_mc_read (type l)) eqn:Hrd; [|cbn in Hty; rewrite Hty]; wp_step.
    - eapply wp_mono; [by apply wp_transfer_read|]. cbn. intros _ s' o ?. by wp_steps; rewrite app_nil_r.
    - eapply wp_mono; [by apply wp_transfer_write|]. cbn. intros _ s' o ?. by wp_steps; rewrite app_nil_r. }
  cbn. intros act s2 o2 (-> & Hwf2 & -> & Eb2 & Ea2 & Er2 & En2 & Ec2 & Eq2 & Ed2). wp_step.
  eapply wp_mono; [by apply wp_close_row|].
  cbn. intros _ s3 o3 (Hwf3 & -> & (b' & Hb' & Eb3) & Ea3 & Er3 & En3 & Ec3 & Eq3 & Ed3). wp_steps.
  assert (bank_status (batch_step cfg i s3) = bank_status s3 ∧
    last_activate_time (batch_step cfg i s3) = last_activate_time s3 ∧
    num_req_from_a_th (batch_step cfg i s3) = num_req_from_a_th s3 ∧
    queues (batch_step cfg i s3) = queues s3 ∧ dp_status (batch_step cfg i s3) = dp_status s3) as (E1 & E2 & E3 & E4 & E5).
  { unfold batch_step. by repeat case_match. }
  split.
  - destruct (wf_batch_step i s3 Hwf3). constructor; try done. cbn.
    apply Forall_delete. by destruct Hwf3.
  - apply issued_transfer with b'; cbn; try done; try congruence.
    + unfold after_transfer in *. by rewrite Er2 in Hb'.
    + unfold batch_step. rewrite Er3, Er2, Ec3, Ec2. repeat case_match; cbn; rewrite ?Er3, ?Er2, ?Ec3, ?Ec2; done.
Qed.

Lemma wp_issue now i s :
  wf cfg s → ready now i s →
  wp no_failure (issue cfg now i) s (λ _ s' o, wf cfg s' ∧
    ∃ l rank bank page b,
      vec_get (req_l s) i = Ok l ∧ locate cfg (address l) = Ok (rank, bank, page) ∧
      bank_of s rank bank = Ok b ∧ command_ok now i rank bank page b l s ∧
      issued now i rank bank page b l s s' o).
Proof.
  intros Hwf (l & rank & bank & page & b & Hl & Hloc & Hb & Hok). unfold issue.
  wp_steps. apply (wp_lift_ok _ _ l); [done|]. wp_step.
  apply (wp_lift_ok _ _ (rank, bank, page)); [done|]. wp_step. apply (wp_lift_ok _ _ b); [done|].
  assert (servable cfg l) as Hsl.
  { apply vec_get_Some in Hl as [_ Hl]. apply list_elem_of_lookup_2 in Hl.
    pose proof (wf_requests _ _ Hwf) as H. by eapply Forall_forall in H. }
  assert (0 ≤ rank < num_ranks_per_mc cfg) as Hr.
  { destruct (mc_locate_ok (address l)) as (? & ? & ? & E & ? & _). rewrite Hloc in E. by injection E as -> -> ->. }
  assert (∀ o s', wf cfg s' ∧ issued now i rank bank page b l s s' o → wf cfg s' ∧
    ∃ l rank bank page b,
      vec_get (req_l s) i = Ok l ∧ locate cfg (address l) = Ok (rank, bank, page) ∧
      bank_of s rank bank = Ok b ∧ command_ok now i rank bank page b l s ∧
      issued now i rank bank page b l s s' o) as Hend by naive_solver.
  assert (action_type b ≠ mc_bank_idle → action_type b ≠ mc_bank_precharge →
    wp no_failure (if negb (page_num b =? page)
      then when (bool_decide (policy cfg = mc_scheduling_open))
        (modify (λ s, (set_bank rank bank (b <| action_time := precharge_time cfg now b |>
            <| action_type := mc_bank_precharge |>) s) <| num_precharge ::= λ n, n ⊕ 1 |>))
      else serve cfg now i rank bank page b l) s
    (λ _ s' o, wf cfg s' ∧ issued now i rank bank page b l s s' o)) as Hopen.
  { intros Hb1 Hb2. destruct (Z.eqb_spec (page_num b) page) as [Hp|Hp]; cbn [negb].
    - by apply wp_serve.
    - assert (policy cfg = mc_scheduling_open) as Hpol.
      { destruct Hok as [_ Hok]. unfold open_ok in Hok. rewrite (proj2 (Z.eqb_neq _ _) Hp) in Hok.
        destruct (action_type b); naive_solver. }
      rewrite bool_decide_true by done. cbn [when]. wp_steps. split; [|by apply issued_precharge].
      pose proof (wf_set_bank rank bank (b <| action_time := precharge_time cfg now b |>
        <| action_type := mc_bank_precharge |>) s Hwf) as []. by constructor. }
  destruct (action_type b) eqn:Hty; try (eapply wp_mono; [by apply Hopen|]; cbn; auto);
    wp_steps; apply Hend; (split; [|apply issued_activate; try done; by (left + right)]);
    pose proof (wf_set_bank rank bank (Build_BankStatus now page mc_bank_activate now) s Hwf) as [];
    constructor; cbn; rewrite ?length_vec_set; done.
Qed.

(** ** A cycle *)

Definition arrivals (now : Z) (s : state) : list LQE := (mm_drain now (req_event (queues s))).1.

(** Parallelism-aware batching: the counters are exact, and the batch lies in the list. *)
Definition requests_of (t : Z) (l : list LQE) : Z :=
  Z.of_nat (length (filter (λ r, th_id r = t) l)).

Record batch_ok (s : state) : Prop := {
  counters_exact t n : vec_get (num_req_from_a_th s) t = Ok n → n = requests_of t (req_l s);
  batch_bounds : -1 ≤ curr_batch_last s < Z.max 1 (Z.of_nat (length (req_l s))) }.

Lemma requests_of_app t l1 l2 : requests_of t (l1 ++ l2) = requests_of t l1 + requests_of t l2.
Proof. unfold requests_of. rewrite filter_app, length_app. lia. Qed.

Lemma requests_of_bound t l : 0 ≤ requests_of t l ≤ Z.of_nat (length l).
Proof. unfold requests_of. pose proof (length_filter (λ r, th_id r = t) l). lia. Qed.

Lemma i32_id x : - 2 ^ 31 ≤ x < 2 ^ 31 → i32 x = x.
Proof. intros H. unfold i32. rewrite Z.mod_small; lia. Qed.

(** What [pre_processing] leaves alone, and what it adds. *)
Record accepted (now : Z) (s s' : state) : Prop := {
  ac_wf : wf cfg s';
  ac_reqs : req_l s' = req_l s ++ arrivals now s;
  ac_banks : bank_status s' = bank_status s;
  ac_activate : last_activate_time s' = last_activate_time s;
  ac_dp : dp_status s' = dp_status s;
  ac_batch : par_bs cfg = true → batch_ok s → 0 < req_window_sz cfg < 2 ^ 31 →
    Z.of_nat (length (req_l s ++ arrivals now s)) < 2 ^ 31 - 1 → batch_ok s' }.

Lemma wp_accept l s :
  wf cfg s → servable cfg l →
  wp no_failure (accept cfg l) s (λ _ s' o, o = [] ∧ wf cfg s' ∧ req_l s' = req_l s ++ [l] ∧
    bank_status s' = bank_status s ∧ last_activate_time s' = last_activate_time s ∧
    dp_status s' = dp_status s ∧ queues s' = queues s ∧ curr_batch_last s' = curr_batch_last s ∧
    num_req_from_a_th s' = if par_bs cfg
      then vec_alter (λ k, i32 (k + 1)) (th_id l) (num_req_from_a_th s) else num_req_from_a_th s).
Proof.
  intros Hwf Hl. unfold accept. pose proof (proj1 Hl) as Hth.
  wp_if Hp; wp_steps.
  - destruct (vec_get_lt (num_req_from_a_th s) (th_id l)) as [n Hn]; [destruct Hwf; lia|].
    apply (wp_lift_ok _ _ n); [done|]. wp_steps. split_and!; try done.
    destruct Hwf. constructor; cbn; rewrite ?length_vec_alter; try done.
    apply Forall_app. split; [done|by constructor].
  - split_and!; try done. destruct Hwf. constructor; cbn; try done.
    apply Forall_app. split; [done|by constructor].
Qed.

Lemma counters_accept l s s' :
  par_bs cfg = true →
  num_req_from_a_th s' = vec_alter (λ k, i32 (k + 1)) (th_id l) (num_req_from_a_th s) →
  req_l s' = req_l s ++ [l] → curr_batch_last s' = curr_batch_last s →
  Z.of_nat (length (req_l s)) < 2 ^ 31 - 2 → batch_ok s → batch_ok s'.
Proof.
  intros Hp Hn Hr Hc Hlen [Hcnt Hb]. constructor.
  - intros t n. rewrite Hn, Hr, requests_of_app. intros H.
    pose proof (requests_of_bound t (req_l s)) as Hbound.
    destruct (decide (th_id l = t)) as [<-|Hne].
    + apply vec_get_range in H as Hrange. rewrite length_vec_alter in Hrange.
      destruct (vec_get_lt (num_req_from_a_th s) (th_id l) Hrange) as [k Hk].
      rewrite (vec_get_alter _ _ _ k Hk) in H. injection H as <-. apply Hcnt in Hk as ->.
      rewrite i32_id by lia. unfold requests_of at 3. by rewrite filter_cons_True.
    + rewrite vec_get_alter_ne in H by done. apply Hcnt in H as ->.
      unfold requests_of at 3. rewrite filter_cons_False by done. cbn. lia.
  - rewrite Hc, Hr, length_app. cbn. lia.
Qed.

Lemma wp_accept_all ls s :
  wf cfg s → Forall (servable cfg) ls →
  wp no_failure (for_each ls (accept cfg)) s (λ _ s' o, o = [] ∧ wf cfg s' ∧
    req_l s' = req_l s ++ ls ∧ bank_status s' = bank_status s ∧
    last_activate_time s' = last_activate_time s ∧ dp_status s' = dp_status s ∧
    queues s' = queues s ∧ curr_batch_last s' = curr_batch_last s ∧
    (par_bs cfg = true → batch_ok s → Z.of_nat (length (req_l s ++ ls)) < 2 ^ 31 - 1 → batch_ok s')).
Proof.
  intros Hwf Hls. revert s Hwf. induction Hls as [|l ls Hl Hls IH]; intros s Hwf; cbn [for_each].
  { wp_steps. rewrite app_nil_r. by split_and!. }
  wp_step. eapply wp_mono; [by apply wp_accept|].
  cbn. intros _ s1 o1 (-> & Hwf1 & Er & Eb & Ea & Ed & Eq & Ec & En).
  eapply wp_mono; [by apply IH|].
  cbn. intros _ s2 o2 (-> & Hwf2 & Er2 & Eb2 & Ea2 & Ed2 & Eq2 & Ec2 & Hb2).
  split_and!; try done; try congruence.
  - rewrite Er2, Er. by rewrite <- app_assoc.
  - intros Hp Hb Hlen. rewrite length_app in Hlen. cbn in Hlen. apply Hb2; [done| |].
    + rewrite Hp in En. eapply counters_accept; try done. lia.
    + rewrite Er, !length_app. cbn. lia.
Qed.

Lemma wp_pre_processing now s :
  wf cfg s → Forall (servable cfg) (arrivals now s) →
  wp no_failure (pre_processing cfg now) s (λ _ s' o, o = [] ∧ accepted now s s' ∧
    queues s' = (queues s) <| req_event := (mm_drain now (req_event (queues s))).2 |>).
Proof.
  intros Hwf Harr. unfold pre_processing. wp_steps. fold (arrivals now s).
  eapply wp_mono; [by apply wp_accept_all|].
  cbn. intros _ s1 o1 (-> & Hwf1 & Er & Eb & Ea & Ed & Eq & Ec & Hb). wp_steps.
  apply wp_when; intros Hc; wp_steps; (split; [done|]); (split; [|cbn; by rewrite Eq]);
    (constructor; try done; [by destruct Hwf1; constructor|]).
  - intros Hp Hb0 Hw Hlen. specialize (Hb Hp Hb0 Hlen).
    apply andb_true_iff in Hc as [_ Hc]. cbn in Hc.
    apply negb_true_iff, bool_decide_eq_false in Hc.
    assert (0 < Z.of_nat (length (req_l s1))) by (destruct (req_l s1); [done|cbn; lia]).
    rewrite <- Er in Hlen.
    constructor; cbn; [by apply Hb|]. rewrite u32_id, i32_id by (unfold in_u32; lia). lia.
  - intros Hp Hb0 Hw Hlen. specialize (Hb Hp Hb0 Hlen). by constructor; apply Hb.
Qed.

Definition rearm (now : Z) (reqs : list LQE) : list call :=
  match reqs with
  | [] => []
  | _ => [geq_add_event (now ⊕ process_interval cfg) (this cfg)]
  end.

(** The state a cycle issues its command in: the arrivals accepted and the bus maps
    trimmed. *)
Record prepared (now : Z) (s s2 : state) : Prop := {
  pr_wf : wf cfg s2;
  pr_reqs : req_l s2 = req_l s ++ arrivals now s;
  pr_banks : bank_status s2 = bank_status s;
  pr_activate : last_activate_time s2 = last_activate_time s;
  pr_dp : trims now (dp_status s) (dp_status s2);
  pr_batch : par_bs cfg = true → batch_ok s → 0 < req_window_sz cfg < 2 ^ 31 →
    Z.of_nat (length (req_l s ++ arrivals now s)) < 2 ^ 31 - 1 → batch_ok s2 }.

(** A command for the request at [i] of the window, which may be issued now. *)
Definition commands (now : Z) (s2 s' : state) (o : list call) : Prop :=
  ∃ i l rank bank page b,
    0 ≤ i < req_window_sz cfg ∧ vec_get (req_l s2) i = Ok l ∧
    locate cfg (address l) = Ok (rank, bank, page) ∧ bank_of s2 rank bank = Ok b ∧
    command_ok now i rank bank page b l s2 ∧ issued now i rank bank page b l s2 s' o.

Lemma cycle now s :
  wf cfg s → Forall (servable cfg) (arrivals now s) →
  ∃ s2 s' o, process_event cfg now s = Ok (0, s', o ++ rearm now (req_l s')) ∧
    prepared now s s2 ∧ wf cfg s' ∧ ((s' = s2 ∧ o = []) ∨ commands now s2 s' o).
Proof.
  intros Hwf Harr.
  assert (wp no_failure (process_event cfg now) s (λ a s' o, a = 0 ∧ ∃ s2 o1,
    o = o1 ++ rearm now (req_l s') ∧ prepared now s s2 ∧ wf cfg s' ∧
    ((s' = s2 ∧ o1 = []) ∨ commands now s2 s' o1))) as H.
  2: { apply wp_total in H as (a & s' & o & E & -> & s2 & o1 & -> & H). by exists s2, s', o1. }
  unfold process_event. wp_steps.
  set (s0 := s <| packet_time_in_mc_acc ::= _ |> <| last_process_time := now |>).
  assert (wf cfg s0) as Hwf0 by (destruct Hwf; by constructor).
  assert (arrivals now s0 = arrivals now s) as Harr0 by done.
  eapply wp_mono; [apply wp_pre_processing; [done|by rewrite Harr0]|].
  cbn beta. intros _ s1 o1 (-> & Hac & _). wp_steps.
  eapply wp_mono; [apply (wp_scan now (req_l s1) 0 _ s1 []); [apply Hac|done|done]|].
  cbn beta. intros c s2 o2 (Htrim & -> & Hc).
  assert (prepared now s s2) as Hpr.
  { destruct Hac as [Hwf1 Hr1 Hb1 Ha1 Hd1 Hbt1]. pose proof (tm_frame _ _ _ Htrim) as Hf. constructor.
    - by eapply trimmed_wf.
    - rewrite (trimmed_reqs _ _ _ Htrim). exact Hr1.
    - rewrite Hf. cbn. exact Hb1.
    - rewrite Hf. cbn. exact Ha1.
    - pose proof (tm_dp _ _ _ Htrim) as H. by rewrite Hd1 in H.
    - intros Hp Hb Hw Hl. destruct Hb as [Hb Hb']. destruct (Hbt1 Hp ltac:(by constructor) Hw Hl) as [H1 H2].
      rewrite Hf. by constructor. }
  assert (∀ s' o, wf cfg s' → ((s' = s2 ∧ o = []) ∨ commands now s2 s' o) →
    ∀ o', o' = o ++ rearm now (req_l s') → 0 = 0 ∧ ∃ s2 o1,
      o' = o1 ++ rearm now (req_l s') ∧ prepared now s s2 ∧ wf cfg s' ∧
      ((s' = s2 ∧ o1 = []) ∨ commands now s2 s' o1)) as Hend.
  { intros s' o Hwf' Hcase o' ->. split; [done|]. exists s2, o. by split_and!. }
  assert (∀ s' : state, wp no_failure (when (negb (bool_decide (length (req_l s') = 0%nat)))
    (emit (geq_add_event (now ⊕ process_interval cfg) (this cfg)))) s'
    (λ _ s'' o, s'' = s' ∧ o = rearm now (req_l s'))) as Hrearm.
  { intros s'. unfold rearm. by destruct (req_l s'); cbn; wp_steps. }
  wp_step. apply wp_when; intros Hidx.
  - destruct Hc as [->|[Hrange Hready]]; [cbn in Hidx; lia|].
    eapply wp_mono; [apply wp_issue; [apply Hpr|done]|].
    cbn beta. intros _ s3 o3 (Hwf3 & l & rank & bank & page & b & Hl & Hloc & Hb & Hok & Hiss).
    wp_steps. eapply wp_mono; [apply Hrearm|]. cbn beta. intros _ s4 o4 [-> ->]. wp_steps.
    eapply Hend; [done| |cbn [app]; by rewrite ?app_nil_r].
    right. by exists (c_idx c), l, rank, bank, page, b.
  - wp_steps. eapply wp_mono; [apply Hrearm|]. cbn beta. intros _ s4 o4 [-> ->]. wp_steps.
    eapply Hend; [apply Hpr|by left|cbn [app]; by rewrite ?app_nil_r].
Qed.

(** *** Conservation of requests *)

Lemma commands_requests now s2 s' o :
  commands now s2 s' o →
  (o = [] ∧ req_l s' = req_l s2) ∨
  (∃ i l, 0 ≤ i < req_window_sz cfg ∧ vec_get (req_l s2) i = Ok l ∧
     req_l s' = delete (Z.to_nat i) (req_l s2) ∧ o = [served now l]).
Proof.
  intros (i & l & rank & bank & page & b & Hi & Hl & _ & _ & _ & Hiss).
  destruct Hiss; [by left|by left|]. right. by exists i, l.
Qed.

(** *** The bank protocol *)

Lemma bank_of_set rank bank b b' r k s s' :
  bank_status s' = bank_status (set_bank rank bank b s) → bank_of s rank bank = Ok b' →
  bank_of s' r k = if bool_decide ((r, k) = (rank, bank)) then Ok b else bank_of s r k.
Proof.
  intros Hs Hb. unfold bank_of in *. rewrite Hs. unfold set_bank. cbn.
  destruct (vec_get (bank_status s) rank) as [banks|] eqn:Er; [|done]. cbn in Hb.
  destruct (decide (r = rank)) as [->|Hr].
  - rewrite (vec_get_alter _ _ _ _ Er), Er. cbn. destruct (decide (k = bank)) as [->|Hk].
    + rewrite bool_decide_true by done. by eapply vec_get_set.
    + rewrite bool_decide_false by congruence. by rewrite vec_get_set_ne.
  - rewrite vec_get_alter_ne by done. rewrite bool_decide_false by congruence. done.
Qed.

(** The row is open long enough for a column access or a precharge. *)
Definition row_open (now : Z) (b : BankStatus) : Prop :=
  action_time b ≤ now ∧ action_time b ⊕ ticks cfg (tBBL cfg) ≤ now ∧
  ((action_type b = mc_bank_activate ∧ action_time b ⊕ ticks cfg (tRCD cfg) ≤ now) ∨
    action_type b = mc_bank_read ∨ action_type b = mc_bank_write).

(** The legal transitions of one bank at [now]: activate a row, precharge (open policy),
    transfer and leave the row open, transfer and precharge (closed policies). *)
Inductive bank_step (now : Z) (b : BankStatus) : BankStatus → Prop :=
| step_activate page :
    action_time b ≤ now →
    action_type b = mc_bank_idle ∨
      (action_type b = mc_bank_precharge ∧ action_time b ⊕ ticks cfg (tRP cfg) ≤ now) →
    bank_step now b (Build_BankStatus now page mc_bank_activate now)
| step_precharge :
    row_open now b →
    bank_step now b (b <| action_time := precharge_time cfg now b |> <| action_type := mc_bank_precharge |>)
| step_transfer act :
    row_open now b → act = mc_bank_read ∨ act = mc_bank_write → policy cfg = mc_scheduling_open →
    bank_step now b (b <| action_time := now |> <| action_type := act |>)
| step_transfer_keep act :
    row_open now b → act = mc_bank_read ∨ act = mc_bank_write → policy cfg ≠ mc_scheduling_open →
    bank_step now b (b <| action_time := precharge_time cfg now b ⊖ ticks cfg (tRP cfg) |>
                       <| action_type := act |>).

Lemma command_row_open now i rank bank page b l s :
  command_ok now i rank bank page b l s → action_type b ≠ mc_bank_idle →
  action_type b ≠ mc_bank_precharge → row_open now b ∧ open_ok now i rank bank page b l s.
Proof.
  unfold command_ok, row_open. intros [Ht Hok] H1 H2.
  destruct (action_type b); try done; unfold open_ok in *; naive_solver.
Qed.

Lemma kind_of_cases l : kind_of l = mc_bank_read ∨ kind_of l = mc_bank_write.
Proof. unfold kind_of. case_match; auto. Qed.

Lemma issued_step now i rank bank page b l s s' o :
  bank_of s rank bank = Ok b → command_ok now i rank bank page b l s →
  issued now i rank bank page b l s s' o →
  (∃ b', bank_step now b b' ∧
     ∀ r k, bank_of s' r k = if bool_decide ((r, k) = (rank, bank)) then Ok b' else bank_of s r k) ∧
  (o ≠ [] → page_num b = page ∧ row_open now b).
Proof.
  intros Hb Hok Hiss. destruct Hiss as
    [Hty Hbs | Hpol Hpg H1 H2 Hbs | b' Hpg H1 H2 Haft Hbs].
  - split; [|done]. eexists. split; [|intros r k; by apply (bank_of_set _ _ _ _ _ _ _ _ Hbs Hb)].
    destruct Hok as [Ht Hok]. apply step_activate; [done|].
    destruct Hty as [E|E]; rewrite E in Hok; [by left|right]. naive_solver.
  - split; [|done]. eexists. split; [|intros r k; by apply (bank_of_set _ _ _ _ _ _ _ _ Hbs Hb)].
    apply step_precharge. by eapply command_row_open.
  - destruct (command_row_open _ _ _ _ _ _ _ _ Hok H1 H2) as [Hopen _]. split; [|done].
    exists b'. split; [|intros r k; by apply (bank_of_set _ _ _ _ _ _ _ _ Hbs Hb)].
    unfold after_transfer in Haft. case_bool_decide as Hpol.
    + rewrite Haft. apply step_transfer; [done|apply kind_of_cases|done].
    + destruct Haft as ([] & _ & ->); [|by apply step_precharge].
      apply step_transfer_keep; [done|apply kind_of_cases|done].
Qed.

(** *** The data bus *)

Definition slot (now j : Z) : Z := now + (tCL cfg + j) * process_interval cfg.

(** No multiplication or addition of a burst's ticks wraps around. *)
Record burst_in_range (now : Z) : Prop := {
  br_now : 0 ≤ now < 2 ^ 63;
  br_interval : 0 < process_interval cfg;
  br_cl : 0 ≤ tCL cfg; br_bl : 0 ≤ tBL cfg;
  br_product : (tCL cfg + tBL cfg) * process_interval cfg < 2 ^ 32 }.

Lemma slot_word now j :
  burst_in_range now → 0 ≤ j ≤ tBL cfg → now ⊕ ticks cfg (tCL cfg ⊕₃₂ j) = slot now j.
Proof.
  intros [Hn Hp Hc Hb Hpr] Hj. unfold ticks, slot.
  assert (0 ≤ (tCL cfg + j) * process_interval cfg < 2 ^ 32) by nia.
  assert (tCL cfg + j < 2 ^ 32) by nia.
  rewrite (u32_id (tCL cfg + j)) by (unfold in_u32; lia).
  rewrite u32_id, u64_id by (unfold in_u32, in_u64; lia). done.
Qed.

Lemma bus_free_slots now m j :
  burst_in_range now → bus_free cfg now m = true → 0 ≤ j < tBL cfg → m !! slot now j = None.
Proof.
  intros Hr Hfree Hj. unfold bus_free in Hfree.
  assert (now ⊕ ticks cfg (tCL cfg) = slot now 0) as E0.
  { rewrite <- (slot_word now 0) by (done || destruct Hr; lia). rewrite Z.add_0_r.
    f_equal. f_equal. f_equal. symmetry. apply u32_id. destruct Hr. unfold in_u32. nia. }
  rewrite E0, slot_word in Hfree by (done || destruct Hr; lia).
  assert (slot now 0 ≤ slot now j) by (unfold slot; destruct Hr; nia).
  assert (slot now j < slot now (tBL cfg)) by (unfold slot; destruct Hr; nia).
  destruct (lower_bound (slot now 0) m) as [[t a]|] eqn:E.
  - apply Z.leb_le in Hfree. destruct (lower_bound_Some _ _ _ _ E) as (_ & _ & Hmin).
    apply eq_None_not_Some. intros Hs. specialize (Hmin _ ltac:(done) Hs). lia.
  - by apply (lower_bound_None _ _) with (k := slot now j) in E.
Qed.

Definition claim (now : Z) (a : mc_bank_action) (m : gmap Z mc_bank_action) (j : Z) :=
  let next_time := now ⊕ ticks cfg (tCL cfg ⊕₃₂ j) in
  match m !! next_time with Some _ => m | None => <[next_time := a]> m end.

Lemma claim_keep now a m j k b : m !! k = Some b → claim now a m j !! k = Some b.
Proof. intros Hk. unfold claim. cbv zeta. case_match; [done|]. rewrite lookup_insert_ne; congruence. Qed.

Lemma claims_keep now a js m k b : m !! k = Some b → foldl (claim now a) m js !! k = Some b.
Proof. revert m. induction js as [|j js IH]; intros m Hk; cbn; [done|]. by apply IH, claim_keep. Qed.

Lemma claims_slot now a js m j :
  burst_in_range now → 0 ≤ j < tBL cfg → j ∈ js →
  (m !! slot now j = None ∨ m !! slot now j = Some a) →
  foldl (claim now a) m js !! slot now j = Some a.
Proof.
  intros Hr Hj. revert m. induction js as [|x js IH]; intros m Hin Hm; [by apply not_elem_of_nil in Hin|].
  cbn [foldl]. apply elem_of_cons in Hin as [->|Hin].
  - apply claims_keep. unfold claim. cbv zeta. rewrite slot_word by (done || lia).
    destruct Hm as [E|E]; rewrite E; [apply lookup_insert_eq|done].
  - apply IH; [done|]. destruct Hm as [E|E]; [|right; by apply claim_keep].
    unfold claim. cbv zeta. case_match; [by left|].
    destruct (decide (now ⊕ ticks cfg (tCL cfg ⊕₃₂ x) = slot now j)) as [E'|E'].
    + right. rewrite E'. apply lookup_insert_eq.
    + left. by rewrite lookup_insert_ne.
Qed.

(** A transfer finds its slots free and takes them. *)
Lemma transfer_slots now i rank bank page b l s s' o :
  burst_in_range now → full_duplex cfg = false →
  command_ok now i rank bank page b l s → issued now i rank bank page b l s s' o → o ≠ [] →
  ∀ j, 0 ≤ j < tBL cfg →
    dp_status s !! slot now j = None ∧ dp_status s' !! slot now j = Some (kind_of l).
Proof.
  intros Hr Hd Hok Hiss Ho j Hj. destruct Hiss as [| |b' Hpg H1 H2 _ _ _ _ _ _ Hdp _]; [done..|].
  destruct (command_row_open _ _ _ _ _ _ _ _ Hok H1 H2) as [_ [_ Hhit]].
  rewrite (proj2 (Z.eqb_eq _ _) Hpg) in Hhit. destruct Hhit as [_ Hcase].
  assert (bus_free cfg now (dp_status s) = true) as Hfree.
  { destruct Hcase as [(_ & _ & Hready)|(_ & _ & _ & Hready)];
      unfold read_ready, write_ready in Hready; rewrite Hd in Hready.
    - destruct (vec_get (last_write_time s) rank); [|done]. injection Hready as Hready.
      by apply andb_true_iff in Hready as [? _].
    - destruct (vec_get (last_read_time_rank s) rank); [|done]. injection Hready as Hready.
      by apply andb_true_iff in Hready as [? _]. }
  pose proof (bus_free_slots now (dp_status s) j Hr Hfree Hj) as Hnone. split; [done|].
  rewrite Hdp. apply claims_slot; [done|done|by apply elem_of_upto|by left].
Qed.

(** *** Closed pages *)

(** An open row is wanted by a request of the window. *)
Definition open_rows_wanted (s : state) : Prop :=
  ∀ rank bank b, bank_of s rank bank = Ok b →
    action_type b ≠ mc_bank_idle → action_type b ≠ mc_bank_precharge →
    ∃ i l, 0 ≤ i < req_window_sz cfg ∧ vec_get (req_l s) i = Ok l ∧
      locate cfg (address l) = Ok (rank, bank, page_num b).

Lemma vec_get_app {A} (l k : list A) i x : vec_get l i = Ok x → vec_get (l ++ k) i = Ok x.
Proof.
  rewrite !vec_get_Some. intros [Hi Hx]. split; [done|]. by apply lookup_app_l_Some.
Qed.

(** Deleting another position moves a request down by one at most. *)
Lemma vec_get_delete {A} (l : list A) i j x :
  0 ≤ i → vec_get l j = Ok x → j ≠ i →
  ∃ j', 0 ≤ j' ≤ j ∧ vec_get (delete (Z.to_nat i) l) j' = Ok x.
Proof.
  rewrite vec_get_Some. intros Hi [Hj Hx] Hne. destruct (Z.lt_ge_cases j i) as [Hlt|Hge].
  - exists j. split; [lia|]. apply vec_get_Some. split; [done|].
    by rewrite list_lookup_delete_lt by lia.
  - exists (j - 1). split; [lia|]. apply vec_get_Some. split; [lia|].
    rewrite list_lookup_delete_ge by lia. by replace (S (Z.to_nat (j - 1))) with (Z.to_nat j) by lia.
Qed.

Lemma row_wanted_after_true rank bank page l i2 :
  row_wanted_after cfg rank bank page l i2 = Ok true →
  ∃ k r, l !! k = Some r ∧ i2 + Z.of_nat k < req_window_sz cfg ∧
    locate cfg (address r) = Ok (rank, bank, page).
Proof.
  revert i2. induction l as [|r l IH]; intros i2; cbn [row_wanted_after]; [done|].
  destruct (Z.ltb_spec i2 (req_window_sz cfg)) as [Hlt|]; [|done].
  destruct (locate cfg (address r)) as [[[rank' bank'] page']|] eqn:Hloc; [cbn|done].
  destruct ((rank =? rank') && (bank =? bank') && (page =? page')) eqn:E.
  - intros _. exists 0%nat, r. split_and!; [done|lia|]. rewrite Hloc. 
    apply andb_true_iff in E as [[->%Z.eqb_eq ->%Z.eqb_eq]%andb_true_iff ->%Z.eqb_eq]. done.
  - intros H. destruct (IH _ H) as (k & r' & Hk & Hlt' & Hr'). exists (S k), r'.
    split_and!; [done|lia|done].
Qed.

Lemma open_rows_prepared now s s2 : prepared now s s2 → open_rows_wanted s → open_rows_wanted s2.
Proof.
  intros [_ Hr Hb _ _ _] Hw rank bank b Hbk. unfold bank_of in Hbk. rewrite Hb in Hbk. intros H1 H2.
  destruct (Hw rank bank b Hbk H1 H2) as (i & l & Hi & Hl & Hloc).
  exists i, l. split_and!; try done; try lia. rewrite Hr. by apply vec_get_app.
Qed.

Lemma open_rows_commands now s2 s' o :
  policy cfg ≠ mc_scheduling_open → commands now s2 s' o →
  open_rows_wanted s2 → open_rows_wanted s'.
Proof.
  intros Hpol (i & l & rank & bank & page & b & Hi & Hl & Hloc & Hb & Hok & Hiss) Hw r k b1.
  destruct Hiss as [Hty Hbs _ Hr|Hp|b' Hpg H1 H2 Haft Hbs _ Hr _]; [|done|].
  - rewrite (bank_of_set _ _ _ _ _ _ _ _ Hbs Hb). rewrite Hr. case_bool_decide as E; [|by apply Hw].
    injection E as -> ->. intros [= <-] _ _. by exists i, l.
  - rewrite (bank_of_set _ _ _ _ _ _ _ _ Hbs Hb). rewrite Hr. case_bool_decide as E.
    + injection E as -> ->. intros [= <-] Hn1 Hn2. unfold after_transfer in Haft.
      rewrite bool_decide_false in Haft by done. destruct Haft as ([] & Hwant & ->); [|done].
      apply row_wanted_after_true in Hwant as (n & r & Hn & Hlt & Hr'). rewrite lookup_drop in Hn.
      destruct (vec_get_delete (req_l s2) i (i + 1 + Z.of_nat n) r) as (j & Hj & Hj'); [lia| |lia|].
      { apply vec_get_Some. split; [lia|]. rewrite <- Hn. f_equal. lia. }
      exists j, r. split_and!; try done; try lia. cbn. by rewrite Hpg.
    + intros Hb1 Hn1 Hn2. destruct (Hw r k b1 Hb1 Hn1 Hn2) as (j & r' & Hj & Hr' & Hloc').
      destruct (vec_get_delete (req_l s2) i j r') as (j' & Hj' & Hr''); [lia|done| |].
      { intros ->. rewrite Hl in Hr'. injection Hr' as <-. rewrite Hloc in Hloc'. congruence. }
      exists j', r'. split_and!; try done; lia.
Qed.

(** *** Batches *)

Lemma requests_of_delete t l i r :
  l !! i = Some r → requests_of t (delete i l) = requests_of t l - (if decide (th_id r = t) then 1 else 0).
Proof.
  intros Hi. unfold requests_of. rewrite delete_take_drop.
  rewrite <- (take_drop_middle l i r Hi) at 3. rewrite !filter_app, !length_app, filter_cons.
  case_decide; cbn; lia.
Qed.

Lemma batch_commands now s2 s' o :
  par_bs cfg = true → 0 < req_window_sz cfg < 2 ^ 31 → Z.of_nat (length (req_l s2)) < 2 ^ 31 - 1 →
  wf cfg s2 → commands now s2 s' o → batch_ok s2 → batch_ok s'.
Proof.
  intros Hp Hw Hlen Hwf (i & l & rank & bank & page & b & Hi & Hl & Hloc & Hb & Hok & Hiss) [Hcnt Hbat].
  destruct Hiss as [_ _ _ Hr Hn Hc|_ _ _ _ _ _ Hr Hn Hc|b' _ _ _ _ _ _ Hr Hn Hc];
    [constructor; rewrite Hr; [rewrite Hn|rewrite Hc]; done..|].
  apply vec_get_Some in Hl as [_ Hl]. pose proof (lookup_lt_Some _ _ _ Hl) as Hlt.
  constructor.
  - intros t n. rewrite Hn, Hr, (requests_of_delete _ _ _ _ Hl). unfold drop_thread. rewrite Hp.
    intros Hg. pose proof (requests_of_bound t (req_l s2)).
    destruct (decide (th_id l = t)) as [<-|Hne].
    + apply vec_get_range in Hg as Hrange. rewrite length_vec_alter in Hrange.
      destruct (vec_get_lt (num_req_from_a_th s2) (th_id l) Hrange) as [k Hk].
      rewrite (vec_get_alter _ _ _ k Hk) in Hg. injection Hg as <-. apply Hcnt in Hk as ->.
      rewrite i32_id; lia.
    + rewrite vec_get_alter_ne in Hg by done. apply Hcnt in Hg as ->. lia.
  - rewrite Hc, Hr, length_delete by by eexists. unfold batch_step. rewrite Hp. cbn [andb].
    destruct (Z.eqb_spec (curr_batch_last s2) i); [destruct (Z.eqb_spec i 0)|
      destruct (Z.ltb_spec i (curr_batch_last s2))]; cbn; rewrite ?i32_id by lia; lia.
Qed.
End Facts.

(** ** The main properties *)

(** C29: a cycle of the memory controller.  On servable requests it never fails; at most
    one request leaves, from the scheduling window, with its burst issued: reads are
    answered after [mc_to_dir_t], a write that a read waits for is answered as a shared
    read, a write-back is freed.  Every other pending or arriving request stays, in
    order, and as long as there are any the controller wakes itself up. *)
Theorem mc_conserves_requests cfg now s :
  geometry_ok cfg → wf cfg s → Forall (servable cfg) (arrivals now s) →
  ∃ s' o, process_event cfg now s = Ok (0, s', o ++ rearm cfg now (req_l s')) ∧ wf cfg s' ∧
    ((o = [] ∧ req_l s' = req_l s ++ arrivals now s) ∨
     (∃ i l, 0 ≤ i < req_window_sz cfg ∧ vec_get (req_l s ++ arrivals now s) i = Ok l ∧
        req_l s' = delete (Z.to_nat i) (req_l s ++ arrivals now s) ∧ o = [served cfg now l])).
Proof.
  intros Hg Hwf Ha. destruct (cycle cfg Hg now s Hwf Ha) as (s2 & s' & o & E & Hpr & Hwf' & Hcase).
  exists s', o. split_and!; [done..|]. rewrite <- (pr_reqs _ _ _ _ Hpr).
  destruct Hcase as [[-> ->]|Hc]; [by left|]. by apply commands_requests.
Qed.

(** C30: the banks follow the DRAM protocol.  A cycle changes at most one bank, and that
    one by a legal step: a row is activated only in an idle or precharged bank, transferred
    or precharged only when it has been open for [tRCD] and idle for [tBBL], and a
    precharge waits for [tRAS]. *)
Theorem mc_bank_protocol cfg now s s' o :
  geometry_ok cfg → wf cfg s → Forall (servable cfg) (arrivals now s) →
  process_event cfg now s = Ok (0, s', o) →
  (∀ r k, bank_of s' r k = bank_of s r k) ∨
  (∃ rank bank b b', bank_of s rank bank = Ok b ∧ bank_step cfg now b b' ∧
     ∀ r k, bank_of s' r k =
       if bool_decide ((r, k) = (rank, bank)) then Ok b' else bank_of s r k).
Proof.
  intros Hg Hwf Ha Hrun. destruct (cycle cfg Hg now s Hwf Ha) as (s2 & s1 & o1 & E & Hpr & _ & Hcase).
  rewrite E in Hrun. injection Hrun as -> _.
  assert (∀ r k, bank_of s2 r k = bank_of s r k) as Hb2.
  { intros r k. unfold bank_of. by rewrite (pr_banks _ _ _ _ Hpr). }
  destruct Hcase as [[-> _]|(i & l & rank & bank & page & b & _ & _ & _ & Hb & Hok & Hiss)]; [by left|right].
  destruct (issued_step cfg _ _ _ _ _ _ _ _ _ _ Hb Hok Hiss) as [(b' & Hstep & Hall) _].
  exists rank, bank, b, b'. rewrite <- Hb2. split_and!; [done..|]. intros r k. by rewrite <- Hb2.
Qed.

(** C31: bursts never overlap on the half-duplex data bus: in a cycle that transfers a
    request, none of the [tBL] slots of its burst was taken, and all are taken after. *)
Theorem mc_bus_exclusive cfg now s s' o :
  geometry_ok cfg → wf cfg s → Forall (servable cfg) (arrivals now s) →
  full_duplex cfg = false → burst_in_range cfg now →
  process_event cfg now s = Ok (0, s', o) → req_l s' ≠ req_l s ++ arrivals now s →
  ∀ j, 0 ≤ j < tBL cfg →
    dp_status s !! slot cfg now j = None ∧ is_Some (dp_status s' !! slot cfg now j).
Proof.
  intros Hg Hwf Ha Hd Hr Hrun Hleft j Hj.
  destruct (cycle cfg Hg now s Hwf Ha) as (s2 & s1 & o1 & E & Hpr & _ & Hcase).
  rewrite E in Hrun. injection Hrun as -> _.
  destruct Hcase as [[-> _]|Hc]; [by destruct Hleft; apply Hpr|].
  assert (o1 ≠ []) as Ho.
  { intros ->. destruct (commands_requests _ _ _ _ _ Hc) as [[_ Er]|(? & ? & _ & _ & _ & ?)]; [|done].
    apply Hleft. by rewrite Er, (pr_reqs _ _ _ _ Hpr). }
  destruct Hc as (i & l & rank & bank & page & b & _ & _ & _ & _ & Hok & Hiss).
  destruct (transfer_slots cfg _ _ _ _ _ _ _ _ _ _ Hr Hd Hok Hiss Ho j Hj) as [Hnone Hsome].
  split; [|by rewrite Hsome; eexists].
  destruct (pr_dp _ _ _ _ Hpr) as [Et|Et]; rewrite Et in Hnone; [done|].
  rewrite lookup_from_key in Hnone. rewrite decide_True in Hnone; [done|].
  unfold slot. destruct Hr. nia.
Qed.

(** C32: with the closed-page policies no bank keeps open a row that nobody wants: an
    open row is the row of a request in the scheduling window, so the bank is never
    stranded with requests for other rows. *)
Theorem mc_no_stranded_row cfg now s s' o :
  geometry_ok cfg → wf cfg s → Forall (servable cfg) (arrivals now s) →
  policy cfg ≠ mc_scheduling_open → open_rows_wanted cfg s →
  process_event cfg now s = Ok (0, s', o) → open_rows_wanted cfg s'.
Proof.
  intros Hg Hwf Ha Hpol Hw Hrun.
  destruct (cycle cfg Hg now s Hwf Ha) as (s2 & s1 & o1 & E & Hpr & _ & Hcase).
  rewrite E in Hrun. injection Hrun as -> _.
  pose proof (open_rows_prepared _ _ _ _ Hpr Hw) as Hw2.
  destruct Hcase as [[-> _]|Hc]; [done|]. by eapply open_rows_commands.
Qed.

(** C33: parallelism-aware batching keeps its books: the counter of every thread is the
    number of its pending requests, and the end of the batch stays inside the list. *)
Theorem mc_batch_counters cfg now s s' o :
  geometry_ok cfg → wf cfg s → Forall (servable cfg) (arrivals now s) →
  par_bs cfg = true → 0 < req_window_sz cfg < 2 ^ 31 →
  Z.of_nat (length (req_l s ++ arrivals now s)) < 2 ^ 31 - 1 →
  batch_ok s → process_event cfg now s = Ok (0, s', o) → batch_ok s'.
Proof.
  intros Hg Hwf Ha Hp Hw Hlen Hb Hrun.
  destruct (cycle cfg Hg now s Hwf Ha) as (s2 & s1 & o1 & E & Hpr & _ & Hcase).
  rewrite E in Hrun. injection Hrun as -> _.
  pose proof (pr_batch _ _ _ _ Hpr Hp Hb Hw Hlen) as Hb2.
  destruct Hcase as [[-> _]|Hc]; [done|]. eapply batch_commands; [done..| | |exact Hc|done].
  - by rewrite (pr_reqs _ _ _ _ Hpr).
  - apply Hpr.
Qed.

(** A precharge costs [tRP] twice.  It sets [action_time] to its end, and the scan
    waits [tRP] again from there: a bank precharged at [t] accepts no request before
    [t + 2 * tRP]. *)
Theorem precharge_waits_twice cfg now t i l c s rank bank page b b0 :
  locate cfg (address l) = Ok (rank, bank, page) → bank_of s rank bank = Ok b →
  action_type b = mc_bank_precharge → action_time b = precharge_time cfg t b0 →
  0 ≤ t → 0 ≤ tRP cfg * process_interval cfg < 2 ^ 32 → 0 ≤ bank_last_activate_time b0 →
  precharge_time cfg t b0 + tRP cfg * process_interval cfg < 2 ^ 64 →
  Z.max t (ticks cfg (tRAS cfg) ⊕ bank_last_activate_time b0) + tRP cfg * process_interval cfg < 2 ^ 64 →
  now < t + 2 * (tRP cfg * process_interval cfg) →
  consider cfg now i l c s = Ok (c, s, []).
Proof.
  intros Hloc Hb Hty Htime Ht HtRP Hlast Hr1 Hr2 Hnow.
  assert (ticks cfg (tRP cfg) = tRP cfg * process_interval cfg) as Etrp.
  { unfold ticks. by apply u32_id. }
  assert (precharge_time cfg t b0 = tRP cfg * process_interval cfg +
    Z.max t (ticks cfg (tRAS cfg) ⊕ bank_last_activate_time b0)) as Ep.
  { unfold precharge_time. rewrite Etrp, u64_id; [done|]. unfold in_u64. lia. }
  unfold consider, mbind, proc_bind, lift, reads. rewrite Hloc. cbn. rewrite Hb, Hty.
  destruct (Z.ltb_spec now (action_time b)); [done|].
  rewrite Htime, Etrp. rewrite u64_id by (unfold in_u64; lia).
  rewrite (proj2 (Z.ltb_lt _ _)) by lia. done.
Qed.

(** ** A concrete controller *)

Definition dram_cfg : config :=
  (make_config no_params (Build_Comp ct_memory_controller 0) (Build_Comp ct_directory 0) 2 10)
    <| num_mcs := 1 |> <| par_bs := true |>.

Definition read_of (th addr : Z) : LQE := new_lqe (Build_Comp ct_cachel2 0) et_read addr th.

Definition one_read : state := (init dram_cfg) <| queues ::= insert_req 60 (read_of 1 4096) |>.

(** The row of the read is open and the read is due for transfer. *)
Definition row_is_open : state :=
  one_read <| bank_status := [vec_set 0 (Build_BankStatus 10 1 mc_bank_activate 10) (replicate 8 idle_bank)] |>
           <| queues := empty_queues |> <| req_l := [read_of 1 4096] |>
           <| num_req_from_a_th := [0; 1] |>.
Lemma dram_geometry : geometry_ok dram_cfg.
Proof. constructor; reflexivity. Qed.

Lemma one_read_wf : wf dram_cfg one_read.
Proof. constructor; try reflexivity; [by apply Forall_singleton|constructor]. Qed.

Lemma read_servable : servable dram_cfg (read_of 1 4096).
Proof. split; [vm_compute; split; congruence|reflexivity]. Qed.

Lemma one_read_due : Forall (servable dram_cfg) (arrivals 60 one_read).
Proof. apply Forall_singleton, read_servable. Qed.

Lemma row_is_open_wf : wf dram_cfg row_is_open.
Proof.
  constructor; try reflexivity.
  - by apply Forall_singleton.
  - apply Forall_singleton, read_servable.
Qed.

Lemma one_read_batch : batch_ok one_read.
Proof.
  constructor; [|vm_compute; split; congruence].
  intros t n Ht. apply vec_get_Some in Ht as [_ Ht]. by apply (lookup_replicate_1 2) in Ht as [-> _].
Qed.

Lemma row_is_open_wanted : open_rows_wanted dram_cfg row_is_open.
Proof.
  intros rank bank b Hb H1 H2. exists 0, (read_of 1 4096).
  split_and!; [done|done|reflexivity|]. unfold bank_of in Hb.
  destruct (vec_get (bank_status row_is_open) rank) as [r|] eqn:Er; [|done]. cbn in Hb.
  apply vec_get_Some in Er as [Hr0 Er]. apply list_lookup_singleton_Some in Er as [Er <-].
  apply vec_get_Some in Hb as [Hb0 Hb]. change (vec_set 0 _ _) with
    (Build_BankStatus 10 1 mc_bank_activate 10 :: replicate 7 idle_bank) in Hb.
  destruct (Z.to_nat bank) as [|n] eqn:En.
  - injection Hb as <-. assert (rank = 0) as -> by lia. assert (bank = 0) as -> by lia. reflexivity.
  - by apply (lookup_replicate_1 7) in Hb as [-> _].
Qed.

Example mc_conserves_requests_witness :
  ∃ s' o, process_event dram_cfg 200 row_is_open = Ok (0, s', o ++ rearm dram_cfg 200 (req_l s')) ∧
    wf dram_cfg s' ∧
    ((o = [] ∧ req_l s' = [read_of 1 4096]) ∨
     (∃ i l, 0 ≤ i < 16 ∧ vec_get [read_of 1 4096] i = Ok l ∧
        req_l s' = delete (Z.to_nat i) [read_of 1 4096] ∧ o = [served dram_cfg 200 l])).
Proof.
  apply (mc_conserves_requests dram_cfg 200 row_is_open dram_geometry row_is_open_wf).
  constructor.
Defined.

Example mc_bank_protocol_witness :
  ∃ s' o, process_event dram_cfg 60 one_read = Ok (0, s', o) ∧
    ((∀ r k, bank_of s' r k = bank_of one_read r k) ∨
     (∃ rank bank b b', bank_of one_read rank bank = Ok b ∧ bank_step dram_cfg 60 b b' ∧
        ∀ r k, bank_of s' r k =
          if bool_decide ((r, k) = (rank, bank)) then Ok b' else bank_of one_read r k)).
Proof.
  destruct (cycle dram_cfg dram_geometry 60 one_read one_read_wf one_read_due)
    as (_ & s' & o & E & _). exists s', (o ++ rearm dram_cfg 60 (req_l s')). split; [exact E|].
  exact (mc_bank_protocol dram_cfg 60 one_read s' _ dram_geometry one_read_wf one_read_due E).
Defined.

Lemma row_is_open_due : Forall (servable dram_cfg) (arrivals 200 row_is_open).
Proof. constructor. Qed.

Lemma row_is_open_serves :
  match process_event dram_cfg 200 row_is_open with Ok (_, s', _) => req_l s' = [] | _ => False end.
Proof. vm_compute. reflexivity. Qed.

Example mc_bus_exclusive_witness :
  ∃ s' o, process_event dram_cfg 200 row_is_open = Ok (0, s', o) ∧
    ∀ j, 0 ≤ j < 10 → dp_status row_is_open !! slot dram_cfg 200 j = None ∧
      is_Some (dp_status s' !! slot dram_cfg 200 j).
Proof.
  destruct (cycle dram_cfg dram_geometry 200 row_is_open row_is_open_wf row_is_open_due)
    as (_ & s' & o & E & _). exists s', (o ++ rearm dram_cfg 200 (req_l s')). split; [exact E|].
  apply (mc_bus_exclusive dram_cfg 200 row_is_open s' (o ++ rearm dram_cfg 200 (req_l s')) dram_geometry row_is_open_wf row_is_open_due
    eq_refl); [|exact E|].
  - constructor; vm_compute; (split; congruence) || congruence.
  - pose proof row_is_open_serves as H. rewrite E in H. rewrite H. discriminate.
Defined.

Example mc_no_stranded_row_witness :
  ∃ s' o, process_event dram_cfg 200 row_is_open = Ok (0, s', o) ∧ open_rows_wanted dram_cfg s'.
Proof.
  destruct (cycle dram_cfg dram_geometry 200 row_is_open row_is_open_wf row_is_open_due)
    as (_ & s' & o & E & _). exists s', (o ++ rearm dram_cfg 200 (req_l s')). split; [exact E|].
  refine (mc_no_stranded_row dram_cfg 200 row_is_open s' (o ++ rearm dram_cfg 200 (req_l s'))
    dram_geometry row_is_open_wf row_is_open_due _ row_is_open_wanted E). discriminate.
Defined.

Example mc_batch_counters_witness :
  ∃ s' o, process_event dram_cfg 60 one_read = Ok (0, s', o) ∧ batch_ok s'.
Proof.
  destruct (cycle dram_cfg dram_geometry 60 one_read one_read_wf one_read_due)
    as (_ & s' & o & E & _). exists s', (o ++ rearm dram_cfg 60 (req_l s')). split; [exact E|].
  refine (mc_batch_counters dram_cfg 60 one_read s' (o ++ rearm dram_cfg 60 (req_l s')) dram_geometry one_read_wf one_read_due
    eq_refl _ _ one_read_batch E); vm_compute; [split; congruence|congruence].
Defined.

Definition just_closed : state :=
  row_is_open <| bank_status := [vec_set 0 (Build_BankStatus 300 1 mc_bank_precharge 10) (replicate 8 idle_bank)] |>.

Example precharge_waits_twice_witness :
  let c := Build_candidate (-1) false 2 in
  consider dram_cfg 399 0 (read_of 1 4096) c just_closed = Ok (c, just_closed, []).
Proof.
  refine (precharge_waits_twice dram_cfg 399 200 0 (read_of 1 4096) _ just_closed 0 0 1
    (Build_BankStatus 300 1 mc_bank_precharge 10) (Build_BankStatus 200 1 mc_bank_read 10)
    _ _ _ _ _ _ _ _ _ _); vm_compute; try reflexivity; try (split; congruence); congruence.
Defined.
End MemoryController.
