(* ===== verification/Cache.v ===== *)
(** * What the caches share (Cache, PTSCache.h and PTSCache.cc)

    The geometry of a set-associative array (which set and tag an address has, and the
    address of a set and a tag), the least-recently-used order of a set (way 0 is the
    least recently used, the last way the most recently used), and the request queues,
    one per bank. *)

From S2P Require Export Component.

Module Cache.
Import MultiMap.

(** ** Geometry *)

Record geometry := {
  set_lsb : Z;
  num_banks : Z;
  num_sets : Z;
  num_ways : Z }.

Definition make_geometry (p : params) (t : component_type) (sets ways : Z) : geometry :=
  let get := get_param_uint64 p t in
  {| set_lsb := get "set_lsb" 6;
     num_banks := get "num_banks" 1;
     num_sets := get "num_sets" sets;
     num_ways := get "num_ways" ways |}.

Section Geometry.
Context (g : geometry).

(** [(address >> set_lsb) % num_sets], a [uint32_t], and [(address >> set_lsb) / num_sets]. *)
Definition split_addr (addr : Z) : outcome (Z * Z) :=
  line ← c_shr addr (set_lsb g);
  if num_sets g =? 0 then Err Undef else Ok (line mod num_sets g, line / num_sets g).

(** [((tag*num_sets + set) << set_lsb)]. *)
Definition join_addr (set tag : Z) : Z := shl64 (tag ⊗ num_sets g ⊕ set) (set_lsb g).

(** [(address >> set_lsb) % num_banks]. *)
Definition bank_of (addr : Z) : outcome Z :=
  line ← c_shr addr (set_lsb g);
  if num_banks g =? 0 then Err Undef else Ok (line mod num_banks g).

(** The loop that moves the requests of the tick to the queues of their banks. *)
Fixpoint route_requests (l : list LQE) (req_qs : list (list LQE)) : outcome (list (list LQE)) :=
  match l with
  | [] => Ok req_qs
  | r :: l' =>
      bank ← bank_of (address r);
      _ ← vec_get req_qs bank;
      route_requests l' (vec_alter (λ q, q ++ [r]) bank req_qs)
  end.
End Geometry.

(** ** The order of a set *)

Section Ways.
Context {A : Type}.

(** [update_LRU(idx, tags_set, set_it)]:
    [for (i = idx; i < num_ways-1; i++) tags_set[i] = tags_set[i+1];]
    [tags_set[num_ways-1] = set_it;] *)
Fixpoint shift_down (n idx : nat) (ways : list A) : list A :=
  match n with
  | O => ways
  | S n' =>
      match ways !! S idx with
      | Some x => shift_down n' (S idx) (<[idx := x]> ways)
      | None => ways
      end
  end.

Definition update_LRU (idx : nat) (set_it : A) (ways : list A) : list A :=
  <[(length ways - 1)%nat := set_it]> (shift_down (length ways - 1 - idx) idx ways).

(** The loop that looks for the first way with property [p]. *)
Fixpoint find_way (p : A → bool) (ways : list A) : option (nat * A) :=
  match ways with
  | [] => None
  | w :: ways' =>
      if p w then Some (O, w)
      else '(i, x) ← find_way p ways'; Some (S i, x)
  end.
End Ways.

(** ** Facts *)

Section WaysFacts.
Context {A : Type}.
Implicit Types (ways : list A).

Lemma shift_down_spec n idx ways :
  (idx + n < length ways)%nat →
  shift_down n idx ways = take idx ways ++ take n (drop (S idx) ways) ++ drop (idx + n) ways.
Proof.
  revert idx ways. induction n as [|n IH]; intros idx ways Hlt; cbn [shift_down].
  { rewrite take_0, app_nil_l, Nat.add_0_r. by rewrite take_drop. }
  destruct (lookup_lt_is_Some_2 ways (S idx)) as [x Hx]; [lia|]. rewrite Hx.
  rewrite IH by (rewrite length_insert; lia).
  rewrite (take_S_r _ _ x) by (apply list_lookup_insert_eq; lia).
  rewrite take_insert_ge by lia. rewrite !drop_insert_lt by lia.
  rewrite (drop_S ways x (S idx)) by done. cbn [take].
  replace (S idx + n)%nat with (idx + S n)%nat by lia. by rewrite <- !app_assoc.
Qed.

(** [update_LRU] moves a way to the most recently used end. *)
Lemma update_LRU_spec idx x ways :
  (idx < length ways)%nat → update_LRU idx x ways = delete idx ways ++ [x].
Proof.
  intros Hlt. unfold update_LRU. rewrite shift_down_spec by lia.
  replace (idx + (length ways - 1 - idx))%nat with (length ways - 1)%nat by lia.
  rewrite delete_take_drop.
  assert (take (length ways - 1 - idx) (drop (S idx) ways) = drop (S idx) ways) as ->.
  { apply take_ge. rewrite length_drop. lia. }
  rewrite app_assoc. rewrite insert_app_r_alt.
  - rewrite length_app, length_take, length_drop.
    replace (length ways - 1 - (idx `min` length ways + (length ways - S idx)))%nat with 0%nat by lia.
    destruct (lookup_lt_is_Some_2 ways (length ways - 1)) as [y Hy]; [lia|].
    rewrite (drop_S ways y (length ways - 1)) by done.
    rewrite (drop_ge ways (S (length ways - 1))) by lia. done.
  - rewrite length_app, length_take, length_drop. lia.
Qed.

Lemma length_update_LRU idx x ways : length (update_LRU idx x ways) = length ways.
Proof.
  unfold update_LRU. rewrite length_insert. generalize (length ways - 1 - idx)%nat as n.
  intros n. revert idx ways. induction n as [|n IH]; intros idx ways; cbn; [done|].
  case_match; [|done]. rewrite IH. apply length_insert.
Qed.

Lemma find_way_Some p ways i x :
  find_way p ways = Some (i, x) →
  ways !! i = Some x ∧ p x = true ∧ ∀ j y, (j < i)%nat → ways !! j = Some y → p y = false.
Proof.
  revert i. induction ways as [|w ways IH]; intros i; cbn; [done|].
  destruct (p w) eqn:Hp.
  - intros [= <- <-]. split_and!; [done|done|lia].
  - destruct (find_way p ways) as [[k y]|]; cbn; [|done]. intros [= <- <-].
    destruct (IH k eq_refl) as (? & ? & Hmin). split_and!; [done|done|].
    intros [|j] z Hj; cbn; [congruence|]. apply Hmin. lia.
Qed.

Lemma find_way_None p ways : find_way p ways = None ↔ Forall (λ w, p w = false) ways.
Proof.
  induction ways as [|w ways IH]; cbn; [by split|]. rewrite Forall_cons.
  destruct (p w) eqn:Hp; [naive_solver|].
  destruct (find_way p ways) as [[]|]; cbn; naive_solver.
Qed.
End WaysFacts.

(** ** Arrays that hold a line at most once

    A way has a tag and may be empty ([alive]); [P] is what else holds of every way. *)

Lemma lookup_delete_perm {A} (l : list A) i x : l !! i = Some x → l ≡ₚ x :: delete i l.
Proof.
  intros H. rewrite delete_take_drop. rewrite <- (take_drop_middle l i x H) at 1. solve_Permutation.
Qed.

Lemma insert_delete_perm {A} (l : list A) i x : (i < length l)%nat → <[i := x]> l ≡ₚ x :: delete i l.
Proof.
  intros H. rewrite insert_take_drop, delete_take_drop by done. solve_Permutation.
Qed.

Section Array.
Context {A : Type} (tag_of : A → Z) (alive : A → bool) (P : A → Prop).
Implicit Types (ways : list A).

Definition has_tag (t : Z) (w : A) : bool := alive w && (tag_of w =? t).

Definition valid_tags ways : list Z := tag_of <$> filter (λ w, alive w = true) ways.

Record good_set (g : geometry) ways : Prop := {
  good_length : Z.of_nat (length ways) = num_ways g;
  good_tags : NoDup (valid_tags ways);
  good_ways : Forall P ways }.

Record tags_ok (g : geometry) (ts : list (list A)) : Prop := {
  tags_sets : Z.of_nat (length ts) = num_sets g;
  tags_good : Forall (good_set g) ts }.

(** Replacing the line [w] by [x] is safe when they have the same tag or the tag of [x] is
    new. *)
Definition may_replace ways (w x : A) : Prop :=
  P x ∧ (alive x = true → (alive w = true ∧ tag_of x = tag_of w) ∨ tag_of x ∉ valid_tags ways).

#[global] Instance valid_tags_perm : Proper ((≡ₚ) ==> (≡ₚ)) valid_tags.
Proof. intros l k H. unfold valid_tags. by rewrite H. Qed.

Lemma has_tag_spec t w : has_tag t w = true ↔ alive w = true ∧ tag_of w = t.
Proof. unfold has_tag. by rewrite andb_true_iff, Z.eqb_eq. Qed.

Lemma elem_of_valid_tags t ways :
  t ∈ valid_tags ways ↔ ∃ w, w ∈ ways ∧ alive w = true ∧ tag_of w = t.
Proof.
  unfold valid_tags. rewrite list_elem_of_fmap. split.
  - intros (w & -> & [Hv Hw]%list_elem_of_filter). by exists w.
  - intros (w & Hw & Hv & <-). exists w. split; [done|]. by apply list_elem_of_filter.
Qed.

Lemma find_tag_None t ways : find_way (has_tag t) ways = None ↔ t ∉ valid_tags ways.
Proof.
  rewrite find_way_None, Forall_forall, elem_of_valid_tags. split.
  - intros H (w & Hw & Hv & Ht). specialize (H w Hw). by rewrite (proj2 (has_tag_spec t w)) in H.
  - intros H w Hw. destruct (has_tag t w) eqn:E; [|done]. apply has_tag_spec in E as [Hv Ht].
    destruct H. by exists w.
Qed.

Lemma good_replace g ways ways' idx w x :
  good_set g ways → ways !! idx = Some w → length ways' = length ways → ways' ≡ₚ x :: delete idx ways →
  may_replace ways w x → good_set g ways'.
Proof.
  intros [Hlen Hnd Hall] Hw Hlen' Hperm [HP Hx]. split; [by rewrite Hlen'|..].
  - rewrite (lookup_delete_perm _ _ _ Hw) in Hnd. rewrite Hperm.
    unfold valid_tags in *. rewrite filter_cons in *. destruct (decide (alive x = true)) as [Hv|Hv].
    + cbn. apply NoDup_cons. split; [|case_decide; [by apply NoDup_cons in Hnd as []|done]].
      destruct (Hx Hv) as [[Hvw ->]|Hn].
      * rewrite decide_True in Hnd by done. by apply NoDup_cons in Hnd as [].
      * intros Hin. apply Hn. rewrite (lookup_delete_perm _ _ _ Hw), filter_cons.
        case_decide; cbn; [by right|done].
    + case_decide; [by apply NoDup_cons in Hnd as []|done].
  - rewrite Hperm. rewrite (lookup_delete_perm _ _ _ Hw) in Hall. apply Forall_cons in Hall as [_ Hall].
    by constructor.
Qed.

Lemma good_insert g ways idx w x :
  good_set g ways → ways !! idx = Some w → may_replace ways w x → good_set g (<[idx := x]> ways).
Proof.
  intros Hg Hw. apply (good_replace _ _ _ _ _ _ Hg Hw); [apply length_insert|].
  apply insert_delete_perm. by eapply lookup_lt_Some.
Qed.

Lemma good_update_LRU g ways idx w x :
  good_set g ways → ways !! idx = Some w → may_replace ways w x → good_set g (update_LRU idx x ways).
Proof.
  intros Hg Hw. apply (good_replace _ _ _ _ _ _ Hg Hw); [apply length_update_LRU|].
  rewrite update_LRU_spec by (by eapply lookup_lt_Some). solve_Permutation.
Qed.

Lemma tags_ok_alter g ts f set :
  tags_ok g ts → (∀ ways, vec_get ts set = Ok ways → good_set g ways → good_set g (f ways)) →
  tags_ok g (vec_alter f set ts).
Proof.
  intros [Hs Hg] Hf. constructor; [by rewrite length_vec_alter|]. by apply Forall_vec_alter.
Qed.

(** The two ways a handler changes a way. *)
Lemma tags_ok_put g ts set ways idx w x :
  tags_ok g ts → vec_get ts set = Ok ways → ways !! idx = Some w → may_replace ways w x →
  tags_ok g (vec_alter (λ ways, <[idx := x]> ways) set ts).
Proof.
  intros Hs Hget Hw Hx. apply tags_ok_alter; [done|]. intros ways' Hget' Hgood.
  rewrite Hget in Hget'. injection Hget' as <-. by eapply good_insert.
Qed.

Lemma tags_ok_touch g ts set ways idx w x :
  tags_ok g ts → vec_get ts set = Ok ways → ways !! idx = Some w → may_replace ways w x →
  tags_ok g (vec_alter (update_LRU idx x) set ts).
Proof.
  intros Hs Hget Hw Hx. apply tags_ok_alter; [done|]. intros ways' Hget' Hgood.
  rewrite Hget in Hget'. injection Hget' as <-. by eapply good_update_LRU.
Qed.

Lemma tags_ok_get g ts set ways :
  tags_ok g ts → vec_get ts set = Ok ways → good_set g ways.
Proof. intros [_ Hg] Hget. by eapply Forall_vec_get in Hget. Qed.

(** The line of a tag is found wherever it is. *)
Lemma good_find g ways t w :
  good_set g ways → w ∈ ways → has_tag t w = true → ∃ i, find_way (has_tag t) ways = Some (i, w).
Proof.
  intros [_ Hnd _] Hw Ht. destruct (find_way (has_tag t) ways) as [[i x]|] eqn:Hf; cycle 1.
  { apply find_way_None in Hf. rewrite Forall_forall in Hf. by rewrite (Hf w Hw) in Ht. }
  exists i. do 2 f_equal. apply find_way_Some in Hf as (Hi & Hx & _).
  apply has_tag_spec in Ht as [Hvw Htw], Hx as [Hvx Htx].
  assert (x ∈ filter (λ w, alive w = true) ways) as [j Hj]%list_elem_of_lookup_1
    by (apply list_elem_of_filter; split; [done|]; by eapply list_elem_of_lookup_2).
  assert (w ∈ filter (λ w, alive w = true) ways) as [k Hk]%list_elem_of_lookup_1
    by (by apply list_elem_of_filter).
  assert (j = k) as ->; [|congruence]. unfold valid_tags in Hnd.
  eapply NoDup_lookup; [exact Hnd|..]; rewrite list_lookup_fmap; [by rewrite Hj|].
  rewrite Hk. cbn. congruence.
Qed.

(** A way that was found may be replaced by a line of its tag, and any way by a line that
    was not found. *)
Lemma found_replace t ways idx w x :
  find_way (has_tag t) ways = Some (idx, w) → P x → tag_of x = t → may_replace ways w x.
Proof.
  intros (_ & Hw & _)%find_way_Some HP Ht. apply has_tag_spec in Hw as [Hv Hw].
  split; [done|]. intros _. left. by rewrite Ht.
Qed.

Lemma missed_replace t ways w x :
  find_way (has_tag t) ways = None → P x → tag_of x = t → may_replace ways w x.
Proof. intros Hf HP Ht. split; [done|]. intros _. right. rewrite Ht. by apply find_tag_None. Qed.
End Array.

Section GeometryFacts.
Context (g : geometry).

(** Geometries that the arithmetic of addresses supports. *)
Record geometry_ok : Prop := {
  lsb_ok : 0 ≤ set_lsb g < 64;
  banks_ok : 0 < num_banks g;
  sets_ok : 0 < num_sets g;
  ways_ok : 0 < num_ways g }.

Context (Hg : geometry_ok).

Lemma split_addr_ok addr :
  0 ≤ addr → ∃ set tag, split_addr g addr = Ok (set, tag) ∧ 0 ≤ set < num_sets g ∧ 0 ≤ tag.
Proof.
  intros Ha. destruct Hg. unfold split_addr, c_shr. rewrite (proj2 (Z.ltb_lt _ _)) by lia. cbn.
  rewrite (proj2 (Z.eqb_neq _ _)) by lia. do 2 eexists. split; [done|].
  assert (0 ≤ shr addr (set_lsb g)) by (apply Z.shiftr_nonneg; lia).
  split; [apply Z.mod_pos_bound; lia|apply Z.div_pos; lia].
Qed.

Lemma bank_of_ok addr : 0 ≤ addr → ∃ b, bank_of g addr = Ok b ∧ 0 ≤ b < num_banks g.
Proof.
  intros Ha. destruct Hg. unfold bank_of, c_shr. rewrite (proj2 (Z.ltb_lt _ _)) by lia. cbn.
  rewrite (proj2 (Z.eqb_neq _ _)) by lia. eexists. split; [done|]. apply Z.mod_pos_bound. lia.
Qed.

(** Routing loses and invents no request. *)
Lemma route_requests_ok l qs :
  Z.of_nat (length qs) = num_banks g → Forall (λ r, 0 ≤ address r) l →
  ∃ qs', route_requests g l qs = Ok qs' ∧ length qs' = length qs ∧ concat qs' ≡ₚ concat qs ++ l.
Proof.
  intros Hlen Hl. revert qs Hlen. induction Hl as [|r l Hr Hl IH]; intros qs Hlen; cbn.
  { exists qs. split_and!; [done|done|]. by rewrite app_nil_r. }
  destruct (bank_of_ok (address r) Hr) as (b & -> & Hb). cbn.
  destruct (vec_get_lt qs b) as [q Hq]; [lia|]. rewrite Hq. cbn.
  destruct (IH (vec_alter (λ q, q ++ [r]) b qs)) as (qs' & -> & Hlen' & Hperm).
  { by rewrite length_vec_alter. }
  exists qs'. rewrite length_vec_alter in Hlen'. split_and!; [done|done|]. rewrite Hperm.
  apply vec_get_Some in Hq as [Hb0 Hq]. unfold vec_alter. rewrite (proj2 (Z.ltb_ge _ _)) by lia.
  rewrite <- (take_drop_middle qs (Z.to_nat b) q Hq) at 2.
  assert (alter (λ q, q ++ [r]) (Z.to_nat b) qs =
    take (Z.to_nat b) qs ++ (q ++ [r]) :: drop (S (Z.to_nat b)) qs) as ->.
  { apply list_eq. intros i. apply lookup_lt_Some in Hq as Hlt.
    destruct (decide (i = Z.to_nat b)) as [->|Hne].
    - rewrite list_lookup_alter_eq, Hq. rewrite lookup_app_r by (rewrite length_take; lia).
      rewrite length_take. by replace (Z.to_nat b - Z.to_nat b `min` length qs)%nat with 0%nat by lia.
    - rewrite list_lookup_alter_ne by done.
      rewrite <- (take_drop_middle qs (Z.to_nat b) q Hq) at 1.
      destruct (decide (i < Z.to_nat b)%nat).
      + rewrite !lookup_app_l by (rewrite length_take; lia). done.
      + rewrite !lookup_app_r by (rewrite length_take; lia). rewrite length_take.
        destruct (i - Z.to_nat b `min` length qs)%nat eqn:E; [lia|done]. }
  rewrite !concat_app. cbn. solve_Permutation.
Qed.

(** The requests of a tick that are for a bank, and what the queues are after them: each
    request joins the end of the queue of its bank, in the order of the tick. *)
Definition arrivals (b : Z) (l : list LQE) : list LQE := filter (λ r, bank_of g (address r) = Ok b) l.
Definition arrived (l : list LQE) (qs : list (list LQE)) : list (list LQE) :=
  imap (λ b q, q ++ arrivals (Z.of_nat b) l) qs.

Lemma arrived_cons r l b qs : bank_of g (address r) = Ok b → 0 ≤ b →
  arrived (r :: l) qs = arrived l (vec_alter (λ q, q ++ [r]) b qs).
Proof.
  intros Hb H0. apply list_eq. intros i. unfold arrived, vec_alter. rewrite !list_lookup_imap.
  rewrite (proj2 (Z.ltb_ge _ _)) by lia. unfold arrivals. rewrite filter_cons, Hb.
  destruct (decide (i = Z.to_nat b)) as [->|Hne].
  - rewrite list_lookup_alter_eq, Z2Nat.id by lia. destruct (qs !! Z.to_nat b) as [q|]; [|done]. cbn.
    rewrite decide_True by done. by rewrite <- (app_assoc q [r]).
  - rewrite list_lookup_alter_ne by done. destruct (qs !! i) as [q|]; [|done]. cbn.
    rewrite decide_False; [done|]. intros [= Hi]. lia.
Qed.

Lemma route_requests_arrived l qs :
  Z.of_nat (length qs) = num_banks g → Forall (λ r, 0 ≤ address r) l → route_requests g l qs = Ok (arrived l qs).
Proof.
  intros Hlen Hl. revert qs Hlen. induction Hl as [|r l Hr Hl IH]; intros qs Hlen; cbn [route_requests].
  { f_equal. apply list_eq. intros i. unfold arrived. rewrite list_lookup_imap. cbn.
    destruct (qs !! i); [|done]. cbn. by rewrite app_nil_r. }
  destruct (bank_of_ok (address r) Hr) as (b & Hb & Hb0). rewrite Hb. cbn.
  destruct (vec_get_lt qs b) as [q Hq]; [lia|]. rewrite Hq. cbn.
  rewrite IH by (by rewrite length_vec_alter). f_equal. symmetry. apply arrived_cons; [done|lia].
Qed.

(** Joining the set and tag of an address gives the start of its line back. *)
Lemma join_split addr set tag :
  in_u64 addr → split_addr g addr = Ok (set, tag) →
  join_addr g set tag = addr - addr mod 2 ^ set_lsb g.
Proof.
  intros Ha Hs. destruct Hg. unfold split_addr, c_shr in Hs.
  rewrite (proj2 (Z.ltb_lt _ _)) in Hs by lia. cbn in Hs.
  rewrite (proj2 (Z.eqb_neq _ _)) in Hs by lia. injection Hs as <- <-.
  unfold join_addr, shl64, shr. rewrite Z.shiftr_div_pow2 by lia.
  pose proof (Z.pow_pos_nonneg 2 (set_lsb g) ltac:(lia) ltac:(lia)) as Hpow.
  set (line := addr / 2 ^ set_lsb g) in *.
  assert (0 ≤ line < 2 ^ 64) as Hline.
  { unfold line. destruct Ha. split; [apply Z.div_pos; lia|apply Z.div_lt_upper_bound; nia]. }
  pose proof (Z.div_mod line (num_sets g) ltac:(lia)) as Hdm.
  pose proof (Z.mod_pos_bound line (num_sets g) ltac:(lia)) as Hmod.
  assert (0 ≤ line / num_sets g) by (apply Z.div_pos; lia).
  assert (line / num_sets g ⊗ num_sets g ⊕ line mod num_sets g = line) as ->.
  { rewrite (u64_id (_ * _)) by (unfold in_u64; nia). rewrite u64_id by (unfold in_u64; lia). lia. }
  rewrite Z.shiftl_mul_pow2 by lia.
  pose proof (Z.div_mod addr (2 ^ set_lsb g) ltac:(lia)). fold line in H0.
  pose proof (Z.mod_pos_bound addr (2 ^ set_lsb g) ltac:(lia)).
  rewrite u64_id by (unfold in_u64 in *; nia). lia.
Qed.

(** Two addresses with the same set and tag lie in the same line. *)
Lemma split_addr_inj a b s :
  split_addr g a = Ok s → split_addr g b = Ok s → shr a (set_lsb g) = shr b (set_lsb g).
Proof.
  destruct Hg. unfold split_addr, c_shr. rewrite (proj2 (Z.ltb_lt _ _)) by lia. cbn.
  rewrite (proj2 (Z.eqb_neq _ _)) by lia. intros [= <-] [= Hm Hd].
  pose proof (Z.div_mod (shr a (set_lsb g)) (num_sets g) ltac:(lia)).
  pose proof (Z.div_mod (shr b (set_lsb g)) (num_sets g) ltac:(lia)). nia.
Qed.

(** A valid tag names a line: joining and splitting again gives the set and tag back. *)
Lemma split_join set tag :
  0 ≤ set < num_sets g → 0 ≤ tag → (tag * num_sets g + set + 1) * 2 ^ set_lsb g ≤ 2 ^ 64 →
  split_addr g (join_addr g set tag) = Ok (set, tag).
Proof.
  intros Hs Ht Hmax. destruct Hg.
  pose proof (Z.pow_pos_nonneg 2 (set_lsb g) ltac:(lia) ltac:(lia)) as Hpow.
  assert (0 ≤ tag * num_sets g) by nia.
  assert (tag * num_sets g + set < 2 ^ 64) by nia.
  unfold join_addr, shl64. rewrite (u64_id (tag * _)) by (unfold in_u64; lia).
  rewrite (u64_id (_ + set)) by (unfold in_u64; lia). rewrite Z.shiftl_mul_pow2 by lia.
  rewrite u64_id by (unfold in_u64; nia).
  unfold split_addr, c_shr. rewrite (proj2 (Z.ltb_lt _ _)) by lia. cbn.
  rewrite (proj2 (Z.eqb_neq _ _)) by lia. unfold shr.
  rewrite Z.shiftr_div_pow2, Z.div_mul by lia. do 2 f_equal.
  - rewrite Z.add_comm, Z.mod_add by lia. apply Z.mod_small. lia.
  - rewrite Z.add_comm, Z.div_add, Z.div_small by lia. lia.
Qed.
End GeometryFacts.
End Cache.
