(* ===== verification/CacheL1.v ===== *)
(** * The L1 caches (CacheL1, PTSCache.h and PTSCache.cc)

    A banked, set-associative cache in front of the L2.  A cycle processes one reply (a
    fill, a coherence action of the L2, a negative acknowledgement) or else one request
    per bank. *)

From S2P Require Export Cache.

Module CacheL1.
Import MultiMap Cache.

(** [l1_tag_pair]: the tag and the coherence state of a way. *)
Definition l1_tag_pair : Set := Z * coherence_state_type.

Record PrefetchEntry := { addr : Z; hit : bool }.

Record config := {
  this : Comp;
  cachel2 : Comp;
  process_interval : Z;
  geo : geometry;
  l1_to_lsu_t : Z;
  l1_to_l2_t : Z;
  always_hit : bool;
  l2_set_lsb : Z;
  use_prefetch : bool;
  num_pre_entries : Z }.

(** The constructor; [CHECK(l2_set_lsb >= set_lsb)]. *)
Definition make_config (p : params) (c l2 : Comp) : outcome config :=
  let get := get_param_uint64 p (c_type c) in
  let g := make_geometry p (c_type c) 64 4 in
  let l2_lsb := u32 (pts_get_param_uint64 p ("pts.l2$." +:+ "set_lsb")%string (set_lsb g)) in
  if l2_lsb <? set_lsb g then Err Fatal
  else Ok
  {| this := c;
     cachel2 := l2;
     process_interval := get "process_interval" 10;
     geo := g;
     l1_to_lsu_t := get "to_lsu_t" 0;
     l1_to_l2_t := get "to_l2_t" 45;
     always_hit := get_param_bool p (c_type c) "always_hit" false;
     l2_set_lsb := l2_lsb;
     use_prefetch := get_param_bool p (c_type c) "use_prefetch" false;
     num_pre_entries := get "num_pre_entries" 64 |}.

Record state := {
  queues : Queues;
  req_qs : list (list LQE);
  num_rd_access : Z;
  num_rd_miss : Z;
  num_wr_access : Z;
  num_wr_miss : Z;
  num_ev_coherency : Z;
  num_ev_capacity : Z;
  num_coherency_access : Z;
  num_upgrade_req : Z;
  num_bypass : Z;
  num_nack : Z;
  tags : list (list l1_tag_pair);
  pres : list PrefetchEntry;
  num_prefetch_requests : Z;
  num_prefetch_hits : Z;
  oldest_pre_entry_idx : Z }.

Definition init (cfg : config) : state :=
  {| queues := empty_queues;
     req_qs := replicate (Z.to_nat (num_banks (geo cfg))) [];
     num_rd_access := 0; num_rd_miss := 0; num_wr_access := 0; num_wr_miss := 0;
     num_ev_coherency := 0; num_ev_capacity := 0; num_coherency_access := 0;
     num_upgrade_req := 0; num_bypass := 0; num_nack := 0;
     tags := replicate (Z.to_nat (num_sets (geo cfg)))
               (replicate (Z.to_nat (num_ways (geo cfg))) (0, cs_invalid));
     pres := replicate (Z.to_nat (num_pre_entries cfg)) (Build_PrefetchEntry 0 false);
     num_prefetch_requests := 0; num_prefetch_hits := 0; oldest_pre_entry_idx := 0 |}.

Section Handlers.
Context (cfg : config).

Definition add_req_event (event_time : Z) (local_event : LQE) : proc call state unit :=
  _ ← emit (geq_add_event event_time (this cfg));
  modify (λ s, s <| queues ::= insert_req event_time local_event |>).

Definition add_rep_event (event_time : Z) (local_event : LQE) : proc call state unit :=
  _ ← emit (geq_add_event event_time (this cfg));
  modify (λ s, s <| queues ::= insert_rep event_time local_event |>).

(** [add_event_to_lsu]: a data cache replies to the core, an instruction cache sends it a
    request. *)
Definition add_event_to_lsu (curr_time : Z) (l : LQE) : proc call state unit :=
  top ← lift (from_top l);
  emit (if bool_decide (c_type (this cfg) = ct_cachel1d)
        then Component.add_rep_event top (curr_time ⊕ l1_to_lsu_t cfg) l None
        else Component.add_req_event top (curr_time ⊕ l1_to_lsu_t cfg) l None).

(** ** Ways *)

Definition holds_tag (tag : Z) (w : l1_tag_pair) : bool :=
  negb (bool_decide (w.2 = cs_invalid)) && (w.1 =? tag).

Definition set_way (set : Z) (idx : nat) (w : l1_tag_pair) (s : state) : state :=
  s <| tags ::= vec_alter (λ ways, <[idx := w]> ways) set |>.
Definition touch_way (set : Z) (idx : nat) (w : l1_tag_pair) (s : state) : state :=
  s <| tags ::= vec_alter (update_LRU idx w) set |>.

(** ** Replies *)

(** The lines of the L1 in a line of the L2; the shifts are of [int]s. *)
Definition lines_per_reply : Z := 2 ^ (l2_set_lsb cfg - set_lsb (geo cfg)).

Definition line_address (rep_addr index : Z) : outcome Z :=
  if 31 <=? l2_set_lsb cfg then Err Undef
  else Ok (shl64 (shr rep_addr (l2_set_lsb cfg)) (l2_set_lsb cfg) ⊕
           (rep_addr ⊕ index * 2 ^ set_lsb (geo cfg)) mod 2 ^ l2_set_lsb cfg).

(** The variables of the loop over the lines of a reply.  [found] is [set_it], which keeps
    the way found in an earlier round.  [freed]: the reply was handed to the core, which
    deletes it before the next round reads it; a nack is not deleted but made a request
    again, so that the following rounds see [et_read]. *)
Record round := { lqe : LQE; sent_to_l2 : bool; found : option (Z * nat); freed : bool }.

(** [rep_lqe->from.pop(); rep_lqe->from.push(this); cachel2->add_rep_event(...)]. *)
Definition return_to_l2 (curr_time : Z) (r : round) : proc call state round :=
  l ← lift (from_pop (lqe r));
  let l := from_push (this cfg) l in
  _ ← emit (Component.add_rep_event (cachel2 cfg) (curr_time ⊕ l1_to_l2_t cfg) l None);
  mret (r <| lqe := l |> <| sent_to_l2 := true |>).

Definition state_of (f : option (Z * nat)) (s : state) : option l1_tag_pair :=
  match f with
  | None => None
  | Some (set, idx) =>
      match tags s !! Z.to_nat set with Some ways => ways !! idx | None => None end
  end.

(** [set_it->second = c]. *)
Definition set_state (f : option (Z * nat)) (c : coherence_state_type) (s : state) : state :=
  match f, state_of f s with
  | Some (set, idx), Some w => set_way set idx (w.1, c) s
  | _, _ => s
  end.

Definition last_line (index : Z) : bool := index =? lines_per_reply - 1.

Definition count_coherency (s : state) : state := s <| num_coherency_access ::= λ n, n ⊕ 1 |>.
Definition count_ev_coherency (s : state) : state := s <| num_ev_coherency ::= λ n, n ⊕ 1 |>.

(** [case et_nack] and [case et_rd_bypass]. *)
Definition on_bypass (curr_time : Z) (r : round) : proc call state round :=
  if sent_to_l2 r then mret r
  else
    _ ← modify (λ s, s <| num_bypass ::= λ n, n ⊕ 1 |>);
    l ← lift (from_pop (lqe r));
    _ ← add_event_to_lsu curr_time l;
    mret (r <| lqe := if bool_decide (type l = et_nack) then l <| type := et_read |> else l |>
            <| sent_to_l2 := true |> <| freed := negb (bool_decide (type l = et_nack)) |>).

(** [case et_evict]. *)
Definition on_evict (curr_time index : Z) (r : round) : proc call state round :=
  _ ← modify count_coherency;
  w ← reads (state_of (found r));
  match w with
  | Some (_, cs_modified) =>
      _ ← modify count_ev_coherency;
      _ ← modify (set_state (found r) cs_invalid);
      if sent_to_l2 r then mret r else return_to_l2 curr_time r
  | _ =>
      _ ← when (bool_decide (found r ≠ None))
            (_ ← modify count_ev_coherency; modify (set_state (found r) cs_invalid));
      _ ← when (last_line index && negb (sent_to_l2 r)) (emit (free_lqe (lqe r)));
      mret r
  end.

(** [case et_m_to_s] and [case et_m_to_m]. *)
Definition on_downgrade (curr_time : Z) (r : round) : proc call state round :=
  _ ← modify count_coherency;
  w ← reads (state_of (found r));
  _ ← match w with
      | Some (_, cs_modified) =>
          if bool_decide (type (lqe r) = et_m_to_m)
          then (_ ← modify count_ev_coherency; modify (set_state (found r) cs_invalid))
          else modify (set_state (found r) cs_shared)
      | _ => mret tt
      end;
  if sent_to_l2 r then mret r else return_to_l2 curr_time r.

(** [case et_dir_rd]: the line becomes exclusive, and the reply an [et_evict] to the L2. *)
Definition on_dir_rd (curr_time index : Z) (r : round) : proc call state round :=
  _ ← modify count_coherency;
  match found r with
  | None =>
      _ ← when (last_line index && negb (sent_to_l2 r)) (emit (free_lqe (lqe r)));
      mret r
  | Some _ =>
      if sent_to_l2 r then mret r
      else
        w ← reads (state_of (found r));
        match w with
        | Some (_, cs_modified) =>
            _ ← modify count_ev_coherency;
            _ ← modify (set_state (found r) cs_exclusive);
            let l := from_push (this cfg) ((lqe r) <| type := et_evict |>) in
            _ ← emit (Component.add_rep_event (cachel2 cfg) (curr_time ⊕ l1_to_l2_t cfg) l None);
            mret (r <| lqe := l |> <| sent_to_l2 := true |>)
        | _ => fails Fatal
        end
  end.

(** [case et_read] and [case et_write]: the fill, of the first line only. *)
Definition on_fill (curr_time index set tag : Z) (r : round) : proc call state round :=
  if negb (index =? 0) then mret r
  else
    let etype := type (lqe r) in
    l ← lift (from_pop (lqe r));
    w ← reads (state_of (found r));
    '(idx, old, addr_in_cache) ←
      match found r, w with
      | Some (_, i), Some x => mret (i, x, true)
      | Some _, None => fails Undef
      | None, _ =>
          ts ← reads tags;
          ways ← lift (vec_get ts set);
          victim ← lift (vec_get ways 0);
          _ ← when (negb (bool_decide (victim.2 = cs_invalid)))
                (_ ← modify (λ s, s <| num_ev_capacity ::= λ n, n ⊕ 1 |>);
                 emit (Component.add_rep_event (cachel2 cfg) (curr_time ⊕ l1_to_l2_t cfg)
                   (new_lqe (this cfg)
                      (if bool_decide (victim.2 = cs_modified) then et_evict else et_evict_nd)
                      (join_addr (geo cfg) set victim.1) (th_id (lqe r))) None));
          mret (O, victim, false)
      end;
    let c := if bool_decide (etype = et_read) &&
                (negb addr_in_cache || negb (bool_decide (old.2 = cs_modified)))
             then cs_exclusive else cs_modified in
    _ ← modify (touch_way set idx (tag, c));
    _ ← add_event_to_lsu curr_time l;
    mret (r <| lqe := l |> <| freed := true |>).

(** One round of the loop of a reply. *)
Definition reply_round (curr_time index : Z) (r : round) : proc call state round :=
  if freed r then fails Undef
  else
    a ← lift (line_address (address (lqe r)) index);
    '(set, tag) ← lift (split_addr (geo cfg) a);
    ts ← reads tags;
    ways ← lift (vec_get ts set);
    let r := match find_way (holds_tag tag) ways with
             | Some (idx, _) => r <| found := Some (set, idx) |>
             | None => r
             end in
    match type (lqe r) with
    | et_nack =>
        _ ← modify (λ s, s <| num_nack ::= λ n, n ⊕ 1 |>);
        on_bypass curr_time r
    | et_rd_bypass => on_bypass curr_time r
    | et_evict => on_evict curr_time index r
    | et_m_to_s | et_m_to_m => on_downgrade curr_time r
    | et_dir_rd => on_dir_rd curr_time index r
    | et_read | et_write => on_fill curr_time index set tag r
    | _ => fails Fatal
    end.

Fixpoint reply_rounds (curr_time : Z) (indices : list Z) (r : round) : proc call state unit :=
  match indices with
  | [] => mret tt
  | index :: indices' =>
      r' ← reply_round curr_time index r;
      reply_rounds curr_time indices' r'
  end.

Definition process_reply (curr_time : Z) (l : LQE) : proc call state unit :=
  reply_rounds curr_time (upto lines_per_reply) (Build_round l false None false).

(** ** Requests *)

Definition readable (c : coherence_state_type) : bool :=
  match c with cs_modified | cs_shared | cs_exclusive => true | _ => false end.

(** The look-up of a read and of a write: whether it hits, and whether it is a coherence
    miss. *)
Definition lookup_read (set tag : Z) : proc call state bool :=
  _ ← modify (λ s, s <| num_rd_access ::= λ n, n ⊕ 1 |>);
  if always_hit cfg then mret true
  else
    ts ← reads tags;
    ways ← lift (vec_get ts set);
    match find_way (holds_tag tag) ways with
    | Some (idx, w) =>
        if readable w.2 then _ ← modify (touch_way set idx w); mret true else mret false
    | None => mret false
    end.

Definition lookup_write (set tag : Z) : proc call state (bool * bool) :=
  _ ← modify (λ s, s <| num_wr_access ::= λ n, n ⊕ 1 |>);
  if always_hit cfg then mret (true, false)
  else
    ts ← reads tags;
    ways ← lift (vec_get ts set);
    match find_way (holds_tag tag) ways with
    | Some (idx, w) =>
        match w.2 with
        | cs_modified => _ ← modify (touch_way set idx w); mret (true, false)
        | cs_shared | cs_exclusive =>
            _ ← modify (λ s, (set_way set idx (w.1, cs_invalid) s) <| num_upgrade_req ::= λ n, n ⊕ 1 |>);
            mret (false, true)
        | _ => mret (false, false)
        end
    | None => mret (false, false)
    end.

(** ** Prefetching *)

(** Whether an entry of the history has the line, which then counts as hit. *)
Definition in_history (a : Z) (p : PrefetchEntry) : bool := negb (addr p =? 0) && (addr p =? a).

Definition mark_history (a : Z) : proc call state bool :=
  ps ← reads pres;
  match find_way (in_history a) ps with
  | Some (idx, p) =>
      _ ← modify (λ s, s <| pres ::= <[idx := p <| hit := true |>]> |>);
      mret true
  | None => mret false
  end.

Definition line_present (a : Z) : proc call state bool :=
  '(set, tag) ← lift (split_addr (geo cfg) a);
  ts ← reads tags;
  ways ← lift (vec_get ts set);
  mret (match find_way (holds_tag tag) ways with Some _ => true | None => false end).

(** A prefetch request, recorded in the oldest entry of the history. *)
Definition prefetch (curr_time a th : Z) : proc call state unit :=
  _ ← emit (Component.add_req_event (cachel2 cfg) (curr_time ⊕ l1_to_l2_t cfg)
              (new_lqe (this cfg) et_read a th) None);
  s ← reads (λ s, s);
  p ← lift (vec_get (pres s) (oldest_pre_entry_idx s));
  _ ← when (negb (addr p =? 0))
        (modify (λ s, s <| num_prefetch_requests ::= λ n, n ⊕ 1 |>
                        <| num_prefetch_hits ::= λ n, n ⊕ (if hit p then 1 else 0) |>));
  _ ← lift (if num_pre_entries cfg =? 0 then Err Undef else Ok tt);
  modify (λ s, s <| pres ::= vec_set (oldest_pre_entry_idx s) (Build_PrefetchEntry a false) |>
                 <| oldest_pre_entry_idx := (oldest_pre_entry_idx s ⊕₃₂ 1) mod num_pre_entries cfg |>).

Definition do_prefetch (curr_time : Z) (l : LQE) : proc call state unit :=
  line ← lift (if 31 <=? set_lsb (geo cfg) then Err Undef else c_shr (address l) (set_lsb (geo cfg)));
  let address := shl64 line (set_lsb (geo cfg)) in
  let prev_addr := address ⊖ 2 ^ set_lsb (geo cfg) in
  let next_addr := address ⊕ 2 ^ set_lsb (geo cfg) in
  next_addr_exist ← mark_history next_addr;
  prev_addr_exist ←
    (if next_addr_exist : bool then mret false
     else
       present ← line_present prev_addr;
       _ ← when present (prefetch curr_time next_addr (th_id l));
       mret present);
  prev_addr_exist ←
    (if prev_addr_exist : bool then mret true else mark_history prev_addr);
  if prev_addr_exist : bool then mret tt
  else
    present ← line_present next_addr;
    when present (prefetch curr_time prev_addr (th_id l)).

(** The request at the front of a bank queue.  After a hit the core has deleted it, so
    the prefetcher reads freed memory. *)
Definition process_request (curr_time : Z) (l : LQE) : proc call state unit :=
  '(set, tag) ← lift (split_addr (geo cfg) (address l));
  '(hit, is_coherence_miss) ←
    match type l with
    | et_read => h ← lookup_read set tag; mret (h, false)
    | et_write => lookup_write set tag
    | _ => fails Fatal
    end;
  _ ← (if hit : bool then add_event_to_lsu curr_time l
       else
         _ ← when (negb is_coherence_miss)
               (modify (λ s, if bool_decide (type l = et_write)
                             then s <| num_wr_miss ::= λ n, n ⊕ 1 |>
                             else s <| num_rd_miss ::= λ n, n ⊕ 1 |>));
         emit (Component.add_req_event (cachel2 cfg) (curr_time ⊕ l1_to_l2_t cfg)
                 (from_push (this cfg) l) None));
  when (bool_decide (type l = et_read) && use_prefetch cfg)
    (if hit : bool then fails Undef else do_prefetch curr_time l).

Definition process_bank (curr_time bank : Z) : proc call state unit :=
  qs ← reads req_qs;
  q ← lift (vec_get qs bank);
  match q with
  | [] => mret tt
  | l :: rest =>
      _ ← modify (λ s, s <| req_qs ::= vec_set bank rest |>);
      process_request curr_time l
  end.

Definition process_event (curr_time : Z) : proc call state Z :=
  s ← reads (λ s, s);
  let '(rep, q) := take_rep curr_time (queues s) in
  let '(due, later) := mm_drain curr_time (req_event q) in
  qs ← lift (route_requests (geo cfg) due (req_qs s));
  _ ← modify (λ s, s <| queues := (q <| req_event := later |>) |> <| req_qs := qs |>);
  _ ← match rep with
      | Some l => process_reply curr_time l
      | None => for_each (upto (num_banks (geo cfg))) (process_bank curr_time)
      end;
  s ← reads (λ s, s);
  _ ← when (negb (bool_decide (length (rep_q (queues s)) = 0%nat)) ||
            existsb (λ q, negb (bool_decide (length q = 0%nat))) (req_qs s))
        (emit (geq_add_event (curr_time ⊕ process_interval cfg) (this cfg)));
  mret 0.
End Handlers.

(** ** The array holds a line at most once *)

Definition alive (w : l1_tag_pair) : bool := negb (bool_decide (w.2 = cs_invalid)).

Lemma l1_holds_tag_spec t w : holds_tag t w = true ↔ alive w = true ∧ w.1 = t.
Proof. apply (has_tag_spec fst alive). Qed.

Notation tags_ok := (Cache.tags_ok (A:=l1_tag_pair) fst alive (λ _, True)).
Notation may_replace := (Cache.may_replace (A:=l1_tag_pair) fst alive (λ _, True)).

Definition inv (cfg : config) (s : state) : Prop := tags_ok (geo cfg) (tags s).

Section Invariant.
Context (cfg : config).

Lemma inv_frame s s' : tags s' = tags s → inv cfg s → inv cfg s'.
Proof. unfold inv. by intros ->. Qed.

Lemma inv_set_state f c s :
  inv cfg s → (c = cs_invalid ∨ ∃ w, state_of f s = Some w ∧ alive w = true) → inv cfg (set_state f c s).
Proof.
  intros Hs Hc. unfold set_state. destruct f as [[set idx]|]; [|done].
  destruct (state_of (Some (set, idx)) s) as [w|] eqn:Hw; [|done].
  apply tags_ok_alter; [done|]. intros ways Hget Hgood.
  apply vec_get_Some in Hget as [_ Hget]. unfold state_of in Hw.
  rewrite Hget in Hw. eapply good_insert; [done|done|]. split; [done|]. intros Hv. left. split; [|done].
  by destruct Hc as [->|(w' & [= <-] & Hv')].
Qed.

(** Reads keep the array, up to the order of a set. *)
Lemma l1_inv_touch set idx w x s ways :
  inv cfg s → vec_get (tags s) set = Ok ways → ways !! idx = Some w →
  may_replace ways w x → inv cfg (touch_way set idx x s).
Proof. apply tags_ok_touch. Qed.

Lemma keeps_count f : (∀ s, tags (f s) = tags s) → keeps (W:=call) (inv cfg) (modify f).
Proof. intros Hf. apply keeps_modify. intros s. by apply inv_frame. Qed.

(** A round of a reply keeps the invariant; before round 0 nothing was found. *)
Ltac inv_auto := repeat keeps_step; try (by apply keeps_count).

Lemma keeps_add_event_to_lsu now l : keeps (inv cfg) (add_event_to_lsu cfg now l).
Proof. unfold add_event_to_lsu. inv_auto. Qed.

Lemma keeps_return_to_l2 now r : keeps (inv cfg) (return_to_l2 cfg now r).
Proof. unfold return_to_l2. inv_auto. Qed.

Lemma keeps_on_bypass now r : keeps (inv cfg) (on_bypass cfg now r).
Proof. unfold on_bypass. inv_auto. apply keeps_add_event_to_lsu. Qed.

Lemma keeps_invalidate f : keeps (W:=call) (inv cfg) (modify (set_state f cs_invalid)).
Proof. apply keeps_modify. intros s Hs. apply inv_set_state; auto. Qed.

Lemma l1_keeps_on_evict now index r : keeps (inv cfg) (on_evict cfg now index r).
Proof.
  unfold on_evict. inv_auto; first [apply keeps_invalidate|apply keeps_return_to_l2].
Qed.

Lemma state_of_frame f s (g : state → state) :
  (∀ s, tags (g s) = tags s) → state_of f (g s) = state_of f s.
Proof. intros Hg. unfold state_of. by rewrite Hg. Qed.

Lemma keeps_on_downgrade now r : keeps (inv cfg) (on_downgrade cfg now r).
Proof.
  intros s Hs. unfold on_downgrade. wp_steps. set (s1 := count_coherency s).
  assert (inv cfg s1) as Hs1 by done.
  eapply (wp_mono _ _ _ (λ _ s' _, inv cfg s')); [|intros _ s2 o2 Hs2].
  - destruct (state_of (found r) s1) as [[t []]|] eqn:Hw; try (by wp_steps).
    wp_if E; wp_steps; [by apply inv_set_state; auto|]. apply inv_set_state; [done|].
    right. exists (t, cs_modified). by split.
  - wp_if E; [by wp_steps|]. eapply wp_mono; [by apply keeps_return_to_l2|]. done.
Qed.

Lemma l1_keeps_on_dir_rd now index r : keeps (inv cfg) (on_dir_rd cfg now index r).
Proof.
  intros s Hs. unfold on_dir_rd. wp_steps. set (s1 := count_coherency s).
  assert (inv cfg s1) as Hs1 by done.
  destruct (found r) as [f|]; cycle 1.
  { wp_steps. apply wp_when; intros _; by wp_steps. }
  wp_if E; [by wp_steps|]. wp_steps.
  destruct (state_of (Some f) s1) as [[t []]|] eqn:Hw; try done. wp_steps.
  apply inv_set_state; [done|]. right. exists (t, cs_modified). split; [|done].
  rewrite <- Hw. by apply (state_of_frame (Some f) s1 count_ev_coherency).
Qed.

Lemma keeps_on_fill now index set tag r s ways :
  inv cfg s → vec_get (tags s) set = Ok ways →
  (index = 0 → found r = match find_way (holds_tag tag) ways with
                         | Some (i, _) => Some (set, i) | None => None end) →
  wp any_failure (on_fill cfg now index set tag r) s (λ _ s' _, inv cfg s').
Proof.
  intros Hs Hget Hf. unfold on_fill. wp_if E; [by wp_steps|].
  apply negb_false_iff, Z.eqb_eq in E. specialize (Hf E). wp_step. apply wp_lift; [|done]. intros l _.
  wp_steps. apply vec_get_Some in Hget as Hlook. destruct Hlook as [_ Hlook].
  destruct (find_way (holds_tag tag) ways) as [[i x]|] eqn:Hfind.
  - apply find_way_Some in Hfind as (Hi & Hx & _). apply l1_holds_tag_spec in Hx as [Hv <-].
    rewrite Hf. unfold state_of at 1. rewrite Hlook, Hi. wp_steps.
    eapply wp_mono; [apply keeps_add_event_to_lsu|intros; by wp_steps].
    apply (l1_inv_touch _ _ x _ _ ways); [done..|]. split; [done|]. intros _. by left.
  - rewrite Hf. wp_steps. apply (wp_lift_ok _ _ ways); [exact Hget|]. wp_steps.
    apply wp_lift; [|done]. intros victim Hvic. apply vec_get_Some in Hvic as [_ Hvic].
    assert (∀ s1, tags s1 = tags s → wp any_failure
      (_ ← modify (touch_way set 0 (tag, if bool_decide (type (lqe r) = et_read) &&
            (negb false || negb (bool_decide (victim.2 = cs_modified))) then cs_exclusive else cs_modified));
       _ ← add_event_to_lsu cfg now l; mret (r <| lqe := l |> <| freed := true |>)) s1
      (λ _ s' _, inv cfg s')) as Hend.
    { intros s1 Hs1. wp_steps. eapply wp_mono; [apply keeps_add_event_to_lsu|intros; by wp_steps].
      apply (l1_inv_touch _ _ victim _ _ ways); [by eapply inv_frame|by rewrite Hs1|done|].
      split; [done|]. intros _. right. by apply (find_tag_None fst alive). }
    eapply (wp_mono _ _ _ (λ a s' _, a = (0%nat, victim, false) ∧ tags s' = tags s)).
    + wp_step. apply wp_when; intros _; by wp_steps.
    + intros a s1 o [-> Hs1]. eapply wp_mono; [by apply Hend|]. done.
Qed.

Lemma keeps_reply_round now index r s :
  inv cfg s → (index = 0 → found r = None) →
  wp any_failure (reply_round cfg now index r) s (λ _ s' _, inv cfg s').
Proof.
  intros Hs Hf. unfold reply_round. wp_if E; [done|]. wp_step. apply wp_lift; [|done]. intros a _.
  wp_step. apply wp_lift; [|done]. intros [set tag] _. wp_steps. apply wp_lift; [|done].
  intros ways Hget.
  set (r' := match find_way (holds_tag tag) ways with Some (idx, _) => r <| found := Some (set, idx) |>
             | None => r end).
  assert (wp any_failure (on_fill cfg now index set tag r') s (λ _ s' _, inv cfg s')) as Hfill.
  { apply (keeps_on_fill _ _ _ _ _ _ ways); [done|done|]. intros Hi. unfold r'.
    destruct (find_way (holds_tag tag) ways) as [[i x]|]; [done|by apply Hf]. }
  destruct (type (lqe r')); try done; try exact Hfill.
  - by apply l1_keeps_on_evict.
  - by apply keeps_on_downgrade.
  - by apply keeps_on_downgrade.
  - by apply l1_keeps_on_dir_rd.
  - wp_steps. eapply wp_mono; [apply keeps_on_bypass; by eapply inv_frame|]. done.
  - by apply keeps_on_bypass.
Qed.

Lemma keeps_reply_rounds now indices r s :
  inv cfg s → Forall (λ i, 0 < i) indices →
  wp any_failure (reply_rounds cfg now indices r) s (λ _ s' _, inv cfg s').
Proof.
  intros Hs Hi. revert r s Hs. induction Hi as [|i indices Hi _ IH]; intros r s Hs; cbn [reply_rounds].
  { by wp_steps. }
  wp_step. eapply wp_mono; [apply keeps_reply_round; [done|lia]|]. intros r' s1 o Hs1.
  eapply wp_mono; [by apply IH|]. done.
Qed.

Lemma l1_keeps_process_reply now l : keeps (inv cfg) (process_reply cfg now l).
Proof.
  intros s Hs. unfold process_reply. destruct (Z.lt_ge_cases 0 (lines_per_reply cfg)) as [Hn|Hn].
  - destruct (upto_cons _ Hn) as (rest & -> & Hrest). cbn [reply_rounds]. wp_step.
    eapply wp_mono; [by apply keeps_reply_round|]. intros r s1 o Hs1.
    eapply wp_mono; [by apply keeps_reply_rounds|]. done.
  - unfold upto. rewrite seqZ_nil by done. by wp_steps.
Qed.

Lemma keeps_lookup_read set tag : keeps (inv cfg) (lookup_read cfg set tag).
Proof.
  intros s Hs. unfold lookup_read. wp_steps. wp_if E; [by wp_steps|]. wp_steps.
  apply wp_lift; [|done]. intros ways Hget.
  destruct (find_way (holds_tag tag) ways) as [[i w]|] eqn:Hf; [|by wp_steps].
  apply find_way_Some in Hf as (Hi & Hw & _). apply l1_holds_tag_spec in Hw as [Hv _].
  wp_if Hr; wp_steps; [|done]. eapply l1_inv_touch; [done|exact Hget|exact Hi|]. split; [done|]. intros _. by left.
Qed.

Lemma keeps_lookup_write set tag : keeps (inv cfg) (lookup_write cfg set tag).
Proof.
  intros s Hs. unfold lookup_write. wp_steps. wp_if E; [by wp_steps|]. wp_steps.
  apply wp_lift; [|done]. intros ways Hget. change (vec_get (tags s) set = Ok ways) in Hget.
  destruct (find_way (holds_tag tag) ways) as [[i [t c]]|] eqn:Hf; [|by wp_steps].
  apply find_way_Some in Hf as (Hi & Hw & _). apply l1_holds_tag_spec in Hw as [Hv _].
  assert (∀ s1, tags s1 = tags s → inv cfg (set_way set i (t, cs_invalid) s1)) as Hinv.
  { intros s1 Hs1. apply tags_ok_alter; [by rewrite Hs1|]. intros ways' Hget' Hgood.
    rewrite Hs1 in Hget'. rewrite Hget in Hget'. injection Hget' as <-.
    eapply good_insert; [done|done|]. split; [done|]. done. }
  cbn. destruct c; wp_steps; try done; try by apply Hinv.
  eapply l1_inv_touch; [done|exact Hget|exact Hi|]. split; [done|]. intros _. by left.
Qed.

Lemma keeps_do_prefetch now l : keeps (inv cfg) (do_prefetch cfg now l).
Proof. unfold do_prefetch, mark_history, line_present, prefetch. inv_auto; by apply keeps_count. Qed.

Lemma keeps_process_request now l : keeps (inv cfg) (process_request cfg now l).
Proof.
  unfold process_request. keeps_step; [apply keeps_lift|]. keeps_step. keeps_step.
  - destruct (type l); inv_auto; first [apply keeps_lookup_read|apply keeps_lookup_write].
  - keeps_step. keeps_step.
    + keeps_step; [apply keeps_add_event_to_lsu|]. inv_auto. apply keeps_modify. intros s Hs.
      by case_bool_decide.
    + inv_auto. apply keeps_do_prefetch.
Qed.

Lemma l1_keeps_process_event now : keeps (inv cfg) (process_event cfg now).
Proof.
  unfold process_event. keeps_step; [apply keeps_reads|].
  destruct (take_rep now (queues a)) as [rep q]. destruct (mm_drain now (req_event q)) as [due later].
  inv_auto; try by apply l1_keeps_process_reply.
  unfold process_bank. inv_auto. apply keeps_process_request.
Qed.

(** ** Schedules *)

(** Latencies are 32-bit numbers, as the accessors of the parameters return them. *)
Record latencies_ok : Prop := {
  lat_interval : in_u32 (process_interval cfg);
  lat_lsu : in_u32 (l1_to_lsu_t cfg);
  lat_l2 : in_u32 (l1_to_l2_t cfg) }.
End Invariant.

(** ** The main properties *)

(** Whatever a cycle processes, no set of the L1 holds a line twice, and the array
    keeps its shape. *)
Theorem l1_no_duplicate_lines cfg now s a s' o :
  tags_ok (geo cfg) (tags s) → process_event cfg now s = Ok (a, s', o) →
  tags_ok (geo cfg) (tags s').
Proof.
  intros Hs Hrun. pose proof (l1_keeps_process_event cfg now s Hs) as H.
  by apply (wp_run _ _ _ _ _ _ _ H) in Hrun.
Qed.

(** The call that answers the core, and the one that forwards a miss. *)
Definition lsu_call (cfg : config) (now : Z) (top : Comp) (l : LQE) : call :=
  if bool_decide (c_type (this cfg) = ct_cachel1d)
  then Component.add_rep_event top (now ⊕ l1_to_lsu_t cfg) l None
  else Component.add_req_event top (now ⊕ l1_to_lsu_t cfg) l None.

Definition l2_call (cfg : config) (now : Z) (l : LQE) : call :=
  Component.add_req_event (cachel2 cfg) (now ⊕ l1_to_l2_t cfg) (from_push (this cfg) l) None.

(** A read needs a readable line, a write a modified one. *)
Definition hits (t : event_type) (w : option (nat * l1_tag_pair)) : bool :=
  match w with
  | Some (_, (_, c)) =>
      if bool_decide (t = et_read) then readable c else bool_decide (c = cs_modified)
  | None => false
  end.

(** C34: a request of the core is answered exactly once: by the L1 after [l1_to_lsu_t] when
    it hits, the line becoming the most recently used of its set, and otherwise passed to
    the L2 after [l1_to_l2_t]; a write that finds the line unmodified invalidates it, and
    nothing else changes in the array. *)
Theorem l1_request_served cfg now s l top r set tag ways :
  always_hit cfg = false → use_prefetch cfg = false →
  type l = et_read ∨ type l = et_write → from l = top :: r →
  split_addr (geo cfg) (address l) = Ok (set, tag) → vec_get (tags s) set = Ok ways →
  let w := find_way (holds_tag tag) ways in
  ∃ s' ways',
    process_request cfg now l s =
      Ok (tt, s', [if hits (type l) w then lsu_call cfg now top l else l2_call cfg now l]) ∧
    tags s' = vec_alter (λ _, ways') set (tags s) ∧
    ways' = match w with
            | Some (i, (t, c)) =>
                if hits (type l) w then delete i ways ++ [(t, c)]
                else if bool_decide (type l = et_write) && readable c
                then <[i := (t, cs_invalid)]> ways else ways
            | None => ways
            end.
Proof.
  intros Hah Hup Hty Hfrom Hsplit Hget w.
  assert (∀ f, vec_alter f set (tags s) = vec_alter (λ _, f ways) set (tags s)) as Halt
    by (intros; by apply vec_alter_const).
  assert (tags s = vec_alter (λ _, ways) set (tags s)) as Hid by (by rewrite vec_alter_self).
  assert (∀ i x, find_way (holds_tag tag) ways = Some (i, x) → update_LRU i x ways = delete i ways ++ [x]) as Hlru.
  { intros i x Hf. apply find_way_Some in Hf as (Hi & _). apply update_LRU_spec. by eapply lookup_lt_Some. }
  unfold w. clear w. unfold process_request, lookup_read, lookup_write, add_event_to_lsu, lsu_call, l2_call, from_top.
  unfold mbind, proc_bind, lift, reads, modify, emit. rewrite Hsplit. cbn [mret proc_ret].
  destruct Hty as [Et|Et]; rewrite Et, Hah, Hup; cbn; rewrite Hget;
    destruct (find_way (holds_tag tag) ways) as [[i [t c]]|] eqn:Hf; cbn; rewrite ?Hfrom; cbn;
    try (specialize (Hlru _ _ eq_refl)).
  - destruct c; cbn; eexists _, _; (split; [rewrite ?Hfrom; reflexivity|]); cbn; (split; [|reflexivity]); 
      rewrite ?Halt, ?Hlru; done.
  - eexists _, _. split; [reflexivity|]. by split.
  - destruct c; cbn; eexists _, _; (split; [rewrite ?Hfrom; reflexivity|]); cbn; (split; [|reflexivity]); 
      rewrite ?Halt, ?Hlru; done.
  - eexists _, _. split; [reflexivity|]. by split.
Qed.
(** The line that makes room, written back or dropped, and its call. *)
Definition evict_calls (cfg : config) (now set th : Z) (victim : l1_tag_pair) : list call :=
  if bool_decide (victim.2 = cs_invalid) then []
  else [Component.add_rep_event (cachel2 cfg) (now ⊕ l1_to_l2_t cfg)
          (new_lqe (this cfg) (if bool_decide (victim.2 = cs_modified) then et_evict else et_evict_nd)
             (join_addr (geo cfg) set victim.1) th) None].

Lemma line_address_same cfg a :
  0 ≤ set_lsb (geo cfg) < 31 → l2_set_lsb cfg = set_lsb (geo cfg) → in_u64 a → line_address cfg a 0 = Ok a.
Proof.
  intros Hl He Ha. unfold line_address. rewrite He, (proj2 (Z.leb_gt _ _)) by lia. f_equal.
  rewrite Z.mul_0_l, Z.add_0_r, (u64_id a) by done. unfold shl64, shr.
  rewrite Z.shiftr_div_pow2, Z.shiftl_mul_pow2, u64_add_l by lia.
  pose proof (Z.div_mod a (2 ^ set_lsb (geo cfg)) ltac:(lia)).
  rewrite u64_id; [lia|]. unfold in_u64 in *. lia.
Qed.

(** A line just installed, in a set that did not hold it, is found. *)
Lemma fill_hits tag ways t :
  Forall (λ w, holds_tag tag w = false) ways → t = et_read ∨ t = et_write →
  hits t (find_way (holds_tag tag)
    (ways ++ [(tag, if bool_decide (t = et_read) then cs_exclusive else cs_modified)])) = true.
Proof.
  intros Hnone Ht. induction Hnone as [|x ws Hx _ IH]; cbn.
  - unfold holds_tag. cbn. rewrite Z.eqb_refl. by destruct Ht as [-> | ->].
  - rewrite Hx. revert IH. by destruct (find_way (holds_tag tag) (ws ++ _)) as [[? []]|].
Qed.

(** C35: when the L2 returns a line the L1 does not hold, the line is installed as the most
    recently used of its set, exclusive after a read and modified after a write, so that a
    request of the same kind hits; the least recently used line leaves, and is written back
    iff it was modified; then the request goes back to the core, once. *)
Theorem l1_fill_installs cfg now s l c top r set tag ways victim :
  0 ≤ set_lsb (geo cfg) < 31 → l2_set_lsb cfg = set_lsb (geo cfg) → in_u64 (address l) →
  type l = et_read ∨ type l = et_write → from l = c :: top :: r →
  split_addr (geo cfg) (address l) = Ok (set, tag) → vec_get (tags s) set = Ok (victim :: ways) →
  find_way (holds_tag tag) (victim :: ways) = None →
  ∃ s' ways',
    process_reply cfg now l s =
      Ok (tt, s', evict_calls cfg now set (th_id l) victim ++
                  [lsu_call cfg now top (l <| from := top :: r |>)]) ∧
    tags s' = vec_set set ways' (tags s) ∧
    ways' = ways ++ [(tag, if bool_decide (type l = et_read) then cs_exclusive else cs_modified)] ∧
    hits (type l) (find_way (holds_tag tag) ways') = true.
Proof.
  intros Hlsb Hl2 Ha Hty Hfrom Hsplit Hget Hnone.
  assert (upto (lines_per_reply cfg) = [0]) as Hup
    by (unfold lines_per_reply; by rewrite Hl2, Z.sub_diag).
  set (c0 := if bool_decide (type l = et_read) then cs_exclusive else cs_modified).
  assert (wp no_failure (process_reply cfg now l) s (λ _ s' o,
    tags s' = vec_set set (ways ++ [(tag, c0)]) (tags s) ∧
    o = evict_calls cfg now set (th_id l) victim ++ [lsu_call cfg now top (l <| from := top :: r |>)]))
    as Hwp.
  { unfold process_reply. rewrite Hup. cbn [reply_rounds]. unfold reply_round. cbn [freed lqe].
    wp_steps. eapply wp_lift_ok; [by apply line_address_same|].
    wp_step. eapply wp_lift_ok; [exact Hsplit|]. cbv beta iota. wp_steps. eapply wp_lift_ok; [exact Hget|].
    rewrite Hnone. cbn [lqe]. eapply (wp_mono _ _ _ (λ _ s' o,
      tags s' = vec_set set (ways ++ [(tag, c0)]) (tags s) ∧
      o = evict_calls cfg now set (th_id l) victim ++ [lsu_call cfg now top (l <| from := top :: r |>)])).
    2: { intros r' s' o [Ht Ho]. wp_steps. split; [done|]. by rewrite Ho, !app_nil_r. }
    replace (match type l with et_read | et_write => _ | _ => _ end)
      with (on_fill cfg now 0 set tag (Build_round l false None false)) by (by destruct Hty as [-> | ->]).
    unfold on_fill. cbn [negb Z.eqb lqe found state_of]. wp_step.
    eapply wp_lift_ok; [unfold from_pop; by rewrite Hfrom|]. wp_steps.
    eapply wp_lift_ok; [exact Hget|]. wp_step. eapply wp_lift_ok; [done|]. cbv beta iota. wp_step.
    eapply (wp_mono _ _ _ (λ _ s' o, tags s' = tags s ∧
      o = evict_calls cfg now set (th_id l) victim)).
    { unfold evict_calls, when. destruct victim as [vt []]; by wp_steps. }
    intros _ s1 o1 [Hs1 ->]. wp_steps. unfold add_event_to_lsu. wp_step.
    eapply wp_lift_ok; [done|]. wp_steps. cbn. split.
    - rewrite Hs1, (vec_alter_const _ _ _ _ Hget), update_LRU_spec by (cbn; lia).
      unfold vec_set, c0. cbn. by destruct Hty as [-> | ->].
    - by rewrite app_nil_r. }
  apply wp_total in Hwp as ([] & s' & o & Hrun & Ht & ->).
  exists s', (ways ++ [(tag, c0)]). split_and!; [done..|]. apply fill_hits; [|done].
  apply find_way_None in Hnone. by apply Forall_cons in Hnone as [].
Qed.

(** Round 0 of a fill hands the reply to the core. *)
Lemma fill_frees cfg now set tag r s :
  wp any_failure (on_fill cfg now 0 set tag r) s (λ r' _ _, freed r' = true).
Proof.
  unfold on_fill. cbn [negb Z.eqb]. wp_step. apply wp_lift; [|done]. intros l _. wp_steps.
  apply (wp_mono _ _ _ (λ _ _ _, True)); [by apply wp_intro|]. intros [[i x] b] s1 o1 _. wp_steps.
  eapply (wp_mono _ _ _ (λ _ _ _, True)); [by apply wp_intro|]. intros. by wp_steps.
Qed.

(** The loop over the lines of a wider L2 line reads the reply again after the first
    round of a fill has handed it to the core: with [l2$.set_lsb] larger than the L1's no
    read or write reply is processed without undefined behaviour. *)
Theorem l1_wide_line_undefined cfg now s l a s' o :
  set_lsb (geo cfg) < l2_set_lsb cfg → type l = et_read ∨ type l = et_write →
  process_reply cfg now l s ≠ Ok (a, s', o).
Proof.
  intros Hw Hty Hrun.
  assert (2 ≤ lines_per_reply cfg) as Hn.
  { unfold lines_per_reply. change 2 with (2 ^ 1) at 1. apply Z.pow_le_mono_r; lia. }
  assert (∃ js, upto (lines_per_reply cfg) = 0 :: 1 :: js) as [js Hup].
  { exists (seqZ 2 (lines_per_reply cfg - 2)). unfold upto. rewrite !seqZ_cons by lia.
    do 3 f_equal. lia. }
  assert (wp any_failure (process_reply cfg now l) s (λ _ _ _, False)) as Hwp.
  { unfold process_reply. rewrite Hup. cbn [reply_rounds]. wp_step.
    eapply (wp_mono _ _ _ (λ r _ _, freed r = true)).
    - unfold reply_round. cbn [freed lqe]. wp_step. apply wp_lift; [|done]. intros b _. wp_step.
      apply wp_lift; [|done]. intros [set tag] _. wp_steps. apply wp_lift; [|done]. intros ways _.
      set (r := match find_way _ _ with Some _ => _ | None => _ end).
      assert (type (lqe r) = type l) as -> by (unfold r; by destruct (find_way _ _) as [[]|]).
      destruct Hty as [-> | ->]; apply fill_frees.
    - intros r s1 o1 Hr. unfold reply_round. wp_step. by rewrite Hr. }
  by eapply wp_run in Hwp.
Qed.
(** ** Concrete runs *)

Definition example_core : Comp := Build_Comp ct_o3core 0.
Definition example_config (l2_lsb : Z) : config :=
  {| this := Build_Comp ct_cachel1d 0; cachel2 := Build_Comp ct_cachel2 0; process_interval := 10;
     geo := Build_geometry 6 1 2 2; l1_to_lsu_t := 10; l1_to_l2_t := 45; always_hit := false;
     l2_set_lsb := l2_lsb; use_prefetch := false; num_pre_entries := 4 |}.

(** Line 0x40 of set 1 is modified and the least recently used; the other way is free. *)
Definition example_state : state :=
  (init (example_config 6)) <| tags := [[(0, cs_invalid); (0, cs_invalid)];
                                       [(0, cs_modified); (0, cs_invalid)]] |>.
Definition example_read (a : Z) : LQE := new_lqe example_core et_read a 3.

Lemma l1_no_duplicate_lines_witness :
  ∃ a s' o, process_event (example_config 6) 100
     (example_state <| queues ::= insert_req 100 (example_read 64) |>) = Ok (a, s', o) ∧
    tags_ok (geo (example_config 6)) (tags s').
Proof.
  assert (tags_ok (geo (example_config 6)) (tags example_state)) as Hok.
  { constructor; [done|]. repeat constructor; cbn; set_solver. }
  eexists _, _, _. split; [vm_compute; reflexivity|].
  eapply (l1_no_duplicate_lines (example_config 6) 100
    (example_state <| queues ::= insert_req 100 (example_read 64) |>)); [exact Hok|].
  vm_compute. reflexivity.
Defined.

Lemma l1_request_served_witness :
  ∃ s' ways', process_request (example_config 6) 100 (example_read 64) example_state =
    Ok (tt, s', [lsu_call (example_config 6) 100 example_core (example_read 64)]) ∧
    tags s' = vec_alter (λ _, ways') 1 (tags example_state) ∧
    ways' = [(0, cs_invalid); (0, cs_modified)].
Proof.
  apply (l1_request_served (example_config 6) 100 example_state (example_read 64) example_core []
    1 0 [(0, cs_modified); (0, cs_invalid)]); [reflexivity..|by left|reflexivity|reflexivity|reflexivity].
Defined.

Lemma l1_fill_installs_witness :
  ∃ s' ways', process_reply (example_config 6) 100
      (from_push (this (example_config 6)) (example_read 192)) example_state =
    Ok (tt, s', evict_calls (example_config 6) 100 1 3 (0, cs_modified) ++
                [lsu_call (example_config 6) 100 example_core (example_read 192)]) ∧
    tags s' = vec_set 1 ways' (tags example_state) ∧
    ways' = [(0, cs_invalid); (1, cs_exclusive)] ∧
    hits et_read (find_way (holds_tag 1) ways') = true.
Proof.
  apply (l1_fill_installs (example_config 6) 100 example_state
    (from_push (this (example_config 6)) (example_read 192)) (this (example_config 6)) example_core []
    1 1 [(0, cs_invalid)] (0, cs_modified));
    [by split|reflexivity|by split|by left|reflexivity..].
Defined.

Lemma l1_wide_line_undefined_witness :
  ∃ f, process_reply (example_config 7) 100
    (from_push (this (example_config 7)) (example_read 192)) example_state = Err f.
Proof.
  destruct (process_reply _ _ _ _) as [[[a s'] o]|f] eqn:E; [|by exists f].
  exfalso. revert E. apply l1_wide_line_undefined; [reflexivity|by left].
Defined.
End CacheL1.
