(* ===== verification/CacheL2.v ===== *)
(** * The L2 cache (CacheL2, PTSCache.h and PTSCache.cc)

    A banked, set-associative cache between the L1s and the directories.  A way has two
    coherence states, towards the directory and towards the L1s, the set of L1s that share
    the line, and at most one pending message of the directory that waits for an L1. *)

From S2P Require Export Cache.

Module CacheL2.
Import MultiMap Cache PtrSet.

(** [L2Entry]; its field [type], the state towards the directory, is [cs_type] here. *)
Record L2Entry := {
  tag : Z;
  cs_type : coherence_state_type;
  type_l1l2 : coherence_state_type;
  sharedl1 : gset Comp;
  pending : option LQE;
  first_access_time : Z;
  last_access_time : Z }.

Definition empty_entry : L2Entry :=
  {| tag := 0; cs_type := cs_invalid; type_l1l2 := cs_invalid; sharedl1 := ∅; pending := None;
     first_access_time := 0; last_access_time := 0 |}.

Record config := {
  this : Comp;
  directory : Comp;
  crossbar : Comp;
  which_mc : Z → outcome Z;
  process_interval : Z;
  geo : geometry;
  l2_to_l1_t : Z;
  l2_to_dir_t : Z;
  l2_to_xbar_t : Z;
  num_flits_per_packet : Z;
  num_banks_log2 : Z;
  always_hit : bool }.

(** The constructor; [dir], [xbar] and [mc] are the components the machine connects. *)
Definition make_config (p : params) (c dir xbar : Comp) (mc : Z → outcome Z) : outcome config :=
  let get := get_param_uint64 p (c_type c) in
  let g := make_geometry p (c_type c) 512 8 in
  lg ← log2 (num_banks g);
  Ok {| this := c;
        directory := dir;
        crossbar := xbar;
        which_mc := mc;
        process_interval := get "process_interval" 20;
        geo := g;
        l2_to_l1_t := get "to_l1_t" 45;
        l2_to_dir_t := get "to_dir_t" 90;
        l2_to_xbar_t := get "to_xbar_t" 90;
        num_flits_per_packet := get "num_flits_per_packet" 1;
        num_banks_log2 := lg;
        always_hit := get_param_bool p (c_type c) "always_hit" false |}.

Record state := {
  queues : Queues;
  req_qs : list (list LQE);
  num_rd_access : Z;
  num_rd_miss : Z;
  num_wr_access : Z;
  num_wr_miss : Z;
  num_ev_coherency : Z;
  num_ev_capacity : Z;
  num_coherency_access : Z;
  num_upgrade_req : Z;
  num_bypass : Z;
  num_nack : Z;
  tags : list (list L2Entry);
  num_ev_from_l1 : Z;
  num_ev_from_l1_miss : Z;
  num_destroyed_cache_lines : Z;
  cache_line_life_time : Z;
  time_between_last_access_and_cache_destroy : Z }.

Definition init (cfg : config) : state :=
  {| queues := empty_queues;
     req_qs := replicate (Z.to_nat (num_banks (geo cfg))) [];
     num_rd_access := 0; num_rd_miss := 0; num_wr_access := 0; num_wr_miss := 0;
     num_ev_coherency := 0; num_ev_capacity := 0; num_coherency_access := 0;
     num_upgrade_req := 0; num_bypass := 0; num_nack := 0;
     tags := replicate (Z.to_nat (num_sets (geo cfg)))
               (replicate (Z.to_nat (num_ways (geo cfg))) empty_entry);
     num_ev_from_l1 := 0; num_ev_from_l1_miss := 0; num_destroyed_cache_lines := 0;
     cache_line_life_time := 0; time_between_last_access_and_cache_destroy := 0 |}.

Section Handlers.
Context {AD : Addresses} (cfg : config).

Definition add_req_event (event_time : Z) (local_event : LQE) : proc call state unit :=
  t ← lift (ceil_by_y event_time (process_interval cfg));
  _ ← emit (geq_add_event t (this cfg));
  modify (λ s, s <| queues ::= insert_req t local_event |>).

Definition add_rep_event (event_time : Z) (local_event : LQE) : proc call state unit :=
  t ← lift (ceil_by_y event_time (process_interval cfg));
  _ ← emit (geq_add_event t (this cfg));
  modify (λ s, s <| queues ::= insert_rep t local_event |>).

(** ** Ways and calls *)

Definition holds_tag (t : Z) (e : L2Entry) : bool :=
  negb (bool_decide (cs_type e = cs_invalid)) && (tag e =? t).

(** The entry at a way changed in place, and changed and moved to the most recently used
    end ([update_LRU]). *)
Definition put (set : Z) (idx : nat) (e : L2Entry) (s : state) : state :=
  s <| tags ::= vec_alter (λ ways, <[idx := e]> ways) set |>.
Definition touch (set : Z) (idx : nat) (e : L2Entry) (s : state) : state :=
  s <| tags ::= vec_alter (update_LRU idx e) set |>.

(** [(set_it->tag*num_sets + set) << set_lsb]. *)
Definition line_of (set : Z) (e : L2Entry) : Z := join_addr (geo cfg) set (tag e).

Definition from_size (l : LQE) : nat := length (from l).

(** [lqe->from.top()->add_rep_event(curr_time + l2_to_l1_t, lqe)]. *)
Definition to_l1 (curr_time : Z) (l : LQE) : proc call state unit :=
  top ← lift (from_top l);
  emit (Component.add_rep_event top (curr_time ⊕ l2_to_l1_t cfg) l None).

(** [add_event_to_LL]: to the directory next to the L2, or through the crossbar. *)
Definition add_event_to_LL (curr_time : Z) (l : LQE) (check_top is_data : bool)
    : proc call state unit :=
  at_directory ←
    (if check_top then top ← lift (from_top l); mret (bool_decide (top = directory cfg))
     else m ← lift (which_mc cfg (address l)); mret (m =? c_num (directory cfg)));
  emit (if at_directory : bool
        then Component.add_rep_event (directory cfg) (curr_time ⊕ l2_to_dir_t cfg) l None
        else if is_data
        then Component.add_rep_flits (crossbar cfg) (curr_time ⊕ l2_to_xbar_t cfg) l
               (num_flits_per_packet cfg) (Some (this cfg))
        else Component.add_rep_event (crossbar cfg) (curr_time ⊕ l2_to_xbar_t cfg) l (Some (this cfg))).

Definition evict_call (curr_time addr th : Z) (c : Comp) : call :=
  Component.add_rep_event c (curr_time ⊕ l2_to_l1_t cfg) (new_lqe (this cfg) et_evict addr th) None.

Definition evict_one (curr_time addr : Z) (l : LQE) (always : bool) (c : Comp) : proc call state unit :=
  evicted ← (if always then mret true
             else top ← lift (from_top l); mret (negb (bool_decide (c = top))));
  when evicted (emit (evict_call curr_time addr (th_id l) c)).

(** [req_L1_evict]: every sharing L1, except the requester unless [always], is asked to
    evict the line; the set becomes empty. *)
Definition req_L1_evict (curr_time : Z) (set_it : L2Entry) (addr : Z) (l : LQE) (always : bool)
    : proc call state L2Entry :=
  _ ← for_each (set_iter (sharedl1 set_it)) (evict_one curr_time addr l always);
  mret (set_it <| sharedl1 := ∅ |>).

Definition share_with (c : Comp) (e : L2Entry) : L2Entry := e <| sharedl1 ::= union {[c]} |>.

(** The statistics of a line that leaves. *)
Definition destroy_line (curr_time : Z) (e : L2Entry) (s : state) : state :=
  s <| num_destroyed_cache_lines ::= λ n, n ⊕ 1 |>
    <| cache_line_life_time ::= λ n, n ⊕ (curr_time ⊖ first_access_time e) |>
    <| time_between_last_access_and_cache_destroy ::= λ n, n ⊕ (curr_time ⊖ last_access_time e) |>.

Definition count_coherency (s : state) : state := s <| num_coherency_access ::= λ n, n ⊕ 1 |>.
Definition count_ev_coherency (s : state) : state := s <| num_ev_coherency ::= λ n, n ⊕ 1 |>.

(** ** Replies *)

(** [et_write_nd]: the upgrade the directory granted without data. *)
Definition on_write_nd (curr_time set t : Z) (found : option (nat * L2Entry)) (l : LQE)
    : proc call state unit :=
  l ← lift (from_pop l);
  match found with
  | Some (idx, e) =>
      if bool_decide (cs_type e = cs_tr_to_m) then
        e ← req_L1_evict curr_time e (line_of set e) l false;
        top ← lift (from_top l);
        _ ← modify (touch set idx (share_with top (e <| cs_type := cs_modified |>
              <| type_l1l2 := cs_modified |> <| tag := t |> <| last_access_time := curr_time |>)));
        _ ← to_l1 curr_time (l <| type := et_write |>);
        add_event_to_LL curr_time (new_lqe (this cfg) et_e_to_m (address l) (th_id l)) false false
      else
        _ ← to_l1 curr_time (l <| type := et_nack |>);
        add_event_to_LL curr_time (new_lqe (this cfg) et_e_to_i (address l) (th_id l)) false false
  | None =>
      _ ← to_l1 curr_time (l <| type := et_nack |>);
      add_event_to_LL curr_time (new_lqe (this cfg) et_e_to_i (address l) (th_id l)) false false
  end.

Definition in_transition (c : coherence_state_type) : bool :=
  match c with cs_tr_to_s | cs_tr_to_m | cs_tr_to_e | cs_tr_to_i => true | _ => false end.

(** The way a fill that misses replaces: none when the least recently used line is in a
    transition, and the request is refused. *)
Definition make_room (curr_time set : Z) (l : LQE) : proc call state (option (nat * L2Entry)) :=
  ts ← reads tags;
  ways ← lift (vec_get ts set);
  e ← lift (vec_get ways 0);
  let e' := e <| first_access_time := curr_time |> <| last_access_time := curr_time |> in
  if in_transition (cs_type e) then
    _ ← when (bool_decide (1 < from_size l)%nat) (to_l1 curr_time (l <| type := et_nack |>));
    _ ← add_event_to_LL curr_time (new_lqe (this cfg) et_evict (address l) (th_id l)) false false;
    _ ← when (bool_decide (from_size l = 1%nat)) (emit (free_lqe l));
    mret None
  else if bool_decide (cs_type e = cs_invalid) then mret (Some (O, e'))
  else
    _ ← modify (λ s, (destroy_line curr_time e s) <| num_ev_capacity ::= λ n, n ⊕ 1 |>);
    e' ← req_L1_evict curr_time e' (line_of set e) l true;
    _ ← when (negb (bool_decide (type_l1l2 e = cs_modified)))
          (add_event_to_LL curr_time (new_lqe (this cfg) et_evict (line_of set e) (th_id l)) false
             (bool_decide (cs_type e = cs_modified)));
    mret (Some (O, e')).

(** The way a fill goes to, and whether other L1s share it; [None] when the fill bypasses
    the cache. *)
Definition fill_way (curr_time set : Z) (etype : event_type) (found : option (nat * L2Entry)) (l : LQE)
    : proc call state (option (nat * L2Entry * bool)) :=
  match found with
  | None =>
      w ← make_room curr_time set l;
      mret (match w with Some (idx, e) => Some (idx, e, false) | None => None end)
  | Some (idx, e) =>
      if bool_decide (etype = et_write) then
        e ← req_L1_evict curr_time e (line_of set e) l false;
        mret (Some (idx, e, false))
      else if bool_decide (cs_type e = cs_modified) || bool_decide (cs_type e = cs_tr_to_e) then
        _ ← (if bool_decide (1 < from_size l)%nat
             then to_l1 curr_time (l <| type := et_rd_bypass |>)
             else emit (free_lqe l));
        mret None
      else mret (Some (idx, e, bool_decide (etype = et_s_rd)))
  end.

(** [et_e_rd], [et_s_rd] and [et_write]: the data of a miss. *)
Definition on_fill (curr_time set t : Z) (found : option (nat * L2Entry)) (l : LQE)
    : proc call state unit :=
  let etype := type l in
  l ← lift (from_pop l);
  w ← fill_way curr_time set etype found l;
  match w with
  | None => modify (λ s, s <| num_bypass ::= λ n, n ⊕ 1 |>)
  | Some (idx, e, shared) =>
      let e := e <| cs_type := match etype with
                               | et_e_rd => cs_exclusive
                               | et_s_rd => cs_shared
                               | _ => cs_modified
                               end |>
                 <| tag := t |> <| last_access_time := curr_time |> in
      e ← (if bool_decide (1 < from_size l)%nat then
             top ← lift (from_top l);
             mret (share_with top (e <| type_l1l2 :=
               if bool_decide (etype = et_write) then cs_modified
               else if shared : bool then cs_shared else cs_exclusive |>))
           else mret (e <| type_l1l2 := cs_invalid |>));
      _ ← modify (touch set idx e);
      if bool_decide (1 < from_size l)%nat
      then to_l1 curr_time (l <| type := if bool_decide (etype = et_write) then et_write else et_read |>)
      else emit (free_lqe l)
  end.

(** [et_m_to_s] and [et_m_to_m] while an invalidation waits for the L1's data. *)
Definition finish_invalidation (curr_time set : Z) (idx : nat) (e : L2Entry) (p l : LQE)
    : proc call state unit :=
  _ ← modify count_ev_coherency;
  e' ← match type_l1l2 e with
       | cs_tr_to_i => _ ← emit (free_lqe l); mret e
       | cs_tr_to_m => _ ← to_l1 curr_time (l <| type := et_nack |>); mret e
       | _ =>
           _ ← to_l1 curr_time (l <| type := et_nack |>);
           top ← lift (from_top l);
           req_L1_evict curr_time (share_with top e) (line_of set e) l true
       end;
  _ ← add_event_to_LL curr_time p true true;
  _ ← modify (destroy_line curr_time e);
  modify (touch set idx (e' <| pending := None |> <| type_l1l2 := cs_invalid |>
                            <| cs_type := cs_invalid |>)).

(** The requester that waited for the owner's data gets it. *)
Definition finish_transfer (curr_time set : Z) (idx : nat) (e : L2Entry) (l : LQE)
    : proc call state unit :=
  _ ← modify count_ev_coherency;
  top ← lift (from_top l);
  let e' := share_with top (e <| last_access_time := curr_time |>
     <| type_l1l2 := if bool_decide (type_l1l2 e = cs_tr_to_s) then cs_shared
                     else if bool_decide (pending e = None) then cs_modified else cs_invalid |>) in
  _ ← to_l1 curr_time (l <| type := if bool_decide (type l = et_m_to_s) then et_read
                                     else if bool_decide (pending e = None) then et_write else et_nack |>);
  match pending e with
  | None => modify (touch set idx e')
  | Some p =>
      _ ← add_event_to_LL curr_time p true true;
      modify (touch set idx (e' <| pending := None |> <| cs_type := cs_shared |>))
  end.

(** [LOG(FATAL)] after [rep_lqe->from.top()->show_state(...)]. *)
Definition fatal_at_top (l : LQE) : proc call state unit := _ ← lift (from_top l); fails Fatal.

Definition on_owner_reply (curr_time set : Z) (found : option (nat * L2Entry)) (l : LQE)
    : proc call state unit :=
  _ ← when (bool_decide (from l = [])) (fails Fatal);
  l ← lift (from_pop l);
  _ ← modify count_coherency;
  match found with
  | Some (idx, e) =>
      match cs_type e, pending e, type_l1l2 e with
      | cs_tr_to_i, Some p, _ => finish_invalidation curr_time set idx e p l
      | _, _, cs_tr_to_m | _, _, cs_tr_to_s => finish_transfer curr_time set idx e l
      | _, _, _ => fatal_at_top l
      end
  | None => fatal_at_top l
  end.

(** An L1 gave its copy up. *)
Definition drop_sharer (top : Comp) (e : L2Entry) : L2Entry :=
  let e := e <| sharedl1 ::= λ S, S ∖ {[top]} |> in
  match type_l1l2 e with
  | cs_tr_to_s | cs_tr_to_m | cs_tr_to_i => e
  | _ => if bool_decide (sharedl1 e = ∅) then e <| type_l1l2 := cs_invalid |> else e
  end.

(** [et_evict] and [et_evict_nd]. *)
Definition on_evict (curr_time set : Z) (found : option (nat * L2Entry)) (l : LQE)
    : proc call state unit :=
  _ ← modify (λ s, s <| num_ev_from_l1 ::= λ n, n ⊕ 1 |>);
  match found with
  | Some (idx, e) =>
      let e := e <| last_access_time := curr_time |> in
      _ ← (if bool_decide (cs_type e = cs_tr_to_s) then
             _ ← modify count_coherency;
             p ← lift (some_or_undef (pending e));
             _ ← add_event_to_LL curr_time p true true;
             top ← lift (from_top l);
             modify (put set idx (share_with top (e <| cs_type := cs_shared |> <| pending := None |>)))
           else
             top ← lift (from_top l);
             modify (touch set idx (drop_sharer top e)));
      emit (free_lqe l)
  | None =>
      _ ← modify (λ s, s <| num_ev_from_l1_miss ::= λ n, n ⊕ 1 |>);
      if bool_decide (type l = et_evict) && negb (always_hit cfg)
      then add_event_to_LL curr_time (from_push (this cfg) l) true true
      else emit (free_lqe l)
  end.

(** The line is modified in an L1: the owner is asked for it, and the directory's message
    waits. *)
Definition ask_owner (curr_time set : Z) (idx : nat) (e : L2Entry) (t : event_type)
    (c c12 : coherence_state_type) (l : LQE) : proc call state unit :=
  if negb (bool_decide (size (sharedl1 e) = 1%nat)) then fails Fatal
  else
    owner ← lift (some_or_undef (set_begin (sharedl1 e)));
    _ ← emit (Component.add_rep_event owner (curr_time ⊕ l2_to_l1_t cfg)
                (new_lqe (this cfg) t (line_of set e) (th_id l)) None);
    modify (put set idx (e <| last_access_time := curr_time |> <| type_l1l2 := c12 |> <| cs_type := c |>
                           <| pending := Some l |> <| sharedl1 := ∅ |>)).

(** [et_dir_rd]: the directory reads a line this L2 has modified. *)
Definition on_dir_rd (curr_time set : Z) (found : option (nat * L2Entry)) (l : LQE)
    : proc call state unit :=
  _ ← modify count_coherency;
  match found with
  | None => add_event_to_LL curr_time (l <| type := et_dir_rd_nd |>) false false
  | Some (idx, e) =>
      if negb (bool_decide (cs_type e = cs_modified)) then fatal_at_top l
      else
        match type_l1l2 e with
        | cs_invalid | cs_exclusive | cs_shared =>
            _ ← modify (put set idx (e <| cs_type := cs_shared |> <| last_access_time := curr_time |>));
            add_event_to_LL curr_time l true true
        | cs_modified => ask_owner curr_time set idx e et_dir_rd cs_tr_to_s cs_exclusive l
        | cs_tr_to_m | cs_tr_to_s =>
            if bool_decide (pending e = None)
            then modify (put set idx (e <| last_access_time := curr_time |> <| pending := Some l |>))
            else fails Fatal
        | _ => fails Fatal
        end
  end.

Definition on_nack (curr_time : Z) (l : LQE) : proc call state unit :=
  _ ← modify (λ s, s <| num_nack ::= λ n, n ⊕ 1 |> <| num_bypass ::= λ n, n ⊕ 1 |>);
  l ← lift (from_pop l);
  if bool_decide (1 < from_size l)%nat then to_l1 curr_time l else emit (free_lqe l).

(** [et_e_to_s] and [et_s_to_s]: another L2 reads the line. *)
Definition on_share (curr_time set : Z) (found : option (nat * L2Entry)) (l : LQE)
    : proc call state unit :=
  _ ← modify count_coherency;
  match found with
  | Some (idx, e) =>
      match cs_type e with
      | cs_exclusive | cs_shared | cs_tr_to_m =>
          _ ← modify (put set idx (e <| last_access_time := curr_time |> <| cs_type := cs_shared |>));
          add_event_to_LL curr_time l true true
      | _ => fails Fatal
      end
  | None =>
      add_event_to_LL curr_time
        (l <| type := if bool_decide (type l = et_e_to_s) then et_e_to_s_nd else et_s_to_s_nd |>)
        false false
  end.

(** [et_invalidate] and [et_invalidate_nd]. *)
Definition on_invalidate (curr_time set : Z) (found : option (nat * L2Entry)) (l : LQE)
    : proc call state unit :=
  _ ← modify count_coherency;
  match found with
  | None => add_event_to_LL curr_time (l <| type := et_invalidate_nd |>) true false
  | Some (idx, e) =>
      match cs_type e, type_l1l2 e with
      | cs_tr_to_s, _ | cs_tr_to_e, _ | cs_tr_to_i, _ => fails Fatal
      | cs_modified, cs_modified => ask_owner curr_time set idx e et_m_to_m cs_tr_to_i cs_tr_to_i l
      | cs_modified, cs_tr_to_m | cs_modified, cs_tr_to_s =>
          if bool_decide (pending e = None)
          then modify (put set idx (e <| last_access_time := curr_time |> <| cs_type := cs_tr_to_i |>
                                      <| pending := Some l |>))
          else fails Fatal
      | _, _ =>
          e' ← req_L1_evict curr_time e (line_of set e) l true;
          _ ← modify (λ s, count_ev_coherency (destroy_line curr_time e s));
          _ ← modify (put set idx (e' <| cs_type := cs_invalid |> <| type_l1l2 := cs_invalid |>));
          add_event_to_LL curr_time l true (bool_decide (type l = et_invalidate))
      end
  end.

Definition process_reply (curr_time : Z) (l : LQE) : proc call state unit :=
  '(set, t) ← lift (split_addr (geo cfg) (address l));
  ts ← reads tags;
  ways ← lift (vec_get ts set);
  let found := find_way (holds_tag t) ways in
  match type l with
  | et_write_nd => on_write_nd curr_time set t found l
  | et_e_rd | et_s_rd | et_write => on_fill curr_time set t found l
  | et_m_to_s | et_m_to_m => on_owner_reply curr_time set found l
  | et_evict | et_evict_nd => on_evict curr_time set found l
  | et_dir_rd => on_dir_rd curr_time set found l
  | et_nack => on_nack curr_time l
  | et_e_to_s | et_s_to_s => on_share curr_time set found l
  | et_invalidate | et_invalidate_nd => on_invalidate curr_time set found l
  | et_nop => emit (free_lqe l)
  | _ => fails Fatal
  end.

(** ** Requests *)

(** What a look-up decides: whether the request hits (it is then answered, a nack
    included), was handed to another L1 ([enter_intermediate_state]), or missed because of
    coherence only. *)
Record access := { lqe : LQE; hit : bool; handed : bool; is_coherence_miss : bool }.

Definition stable (c : coherence_state_type) : bool :=
  match c with cs_exclusive | cs_shared | cs_modified => true | _ => false end.

(** The line waits for an L1 or the directory, and the request is refused. *)
Definition busy (e : L2Entry) : bool :=
  match type_l1l2 e, cs_type e with
  | cs_exclusive, cs_tr_to_s | cs_tr_to_s, _ | cs_tr_to_m, _ | cs_tr_to_i, _ | _, cs_tr_to_m => true
  | _, _ => false
  end.

(** The owner of a modified line is asked to give it up to the requester. *)
Definition hand_over (curr_time : Z) (t : event_type) (owner : Comp) (l : LQE) : proc call state unit :=
  emit (Component.add_rep_event owner (curr_time ⊕ l2_to_l1_t cfg)
          ((from_push (this cfg) l) <| type := t |>) None).

(** A read of a line that is present. *)
Definition share_line (curr_time : Z) (e : L2Entry) (l : LQE) : proc call state (L2Entry * LQE * bool) :=
  let joined := top ← lift (from_top l); mret (share_with top e) in
  match type_l1l2 e, stable (cs_type e), cs_type e with
  | cs_invalid, true, _ =>
      e ← joined; mret (e <| type_l1l2 := cs_exclusive |>, l, false)
  | cs_exclusive, true, _ =>
      e ← joined;
      mret (if bool_decide (1 < size (sharedl1 e))%nat then e <| type_l1l2 := cs_shared |> else e, l, false)
  | cs_shared, true, _ => e ← joined; mret (e, l, false)
  | cs_modified, _, cs_modified =>
      if bool_decide (1 < size (sharedl1 e))%nat then fails Fatal
      else
        match set_begin (sharedl1 e) with
        | Some owner =>
            top ← lift (from_top l);
            if bool_decide (owner = top) then mret (e, l, false)
            else
              _ ← hand_over curr_time et_m_to_s owner l;
              mret (e <| type_l1l2 := cs_tr_to_s |> <| sharedl1 := ∅ |>, l, true)
        | None => e ← joined; mret (e <| type_l1l2 := cs_shared |>, l, false)
        end
  | _, _, _ => if busy e then mret (e, l <| type := et_nack |>, false) else fails Fatal
  end.

Definition present (t : Z) (e : L2Entry) : bool :=
  holds_tag t e && negb (bool_decide (cs_type e = cs_tr_to_e)).

(** A prefetch (its stack holds the L1 only) just looks whether the line is there. *)
Definition read_access (curr_time set t : Z) (l : LQE) : proc call state access :=
  _ ← modify (λ s, s <| num_rd_access ::= λ n, n ⊕ 1 |>);
  ts ← reads tags;
  ways ← lift (vec_get ts set);
  match find_way (present t) ways with
  | None => mret (Build_access l (always_hit cfg) false false)
  | Some (idx, e) =>
      if bool_decide (from_size l = 1%nat) then mret (Build_access l true false false)
      else
        '(e, l, handed) ← share_line curr_time e l;
        _ ← modify (touch set idx (e <| last_access_time := curr_time |>));
        mret (Build_access l true handed false)
  end.

(** A write to a line that is not modified: the directory has to grant it. *)
Definition upgrade (curr_time set : Z) (idx : nat) (e : L2Entry) (l : LQE) : proc call state unit :=
  sole ← (if bool_decide (cs_type e = cs_exclusive) && bool_decide (size (sharedl1 e) = 1%nat)
          then top ← lift (from_top l); mret (bool_decide (set_begin (sharedl1 e) = Some top))
          else mret false);
  _ ← (if sole : bool
       then modify (put set idx (e <| last_access_time := curr_time |> <| cs_type := cs_tr_to_m |>))
       else
         let e' := if bool_decide (sharedl1 e = ∅) then e
                   else e <| last_access_time := curr_time |> <| cs_type := cs_invalid |> in
         e' ← req_L1_evict curr_time e' (line_of set e) l false;
         modify (put set idx e'));
  modify (λ s, s <| num_upgrade_req ::= λ n, n ⊕ 1 |>).

(** The requester becomes the owner of a modified line. *)
Definition own_line (curr_time set : Z) (idx : nat) (e : L2Entry) (l : LQE) : proc call state access :=
  top ← lift (from_top l);
  _ ← modify (touch set idx (share_with top (e <| last_access_time := curr_time |>
                                               <| type_l1l2 := cs_modified |>)));
  mret (Build_access l true false false).

(** A write to a line the L2 has modified, or that is in a transition. *)
Definition write_line (curr_time set : Z) (idx : nat) (e : L2Entry) (l : LQE) : proc call state access :=
  match cs_type e, type_l1l2 e with
  | cs_modified, cs_invalid => own_line curr_time set idx e l
  | cs_modified, cs_modified =>
      if negb (bool_decide (size (sharedl1 e) = 1%nat)) then fails Fatal
      else
        owner ← lift (some_or_undef (set_begin (sharedl1 e)));
        top ← lift (from_top l);
        if bool_decide (owner = top) then own_line curr_time set idx e l
        else
          _ ← hand_over curr_time et_m_to_m owner l;
          _ ← modify (touch set idx (e <| type_l1l2 := cs_tr_to_m |> <| sharedl1 := ∅ |>
                                       <| last_access_time := curr_time |>));
          mret (Build_access l true true false)
  | cs_modified, cs_exclusive =>
      if bool_decide (1 < size (sharedl1 e))%nat then fails Fatal
      else
        e ← match set_begin (sharedl1 e) with
            | None => mret e
            | Some owner =>
                top ← lift (from_top l);
                if bool_decide (owner = top) then mret e
                else _ ← emit (evict_call curr_time (line_of set e) (th_id l) owner);
                     mret (e <| sharedl1 := ∅ |>)
            end;
        own_line curr_time set idx e l
  | cs_modified, cs_shared =>
      e ← req_L1_evict curr_time e (line_of set e) l false;
      own_line curr_time set idx e l
  | _, _ =>
      if busy e then
        _ ← modify (touch set idx (e <| last_access_time := curr_time |>));
        mret (Build_access (l <| type := et_nack |>) true false false)
      else fails Fatal
  end.

Definition write_access (curr_time set t : Z) (l : LQE) : proc call state access :=
  _ ← modify (λ s, s <| num_wr_access ::= λ n, n ⊕ 1 |>);
  ts ← reads tags;
  ways ← lift (vec_get ts set);
  match find_way (present t) ways with
  | None => mret (Build_access l (always_hit cfg) false false)
  | Some (idx, e) =>
      match cs_type e with
      | cs_exclusive | cs_shared =>
          _ ← upgrade curr_time set idx e l;
          mret (Build_access l (always_hit cfg) false true)
      | _ => write_line curr_time set idx e l
      end
  end.

(** A miss goes to the directory next to the L2, or through the crossbar. *)
Definition forward (curr_time : Z) (l : LQE) : proc call state unit :=
  let l := from_push (this cfg) l in
  m ← lift (which_mc cfg (address l));
  emit (if m =? c_num (directory cfg)
        then Component.add_req_event (directory cfg) (curr_time ⊕ l2_to_dir_t cfg) l None
        else Component.add_req_event (crossbar cfg) (curr_time ⊕ l2_to_xbar_t cfg) l (Some (this cfg))).

(** What follows the look-up. *)
Definition conclude (curr_time : Z) (etype : event_type) (a : access) : proc call state unit :=
  if handed a then mret tt
  else if negb (hit a) then
    _ ← when (negb (is_coherence_miss a))
          (modify (λ s, if bool_decide (etype = et_write)
                        then s <| num_wr_miss ::= λ n, n ⊕ 1 |>
                        else s <| num_rd_miss ::= λ n, n ⊕ 1 |>));
    forward curr_time (lqe a)
  else when (bool_decide (1 < from_size (lqe a))%nat) (to_l1 curr_time (lqe a)).

Definition process_request (curr_time : Z) (l : LQE) : proc call state unit :=
  '(set, t) ← lift (split_addr (geo cfg) (address l));
  a ← match type l with
      | et_read => read_access curr_time set t l
      | et_write => write_access curr_time set t l
      | _ => fails Fatal
      end;
  conclude curr_time (type l) a.

Definition process_bank (curr_time bank : Z) : proc call state unit :=
  qs ← reads req_qs;
  q ← lift (vec_get qs bank);
  match q with
  | [] => mret tt
  | l :: rest =>
      _ ← modify (λ s, s <| req_qs ::= vec_set bank rest |>);
      process_request curr_time l
  end.

Definition idle (q : list LQE) : bool := bool_decide (length q = 0%nat).

(** A cycle with nothing to do is an error: the code prints the next request, if any,
    before it aborts. *)
Definition process_event (curr_time : Z) : proc call state Z :=
  s ← reads (λ s, s);
  let '(rep, q) := take_rep curr_time (queues s) in
  let '(due, later) := mm_drain curr_time (req_event q) in
  qs ← lift (route_requests (geo cfg) due (req_qs s));
  _ ← modify (λ s, s <| queues := (q <| req_event := later |>) |> <| req_qs := qs |>);
  _ ← match rep with
      | Some l => process_reply curr_time l
      | None =>
          if forallb idle qs then fails (match later with [] => Undef | _ => Fatal end)
          else for_each (upto (num_banks (geo cfg))) (process_bank curr_time)
      end;
  s ← reads (λ s, s);
  _ ← when (negb (idle (rep_q (queues s))) || existsb (λ q, negb (idle q)) (req_qs s))
        (emit (geq_add_event (curr_time ⊕ process_interval cfg) (this cfg)));
  mret 0.
End Handlers.

(** ** The array of an L2 *)

Definition alive (e : L2Entry) : bool := negb (bool_decide (cs_type e = cs_invalid)).

(** The pairs of states a way can have, and what each says about the sharers and the
    pending message. *)
Definition entry_ok (e : L2Entry) : Prop :=
  match cs_type e, type_l1l2 e with
  | cs_invalid, (cs_invalid | cs_exclusive | cs_shared) => sharedl1 e = ∅
  | (cs_exclusive | cs_shared | cs_tr_to_m), (cs_invalid | cs_exclusive | cs_shared) => True
  | cs_modified, cs_invalid => sharedl1 e = ∅
  | cs_modified, cs_exclusive => (size (sharedl1 e) ≤ 1)%nat
  | cs_modified, cs_shared => True
  | cs_modified, cs_modified => size (sharedl1 e) = 1%nat
  | cs_modified, (cs_tr_to_s | cs_tr_to_m) => sharedl1 e = ∅
  | cs_tr_to_s, cs_exclusive => pending e ≠ None
  | cs_tr_to_i, (cs_tr_to_s | cs_tr_to_m | cs_tr_to_i) => sharedl1 e = ∅ ∧ pending e ≠ None
  | _, _ => False
  end.

Notation tags_ok := (Cache.tags_ok (A:=L2Entry) tag alive entry_ok).
Notation may_replace := (Cache.may_replace (A:=L2Entry) tag alive entry_ok).

Definition inv (cfg : config) (s : state) : Prop := tags_ok (geo cfg) (tags s).

Lemma holds_tag_spec t e : holds_tag t e = true ↔ alive e = true ∧ tag e = t.
Proof. apply (has_tag_spec tag alive). Qed.

Lemma find_found t ways idx e :
  find_way (holds_tag t) ways = Some (idx, e) → ways !! idx = Some e ∧ alive e = true ∧ tag e = t.
Proof. intros (? & H & _)%find_way_Some. by apply holds_tag_spec in H. Qed.

(** Nothing is ever in the state [cs_tr_to_e], so a look-up finds every line. *)
Lemma entry_ok_no_tr_to_e e : entry_ok e → cs_type e ≠ cs_tr_to_e.
Proof. unfold entry_ok. by destruct (cs_type e). Qed.

Lemma find_present t ways :
  Forall entry_ok ways → find_way (present t) ways = find_way (holds_tag t) ways.
Proof.
  induction 1 as [|e ways He _ IH]; [done|]. cbn. rewrite IH.
  assert (present t e = holds_tag t e) as ->; [|done].
  unfold present. rewrite bool_decide_eq_false_2 by (by apply entry_ok_no_tr_to_e).
  apply andb_true_r.
Qed.

Section Invariant.
Context {AD : Addresses} (cfg : config).

(** *** What the helpers do *)

(** The evictions [req_L1_evict] asks for. *)
Definition evicts (now addr : Z) (l : LQE) (always : bool) (e : L2Entry) : list call :=
  evict_call cfg now addr (th_id l) <$>
    filter (λ c, always = true ∨ head (from l) ≠ Some c) (set_iter (sharedl1 e)).

Lemma evict_one_eq now addr l always c s :
  always = true ∨ from l ≠ [] →
  evict_one cfg now addr l always c s =
    Ok (tt, s, if decide (always = true ∨ head (from l) ≠ Some c)
               then [evict_call cfg now addr (th_id l) c] else []).
Proof.
  intros Hl. unfold evict_one. destruct always; cbn; [by rewrite decide_True by auto|].
  unfold mbind, proc_bind, lift, from_top. destruct (from l) as [|top r]; [naive_solver|]. cbn.
  destruct (decide (c = top)) as [->|Hne].
  - rewrite bool_decide_eq_true_2 by done. cbn. rewrite decide_False; [done|]. naive_solver.
  - rewrite bool_decide_eq_false_2 by done. cbn. rewrite decide_True; [done|]. right. congruence.
Qed.

Lemma req_L1_evict_eq now e addr l always s :
  always = true ∨ from l ≠ [] →
  req_L1_evict cfg now e addr l always s = Ok (e <| sharedl1 := ∅ |>, s, evicts now addr l always e).
Proof.
  intros Hl. unfold req_L1_evict, evicts.
  assert (∀ cs, for_each cs (evict_one cfg now addr l always) s =
    Ok (tt, s, evict_call cfg now addr (th_id l) <$>
      filter (λ c, always = true ∨ head (from l) ≠ Some c) cs)) as Hloop.
  { induction cs as [|c cs IH]; [done|]. cbn [for_each]. unfold mbind, proc_bind.
    rewrite evict_one_eq by done. cbv beta iota. rewrite IH, filter_cons. by repeat case_decide. }
  unfold mbind, proc_bind. rewrite Hloop. cbn. by rewrite app_nil_r.
Qed.

Lemma wp_req_L1_evict E now e addr l always s Q :
  (always = true ∨ from l ≠ [] ∨ E Undef) →
  Q (e <| sharedl1 := ∅ |>) s (evicts now addr l always e) →
  wp E (req_L1_evict cfg now e addr l always) s Q.
Proof.
  intros Hl HQ. destruct (decide (always = true ∨ from l ≠ [])) as [Hd|Hd].
  - unfold wp. by rewrite req_L1_evict_eq.
  - assert (always = false ∧ from l = [] ∧ E Undef) as (-> & Hf & HE).
    { destruct always; [naive_solver|]. destruct (from l); naive_solver. }
    unfold evicts in HQ. unfold req_L1_evict. destruct (set_iter (sharedl1 e)) as [|c cs]; cbn [for_each].
    + wp_steps. exact HQ.
    + wp_step. apply wp_bind. unfold evict_one, from_top. rewrite Hf. wp_steps.
      apply wp_lift; cbn; intros; by simplify_eq.
Qed.

Section Frame.
Context (s0 : state).
Notation same := (λ s, s = s0).

Lemma same_to_l1 now l : keeps same (to_l1 cfg now l).
Proof. unfold to_l1. by repeat keeps_step. Qed.
Lemma same_LL now l ct d : keeps same (add_event_to_LL cfg now l ct d).
Proof. unfold add_event_to_LL. by repeat keeps_step. Qed.
End Frame.

(** The steps of a handler that do not change the cache. *)
Ltac wp_same :=
  lazymatch goal with
  | |- wp _ (_ ≫= _) _ _ => wp_step
  | _ => idtac
  end;
  eapply wp_mono; [first [apply same_to_l1|apply same_LL]; reflexivity|]; cbv beta; intros ? ? ? ->.

(** *** The handlers keep the array *)

Lemma drop_sharer_ok now top e :
  entry_ok e → cs_type e ≠ cs_tr_to_s → entry_ok (drop_sharer top (e <| last_access_time := now |>)).
Proof.
  intros He Hc. assert (size (sharedl1 e ∖ {[top]}) ≤ size (sharedl1 e))%nat as Hsize
    by (apply subseteq_size; set_solver).
  assert (sharedl1 e = ∅ → sharedl1 e ∖ {[top]} = ∅) as Hempty by set_solver.
  assert (sharedl1 e ∖ {[top]} ≠ ∅ → size (sharedl1 e ∖ {[top]}) ≠ 0%nat) as Hne
    by (intros H; contradict H; by apply leibniz_equiv, size_empty_inv).
  unfold entry_ok, drop_sharer in *. destruct e as [t c c12 sh p fa la]; cbn in *.
  destruct c, c12; cbn; try done; try case_bool_decide; cbn; try done; try lia; auto;
    try by destruct He. all: by naive_solver lia.
Qed.

Section Line.
Context (s : state) (set t : Z) (ways : list L2Entry).
Context (Hs : inv cfg s) (Hget : vec_get (tags s) set = Ok ways).
Notation found := (find_way (holds_tag t) ways).

Lemma ways_ok : Forall entry_ok ways.
Proof. by eapply good_ways, tags_ok_get. Qed.

Lemma way_ok idx e : ways !! idx = Some e → entry_ok e.
Proof. intros H. eapply Forall_lookup_1; [apply ways_ok|done]. Qed.

Lemma found_ok idx e : found = Some (idx, e) → entry_ok e.
Proof. intros (H & _)%find_found. by eapply way_ok. Qed.

Lemma inv_put s' idx e e' :
  tags s' = tags s → found = Some (idx, e) → entry_ok e' → tag e' = tag e → inv cfg (put set idx e' s').
Proof.
  intros Ht Hf He Htag. pose proof (find_found _ _ _ _ Hf) as (Hi & _ & Hte).
  unfold inv, put. cbn. rewrite Ht. eapply tags_ok_put; [done..|].
  eapply (found_replace tag alive); [exact Hf|done|congruence].
Qed.

Lemma inv_touch s' idx e e' :
  tags s' = tags s → found = Some (idx, e) → entry_ok e' → tag e' = tag e → inv cfg (touch set idx e' s').
Proof.
  intros Ht Hf He Htag. pose proof (find_found _ _ _ _ Hf) as (Hi & _ & Hte).
  unfold inv, touch. cbn. rewrite Ht. eapply tags_ok_touch; [done..|].
  eapply (found_replace tag alive); [exact Hf|done|congruence].
Qed.

Lemma inv_install s' idx e e' :
  tags s' = tags s → found = None → ways !! idx = Some e → entry_ok e' → tag e' = t →
  inv cfg (touch set idx e' s').
Proof.
  intros Ht Hf Hi He Htag. unfold inv, touch. cbn. rewrite Ht. eapply tags_ok_touch; [done..|].
  by eapply (missed_replace tag alive).
Qed.

Lemma inv_same s' : tags s' = tags s → inv cfg s'.
Proof. unfold inv. by intros ->. Qed.

Notation keeps_inv m := (wp any_failure m s (λ _ s' _, inv cfg s')).

Lemma keeps_write_nd now l : keeps_inv (on_write_nd cfg now set t found l).
Proof.
  unfold on_write_nd. wp_step. apply wp_lift; [|done]. intros l' _.
  destruct found as [[idx e]|] eqn:Hf; [|by repeat wp_same].
  pose proof (found_ok _ _ Hf) as He. pose proof (find_found _ _ _ _ Hf) as (_ & _ & Ht).
  wp_if E; [|by repeat wp_same]. wp_step. apply wp_req_L1_evict; [by right; right|].
  wp_step. apply wp_lift; [|done]. intros top _. wp_steps. repeat wp_same.
  eapply inv_touch; [done|exact Hf| |done]. cbn. rewrite union_empty_r_L. apply size_singleton.
Qed.

(** The way of a fill has no sharers but for a read of a line that is present. *)
Definition fill_target (etype : event_type) (idx : nat) (e' : L2Entry) : Prop :=
  ∃ e, ways !! idx = Some e ∧
    match found with
    | Some (idx', _) => idx' = idx ∧ tag e' = t ∧ (etype = et_write → sharedl1 e' = ∅)
    | None => sharedl1 e' = ∅
    end.

Lemma wp_fill_way now etype l :
  wp any_failure (fill_way cfg now set etype found l) s (λ w s' _, tags s' = tags s ∧
    match w with Some (idx, e, _) => fill_target etype idx e | None => True end).
Proof.
  unfold fill_way, fill_target. destruct found as [[idx e]|] eqn:Hf.
  - pose proof (find_found _ _ _ _ Hf) as (Hi & _ & Ht). wp_if E.
    + wp_step. apply wp_req_L1_evict; [by right; right|]. wp_steps. split; [done|]. by exists e.
    + wp_if E'.
      * wp_step. wp_if Hsz; [by repeat wp_same|by wp_steps].
      * wp_steps. split; [done|]. apply bool_decide_eq_false in E. by exists e.
  - unfold make_room. wp_step. wp_steps. apply wp_lift; [|done]. intros ways' Hget'.
    rewrite Hget in Hget'. injection Hget' as <-. wp_step. apply wp_lift; [|done].
    intros e [_ He]%vec_get_Some. pose proof (way_ok _ _ He) as Hok. wp_if Htr.
    + wp_step. apply wp_when; intros _; [wp_same|]; wp_same; wp_step; apply wp_when; intros _; by wp_steps.
    + wp_if Hinv.
      * wp_steps. split; [done|]. exists e. split; [done|]. cbn. apply bool_decide_eq_true in Hinv.
        unfold entry_ok in Hok. rewrite Hinv in Hok. by destruct (type_l1l2 e).
      * wp_steps. apply wp_req_L1_evict; [by left|]. wp_step.
        apply wp_when; intros _; [wp_same|]; wp_steps; (split; [done|]); by exists e.
Qed.

Lemma keeps_fill now l :
  type l = et_e_rd ∨ type l = et_s_rd ∨ type l = et_write → keeps_inv (on_fill cfg now set t found l).
Proof.
  intros Hty. unfold on_fill. wp_step. apply wp_lift; [|done]. intros l' _. wp_step.
  eapply wp_mono; [apply wp_fill_way|]. intros [[[idx e'] shared]|] s1 o1 [Ht Hw]; cycle 1.
  { wp_steps. by apply inv_same. }
  unfold fill_target in Hw. destruct Hw as (e & Hi & Hw).
  assert (∀ e'' s', entry_ok e'' → tag e'' = t → tags s' = tags s → inv cfg (touch set idx e'' s')) as Hend.
  { intros e'' s' Hok Htag Hs'. destruct found as [[idx' e0]|] eqn:Hf.
    - destruct Hw as (-> & _). eapply inv_touch; [done|exact Hf|done|].
      by pose proof (find_found _ _ _ _ Hf) as (_ & _ & ->).
    - by eapply inv_install. }
  assert (type l = et_write → sharedl1 e' = ∅) as Hempty by (destruct found as [[]|]; naive_solver).
  wp_step. wp_if Hsz; wp_steps.
  - apply wp_lift; [|done]. intros top _. wp_steps. wp_same.
    apply Hend; [|done..]. destruct Hty as [E|[E|E]]; rewrite E; cbn; try by destruct shared.
    rewrite Hempty, union_empty_r_L by done. apply size_singleton.
  - apply Hend; [|done..]. destruct Hty as [E|[E|E]]; rewrite E; cbn; auto.
Qed.

Lemma keeps_finish_transfer now idx e l :
  found = Some (idx, e) → cs_type e = cs_modified ∨ pending e ≠ None →
  type_l1l2 e = cs_tr_to_s ∨ type_l1l2 e = cs_tr_to_m →
  wp any_failure (finish_transfer cfg now set idx e l) (count_coherency s) (λ _ s' _, inv cfg s').
Proof.
  intros Hf Hc Hc12. pose proof (found_ok _ _ Hf) as He. unfold finish_transfer.
  wp_steps. apply wp_lift; [|done]. intros top _. wp_steps. wp_same.
  destruct (pending e) as [p|] eqn:Hp; [wp_same|]; wp_steps;
    (eapply inv_touch; [done|exact Hf| |done]); unfold entry_ok; cbn.
  - by destruct Hc12 as [-> | ->].
  - destruct Hc as [Hc|]; [|done]. unfold entry_ok in He. rewrite Hc in *.
    destruct Hc12 as [E|E]; rewrite E in *; cbn; [done|].
    rewrite He, union_empty_r_L. apply size_singleton.
Qed.

Lemma keeps_finish_invalidation now idx e p l :
  found = Some (idx, e) → cs_type e = cs_tr_to_i →
  wp any_failure (finish_invalidation cfg now set idx e p l) (count_coherency s) (λ _ s' _, inv cfg s').
Proof.
  intros Hf Hc. pose proof (found_ok _ _ Hf) as He. unfold finish_invalidation. wp_steps.
  eapply (wp_mono _ _ _ (λ e' s' _, tags s' = tags s ∧ sharedl1 e' = ∅ ∧ tag e' = tag e)).
  - unfold entry_ok in He. rewrite Hc in He.
    destruct (type_l1l2 e); try done; [by wp_steps; destruct He| |by wp_same; wp_steps; destruct He].
    wp_same. wp_step. apply wp_lift; [|done]. intros top _. by apply wp_req_L1_evict; [left|].
  - intros e' s1 o1 (Ht & Hsh & Htag). wp_same. wp_steps.
    eapply inv_touch; [done|exact Hf|exact Hsh|done].
Qed.

Lemma keeps_owner_reply now l : keeps_inv (on_owner_reply cfg now set found l).
Proof.
  unfold on_owner_reply. wp_step. apply wp_when; intros _; [done|]. wp_step.
  apply wp_lift; [|done]. intros l' _. wp_steps. destruct found as [[idx e]|] eqn:Hf; [|unfold fatal_at_top; wp_step; by apply wp_lift].
  pose proof (found_ok _ _ Hf) as He. unfold entry_ok in He.
  assert (wp any_failure (fatal_at_top l') (count_coherency s) (λ _ s' _, inv cfg s')) as Hfatal
    by (unfold fatal_at_top; wp_step; by apply wp_lift).
  pose proof (keeps_finish_invalidation now idx e) as Hinv.
  pose proof (keeps_finish_transfer now idx e l' Hf) as Htr.
  destruct (cs_type e) eqn:Hc, (pending e) as [p|] eqn:Hp, (type_l1l2 e); try done; auto;
    try by apply Htr; auto. all: by destruct He.
Qed.

Lemma keeps_on_evict now l : keeps_inv (on_evict cfg now set found l).
Proof.
  unfold on_evict. wp_steps. destruct found as [[idx e]|] eqn:Hf; cycle 1.
  { wp_steps. wp_if E; [wp_same|wp_steps]; by apply inv_same. }
  pose proof (found_ok _ _ Hf) as He. unfold entry_ok in He. wp_steps. wp_if E.
  - apply bool_decide_eq_true in E. cbn in E. rewrite E in He. wp_steps. apply wp_lift; [|done].
    intros p _. wp_same. wp_step. apply wp_lift; [|done]. intros top _. wp_steps.
    eapply inv_put; [done|exact Hf| |done]. unfold entry_ok. cbn. by destruct (type_l1l2 e).
  - wp_step. apply wp_lift; [|done]. intros top _. wp_steps.
    apply bool_decide_eq_false in E. cbn in E.
    eapply inv_touch; [done|exact Hf|by apply drop_sharer_ok|].
    unfold drop_sharer. cbn. by destruct (type_l1l2 e); try case_bool_decide.
Qed.

Lemma keeps_ask_owner now idx e ty c c12 l s' :
  found = Some (idx, e) → tags s' = tags s →
  (c = cs_tr_to_s ∧ c12 = cs_exclusive ∨ c = cs_tr_to_i ∧ c12 = cs_tr_to_i) →
  wp any_failure (ask_owner cfg now set idx e ty c c12 l) s' (λ _ s'' _, inv cfg s'').
Proof.
  intros Hf Ht Hc. unfold ask_owner. wp_if E; [done|]. wp_step. apply wp_lift; [|done]. intros owner _.
  wp_steps. eapply inv_put; [done|exact Hf| |done]. by destruct Hc as [[-> ->]|[-> ->]].
Qed.

Lemma keeps_fatal l s' (Q : unit → state → list call → Prop) : wp any_failure (fatal_at_top l) s' Q.
Proof. unfold fatal_at_top. wp_step. by apply wp_lift. Qed.

Lemma keeps_on_dir_rd now l : keeps_inv (on_dir_rd cfg now set found l).
Proof.
  unfold on_dir_rd. wp_steps. destruct found as [[idx e]|] eqn:Hf; [|by wp_same; apply inv_same].
  pose proof (found_ok _ _ Hf) as He. wp_if E; [apply keeps_fatal|].
  apply negb_false_iff, bool_decide_eq_true in E. unfold entry_ok in He. rewrite E in He.
  assert (∀ c, c = type_l1l2 e → wp any_failure
    (_ ← modify (put set idx (e <| cs_type := cs_shared |> <| last_access_time := now |>));
     add_event_to_LL cfg now l true true) (count_coherency s) (λ _ s' _,
     match c with cs_invalid | cs_exclusive | cs_shared => inv cfg s' | _ => True end)) as Hstay.
  { intros c ->. wp_step. wp_step. wp_same.
    destruct (type_l1l2 e) eqn:H12; try done; (eapply inv_put; [done|exact Hf| |done]);
      unfold entry_ok; cbn; by rewrite H12. }
  assert (type_l1l2 e = cs_tr_to_m ∨ type_l1l2 e = cs_tr_to_s → wp (W:=call) any_failure
    (if bool_decide (pending e = None)
     then modify (put set idx (e <| last_access_time := now |> <| pending := Some l |>))
     else fails Fatal) (count_coherency s) (λ _ s' _, inv cfg s')) as Hwait.
  { intros H12. wp_if Hp; [|done]. wp_steps. eapply inv_put; [done|exact Hf| |done].
    unfold entry_ok. cbn. rewrite E. by destruct H12 as [H|H]; rewrite H in *. }
  destruct (type_l1l2 e) eqn:H12; try done; try (by apply (Hstay _ eq_refl)); try (apply Hwait; first [by left|by right]).
  apply keeps_ask_owner; auto.
Qed.

Lemma keeps_on_share now l : keeps_inv (on_share cfg now set found l).
Proof.
  unfold on_share. wp_steps. destruct found as [[idx e]|] eqn:Hf; [|by wp_same; apply inv_same].
  pose proof (found_ok _ _ Hf) as He. unfold entry_ok in He.
  destruct (cs_type e) eqn:Hc; try done; wp_steps; wp_same;
    (eapply inv_put; [done|exact Hf| |done]); unfold entry_ok; cbn; by destruct (type_l1l2 e).
Qed.

Lemma keeps_on_invalidate now l : keeps_inv (on_invalidate cfg now set found l).
Proof.
  unfold on_invalidate. wp_steps. destruct found as [[idx e]|] eqn:Hf; [|by wp_same; apply inv_same].
  pose proof (found_ok _ _ Hf) as He. unfold entry_ok in He.
  assert (wp any_failure
    (e' ← req_L1_evict cfg now e (line_of cfg set e) l true;
     _ ← modify (λ s, count_ev_coherency (destroy_line now e s));
     _ ← modify (put set idx (e' <| cs_type := cs_invalid |> <| type_l1l2 := cs_invalid |>));
     add_event_to_LL cfg now l true (bool_decide (type l = et_invalidate))) (count_coherency s)
    (λ _ s' _, inv cfg s')) as Hgo.
  { wp_step. apply wp_req_L1_evict; [by left|]. wp_steps. wp_same.
    eapply inv_put; [done|exact Hf|done|done]. }
  assert (wp (W:=call) any_failure
    (if bool_decide (pending e = None)
     then modify (put set idx (e <| last_access_time := now |> <| cs_type := cs_tr_to_i |> <| pending := Some l |>))
     else fails Fatal) (count_coherency s) (λ _ s' _,
     cs_type e = cs_modified → type_l1l2 e = cs_tr_to_s ∨ type_l1l2 e = cs_tr_to_m → inv cfg s')) as Hwait.
  { wp_if Hp; [|done]. wp_steps. intros E H12. eapply inv_put; [done|exact Hf| |done].
    unfold entry_ok. cbn. rewrite E in He. by destruct H12 as [H|H]; rewrite H in *. }
  destruct (cs_type e) eqn:Hc; try done; destruct (type_l1l2 e) eqn:H12; try done;
    try (eapply wp_mono; [exact Hwait|]; cbn; by auto).
  apply keeps_ask_owner; auto.
Qed.
End Line.

Lemma keeps_process_reply now l : keeps (inv cfg) (process_reply cfg now l).
Proof.
  intros s Hs. unfold process_reply. wp_step. apply wp_lift; [|done]. intros [set t] _. wp_steps.
  apply wp_lift; [|done]. intros ways Hget.
  destruct (type l) eqn:Hty; try done;
    try (apply keeps_fill; by auto);
    first [by apply keeps_write_nd|by apply keeps_owner_reply|by apply keeps_on_evict
          |by apply keeps_on_dir_rd|by apply keeps_on_share|by apply keeps_on_invalidate|idtac].
  unfold on_nack. wp_steps. apply wp_lift; [|done]. intros l' _. wp_if E; [by wp_same|by wp_steps].
Qed.

(** *** Requests *)

Lemma set_type_id (l : LQE) : l <| type := type l |> = l.
Proof. by destruct l. Qed.

(** The L2 holds the line of [t] as [e]. *)
Definition line_in (s : state) (set t : Z) (e : L2Entry) : Prop :=
  ∃ ways idx, vec_get (tags s) set = Ok ways ∧ find_way (holds_tag t) ways = Some (idx, e).

(** A request is handed to the L1 that owns the line. *)
Definition hand_call (now : Z) (t : event_type) (owner : Comp) (l : LQE) : call :=
  Component.add_rep_event owner (now ⊕ l2_to_l1_t cfg) ((from_push (this cfg) l) <| type := t |>) None.

(** The evictions a write causes: of other L1s, each once. *)
Definition evicts_others (now : Z) (l : LQE) (top : Comp) (o : list call) : Prop :=
  ∃ addr cs, o = evict_call cfg now addr (th_id l) <$> cs ∧ NoDup cs ∧ top ∉ cs.

(** What a look-up of [w] may decide.  [granted]: the requester has the line as it asked;
    [all_told]: the other sharers were asked to give it up. *)
Definition granted (set t : Z) (top : Comp) (ty : event_type) (s : state) : Prop :=
  ∃ e, line_in s set t e ∧ stable (cs_type e) = true ∧
    if bool_decide (ty = et_write)
    then cs_type e = cs_modified ∧ type_l1l2 e = cs_modified ∧ sharedl1 e = {[top]}
    else top ∈ sharedl1 e.

Definition all_told (now : Z) (l : LQE) (top : Comp) (w : option (nat * L2Entry)) (o : list call) : Prop :=
  ∀ idx e c, w = Some (idx, e) → c ∈ sharedl1 e → c = top ∨ ∃ addr, evict_call cfg now addr (th_id l) c ∈ o.

Definition access_ok (now set t : Z) (l : LQE) (top : Comp) (w : option (nat * L2Entry))
    (a : access) (s : state) (o : list call) : Prop :=
  (handed a = true ∧ ∃ owner, owner ≠ top ∧
     o = [hand_call now (if bool_decide (type l = et_write) then et_m_to_m else et_m_to_s) owner l]) ∨
  (handed a = false ∧ evicts_others now l top o ∧
   (lqe a = l ∨ lqe a = l <| type := et_nack |> ∧ hit a = true) ∧
   (hit a = true → always_hit cfg = false → lqe a = l → (1 < from_size l)%nat →
    granted set t top (type l) s ∧ (type l = et_write → all_told now l top w o))).

Lemma evicts_none now l top : evicts_others now l top [].
Proof. exists 0, []. split_and!; [done|constructor|by apply not_elem_of_nil]. Qed.

Lemma evicts_others_of now addr l top r e :
  from l = top :: r → evicts_others now l top (evicts now addr l false e).
Proof.
  intros Hf. eexists addr, _. split; [reflexivity|]. split.
  - apply NoDup_filter, set_iter_NoDup.
  - rewrite list_elem_of_filter, Hf. cbn. naive_solver.
Qed.

Section Request.
Context (s : state) (set t : Z) (ways : list L2Entry).
Context (Hs : inv cfg s) (Hget : vec_get (tags s) set = Ok ways).
Context (l : LQE) (top : Comp) (r : list Comp) (Hfrom : from l = top :: r).
Notation found := (find_way (holds_tag t) ways).

Lemma from_top_ok : from_top l = Ok top.
Proof. unfold from_top. by rewrite Hfrom. Qed.

Lemma line_in_touch s' idx e e' :
  tags s' = tags s → found = Some (idx, e) → entry_ok e' → tag e' = tag e → alive e' = true →
  line_in (touch set idx e' s') set t e'.
Proof.
  intros Ht Hf He Htag Ha. pose proof (find_found _ _ _ _ Hf) as (Hi & _ & Hte).
  assert (inv cfg (touch set idx e' s')) as Hinv by (by eapply inv_touch).
  assert (vec_get (tags (touch set idx e' s')) set = Ok (update_LRU idx e' ways)) as Hget'.
  { unfold touch. cbn. rewrite Ht. by apply vec_get_alter. }
  destruct (good_find tag alive entry_ok _ _ t e' (tags_ok_get _ _ _ _ _ _ _ Hinv Hget')) as [i Hfind].
  - rewrite update_LRU_spec by (by eapply lookup_lt_Some). set_solver.
  - apply (has_tag_spec tag alive). split; [done|congruence].
  - by exists (update_LRU idx e' ways), i.
Qed.

Lemma wp_share_line now idx e s0 :
  found = Some (idx, e) →
  wp no_failure (share_line cfg now e l) s0 (λ b s' o, s' = s0 ∧
    let '(e', l', h) := b in entry_ok e' ∧ tag e' = tag e ∧ cs_type e' = cs_type e ∧
    (h = true ∧ (∃ owner, owner ≠ top ∧ o = [hand_call now et_m_to_s owner l]) ∨
     h = false ∧ o = [] ∧
       (l' = l ∧ top ∈ sharedl1 e' ∧ stable (cs_type e) = true ∨ l' = l <| type := et_nack |>))).
Proof.
  intros Hf. pose proof (found_ok _ _ _ _ Hs Hget _ _ Hf) as He. unfold entry_ok in He.
  pose proof (find_found _ _ _ _ Hf) as (_ & Ha & _). unfold alive in Ha.
  pose proof from_top_ok as Htop. unfold share_line.
  set (Q := λ (b : L2Entry * LQE * bool) (s' : state) (o : list call), s' = s0 ∧ _).
  assert (∀ e', sharedl1 e' = {[top]} ∪ sharedl1 e → cs_type e' = cs_type e → tag e' = tag e →
    entry_ok e' → stable (cs_type e) = true → Q (e', l, false) s0 []) as Hjoin.
  { intros e' Hsh Hc Ht Hok Hst. split; [done|]. split_and!; [done..|]. right. split_and!; [done..|].
    left. rewrite Hsh. set_solver. }
  assert (entry_ok e → Q (e, l <| type := et_nack |>, false) s0 []) as Hnack.
  { intros Hok. split; [done|]. split_and!; [done..|]. right. by auto. }
  unfold busy. unfold entry_ok in Hjoin, Hnack.
  destruct (cs_type e) eqn:Hc, (type_l1l2 e) eqn:H12; try done; cbn [stable];
    try (by wp_steps; apply Hnack);
    try (wp_steps; (eapply wp_lift_ok; [exact Htop|]); wp_steps;
         try (destruct (bool_decide (1 < size (sharedl1 (share_with top e)))%nat) eqn:Hsz);
         apply Hjoin; try done; cbn; rewrite ?Hc, ?H12; try done).
  - rewrite He, union_empty_r_L, size_singleton. lia.
  - rewrite He, union_empty_r_L, size_singleton. lia.
  - apply bool_decide_eq_false in Hsz. cbn in Hsz. lia.
  - rewrite bool_decide_eq_false_2 by lia. destruct (set_begin_is_Some (sharedl1 e)) as (owner & -> & Hin).
    { intros E. rewrite E in He. done. }
    wp_step. eapply wp_lift_ok; [exact Htop|]. wp_if Ho.
    + apply bool_decide_eq_true in Ho as ->. wp_steps. split; [done|]. unfold entry_ok.
      rewrite Hc, H12. split_and!; [done..|]. right. split_and!; [done..|]. by left.
    + apply bool_decide_eq_false in Ho. unfold hand_over. wp_steps. split; [done|]. unfold entry_ok. cbn.
      rewrite Hc. split_and!; [done..|]. left. split; [done|]. by exists owner.
Qed.

Lemma wp_read_access now :
  type l = et_read →
  wp no_failure (read_access cfg now set t l) s (λ a s' o, inv cfg s' ∧ access_ok now set t l top found a s' o).
Proof.
  intros Hty. unfold read_access. wp_steps. eapply wp_lift_ok; [exact Hget|].
  rewrite find_present by (by eapply ways_ok). unfold access_ok. rewrite Hty.
  assert (inv cfg (s <| num_rd_access ::= λ n, n ⊕ 1 |>)) as Hs' by done.
  destruct found as [[idx e]|] eqn:Hf; cycle 1.
  { wp_steps. split; [done|]. right. split_and!; [done|apply evicts_none|by left|]. cbn. congruence. }
  wp_if Hsz.
  { wp_steps. split; [done|]. right. split_and!; [done|apply evicts_none|by left|].
    apply bool_decide_eq_true in Hsz. lia. }
  wp_step. eapply wp_mono; [by apply (wp_share_line now idx e)|].
  intros [[e' l'] h] s1 o1 [-> (Hok & Htag & Hc & Hcase)]. wp_steps.
  pose proof (find_found _ _ _ _ Hf) as (_ & Ha & _).
  assert (entry_ok (e' <| last_access_time := now |>)) as Hok' by exact Hok.
  split; [by eapply inv_touch|]. destruct Hcase as [[-> (owner & Hne & ->)]|(-> & -> & Hl)].
  - left. split; [done|]. by exists owner.
  - right. split_and!; [done|apply evicts_none|naive_solver|]. cbn. intros _ _ -> Hlt.
    destruct Hl as [(_ & Hin & Hst)|Hl]; [|by rewrite Hl in Hty].
    split; [|done]. exists (e' <| last_access_time := now |>). split; [|cbn; by rewrite Hc].
    eapply line_in_touch; [done|exact Hf|done|done|]. unfold alive. cbn. by rewrite Hc.
Qed.

(** The requester of a write becomes the only sharer. *)
Lemma wp_own_line now idx e e' s' :
  found = Some (idx, e) → tags s' = tags s → cs_type e' = cs_modified → tag e' = tag e →
  sharedl1 e' ⊆ {[top]} → pending e' = pending e →
  wp no_failure (own_line now set idx e' l) s' (λ a s'' o, inv cfg s'' ∧ o = [] ∧
    lqe a = l ∧ handed a = false ∧ granted set t top et_write s'').
Proof.
  intros Hf Ht Hc Htag Hsh Hp. unfold own_line. wp_step. eapply wp_lift_ok; [exact from_top_ok|]. wp_steps.
  set (e'' := share_with top _).
  assert (sharedl1 e'' = {[top]}) as Hs'' by (unfold e''; cbn; set_solver).
  assert (entry_ok e'') as Hok.
  { unfold entry_ok. rewrite Hs''. cbn. rewrite Hc. apply size_singleton. }
  split_and!; [by eapply inv_touch|done..|]. exists e''. split.
  - eapply line_in_touch; [done|exact Hf|done|done|]. unfold alive. cbn. by rewrite Hc.
  - cbn. rewrite Hc. split; [done|]. split_and!; done.
Qed.

Lemma sole_sharer (X : gset Comp) c : (size X ≤ 1)%nat → c ∈ X → X ⊆ {[c]}.
Proof.
  intros Hsz Hc d Hd. apply elem_of_singleton. apply (size_singleton_inv X); [|done|done].
  assert (size X ≠ 0%nat); [|lia]. intros H%size_empty_inv. set_solver.
Qed.

(** From the evictions of a handler and the line it grants to what the look-up decides. *)
Lemma own_line_ok now idx e e' s' evs :
  type l = et_write → found = Some (idx, e) → tags s' = tags s → cs_type e' = cs_modified →
  tag e' = tag e → sharedl1 e' ⊆ {[top]} → pending e' = pending e → evicts_others now l top evs →
  (∀ c, c ∈ sharedl1 e → c = top ∨ ∃ addr, evict_call cfg now addr (th_id l) c ∈ evs) →
  wp no_failure (own_line now set idx e' l) s' (λ a s'' o,
    inv cfg s'' ∧ access_ok now set t l top found a s'' (evs ++ o)).
Proof.
  intros Hty Hf Ht Hc Htag Hsh Hp Hev Htold. eapply wp_mono; [by eapply wp_own_line|].
  cbv beta. intros a s'' o (Hinv & -> & Hl & Hh & Hg). split; [done|]. right. rewrite app_nil_r, Hty.
  split_and!; auto. intros _ _ _ _. split; [done|]. intros _ idx' e0 c Hf'. rewrite Hf in Hf'.
  injection Hf' as _ <-. apply Htold.
Qed.

Lemma nack_ok now idx e e' s' :
  type l = et_write → found = Some (idx, e) → tags s' = tags s → entry_ok e' → tag e' = tag e →
  wp no_failure (_ ← modify (touch set idx e'); mret (Build_access (l <| type := et_nack |>) true false false)) s'
    (λ a s'' o, inv cfg s'' ∧ access_ok now set t l top found a s'' o).
Proof.
  intros Hty Hf Ht He Htag. wp_steps. split; [by eapply inv_touch|]. right.
  split_and!; [done|apply evicts_none|by right|]. cbn. intros _ _ Hl. rewrite <- Hl in Hty. done.
Qed.

Lemma wp_write_line now idx e s' :
  type l = et_write → found = Some (idx, e) → tags s' = tags s →
  cs_type e ≠ cs_exclusive → cs_type e ≠ cs_shared →
  wp no_failure (write_line cfg now set idx e l) s' (λ a s'' o,
    inv cfg s'' ∧ access_ok now set t l top found a s'' o).
Proof.
  intros Hty Hf Ht HE HS. pose proof (found_ok _ _ _ _ Hs Hget _ _ Hf) as He. unfold entry_ok in He.
  pose proof (find_found _ _ _ _ Hf) as (_ & Ha & _). unfold alive in Ha.
  pose proof (nack_ok now idx e (e <| last_access_time := now |>) s' Hty Hf Ht) as Hnack.
  pose proof (own_line_ok now idx e e s' [] Hty Hf Ht) as Hown.
  unfold write_line, busy. unfold entry_ok in Hnack. cbn in Hnack.
  destruct (cs_type e) eqn:Hc, (type_l1l2 e) eqn:H12; try done; try (by apply Hnack).
  - apply Hown; [done|done| |done|apply evicts_none|]; rewrite He; set_solver.
  - wp_step. eapply wp_req_L1_evict; [right; left; by rewrite Hfrom|].
    eapply (own_line_ok now idx e (e <| sharedl1 := ∅ |>)); [done..|set_solver|done| |].
    { by eapply evicts_others_of. }
    intros c Hin. destruct (decide (c = top)) as [->|Hne]; [by left|]. right. exists (line_of cfg set e).
    unfold evicts. apply list_elem_of_fmap_2. apply list_elem_of_filter. rewrite Hfrom. cbn.
    split; [right; congruence|]. by apply elem_of_set_iter.
  - rewrite bool_decide_eq_false_2 by lia. wp_step.
    eapply (wp_mono _ _ _ (λ e' s1 o1, s1 = s' ∧ cs_type e' = cs_modified ∧ tag e' = tag e ∧
      pending e' = pending e ∧ sharedl1 e' ⊆ {[top]} ∧ evicts_others now l top o1 ∧
      ∀ c, c ∈ sharedl1 e → c = top ∨ ∃ addr, evict_call cfg now addr (th_id l) c ∈ o1)).
    + destruct (set_begin (sharedl1 e)) as [owner|] eqn:Hb; cycle 1.
      { wp_steps. apply set_begin_None in Hb. split_and!; [done..| |apply evicts_none|]; set_solver. }
      apply set_begin_elem in Hb as Hin. pose proof (sole_sharer _ _ He Hin) as Hsole.
      wp_step. eapply wp_lift_ok; [exact from_top_ok|]. wp_if Ho.
      * wp_steps. apply bool_decide_eq_true in Ho as ->. split_and!; [done..|apply evicts_none|]. set_solver.
      * wp_steps. apply bool_decide_eq_false in Ho. split_and!; [done..|set_solver| |].
        { exists (line_of cfg set e), [owner]. split_and!; [done|apply NoDup_singleton|set_solver]. }
        intros c Hc1. right. exists (line_of cfg set e). set_solver.
    + intros e' s1 o1 (-> & Hc' & Htag & Hp & Hsh & Hev & Htold). by eapply own_line_ok.
  - wp_if Hsz; [by rewrite He in Hsz|]. wp_step. 
    destruct (set_begin_is_Some (sharedl1 e)) as (owner & Hb & Hin).
    { intros E. rewrite E in He. done. }
    eapply wp_lift_ok; [by rewrite Hb|]. wp_step. eapply wp_lift_ok; [exact from_top_ok|]. wp_if Ho.
    + apply bool_decide_eq_true in Ho as ->. apply Hown; [done|done| |done|apply evicts_none|].
      { apply sole_sharer; [lia|done]. }
      intros c Hc1. left. apply (size_singleton_inv (sharedl1 e)); done.
    + apply bool_decide_eq_false in Ho. unfold hand_over. wp_steps.
      split; [|left; rewrite Hty; split; [done|]; by exists owner].
      eapply inv_touch; [done..|exact Hf| |done]. unfold entry_ok. cbn. by rewrite Hc.
Qed.

Lemma wp_upgrade now idx e s' :
  found = Some (idx, e) → tags s' = tags s → cs_type e = cs_exclusive ∨ cs_type e = cs_shared →
  wp no_failure (upgrade cfg now set idx e l) s' (λ _ s'' o, inv cfg s'' ∧ evicts_others now l top o).
Proof.
  intros Hf Ht Hc. pose proof (found_ok _ _ _ _ Hs Hget _ _ Hf) as He. unfold entry_ok in He.
  unfold upgrade. wp_step. eapply (wp_mono _ _ _ (λ b s1 o1, s1 = s' ∧ o1 = [] ∧
    (b = true → cs_type e = cs_exclusive))).
  { wp_if E; [|by wp_steps]. wp_step. eapply wp_lift_ok; [exact from_top_ok|]. wp_steps.
    apply andb_true_iff in E as [E%bool_decide_eq_true _]. by split_and!. }
  intros b s1 o1 (-> & -> & Hb). wp_step. apply (wp_mono _ _ _ (λ _ s1 o1,
    (∃ e', inv cfg s1 ∧ tags s1 = tags (put set idx e' s)) ∧ evicts_others now l top o1)); cycle 1.
  { intros _ s1 o1 [(e' & Hinv & _) Hev]. wp_steps. by rewrite app_nil_r. }
  destruct b.
  - specialize (Hb eq_refl). rewrite Hb in He. set (e' := e <| last_access_time := now |> <| cs_type := cs_tr_to_m |>).
    wp_steps. split; [|apply evicts_none]. exists e'. split; [|cbn; by rewrite Ht].
    eapply inv_put; [done..|exact Hf| |done]. exact He.
  - set (e' := if bool_decide (sharedl1 e = ∅) then e
               else e <| last_access_time := now |> <| cs_type := cs_invalid |>).
    wp_step. eapply wp_req_L1_evict; [right; left; by rewrite Hfrom|]. wp_steps.
    split; [|rewrite app_nil_r; by eapply evicts_others_of].
    exists (e' <| sharedl1 := ∅ |>). split; [|cbn; by rewrite Ht].
    eapply inv_put; [done..|exact Hf| |].
    + unfold e', entry_ok. destruct Hc as [Hc|Hc]; rewrite Hc in He; case_bool_decide; cbn;
        rewrite ?Hc; destruct (type_l1l2 e); done.
    + unfold e'. by case_bool_decide.
Qed.

Lemma wp_write_access now :
  type l = et_write →
  wp no_failure (write_access cfg now set t l) s (λ a s' o, inv cfg s' ∧ access_ok now set t l top found a s' o).
Proof.
  intros Hty. unfold write_access. wp_steps. eapply wp_lift_ok; [exact Hget|].
  rewrite find_present by (by eapply ways_ok).
  set (s1 := s <| num_wr_access ::= λ n, n ⊕ 1 |>).
  destruct found as [[idx e]|] eqn:Hf; cycle 1.
  { wp_steps. split; [done|]. right. split_and!; [done|apply evicts_none|by left|]. cbn. congruence. }
  assert (cs_type e = cs_exclusive ∨ cs_type e = cs_shared → wp no_failure
    (_ ← upgrade cfg now set idx e l; mret (Build_access l (always_hit cfg) false true)) s1
    (λ a s' o, inv cfg s' ∧ access_ok now set t l top (Some (idx, e)) a s' o)) as Hup.
  { intros Hc. wp_step. eapply wp_mono; [by eapply wp_upgrade|]. intros _ s2 o2 [Hinv Hev]. wp_steps.
    split; [done|]. right. rewrite app_nil_r. split_and!; [done|done|by left|]. cbn. congruence. }
  pose proof (wp_write_line now idx e s1 Hty Hf eq_refl) as Hline.
  rewrite Hf in Hline.
  destruct (cs_type e) eqn:Hc; auto; eapply wp_mono; try apply Hline; auto.
Qed.

(** The calls a request may lead to: evictions of other L1s, and then at most one that
    carries the request. *)
Inductive served (now : Z) : list call → Prop :=
| served_reply ty :
    ty = type l ∨ ty = et_nack → (1 < from_size l)%nat →
    served now [Component.add_rep_event top (now ⊕ l2_to_l1_t cfg) (l <| type := ty |>) None]
| served_prefetch : (from_size l ≤ 1)%nat → served now []
| served_hand owner :
    owner ≠ top →
    served now [hand_call now (if bool_decide (type l = et_write) then et_m_to_m else et_m_to_s) owner l]
| served_directory m :
    which_mc cfg (address l) = Ok m → m = c_num (directory cfg) →
    served now [Component.add_req_event (directory cfg) (now ⊕ l2_to_dir_t cfg) (from_push (this cfg) l) None]
| served_crossbar m :
    which_mc cfg (address l) = Ok m → m ≠ c_num (directory cfg) →
    served now [Component.add_req_event (crossbar cfg) (now ⊕ l2_to_xbar_t cfg) (from_push (this cfg) l)
                  (Some (this cfg))].

Lemma wp_conclude now a s' o mc :
  type l ≠ et_nack →
  which_mc cfg (address l) = Ok mc → inv cfg s' → access_ok now set t l top found a s' o →
  wp no_failure (conclude cfg now (type l) a) s' (λ _ s'' o', inv cfg s'' ∧
    ∃ evs fin, o ++ o' = evs ++ fin ∧ evicts_others now l top evs ∧ served now fin ∧
      (always_hit cfg = false →
       fin = [Component.add_rep_event top (now ⊕ l2_to_l1_t cfg) l None] →
       granted set t top (type l) s'' ∧ (type l = et_write → all_told now l top found evs))).
Proof.
  intros Hty Hmc Hinv [[Hh (owner & Hne & ->)]|(Hh & Hev & Hl & Hg)]; unfold conclude; rewrite Hh.
  { wp_steps. split; [done|]. eexists [], _. split_and!; [done|apply evicts_none|by apply served_hand|].
    intros _ [= <- H]. by apply (f_equal (length ∘ from)) in H; cbn in H; lia. }
  wp_if Hhit.
  - apply negb_true_iff in Hhit. destruct Hl as [Hl|[_ Hl]]; [|by rewrite Hhit in *].
    rewrite Hl. wp_step. apply (wp_mono _ _ _ (λ _ s1 o1, tags s1 = tags s' ∧ o1 = [])).
    { apply wp_when; [|by intros; wp_steps]. intros _. wp_steps. by case_bool_decide. }
    intros _ s1 o1 [Ht ->]. unfold forward. wp_step. eapply wp_lift_ok; [exact Hmc|]. wp_steps.
    split; [unfold inv; by rewrite Ht|]. eexists o, _. split_and!; [done|done|..].
    + destruct (Z.eqb_spec mc (c_num (directory cfg))); by econstructor.
    + intros _. by case_match.
  - apply negb_false_iff in Hhit. apply wp_when; intros Hsz.
    + apply bool_decide_eq_true in Hsz. unfold to_l1.
      assert (1 < from_size l)%nat as Hsz' by (by destruct Hl as [Hl|[Hl _]]; rewrite Hl in Hsz). wp_step.
      eapply wp_lift_ok; [destruct Hl as [->|[-> _]]; exact from_top_ok|]. wp_steps. split; [done|].
      eexists o, _. split_and!; [done|done|..].
      * destruct Hl as [->|[-> _]]; cbn; [|by apply served_reply; [right|]].
        pose proof (served_reply now (type l) (or_introl eq_refl) Hsz') as Hr.
        by rewrite set_type_id in Hr.
      * intros Hah [= Hle]. destruct Hl as [Hl|[Hl _]]; [|by rewrite Hl in Hle; rewrite <- Hle in Hty].
        by apply Hg.
    + wp_steps. apply bool_decide_eq_false in Hsz. split; [done|]. exists o, [].
      split_and!; [done|done| |done]. apply served_prefetch.
      destruct Hl as [Hl|[Hl _]]; rewrite Hl in Hsz; unfold from_size in *; cbn in *; lia.
Qed.
End Request.

(** What the components above the L2 promise of a request. *)
Record request_ok (l : LQE) : Prop := {
  ok_type : type l = et_read ∨ type l = et_write;
  ok_from : from l ≠ [];
  ok_address : 0 ≤ address l;
  ok_mc : ∃ m, which_mc cfg (address l) = Ok m }.

(** The calls of one request: evictions of other L1s, then at most one that carries it; an
    unrefused answer comes with the line in the state it needs. *)
Definition answered (now : Z) (l : LQE) (w : option (nat * L2Entry)) (set t : Z) (s' : state) (o : list call) : Prop :=
  ∃ top r evs fin, from l = top :: r ∧ o = evs ++ fin ∧ evicts_others now l top evs ∧ served l top now fin ∧
    (always_hit cfg = false →
     fin = [Component.add_rep_event top (now ⊕ l2_to_l1_t cfg) l None] →
     granted set t top (type l) s' ∧ (type l = et_write → all_told now l top w evs)).

Lemma request_step s now l set t ways :
  inv cfg s → request_ok l → split_addr (geo cfg) (address l) = Ok (set, t) → vec_get (tags s) set = Ok ways →
  wp no_failure (process_request cfg now l) s (λ _ s' o, inv cfg s' ∧
    answered now l (find_way (holds_tag t) ways) set t s' o).
Proof.
  intros Hs [Hty Hfrom Ha [m Hm]] Hsplit Hget. destruct (from l) as [|top r] eqn:Hf; [done|].
  unfold process_request. wp_step. eapply wp_lift_ok; [exact Hsplit|]. cbv beta iota. wp_step.
  eapply (wp_mono _ _ _ (λ a s1 o1, inv cfg s1 ∧
    access_ok now set t l top (find_way (holds_tag t) ways) a s1 o1)).
  { destruct Hty as [Hty|Hty]; rewrite Hty; [by eapply wp_read_access|by eapply wp_write_access]. }
  intros a s1 o1 [Hs1 Hacc].
  eapply wp_mono; [eapply wp_conclude; [exact Hf|by destruct Hty as [-> | ->]|exact Hm|exact Hs1|exact Hacc]|].
  intros _ s2 o2 [Hs2 (evs & fin & Ho & Hev & Hsv & Hg)]. split; [done|]. exists top, r, evs, fin.
  by rewrite app_nil_l.
Qed.

(** *** Any request keeps the array, even one that nobody waits for *)

Section Unasked.
Context (s : state) (set t : Z) (ways : list L2Entry).
Context (Hs : inv cfg s) (Hget : vec_get (tags s) set = Ok ways).
Context (l : LQE) (Hfrom : from l = []).
Notation found := (find_way (holds_tag t) ways).

Lemma wp_no_top {A} (k : Comp → proc call state A) s' Q : wp any_failure (top ← lift (from_top l); k top) s' Q.
Proof. wp_step. apply wp_lift; [|done]. intros top. unfold from_top. by rewrite Hfrom. Qed.

Lemma unasked_share now idx e s0 :
  found = Some (idx, e) →
  wp any_failure (share_line cfg now e l) s0 (λ b s' _, s' = s0 ∧ entry_ok b.1.1 ∧ tag b.1.1 = tag e).
Proof.
  intros Hf. pose proof (found_ok _ _ _ _ Hs Hget _ _ Hf) as He. unfold share_line, busy.
  destruct (type_l1l2 e), (stable (cs_type e)), (cs_type e); try done; try (by wp_steps);
    try (wp_step; apply wp_no_top); wp_if Hsz; try done;
    destruct (set_begin (sharedl1 e)); first [apply wp_no_top|wp_step; apply wp_no_top].
Qed.

Lemma unasked_read now : wp any_failure (read_access cfg now set t l) s (λ _ s' _, inv cfg s').
Proof.
  unfold read_access. wp_steps. apply wp_lift; [|done]. intros ways' Hget'. cbn in Hget'. rewrite Hget in Hget'.
  injection Hget' as <-. rewrite find_present by (by eapply ways_ok).
  destruct found as [[idx e]|] eqn:Hf; [|by wp_steps]. wp_if E; [by wp_steps|]. wp_step.
  eapply wp_mono; [by eapply unasked_share|]. intros [[e' l'] h] s1 o1 (-> & Hok & Ht). cbn in Hok, Ht. wp_steps.
  eapply inv_touch; [exact Hs|exact Hget|done|exact Hf|exact Hok|exact Ht].
Qed.

Lemma unasked_write now : wp any_failure (write_access cfg now set t l) s (λ _ s' _, inv cfg s').
Proof.
  unfold write_access. wp_steps. apply wp_lift; [|done]. intros ways' Hget'. cbn in Hget'. rewrite Hget in Hget'.
  injection Hget' as <-. rewrite find_present by (by eapply ways_ok).
  destruct found as [[idx e]|] eqn:Hf; [|by wp_steps].
  pose proof (found_ok _ _ _ _ Hs Hget _ _ Hf) as He.
  set (s1 := s <| num_wr_access ::= λ n, n ⊕ 1 |>).
  assert (cs_type e = cs_exclusive ∨ cs_type e = cs_shared → wp any_failure
    (_ ← upgrade cfg now set idx e l; mret (Build_access l (always_hit cfg) false true)) s1
    (λ _ s' _, inv cfg s')) as Hup.
  { intros Hc. unfold upgrade. wp_step. wp_step.
    apply (wp_mono _ _ _ (λ b s' _, s' = s1 ∧ b = false)).
    { wp_if E; [apply wp_no_top|by wp_steps]. }
    intros b s2 o2 [-> ->]. wp_step. wp_step. apply wp_req_L1_evict; [by right; right|]. wp_steps.
    eapply inv_put; [exact Hs|exact Hget|done|exact Hf| |by case_bool_decide].
    unfold entry_ok in *. destruct Hc as [Hc|Hc]; rewrite Hc in He; case_bool_decide; cbn; rewrite ?Hc; by destruct (type_l1l2 e). }
  assert (wp any_failure (write_line cfg now set idx e l) s1 (λ _ s' _, inv cfg s')) as Hline.
  { unfold write_line.
    assert (wp (W:=call) any_failure (if busy e then _ ← modify (touch set idx (e <| last_access_time := now |>));
        mret (Build_access (l <| type := et_nack |>) true false false) else fails Fatal) s1 (λ _ s' _, inv cfg s')) as Hbusy.
    { wp_if E; [|done]. wp_steps. eapply inv_touch; [exact Hs|exact Hget|done|exact Hf|exact He|done]. }
    assert (∀ e', wp any_failure (own_line now set idx e' l) s1 (λ _ s' _, inv cfg s')) as Hown
      by (intros; apply wp_no_top).
    destruct (cs_type e); try exact Hbusy. destruct (type_l1l2 e); try exact Hbusy.
    - apply Hown.
    - wp_step. apply wp_req_L1_evict; [by right; right|]. apply wp_no_top.
    - wp_if E; [done|]. wp_step. destruct (set_begin (sharedl1 e)); [apply wp_no_top|]. wp_steps. apply Hown.
    - wp_if E; [done|]. wp_step. apply wp_lift; [|done]. intros owner _. apply wp_no_top. }
  destruct (cs_type e); auto.
Qed.
End Unasked.

Lemma keeps_conclude now ty a : keeps (inv cfg) (conclude cfg now ty a).
Proof.
  unfold conclude, forward, to_l1. repeat keeps_step. apply keeps_modify. intros s Hs. by case_bool_decide.
Qed.

Lemma keeps_tags_request now l : keeps (inv cfg) (process_request cfg now l).
Proof.
  intros s Hs. unfold process_request. wp_step. apply wp_lift; [|done]. intros [set t] _. wp_step.
  eapply (wp_mono _ _ _ (λ _ s' _, inv cfg s')); [|intros a s1 o1 Hs1; by apply keeps_conclude].
  destruct (vec_get (tags s) set) as [ways|f] eqn:Hget; cycle 1.
  { destruct (type l); try done; unfold read_access, write_access; wp_steps; cbn; rewrite Hget; by apply wp_lift. }
  destruct (from l) as [|top r] eqn:Hf.
  { destruct (type l); try done; [by eapply unasked_read|by eapply unasked_write]. }
  destruct (type l) eqn:Hty; try done; (eapply wp_weaken; [|eapply wp_mono;
    [first [by eapply wp_read_access|by eapply wp_write_access]|by intros ? ? ? []]]); done.
Qed.

(** Every cycle keeps the array, whatever the messages in the queues. *)
Lemma keeps_tags_event now : keeps (inv cfg) (process_event cfg now).
Proof.
  unfold process_event, process_bank. repeat (keeps_step || (apply keeps_modify; by intros)).
  all: first [apply keeps_process_reply|apply keeps_tags_request].
Qed.

(** *** Cycles *)

Record full_inv (s : state) : Prop := {
  full_tags : inv cfg s;
  full_banks : Z.of_nat (length (req_qs s)) = num_banks (geo cfg);
  full_queued : Forall request_ok (concat (req_qs s));
  full_events : Forall (λ kv, request_ok kv.2) (req_event (queues s)) }.

(** The queues a handler of a reply or a request leaves alone. *)
Lemma keeps_queues_put {A} (f : state → state) (q : A) (g : state → A) :
  (∀ s, g (f s) = g s) → keeps (W:=call) (λ s, g s = q) (modify f).
Proof. intros Hf. apply keeps_modify. intros s <-. apply Hf. Qed.

Definition queue_view (s : state) : Queues * list (list LQE) := (queues s, req_qs s).

Ltac frame_auto :=
  repeat (first [keeps_step|apply (keeps_queues_put _ _ queue_view); intros; first [done|by case_match]|progress cbv beta iota]).

Lemma frame_req_L1_evict now e addr l b q :
  keeps (λ s, queue_view s = q) (req_L1_evict cfg now e addr l b).
Proof. unfold req_L1_evict, evict_one. frame_auto. Qed.
Lemma frame_to_l1 now l q : keeps (λ s, queue_view s = q) (to_l1 cfg now l).
Proof. unfold to_l1. frame_auto. Qed.
Lemma frame_LL now l b d q : keeps (λ s, queue_view s = q) (add_event_to_LL cfg now l b d).
Proof. unfold add_event_to_LL. frame_auto. Qed.

Ltac frame_calls :=
  frame_auto; try (first [apply frame_req_L1_evict|apply frame_to_l1|apply frame_LL]).

Lemma frame_process_reply now l q : keeps (λ s, queue_view s = q) (process_reply cfg now l).
Proof.
  unfold process_reply, on_write_nd, on_fill, fill_way, make_room, on_owner_reply, finish_invalidation,
    finish_transfer, on_evict, on_dir_rd, on_nack, on_share, on_invalidate, ask_owner, fatal_at_top.
  frame_calls.
Qed.

Lemma frame_process_request now l q : keeps (λ s, queue_view s = q) (process_request cfg now l).
Proof.
  unfold process_request, read_access, write_access, share_line, write_line, upgrade, own_line, hand_over,
    conclude, forward.
  frame_calls.
Qed.

Lemma full_frame s s' :
  full_inv s → inv cfg s' → queue_view s' = queue_view s → full_inv s'.
Proof.
  intros [Ht Hb Hq He] Ht' Hv. injection Hv as Hv1 Hv2.
  constructor; [done|by rewrite Hv2..|by rewrite Hv1].
Qed.

Lemma wp_keeps {A} E (m : proc call state A) (I : state → Prop) s Q :
  keeps I m → I s → wp E m s Q → wp E m s (λ a s' o, Q a s' o ∧ I s').
Proof.
  intros Hk HI. unfold wp. specialize (Hk s HI). unfold wp in Hk.
  destruct (m s) as [[[a s'] o]|f]; auto.
Qed.

Context (Hgeo : geometry_ok (geo cfg)).

(** The front request of a bank and its calls, if the bank has one. *)
Definition front (qs : list (list LQE)) (b : Z) : option LQE :=
  match vec_get qs b with Ok (l :: _) => Some l | _ => None end.

Definition bank_calls (now : Z) (w : option LQE) (o : list call) : Prop :=
  match w with
  | Some l => ∃ s s', inv cfg s ∧ process_request cfg now l s = Ok (tt, s', o) ∧
      ∃ set t ways, split_addr (geo cfg) (address l) = Ok (set, t) ∧
      vec_get (tags s) set = Ok ways ∧ answered now l (find_way (holds_tag t) ways) set t s' o
  | None => o = []
  end.

Lemma wp_process_bank now b s :
  full_inv s → 0 ≤ b < num_banks (geo cfg) →
  wp no_failure (process_bank cfg now b) s (λ _ s' o, full_inv s' ∧ queues s' = queues s ∧
    req_qs s' = vec_alter (@tail LQE) b (req_qs s) ∧ bank_calls now (front (req_qs s) b) o).
Proof.
  intros Hs Hb. pose proof Hs as [Ht Hlen Hq He]. unfold process_bank, front. wp_steps.
  destruct (vec_get_lt (req_qs s) b) as [q Hget]; [lia|]. eapply wp_lift_ok; [exact Hget|]. rewrite Hget.
  pose proof (vec_alter_const (@tail LQE) _ _ _ Hget) as Htail.
  destruct q as [|l rest].
  { wp_steps. split_and!; [done|done| |done]. cbn in Htail. by rewrite Htail, vec_alter_self. }
  wp_steps. set (s1 := s <| req_qs ::= vec_set b rest |>).
  assert (request_ok l ∧ Forall request_ok (concat (req_qs s1))) as [Hl Hq1].
  { apply vec_get_Some in Hget as [Hb0 Hget]. unfold s1, vec_set, vec_alter. cbn.
    rewrite (proj2 (Z.ltb_ge _ _)) by lia. rewrite <- list_insert_alter.
    rewrite <- (take_drop_middle _ _ _ Hget), concat_app in Hq. cbn in Hq.
    rewrite insert_take_drop, concat_app by (by eapply lookup_lt_Some). cbn.
    rewrite !Forall_app, Forall_cons in *. rewrite Forall_app in Hq. tauto. }
  assert (full_inv s1) as Hs1.
  { constructor; [done| |done|done]. unfold s1, vec_set. cbn. by rewrite length_vec_alter. }
  destruct (split_addr_ok _ Hgeo (address l)) as (set & t & Hsplit & Hset & Htag); [by apply Hl|].
  destruct (vec_get_lt (tags s1) set) as [ways Hways]; [rewrite (tags_sets _ _ _ _ _ (full_tags _ Hs1)); lia|].
  eapply wp_mono; [eapply (wp_keeps _ _ (λ s, queue_view s = queue_view s1));
    [apply frame_process_request|reflexivity|by apply wp_remember, (request_step s1 now l set t ways)]|].
  cbv beta. intros [] s2 o2 [(Hrun & Hs2 & Hans) Hv]. split_and!.
  - by eapply full_frame.
  - by injection Hv.
  - injection Hv as _ ->. by rewrite Htail.
  - exists s1, s2. rewrite !app_nil_l. split_and!; [done|done|]. by exists set, t, ways.
Qed.

Lemma wp_banks now banks s :
  full_inv s → NoDup banks → Forall (λ b, 0 ≤ b < num_banks (geo cfg)) banks →
  wp no_failure (for_each banks (process_bank cfg now)) s (λ _ s' o, full_inv s' ∧ queues s' = queues s ∧
    (∀ b q, vec_get (req_qs s) b = Ok q →
       vec_get (req_qs s') b = Ok (if decide (b ∈ banks) then tail q else q)) ∧
    ∃ gs, o = concat gs ∧ Forall2 (bank_calls now) (front (req_qs s) <$> banks) gs).
Proof.
  intros Hs Hnd Hb. revert s Hs. induction Hnd as [|b banks Hnb Hnd IH]; intros s Hs; cbn [for_each].
  { wp_steps. split_and!; [done|done|by intros; rewrite decide_False by apply not_elem_of_nil|].
    exists []. split; [done|constructor]. }
  apply Forall_cons in Hb as [Hb Hbs]. wp_step. eapply wp_mono; [by apply wp_process_bank|].
  intros _ s1 o1 (Hs1 & Hq1 & Hr1 & Ho1). eapply wp_mono; [by apply IH|].
  cbv beta. intros _ s2 o2 (Hs2 & Hq2 & Hr2 & gs & -> & Hgs). split_and!; [done|congruence|..].
  - intros c q Hget. destruct (decide (c = b)) as [->|Hne].
    + rewrite (Hr2 b (tail q)) by (rewrite Hr1; by apply vec_get_alter).
      rewrite decide_False by done. by rewrite decide_True by set_solver.
    + rewrite (Hr2 c q) by (rewrite Hr1; by rewrite vec_get_alter_ne).
      destruct (decide (c ∈ banks)); [rewrite decide_True by set_solver|rewrite decide_False by set_solver]; done.
  - exists (o1 :: gs). split; [done|]. cbn. constructor; [done|].
    assert (front (req_qs s1) <$> banks = front (req_qs s) <$> banks) as <-; [|done].
    apply list_fmap_ext. intros i c Hc. unfold front. rewrite Hr1, vec_get_alter_ne; [done|].
    intros ->. by apply list_elem_of_lookup_2 in Hc.
Qed.

(** All banks at once. *)
Lemma wp_all_banks now s :
  full_inv s →
  wp no_failure (for_each (upto (num_banks (geo cfg))) (process_bank cfg now)) s (λ _ s' o, full_inv s' ∧
    queues s' = queues s ∧ req_qs s' = tail <$> req_qs s ∧
    ∃ gs, o = concat gs ∧ Forall2 (bank_calls now) (head <$> req_qs s) gs).
Proof.
  intros Hs. pose proof Hs as [_ Hlen _ _]. eapply wp_mono; [apply wp_banks; [done|apply NoDup_seqZ|]|].
  { apply Forall_forall. intros b. apply elem_of_upto. }
  cbv beta. intros _ s' o (Hs' & Hq & Hr & gs & -> & Hgs).
  assert (∀ i, (i < length (req_qs s))%nat → ∃ q, req_qs s !! i = Some q ∧ vec_get (req_qs s) (Z.of_nat i) = Ok q) as Hget.
  { intros i [q Hq']%lookup_lt_is_Some. exists q. split; [done|]. apply vec_get_Some. rewrite Nat2Z.id. split; [lia|done]. }
  split_and!; [done|done|..].
  - pose proof Hs' as [_ Hlen' _ _]. apply list_eq_same_length with (length (req_qs s)); [by rewrite length_fmap|lia|].
    intros i q1 q2 Hi H1 H2. destruct (Hget i Hi) as (q & Hq' & Hv).
    specialize (Hr _ _ Hv). rewrite decide_True in Hr by (apply elem_of_upto; lia).
    apply vec_get_Some in Hr as [_ Hr]. rewrite Nat2Z.id in Hr. rewrite list_lookup_fmap, Hq' in H2. cbn in H2.
    congruence.
  - exists gs. split; [done|].
    assert (head <$> req_qs s = front (req_qs s) <$> upto (num_banks (geo cfg))) as ->; [|done].
    rewrite <- Hlen. apply list_eq_same_length with (length (req_qs s));
      [by unfold upto; rewrite length_fmap, length_seqZ, Nat2Z.id|by rewrite length_fmap|].
    intros i w1 w2 Hi H1 H2. destruct (Hget i Hi) as (q & Hq' & Hv).
    rewrite list_lookup_fmap, Hq' in H1. rewrite list_lookup_fmap in H2. unfold upto in H2.
    rewrite lookup_seqZ_lt in H2 by lia. cbn in H1, H2. rewrite Z.add_0_l in H2. unfold front in H2. rewrite Hv in H2.
    destruct q; cbn in *; congruence.
Qed.

(** The requests that become due join the bank queues. *)
Lemma route_ok now s due later :
  full_inv s → mm_drain now (req_event (queues s)) = (due, later) →
  let qs := arrived (geo cfg) due (req_qs s) in
  route_requests (geo cfg) due (req_qs s) = Ok qs ∧ concat qs ≡ₚ concat (req_qs s) ++ due ∧
    ∀ q, req_event q = later → full_inv (s <| queues := q |> <| req_qs := qs |>).
Proof.
  intros [Ht Hb Hq He] Hd. rewrite (mm_drain_app _ _ _ _ Hd), Forall_app, Forall_map in He. destruct He as [Hdue Hlater].
  assert (Forall (λ r, 0 ≤ address r) due) as Haddr by (eapply Forall_impl; [exact Hdue|]; intros l Hl; apply Hl).
  destruct (route_requests_ok _ Hgeo due (req_qs s) Hb Haddr) as (qs & Hr & Hlen & Hperm).
  rewrite (route_requests_arrived _ Hgeo due (req_qs s) Hb Haddr) in Hr |- *. injection Hr as ->.
  cbv zeta. split_and!; [done|done|]. intros q Hlq. constructor; [done|cbn; by rewrite Hlen| |cbn; by rewrite Hlq].
  cbn. rewrite Hperm. apply Forall_app. by split.
Qed.

Lemma take_rep_req now q rep q' : take_rep now q = (rep, q') → req_event q' = req_event q.
Proof.
  unfold take_rep. destruct (mm_drain now (rep_event q)) as [due later].
  destruct (rep_q q ++ due); by intros [= <- <-].
Qed.

Lemma keeps_process_event now : keeps full_inv (process_event cfg now).
Proof.
  intros s Hs. unfold process_event. wp_steps.
  destruct (take_rep now (queues s)) as [rep q] eqn:Hrep.
  destruct (mm_drain now (req_event q)) as [due later] eqn:Hd.
  pose proof Hd as Hd'. rewrite (take_rep_req _ _ _ _ Hrep) in Hd'.
  destruct (route_ok now s due later Hs Hd') as (Hr & Hperm & Hfull).
  set (qs := arrived _ _ _) in *.
  wp_step. eapply wp_lift_ok; [exact Hr|]. wp_steps.
  set (s1 := s <| queues := q <| req_event := later |> |> <| req_qs := qs |>).
  assert (full_inv s1) as Hs1 by (by apply Hfull).
  eapply (wp_mono _ _ _ (λ _ s' _, full_inv s')); cycle 1.
  { intros _ s2 o2 Hs2. wp_steps. apply wp_when; intros _; by wp_steps. }
  destruct rep as [l|].
  - eapply wp_mono; [eapply (wp_keeps _ _ (λ s, queue_view s = queue_view s1));
      [apply frame_process_reply|reflexivity|by apply (keeps_process_reply now l s1), Hs1]|].
    intros _ s2 o2 [Hs2 Hv]. by eapply full_frame.
  - wp_if E; [done|]. pose proof (wp_all_banks now s1 Hs1) as Hall.
    unfold wp in *. destruct (for_each _ _ s1) as [[[a s2] o2]|f]; [by apply Hall|done].
Qed.

Lemma request_cycle now s due later :
  full_inv s → rep_q (queues s) = [] → mm_drain now (rep_event (queues s)) = ([], rep_event (queues s)) →
  mm_drain now (req_event (queues s)) = (due, later) → concat (req_qs s) ++ due ≠ [] →
  wp no_failure (process_event cfg now) s (λ r s' o, r = 0 ∧ full_inv s' ∧ ∃ gs,
    let qs := arrived (geo cfg) due (req_qs s) in concat qs ≡ₚ concat (req_qs s) ++ due ∧ req_qs s' = tail <$> qs ∧
    o = concat gs ++ (if existsb (λ q, negb (idle q)) (req_qs s')
                      then [geq_add_event (now ⊕ process_interval cfg) (this cfg)] else []) ∧
    Forall2 (bank_calls now) (head <$> qs) gs).
Proof.
  intros Hs Hrq Hre Hd Hwork. unfold process_event. wp_step. wp_step.
  assert (take_rep now (queues s) = (None, queues s)) as ->.
  { unfold take_rep. by rewrite Hre, Hrq. }
  rewrite Hd. destruct (route_ok now s due later Hs Hd) as (Hr & Hperm & Hfull). set (qs := arrived _ _ _) in *.
  wp_step. eapply wp_lift_ok; [exact Hr|]. wp_steps.
  set (s1 := s <| queues := (queues s) <| req_event := later |> |> <| req_qs := qs |>).
  assert (full_inv s1) as Hs1 by (by apply Hfull).
  assert (forallb idle qs = false) as ->.
  { apply not_true_iff_false. rewrite forallb_forall. intros Hall. apply Hwork.
    assert (concat qs = []) as Hc.
    { clear -Hall. induction qs as [|q qs IH]; [done|]. cbn. rewrite IH by (intros; apply Hall; by right).
      specialize (Hall q (or_introl eq_refl)). apply bool_decide_eq_true in Hall. by destruct q. }
    rewrite Hc in Hperm. by apply Permutation_nil in Hperm. }
  eapply wp_mono; [by apply wp_all_banks|]. cbv beta. intros _ s2 o2 (Hs2 & Hq2 & Hr2 & gs & -> & Hgs).
  wp_steps. rewrite Hq2. change (rep_q (queues s1)) with (rep_q (queues s)). rewrite Hrq.
  destruct (existsb (λ q, negb (idle q)) (req_qs s2)) eqn:E; cbn; wp_steps; (split; [done|]); (split; [done|]);
    exists gs; rewrite E; by rewrite ?app_nil_l, ?app_nil_r.
Qed.
End Invariant.

(** ** The main properties *)

(** An L2 in use: the components above send requests, anything may send replies, and the
    event queue wakes it. *)
Inductive step `{!Addresses} (cfg : config) : state → state → Prop :=
| step_req t l s s' o a :
    request_ok cfg l → add_req_event cfg t l s = Ok (a, s', o) → step cfg s s'
| step_rep t l s s' o a : add_rep_event cfg t l s = Ok (a, s', o) → step cfg s s'
| step_cycle now s s' o a : process_event cfg now s = Ok (a, s', o) → step cfg s s'.

Lemma init_full `{!Addresses} cfg : geometry_ok (geo cfg) → full_inv cfg (init cfg).
Proof.
  intros [Hl Hb Hs Hw]. constructor; [|cbn; rewrite length_replicate; lia| |constructor].
  - constructor; cbn; [rewrite length_replicate; lia|]. apply Forall_replicate. constructor.
    + rewrite length_replicate. lia.
    + unfold valid_tags. rewrite filter_none; [constructor|]. by apply Forall_replicate.
    + by apply Forall_replicate.
  - cbn. induction (Z.to_nat (num_banks (geo cfg))); [constructor|]. done.
Qed.

Lemma reachable_full `{!Addresses} cfg s :
  geometry_ok (geo cfg) → rtc (step cfg) (init cfg) s → full_inv cfg s.
Proof.
  intros Hg Hr. assert (full_inv cfg (init cfg)) as Hi by (by apply init_full).
  revert Hi. induction Hr as [|s1 s2 s3 Hstep _ IH]; [done|]. intros H1. apply IH. clear IH.
  destruct Hstep as [t l s s' o a Hl Hrun|t l s s' o a Hrun|now s s' o a Hrun].
  - eapply (wp_run any_failure _ _ (λ _ s' _, full_inv cfg s')); [|exact Hrun]. unfold add_req_event.
    wp_step. apply wp_lift; [|done]. intros t' _. wp_steps. destruct H1 as [? ? ? He].
    constructor; [done|done|done|]. cbn. unfold insert_req. cbn. clear -He Hl.
    induction (req_event (queues s)) as [|[k x] m IH]; cbn; [by constructor|].
    apply Forall_cons in He as [Hx He]. case_match; [by repeat apply Forall_cons_2|apply Forall_cons_2; [done|by apply IH]].
  - eapply (wp_run any_failure _ _ (λ _ s' _, full_inv cfg s')); [|exact Hrun]. unfold add_rep_event.
    wp_step. apply wp_lift; [|done]. intros t' _. wp_steps. by destruct H1.
  - eapply (wp_run any_failure _ _ (λ _ s' _, full_inv cfg s')); [|exact Hrun].
    by apply keeps_process_event.
Qed.

(** C14: in every state an L2 can reach, no set holds a line twice, each line is in one of
    the pairs of states [entry_ok] lists (an owner in the L1s goes with a modified line and
    is alone, a line that waits for an L1 has no sharers, a line in transition remembers
    the directory's message), and its queues hold requests only. *)
Theorem l2_reachable_invariant `{!Addresses} cfg s :
  geometry_ok (geo cfg) → rtc (step cfg) (init cfg) s → full_inv cfg s.
Proof. apply reachable_full. Qed.

(** C36: a request to an L2 in a good state is always served, whatever the state of its
    line: it causes evictions of other L1s, and then one call that answers the requester,
    hands the request to the L1 that owns the line, or passes it to the home directory.
    When the answer is not a refusal the L2 holds the line as the request needs it: a
    writer is the only sharer of a modified line and every other sharer was asked to evict
    it. *)
Theorem l2_request_served `{!Addresses} cfg s now l set t ways :
  inv cfg s → request_ok cfg l → split_addr (geo cfg) (address l) = Ok (set, t) →
  vec_get (tags s) set = Ok ways →
  ∃ s' o, process_request cfg now l s = Ok (tt, s', o) ∧ inv cfg s' ∧
    answered cfg now l (find_way (holds_tag t) ways) set t s' o.
Proof.
  intros Hs Hl Hsplit Hget. destruct (wp_total _ _ _ (request_step cfg s now l set t ways Hs Hl Hsplit Hget))
    as ([] & s' & o & Hrun & Hs' & Ha). by exists s', o.
Qed.

(** C37: a cycle without replies first lets every request that is due join the end of the
    queue of its bank, in order; then it serves the request at the head of every queue, the
    oldest of its bank, once, and keeps the others in their order.  It never fails, and
    wakes the L2 again iff a request is left. *)
Theorem l2_request_cycle `{!Addresses} cfg now s due later :
  geometry_ok (geo cfg) → full_inv cfg s → rep_q (queues s) = [] →
  mm_drain now (rep_event (queues s)) = ([], rep_event (queues s)) →
  mm_drain now (req_event (queues s)) = (due, later) → concat (req_qs s) ++ due ≠ [] →
  ∃ s' gs, let qs := arrived (geo cfg) due (req_qs s) in
    process_event cfg now s = Ok (0, s', concat gs ++
      (if existsb (λ q, negb (idle q)) (req_qs s')
       then [geq_add_event (now ⊕ process_interval cfg) (this cfg)] else [])) ∧
    full_inv cfg s' ∧ concat qs ≡ₚ concat (req_qs s) ++ due ∧ req_qs s' = tail <$> qs ∧
    Forall2 (bank_calls cfg now) (head <$> qs) gs.
Proof.
  intros Hg Hs Hrq Hre Hd Hw. destruct (wp_total _ _ _ (request_cycle cfg Hg now s due later Hs Hrq Hre Hd Hw))
    as (r & s' & o & Hrun & -> & Hs' & gs & Hp & Ht & -> & Hgs). by exists s', gs.
Qed.

(** A fill that misses replaces the least recently used line. *)
Lemma wp_fill_replaces `{!Addresses} cfg s now l c top r set t e ways :
  type l = et_e_rd ∨ type l = et_s_rd ∨ type l = et_write → from l = c :: top :: r →
  vec_get (tags s) set = Ok (e :: ways) → in_transition (cs_type e) = false → cs_type e ≠ cs_invalid →
  type_l1l2 e ≠ cs_modified → (∃ m, which_mc cfg (line_of cfg set e) = Ok m) →
  wp no_failure (on_fill cfg now set t None l) s (λ _ s' _, ∃ e',
    tags s' = vec_alter (update_LRU 0 e') set (tags s) ∧ tag e' = t).
Proof.
  intros Hty Hf Hget Htr Hinv H12 [m Hm]. unfold on_fill, fill_way, make_room. wp_steps.
  eapply wp_lift_ok; [unfold from_pop; by rewrite Hf|]. wp_steps. eapply wp_lift_ok; [exact Hget|]. wp_steps.
  eapply wp_lift_ok; [reflexivity|]. rewrite Htr, (bool_decide_eq_false_2 _ Hinv), (bool_decide_eq_false_2 _ H12).
  wp_steps. eapply wp_req_L1_evict; [by left|]. cbn [negb when]. unfold add_event_to_LL. wp_steps.
  eapply wp_lift_ok; [exact Hm|]. wp_steps. unfold to_l1. wp_if Hsz; wp_steps; [|by eexists].
  eapply wp_lift_ok; [reflexivity|]. wp_steps. eapply wp_lift_ok; [reflexivity|]. wp_steps. by eexists.
Qed.

(** C38: a fill may replace a line that waits for the data of its owner, since the check
    for transitions looks at the state towards the directory only.  Whenever the least
    recently used line of a set waits for an L1, the data of any other line of the set
    replace it, and then the answer of the owner, whatever it carries and whenever it
    comes, finds no line and aborts the simulation. *)
Theorem l2_evicts_waiting_line `{!Addresses} cfg s now l c top r set t e ways :
  inv cfg s → type l = et_e_rd ∨ type l = et_s_rd ∨ type l = et_write → from l = c :: top :: r →
  split_addr (geo cfg) (address l) = Ok (set, t) → vec_get (tags s) set = Ok (e :: ways) →
  find_way (holds_tag t) (e :: ways) = None → (∃ m, which_mc cfg (line_of cfg set e) = Ok m) →
  cs_type e = cs_modified → type_l1l2 e = cs_tr_to_s ∨ type_l1l2 e = cs_tr_to_m →
  ∃ s' o, process_reply cfg now l s = Ok (tt, s', o) ∧
    ∀ now' l', type l' = et_m_to_s ∨ type l' = et_m_to_m → (2 ≤ length (from l'))%nat →
      split_addr (geo cfg) (address l') = Ok (set, tag e) → process_reply cfg now' l' s' = Err Fatal.
Proof.
  intros Hs Hty Hf Hsplit Hget Hmiss Hm Hc H12.
  assert (wp no_failure (process_reply cfg now l) s (λ _ s' _, ∃ e',
    tags s' = vec_alter (update_LRU 0 e') set (tags s) ∧ tag e' = t)) as Hwp.
  { unfold process_reply. wp_step. eapply wp_lift_ok; [exact Hsplit|]. cbv beta iota. do 3 wp_step.
    eapply wp_lift_ok; [exact Hget|]. cbv zeta. rewrite Hmiss.
    assert (wp no_failure (on_fill cfg now set t None l) s (λ _ s' _, ∃ e',
      tags s' = vec_alter (update_LRU 0 e') set (tags s) ∧ tag e' = t)) as Hfill.
    { eapply wp_fill_replaces; try done; rewrite ?Hc; try done. by destruct H12 as [-> | ->]. }
    destruct Hty as [E|[E|E]]; rewrite E in *; exact Hfill. }
  destruct (wp_total _ _ _ Hwp) as ([] & s' & o & Hrun & e' & Ht' & Htag). exists s', o. split; [done|].
  intros now' l' Hty' Hlen Hsplit'.
  assert (vec_get (tags s') set = Ok (ways ++ [e'])) as Hget'.
  { rewrite Ht'. rewrite (vec_get_alter _ _ _ _ Hget). f_equal. apply update_LRU_spec. cbn. lia. }
  assert (find_way (holds_tag (tag e)) (ways ++ [e']) = None) as Hgone.
  { assert (alive e = true) as Ha by (unfold alive; by rewrite Hc).
    apply find_way_None in Hmiss. apply Forall_cons in Hmiss as [Hne _]. apply find_way_None, Forall_app.
    split; [|apply Forall_singleton].
    - pose proof (good_tags _ _ _ _ _ (tags_ok_get _ _ _ _ _ _ _ Hs Hget)) as Hnd. unfold valid_tags in Hnd.
      rewrite filter_cons_True in Hnd by done. apply NoDup_cons in Hnd as [Hn _]. apply Forall_forall. intros x Hx.
      apply not_true_iff_false. intros [Hax Htx]%holds_tag_spec. apply Hn, list_elem_of_fmap. exists x. split; [done|].
      by apply list_elem_of_filter.
    - apply not_true_iff_false. intros [_ Hx]%holds_tag_spec. apply not_true_iff_false in Hne. apply Hne, holds_tag_spec.
      split; [done|congruence]. }
  destruct (from l') as [|c1 [|c2 r']] eqn:Hf'; [cbn in Hlen; lia..|].
  unfold process_reply, mbind, proc_bind, lift, reads. rewrite Hsplit'. cbv beta iota. rewrite Hget'. cbv zeta beta iota.
  rewrite Hgone. assert (on_owner_reply cfg now' set None l' s' = Err Fatal) as Hfatal.
  { unfold on_owner_reply, from_pop. by rewrite Hf'. }
  destruct Hty' as [E|E]; rewrite E; by rewrite Hfatal.
Qed.

(** ** Concrete runs *)

#[local] Existing Instance code_addresses.

Definition core (n : Z) : Comp := Build_Comp ct_o3core n.
Definition l1 (n : Z) : Comp := Build_Comp ct_cachel1d n.

Definition example_config : config :=
  {| this := Build_Comp ct_cachel2 0; directory := Build_Comp ct_directory 0;
     crossbar := Build_Comp ct_crossbar 0; which_mc := λ _, Ok 0; process_interval := 20;
     geo := Build_geometry 6 1 1 2; l2_to_l1_t := 45; l2_to_dir_t := 90; l2_to_xbar_t := 90;
     num_flits_per_packet := 1; num_banks_log2 := 0; always_hit := false |}.

(** A message about the line at [a] whose stack is [st]. *)
Definition message (t : event_type) (a : Z) (st : list Comp) : LQE :=
  {| from := st; type := t; address := a; th_id := 0; dummy := false; rob_entry := -1 |}.

(** The handlers of several events, one after the other. *)
Fixpoint run (ms : list (proc call state unit)) (s : state) : outcome state :=
  match ms with
  | [] => Ok s
  | m :: ms' => '(_, s', _) ← m s; run ms' s'
  end.

(** L1 0 owns line 0x40; L1 1 reads it, and the L2 asks L1 0; before L1 0 answers, the data
    of two other lines arrive. *)
Definition waiting_run : list (proc call state unit) :=
  [ process_reply example_config 100 (message et_write 64 [this example_config; l1 0; core 0]);
    process_request example_config 200 (message et_read 64 [l1 1; core 1]);
    process_reply example_config 220 (message et_e_rd 128 [this example_config; l1 2; core 2]);
    process_reply example_config 240 (message et_e_rd 192 [this example_config; l1 3; core 3]) ].

Lemma waiting_reachable : ∃ s, run waiting_run (init example_config) = Ok s ∧
    process_reply example_config 260 (message et_m_to_s 64 [l1 0; l1 1; core 1]) s = Err Fatal.
Proof.
  assert (match run waiting_run (init example_config) with
    | Ok s => process_reply example_config 260 (message et_m_to_s 64 [l1 0; l1 1; core 1]) s = Err Fatal
    | Err _ => False end) as H by (vm_compute; reflexivity).
  destruct (run waiting_run (init example_config)) as [s|f]; [by exists s|done].
Qed.

Definition owned_entry : L2Entry :=
  {| tag := 1; cs_type := cs_modified; type_l1l2 := cs_modified; sharedl1 := {[l1 0]}; pending := None;
     first_access_time := 0; last_access_time := 0 |}.
Definition owned_state : state :=
  (init example_config) <| tags := [[empty_entry; owned_entry]] |>
                        <| queues ::= insert_req 100 (message et_read 64 [l1 1; core 1]) |>.

Lemma example_geometry : geometry_ok (geo example_config).
Proof. by constructor. Qed.

Lemma example_request ty a n : ty = et_read ∨ ty = et_write → 0 ≤ a →
  request_ok example_config (message ty a [l1 n; core n]).
Proof. intros Ht Ha. constructor; [done..|]. by exists 0. Qed.

Lemma owned_ok : full_inv example_config owned_state.
Proof.
  constructor; [|done|constructor|].
  - constructor; [done|]. repeat constructor; cbn; set_solver.
  - apply Forall_cons_2; [|constructor]. apply example_request; [by left|done].
Qed.

Lemma l2_reachable_invariant_witness :
  ∃ s, rtc (step example_config) (init example_config) s ∧ full_inv example_config s.
Proof.
  assert (∃ s, rtc (step example_config) (init example_config) s) as [s Hr].
  { set (s1 := (init example_config) <| queues ::= insert_req 100 (message et_read 64 [l1 1; core 1]) |>).
    destruct (process_event example_config 100 s1) as [[[a s'] o]|f] eqn:E.
    - exists s'. eapply rtc_l; [|eapply rtc_once, step_cycle, E].
      apply (step_req example_config 100 (message et_read 64 [l1 1; core 1]) _ _
        [geq_add_event 100 (this example_config)] tt); [apply example_request; [by left|done]|reflexivity].
    - assert (match process_event example_config 100 s1 with Ok _ => True | Err _ => False end) as H
        by (vm_compute; exact I).
      by rewrite E in H. }
  exists s. split; [exact Hr|]. exact (l2_reachable_invariant example_config s example_geometry Hr).
Defined.

(** L1 1 waits for the data of line 0x40; those of line 0x80 arrive before. *)
Definition waiting_entry : L2Entry := owned_entry <| type_l1l2 := cs_tr_to_s |> <| sharedl1 := ∅ |>.
Definition waiting_state : state := (init example_config) <| tags := [[waiting_entry; empty_entry]] |>.

Lemma l2_evicts_waiting_line_witness :
  ∃ s' o, process_reply example_config 220 (message et_e_rd 128 [this example_config; l1 2; core 2]) waiting_state =
      Ok (tt, s', o) ∧
    process_reply example_config 260 (message et_m_to_s 64 [l1 0; l1 1; core 1]) s' = Err Fatal.
Proof.
  assert (inv example_config waiting_state) as Hs by (constructor; [done|]; repeat constructor; cbn; set_solver).
  destruct (l2_evicts_waiting_line example_config waiting_state 220 (message et_e_rd 128 [this example_config; l1 2; core 2])
    (this example_config) (l1 2) [core 2] 0 2 waiting_entry [empty_entry] Hs (or_introl eq_refl) eq_refl eq_refl eq_refl
    eq_refl (ex_intro _ 0 eq_refl) eq_refl (or_introl eq_refl)) as (s' & o & Hrun & Hnext).
  exists s', o. split; [exact Hrun|]. apply Hnext; [by left|cbn; lia|reflexivity].
Defined.

Lemma l2_request_served_witness :
  ∃ s' o, process_request example_config 200 (message et_write 64 [l1 1; core 1]) owned_state = Ok (tt, s', o) ∧
    inv example_config s' ∧
    answered example_config 200 (message et_write 64 [l1 1; core 1]) (Some (1%nat, owned_entry)) 0 1 s' o.
Proof.
  apply (l2_request_served example_config owned_state 200 (message et_write 64 [l1 1; core 1]) 0 1
    [empty_entry; owned_entry]); [apply owned_ok|apply example_request; [by right|done]|reflexivity..].
Defined.

Lemma l2_request_cycle_witness :
  ∃ s' gs, let qs := arrived (geo example_config) [message et_read 64 [l1 1; core 1]] (req_qs owned_state) in
    process_event example_config 100 owned_state = Ok (0, s', concat gs ++
      (if existsb (λ q, negb (idle q)) (req_qs s') then [geq_add_event 120 (this example_config)] else [])) ∧
    full_inv example_config s' ∧ concat qs ≡ₚ [message et_read 64 [l1 1; core 1]] ∧ req_qs s' = tail <$> qs ∧
    Forall2 (bank_calls example_config 100) (head <$> qs) gs.
Proof.
  apply (l2_request_cycle example_config 100 owned_state [message et_read 64 [l1 1; core 1]] []);
    [apply example_geometry|apply owned_ok|reflexivity..|done].
Defined.
End CacheL2.
