(* ===== verification/Directory.v ===== *)
(** * The directories (Directory, PTSDirectory.h and PTSDirectory.cc)

    A directory keeps, per line, the L2s that share it and a coherence state, holds one
    request per line while it asks the L2s for data or for invalidations, and may keep its
    entries in a directory cache backed by the memory.  A cycle processes one reply, or else
    one request. *)

From S2P Require Export Component.

Module Directory.
Import MultiMap PtrSet.

(** [DirEntry]; its field [type] is [cs_type] here. *)
Record DirEntry := {
  cs_type : coherence_state_type;
  sharedl2 : gset Comp;
  pending : option LQE;
  got_cl : bool;
  not_in_dc : bool;
  num_sharer : Z }.

Definition new_entry : DirEntry :=
  {| cs_type := cs_invalid; sharedl2 := ∅; pending := None; got_cl := false; not_in_dc := false;
     num_sharer := 0 |}.

Record config := {
  this : Comp;
  memorycontroller : Comp;
  cachel2 : Comp;
  crossbar : Comp;
  l2s : list Comp;
  process_interval : Z;
  set_lsb : Z;
  num_sets : Z;
  num_ways : Z;
  dir_to_mc_t : Z;
  dir_to_l2_t : Z;
  dir_to_xbar_t : Z;
  num_flits_per_packet : Z;
  has_directory_cache : bool;
  use_limitless : bool;
  limitless_broadcast_threshold : Z }.

(** The constructor; the last arguments are the components the machine connects. *)
Definition make_config (p : params) (c mc l2 xbar : Comp) (all_l2s : list Comp) : config :=
  let get := get_param_uint64 p (c_type c) in
  {| this := c;
     memorycontroller := mc;
     cachel2 := l2;
     crossbar := xbar;
     l2s := all_l2s;
     process_interval := get "process_interval" 50;
     set_lsb := get "set_lsb" 6;
     num_sets := get "num_sets" 16;
     num_ways := get "num_ways" 4;
     dir_to_mc_t := get "to_mc_t" 450;
     dir_to_l2_t := get "to_l2_t" 140;
     dir_to_xbar_t := get "to_xbar_t" 350;
     num_flits_per_packet := get "num_flits_per_packet" 1;
     has_directory_cache := get_param_bool p (c_type c) "has_directory_cache" false;
     use_limitless := get_param_bool p (c_type c) "use_limitless" false;
     limitless_broadcast_threshold := get "limitless_broadcast_threshold" 4 |}.

Record state := {
  queues : Queues;
  dir : gmap Z DirEntry;
  dir_cache : list (list Z);
  num_sharer_histogram : list Z;
  num_acc : Z;
  num_nack : Z;
  num_i_to_tr : Z;
  num_e_to_tr : Z;
  num_s_to_tr : Z;
  num_m_to_tr : Z;
  num_m_to_i : Z;
  num_tr_to_i : Z;
  num_tr_to_e : Z;
  num_tr_to_s : Z;
  num_tr_to_m : Z;
  num_evict : Z;
  num_invalidate : Z;
  num_from_mc : Z;
  num_dir_cache_miss : Z;
  num_dir_cache_retry : Z;
  num_dir_evict : Z }.

Definition init (cfg : config) : state :=
  {| queues := empty_queues; dir := ∅;
     dir_cache := replicate (Z.to_nat (num_sets cfg)) [];
     num_sharer_histogram := replicate (S (length (l2s cfg))) 0;
     num_acc := 0; num_nack := 0; num_i_to_tr := 0; num_e_to_tr := 0; num_s_to_tr := 0;
     num_m_to_tr := 0; num_m_to_i := 0; num_tr_to_i := 0; num_tr_to_e := 0; num_tr_to_s := 0;
     num_tr_to_m := 0; num_evict := 0; num_invalidate := 0; num_from_mc := 0;
     num_dir_cache_miss := 0; num_dir_cache_retry := 0; num_dir_evict := 0 |}.

Section Handlers.
Context {AD : Addresses} (cfg : config).

Definition add_req_event (event_time : Z) (local_event : LQE) : proc call state unit :=
  t ← lift (ceil_by_y event_time (process_interval cfg));
  _ ← emit (geq_add_event t (this cfg));
  modify (λ s, s <| queues ::= insert_req t local_event |>).

(** The answer of the memory to [et_rd_dir_info_req] is queued with the requests. *)
Definition add_rep_event (event_time : Z) (local_event : LQE) : proc call state unit :=
  t ← lift (ceil_by_y event_time (process_interval cfg));
  _ ← emit (geq_add_event t (this cfg));
  modify (λ s, s <| queues ::= if bool_decide (type local_event = et_rd_dir_info_req)
                               then insert_req t local_event else insert_rep t local_event |>).

(** ** Calls *)

Definition to_mc (curr_time : Z) (l : LQE) : proc call state unit :=
  emit (Component.add_req_event (memorycontroller cfg) (curr_time ⊕ dir_to_mc_t cfg) l None).

Definition to_l2 (curr_time : Z) (l : LQE) : proc call state unit :=
  emit (Component.add_rep_event (cachel2 cfg) (curr_time ⊕ dir_to_l2_t cfg) l None).

Definition crq_call (curr_time : Z) (l : LQE) (is_data : bool) : call :=
  if is_data
  then Component.add_crq_flits (crossbar cfg) (curr_time ⊕ dir_to_xbar_t cfg) l
         (num_flits_per_packet cfg) (Some (this cfg))
  else Component.add_crq_event (crossbar cfg) (curr_time ⊕ dir_to_xbar_t cfg) l (Some (this cfg)).

(** The first [add_event_to_UL]: to the L2 on top of the stack, pushed again for the
    crossbar, which pops its target. *)
Definition add_event_to_UL (curr_time : Z) (l : LQE) (is_data : bool) : proc call state unit :=
  top ← lift (from_top l);
  if bool_decide (top = cachel2 cfg) then to_l2 curr_time l
  else emit (crq_call curr_time (from_push top l) is_data).

(** The second [add_event_to_UL]: to the L2 [comp]. *)
Definition add_event_to_UL_at (curr_time : Z) (comp : Comp) (l : LQE) : proc call state unit :=
  if bool_decide (comp = cachel2 cfg) then to_l2 curr_time l
  else emit (crq_call curr_time (from_push comp l) false).

(** [add_event_to_ULpp]: an answer to the L2 on top of the stack. *)
Definition add_event_to_ULpp (curr_time : Z) (l : LQE) (is_data : bool) : proc call state unit :=
  top ← lift (from_top l);
  if bool_decide (top = cachel2 cfg) then to_l2 curr_time l
  else emit
    (if is_data
     then Component.add_rep_flits (crossbar cfg) (curr_time ⊕ dir_to_xbar_t cfg) l
            (num_flits_per_packet cfg) (Some (this cfg))
     else Component.add_rep_event (crossbar cfg) (curr_time ⊕ dir_to_xbar_t cfg) l (Some (this cfg))).

(** [num_nack++; lqe->type = et_nack; add_event_to_ULpp(curr_time, lqe, false);] *)
Definition nack (curr_time : Z) (l : LQE) : proc call state unit :=
  _ ← modify (λ s, s <| num_nack ::= λ n, n ⊕ 1 |>);
  add_event_to_ULpp curr_time (l <| type := et_nack |>) false.

(** ** Entries *)

(** [dir[k]], which adds an empty entry when there is none. *)
Definition dir_at (k : Z) : proc call state DirEntry :=
  d ← reads dir;
  match d !! k with
  | Some e => mret e
  | None => _ ← modify (λ s, s <| dir ::= <[k := new_entry]> |>); mret new_entry
  end.

Definition set_entry (k : Z) (e : DirEntry) (s : state) : state := s <| dir ::= <[k := e]> |>.

(** [remove_directory_cache_entry]. *)
Definition remove_first (k : Z) (l : list Z) : list Z :=
  match list_find (k =.) l with Some (i, _) => delete i l | None => l end.

Definition remove_directory_cache_entry (set k : Z) : proc call state unit :=
  when (has_directory_cache cfg)
    (c ← reads dir_cache;
     _ ← lift (vec_get c set);
     modify (λ s, s <| dir_cache ::= vec_alter (remove_first k) set |>)).

(** [num_sharer_histogram[d_entry.num_sharer]++; dir.erase(dir_entry);
    remove_directory_cache_entry(set, dir_entry);] *)
Definition forget (set k : Z) (e : DirEntry) : proc call state unit :=
  h ← reads num_sharer_histogram;
  _ ← lift (vec_get h (num_sharer e));
  _ ← modify (λ s, s <| num_sharer_histogram ::= vec_alter (λ n, n ⊕ 1) (num_sharer e) |>
                     <| dir ::= delete k |>);
  remove_directory_cache_entry set k.

Definition in_transition (c : coherence_state_type) : bool :=
  match c with cs_tr_to_s | cs_tr_to_m | cs_tr_to_i | cs_tr_to_e | cs_m_to_s => true | _ => false end.

(** ** The directory cache *)

(** The loop that looks for an entry to evict: its position in the set. *)
Definition stays (e : DirEntry) : bool :=
  in_transition (cs_type e) || negb (bool_decide (pending e = None)) || not_in_dc e.

Fixpoint find_victim (l : list Z) : proc call state (option nat) :=
  match l with
  | [] => mret None
  | k :: l' =>
      e ← dir_at k;
      if stays e then i ← find_victim l'; mret (S <$> i) else mret (Some O)
  end.

(** Room in the set for the entry [k], put at the front; the line evicted is reported to
    the memory with the address of the message that needs the room. *)
Definition make_room (curr_time set k a : Z) (t : event_type) : proc call state bool :=
  c ← reads dir_cache;
  ks ← lift (vec_get c set);
  if Z.of_nat (length ks) =? num_ways cfg then
    v ← find_victim ks;
    match v with
    | None => mret false
    | Some i =>
        _ ← when (bool_decide (t = et_dir_evict)) (modify (λ s, s <| num_dir_evict ::= λ n, n ⊕ 1 |>));
        _ ← to_mc curr_time (new_lqe (this cfg) t a 0);
        _ ← modify (λ s, s <| dir_cache ::= vec_alter (λ ks, k :: delete i ks) set |>);
        mret true
    end
  else
    _ ← modify (λ s, s <| dir_cache ::= vec_alter (cons k) set |>);
    mret true.

(** [curr_set.erase(iter); curr_set.push_front(dir_entry)] for the way that holds [k]. *)
Definition to_front (set k : Z) (s : state) : state :=
  s <| dir_cache ::= vec_alter (λ ks, k :: remove_first k ks) set |>.

(** Whether the set holds [k]. *)
Definition cached (set k : Z) : proc call state bool :=
  c ← reads dir_cache;
  ks ← lift (vec_get c set);
  mret (bool_decide (k ∈ ks)).

(** ** Replies *)

(** The directory cache, when a line is evicted or its directory information arrives;
    [false] when the cycle ends there. *)
Definition cache_reply (curr_time set k : Z) (l : LQE) : proc call state bool :=
  hit ← cached set k;
  if hit : bool then
    _ ← modify (to_front set k);
    e ← dir_at k;
    if bool_decide (type l = et_rd_dir_info_rep) then
      _ ← modify (set_entry k (e <| not_in_dc := false |>));
      _ ← emit (free_lqe l);
      mret false
    else if not_in_dc e then
      _ ← add_rep_event (curr_time ⊕ (100 ⊗₃₂ process_interval cfg)) l;
      mret false
    else mret true
  else
    _ ← modify (λ s, s <| num_dir_cache_miss ::= λ n, n ⊕ 1 |>);
    room ← make_room curr_time set k (address l) et_dir_evict;
    if negb room then
      _ ← modify (λ s, s <| num_dir_cache_retry ::= λ n, n ⊕ 1 |>);
      _ ← add_rep_event (curr_time ⊕ (2 ⊗₃₂ process_interval cfg)) l;
      mret false
    else
      e ← dir_at k;
      _ ← modify (set_entry k (e <| not_in_dc := true |>));
      _ ← to_mc curr_time (new_lqe (this cfg) et_rd_dir_info_rep (address l) 0);
      _ ← modify (λ s, s <| num_dir_cache_retry ::= λ n, n ⊕ 1 |>);
      mret true.

(** An L2 evicts the line. *)
Definition evict_line (curr_time set k : Z) (l : LQE) : proc call state unit :=
  _ ← modify (λ s, s <| num_evict ::= λ n, n ⊕ 1 |>);
  e ← dir_at k;
  let drop c := e <| sharedl2 ::= λ S, S ∖ {[c]} |> in
  match cs_type e with
  | cs_modified | cs_m_to_s =>
      if bool_decide (1 < size (sharedl2 e))%nat then fails Fatal
      else
        top ← lift (from_top l);
        if negb (bool_decide (top ∈ sharedl2 e)) then emit (free_lqe l)
        else
          _ ← (if bool_decide (cs_type e = cs_modified) then
                 _ ← modify (λ s, s <| num_m_to_i ::= λ n, n ⊕ 1 |>);
                 forget set k e
               else modify (set_entry k (drop top)));
          to_mc curr_time (from_push (this cfg) l)
  | cs_tr_to_s =>
      top ← lift (from_top l);
      _ ← modify (set_entry k (drop top));
      emit (free_lqe l)
  | cs_tr_to_m => emit (free_lqe l)
  | _ =>
      top ← lift (from_top l);
      _ ← modify (set_entry k (drop top));
      _ ← when (bool_decide (sharedl2 (drop top) = ∅)) (forget set k (drop top));
      emit (free_lqe l)
  end.

(** [et_evict] and [et_rd_dir_info_rep]. *)
Definition on_evict (curr_time set k : Z) (l : LQE) : proc call state unit :=
  d ← reads dir;
  match d !! k with
  | None => emit (free_lqe l)
  | Some _ =>
      go_on ← (if has_directory_cache cfg then cache_reply curr_time set k l else mret true);
      when go_on (evict_line curr_time set k l)
  end.

(** [et_e_to_i] and [et_e_to_m]: what became of an upgrade without data. *)
Definition on_upgraded (set k : Z) (l : LQE) : proc call state unit :=
  d ← reads dir;
  match d !! k with
  | None => emit (free_lqe l)
  | Some e =>
      if negb (bool_decide (cs_type e = cs_tr_to_m)) then fails Fatal
      else
        _ ← (if bool_decide (type l = et_e_to_i) then
               _ ← modify (λ s, s <| num_tr_to_i ::= λ n, n ⊕ 1 |>);
               forget set k e
             else
               modify (λ s, (set_entry k (e <| cs_type := cs_modified |> <| pending := None |>) s)
                              <| num_tr_to_m ::= λ n, n ⊕ 1 |>));
        emit (free_lqe l)
  end.

(** The last acknowledgement of an invalidation: the writer that waits gets the line, or
    it is read from the memory. *)
Definition last_ack (curr_time k : Z) (e : DirEntry) (p : LQE) : proc call state unit :=
  top ← lift (from_top p);
  let e := e <| sharedl2 := {[top]} |> <| pending := None |> in
  if got_cl e then
    _ ← modify (λ s, (set_entry k (e <| cs_type := cs_modified |> <| got_cl := false |>) s)
                       <| num_tr_to_m ::= λ n, n ⊕ 1 |>);
    add_event_to_UL curr_time p true
  else
    _ ← modify (set_entry k e);
    to_mc curr_time (from_push (this cfg) (p <| type := et_e_rd |>)).

(** [et_invalidate] and [et_invalidate_nd]: an L2 acknowledges an invalidation. *)
Definition on_ack (curr_time k : Z) (l : LQE) : proc call state unit :=
  d ← reads dir;
  match d !! k with
  | None => emit (free_lqe l)
  | Some e =>
      if negb (bool_decide (cs_type e = cs_tr_to_m)) then fails Fatal
      else
        l ← lift (from_pop l);
        top ← lift (from_top l);
        let e := e <| got_cl := bool_decide (type l = et_invalidate) || got_cl e |>
                   <| sharedl2 ::= λ S, S ∖ {[top]} |> in
        p ← lift (match pending e with Some p => Ok p | None => Err Fatal end);
        _ ← (if bool_decide (sharedl2 e = ∅) then last_ack curr_time k e p
             else modify (set_entry k e));
        emit (free_lqe l)
  end.

Definition waits_for_data (e : DirEntry) : bool :=
  match cs_type e with cs_tr_to_s | cs_m_to_s => true | _ => false end.

(** [et_e_to_s_nd], [et_s_to_s_nd] and [et_dir_rd_nd]: the L2 asked for the line does not
    have it any more, and the request that waits is refused. *)
Definition on_no_data (curr_time set k : Z) (l : LQE) : proc call state unit :=
  d ← reads dir;
  match d !! k with
  | None => fails Fatal
  | Some e =>
      if negb (waits_for_data e) then fails Fatal
      else
        _ ← modify (λ s, s <| num_tr_to_s ::= λ n, n ⊕ 1 |>);
        p ← lift (some_or_undef (pending e));
        _ ← nack curr_time p;
        let e := e <| cs_type := cs_shared |> <| pending := None |> in
        _ ← modify (set_entry k e);
        _ ← when (bool_decide (sharedl2 e = ∅)) (forget set k e);
        emit (free_lqe l)
  end.

(** [et_e_to_s], [et_s_to_s] and [et_dir_rd]: the data, for the request that waits. *)
Definition on_data (curr_time k : Z) (l : LQE) : proc call state unit :=
  d ← reads dir;
  match d !! k with
  | None => fails Fatal
  | Some e =>
      if negb (waits_for_data e) then fails Fatal
      else
        _ ← modify (λ s, s <| num_tr_to_s ::= λ n, n ⊕ 1 |>);
        _ ← when (bool_decide (type l = et_dir_rd))
              (to_mc curr_time (new_lqe (this cfg) et_evict (address l) (th_id l)));
        p ← lift (some_or_undef (pending e));
        top ← lift (from_top p);
        let S := {[top]} ∪ sharedl2 e in
        _ ← modify (set_entry k (e <| cs_type := cs_shared |> <| sharedl2 := S |> <| pending := None |>
                                   <| num_sharer ::= λ n, Z.max (Z.of_nat (size S)) n |>));
        _ ← add_event_to_UL curr_time (p <| type := et_s_rd |>) true;
        emit (free_lqe l)
  end.

(** Any other reply is the memory's. *)
Definition on_memory (curr_time k : Z) (l : LQE) : proc call state unit :=
  _ ← modify (λ s, s <| num_from_mc ::= λ n, n ⊕ 1 |>);
  l ← lift (from_pop l);
  d ← reads dir;
  l ← match d !! k with
      | Some e =>
          if bool_decide (type l = et_e_rd) then
            match cs_type e with
            | cs_tr_to_e =>
                _ ← modify (λ s, (set_entry k (e <| cs_type := cs_exclusive |>) s)
                                   <| num_tr_to_e ::= λ n, n ⊕ 1 |>);
                mret l
            | cs_tr_to_m =>
                _ ← modify (λ s, (set_entry k (e <| cs_type := cs_modified |>) s)
                                   <| num_tr_to_m ::= λ n, n ⊕ 1 |>);
                mret (l <| type := et_write |>)
            | _ => mret l
            end
          else mret l
      | None => mret l
      end;
  add_event_to_ULpp curr_time l true.

(** [dir_entry] and [set] of an address. *)
Definition locate (a : Z) : outcome (Z * Z) :=
  k ← c_shr a (set_lsb cfg);
  if num_sets cfg =? 0 then Err Undef else Ok (k, k mod num_sets cfg).

Definition process_reply (curr_time : Z) (l : LQE) : proc call state unit :=
  '(k, set) ← lift (locate (address l));
  match type l with
  | et_evict | et_rd_dir_info_rep => on_evict curr_time set k l
  | et_e_to_i | et_e_to_m => on_upgraded set k l
  | et_invalidate | et_invalidate_nd => on_ack curr_time k l
  | et_e_to_s_nd | et_s_to_s_nd | et_dir_rd_nd => on_no_data curr_time set k l
  | et_e_to_s | et_s_to_s | et_dir_rd => on_data curr_time k l
  | _ => on_memory curr_time k l
  end.

(** ** Requests *)

(** A line nobody shares: the request goes to the memory. *)
Definition first_access (curr_time set k : Z) (l : LQE) : proc call state unit :=
  room ← (if has_directory_cache cfg then
            _ ← modify (λ s, s <| num_dir_cache_miss ::= λ n, n ⊕ 1 |>);
            make_room curr_time set k (address l) et_dir_evict
          else mret true);
  if negb room then nack curr_time l
  else
    top ← lift (from_top l);
    _ ← modify (λ s, (set_entry k (new_entry <| sharedl2 := {[top]} |> <| num_sharer := 1 |>
          <| cs_type := if bool_decide (type l = et_read) then cs_tr_to_e else cs_tr_to_m |>) s)
          <| num_i_to_tr ::= λ n, n ⊕ 1 |>);
    to_mc curr_time (from_push (this cfg) (l <| type := et_e_rd |>)).

(** The directory cache on a request for a known line.  The result is the request to go on
    with and the address it is about, if any: the answer of the memory is deleted, and the
    code goes on with the request that waited, but reads the address of the answer. *)
Definition cache_request (curr_time set k : Z) (l : LQE) : proc call state (option (LQE * option Z)) :=
  hit ← cached set k;
  if hit : bool then
    _ ← modify (to_front set k);
    e ← dir_at k;
    if bool_decide (type l = et_rd_dir_info_req) then
      _ ← emit (free_lqe l);
      _ ← modify (set_entry k (e <| pending := None |> <| not_in_dc := false |>));
      p ← lift (some_or_undef (pending e));
      mret (Some (p, None))
    else if bool_decide (pending e = None) then mret (Some (l, Some (address l)))
    else _ ← nack curr_time l; mret None
  else
    _ ← modify (λ s, s <| num_dir_cache_miss ::= λ n, n ⊕ 1 |>);
    if bool_decide (type l = et_rd_dir_info_req) then fails Fatal
    else
      room ← make_room curr_time set k (address l) et_evict;
      if negb room then _ ← nack curr_time l; mret None
      else
        e ← dir_at k;
        _ ← modify (set_entry k (e <| pending := Some l |> <| not_in_dc := true |>));
        _ ← to_mc curr_time (new_lqe (this cfg) et_rd_dir_info_req (address l) 0);
        mret None.

(** The request is held while the L2 with the line is asked for it. *)
Definition hold_and_ask (curr_time k : Z) (e : DirEntry) (l : LQE) (c : coherence_state_type)
    (ask : LQE) (owner : Comp) : proc call state unit :=
  _ ← modify (set_entry k (e <| pending := Some l |> <| cs_type := c |>));
  add_event_to_UL_at curr_time owner ask.

Definition first_sharer (e : DirEntry) : outcome Comp := some_or_undef (set_begin (sharedl2 e)).

Definition read_line (curr_time k : Z) (e : DirEntry) (l : LQE) (a : option Z) : proc call state unit :=
  top ← lift (from_top l);
  if bool_decide (top ∈ sharedl2 e) then nack curr_time l
  else
    match cs_type e with
    | cs_exclusive | cs_modified =>
        if negb (bool_decide (size (sharedl2 e) = 1%nat)) then fails Fatal
        else
          let exclusive := bool_decide (cs_type e = cs_exclusive) in
          _ ← modify (λ s, if exclusive then s <| num_e_to_tr ::= λ n, n ⊕ 1 |>
                           else s <| num_m_to_tr ::= λ n, n ⊕ 1 |>);
          addr ← lift (some_or_undef a);
          owner ← lift (first_sharer e);
          hold_and_ask curr_time k e l (if exclusive then cs_tr_to_s else cs_m_to_s)
            (new_lqe (this cfg) (if exclusive then et_e_to_s else et_dir_rd) addr (th_id l)) owner
    | cs_shared =>
        _ ← modify (λ s, s <| num_s_to_tr ::= λ n, n ⊕ 1 |>);
        addr ← lift (some_or_undef a);
        owner ← lift (first_sharer e);
        hold_and_ask curr_time k e l cs_tr_to_s (new_lqe (this cfg) et_s_to_s addr (th_id l)) owner
    | _ => fails Fatal
    end.

(** An invalidation to the L2 [c]. *)
Definition invalidate (curr_time addr th : Z) (t : event_type) (c : Comp) : proc call state unit :=
  _ ← modify (λ s, s <| num_invalidate ::= λ n, n ⊕ 1 |>);
  add_event_to_UL_at curr_time c (from_push (this cfg) (new_lqe c t addr th)).

(** What the L2 [c] is sent when the sharers [S] are invalidated: the first sharer is asked
    for the data. *)
Definition invalidation_for (S : gset Comp) (c : Comp) : event_type :=
  if bool_decide (set_begin S = Some c) then et_invalidate
  else if bool_decide (c ∈ S) then et_invalidate_nd else et_nop.

Definition write_shared (curr_time k : Z) (e : DirEntry) (l : LQE) (a : option Z) : proc call state unit :=
  if bool_decide (sharedl2 e = ∅) then fails Fatal
  else
    _ ← modify (λ s, (set_entry k (e <| pending := Some l |> <| cs_type := cs_tr_to_m |>) s)
                       <| num_s_to_tr ::= λ n, n ⊕ 1 |>);
    addr ← lift (some_or_undef a);
    for_each
      (if use_limitless cfg && (limitless_broadcast_threshold cfg <? Z.of_nat (size (sharedl2 e)))
       then l2s cfg else set_iter (sharedl2 e))
      (λ c, invalidate curr_time addr (th_id l) (invalidation_for (sharedl2 e) c) c).

Definition write_line (curr_time k : Z) (e : DirEntry) (l : LQE) (a : option Z) : proc call state unit :=
  match cs_type e with
  | cs_exclusive =>
      if negb (bool_decide (size (sharedl2 e) = 1%nat)) then fails Fatal
      else
        top ← lift (from_top l);
        _ ← modify (λ s, s <| num_e_to_tr ::= λ n, n ⊕ 1 |>);
        if bool_decide (top ∈ sharedl2 e) then
          _ ← modify (set_entry k (e <| cs_type := cs_tr_to_m |>));
          add_event_to_ULpp curr_time (l <| type := et_write_nd |>) false
        else
          _ ← modify (set_entry k (e <| pending := Some l |> <| got_cl := false |>
                                     <| cs_type := cs_tr_to_m |>));
          addr ← lift (some_or_undef a);
          owner ← lift (first_sharer e);
          invalidate curr_time addr (th_id l) et_invalidate owner
  | cs_shared => write_shared curr_time k e l a
  | cs_modified =>
      if negb (bool_decide (pending e = None)) || negb (bool_decide (size (sharedl2 e) = 1%nat))
      then fails Fatal
      else
        top ← lift (from_top l);
        if bool_decide (top ∈ sharedl2 e) then
          _ ← modify (λ s, s <| num_nack ::= λ n, n ⊕ 1 |>);
          add_event_to_UL curr_time (l <| type := et_nack |>) false
        else
          _ ← modify (λ s, (set_entry k (e <| pending := Some l |> <| cs_type := cs_tr_to_m |>) s)
                             <| num_m_to_tr ::= λ n, n ⊕ 1 |>);
          addr ← lift (some_or_undef a);
          owner ← lift (first_sharer e);
          invalidate curr_time addr (th_id l) et_invalidate owner
  | _ => fails Fatal
  end.

Definition access_line (curr_time k : Z) (l : LQE) (a : option Z) : proc call state unit :=
  e ← dir_at k;
  if in_transition (cs_type e) then nack curr_time l
  else
    match type l with
    | et_read => read_line curr_time k e l a
    | et_write => write_line curr_time k e l a
    | _ => fails Fatal
    end.

Definition process_request (curr_time : Z) (l : LQE) : proc call state unit :=
  '(k, set) ← lift (locate (address l));
  d ← reads dir;
  match d !! k with
  | None => first_access curr_time set k l
  | Some _ =>
      r ← (if has_directory_cache cfg then cache_request curr_time set k l
           else mret (Some (l, Some (address l))));
      match r with
      | Some (l, a) => access_line curr_time k l a
      | None => mret tt
      end
  end.

(** The request of the cycle, when there is no reply: the oldest queued one, or else the
    first of the tick. *)
Definition take_req (curr_time : Z) (q : Queues) : option LQE * Queues :=
  let '(due, later) := mm_drain curr_time (req_event q) in
  match req_q q ++ due with
  | [] => (None, q)
  | l :: rest => (Some l, q <| req_q := rest |> <| req_event := later |>)
  end.

Definition process_event (curr_time : Z) : proc call state Z :=
  _ ← modify (λ s, s <| num_acc ::= λ n, n ⊕ 1 |>);
  q ← reads queues;
  let '(rep, q) := take_rep curr_time q in
  '(req, q) ←
    match rep with
    | Some _ =>
        let '(due, later) := mm_drain curr_time (req_event q) in
        mret (None, q <| req_q := req_q q ++ due |> <| req_event := later |>)
    | None =>
        match take_req curr_time q with
        | (None, _) => fails (match req_event q with [] => Undef | _ => Fatal end)
        | (Some l, q) => mret (Some l, q)
        end
    end;
  _ ← modify (λ s, s <| queues := q |>);
  _ ← when (negb (bool_decide (length (rep_q q) = 0%nat)) || negb (bool_decide (length (req_q q) = 0%nat)))
        (emit (geq_add_event (curr_time ⊕ process_interval cfg) (this cfg)));
  _ ← match rep, req with
      | Some l, _ => process_reply curr_time l
      | None, Some l => process_request curr_time l
      | None, None => fails Fatal
      end;
  mret 0.
End Handlers.

(** ** Entries of a directory *)

Section Facts.
Context {AD : Addresses} (cfg : config).

(** What an L2 promises of a request. *)
Record request_ok (l : LQE) : Prop := {
  ok_type : type l = et_read ∨ type l = et_write;
  ok_from : ∃ top, head (from l) = Some top ∧ top ∈ l2s cfg;
  ok_address : 0 ≤ address l }.

(** What each state says about the sharers and the request that waits. *)
Definition state_ok (e : DirEntry) : Prop :=
  match cs_type e with
  | cs_tr_to_e | cs_exclusive | cs_modified => size (sharedl2 e) = 1%nat ∧ pending e = None
  | cs_shared => sharedl2 e ≠ ∅ ∧ pending e = None
  | cs_tr_to_s => pending e ≠ None
  | cs_m_to_s => pending e ≠ None ∧ (size (sharedl2 e) ≤ 1)%nat
  | cs_tr_to_m =>
      match pending e with
      | Some _ => sharedl2 e ≠ ∅
      | None => size (sharedl2 e) = 1%nat
      end
  | _ => False
  end.

Record entry_ok (e : DirEntry) : Prop := {
  entry_state : state_ok e;
  entry_sharers : sharedl2 e ⊆ list_to_set (l2s cfg);
  entry_pending : ∀ p, pending e = Some p → request_ok p;
  entry_count : 0 ≤ num_sharer e ≤ Z.of_nat (length (l2s cfg)) }.

(** The states of a directory without a directory cache. *)
Record good (s : state) : Prop := {
  good_entries : map_Forall (λ _, entry_ok) (dir s);
  good_histogram : length (num_sharer_histogram s) = S (length (l2s cfg)) }.

Context (Hlsb : 0 ≤ set_lsb cfg < 64) (Hsets : 0 < num_sets cfg).
Context (Hcache : has_directory_cache cfg = false).

Lemma locate_ok a : 0 ≤ a → ∃ set, locate cfg a = Ok (shr a (set_lsb cfg), set).
Proof.
  intros Ha. unfold locate, c_shr. rewrite (proj2 (Z.ltb_lt _ _)) by lia. cbn.
  rewrite (proj2 (Z.eqb_neq _ _)) by lia. by eexists.
Qed.

Lemma request_top l : request_ok l → ∃ top r, from l = top :: r ∧ from_top l = Ok top ∧ top ∈ l2s cfg.
Proof.
  intros [_ (top & Hh & Hin) _]. destruct (from l) as [|c r] eqn:E; [done|]. injection Hh as ->.
  exists top, r. split_and!; [done| |done]. unfold from_top. by rewrite E.
Qed.

Lemma size_list_le (l : list Comp) : (size (list_to_set l : gset Comp) ≤ length l)%nat.
Proof.
  induction l as [|c l IH]; cbn; [by rewrite size_empty|]. rewrite size_union_alt, size_singleton.
  apply le_n_S. etrans; [|exact IH]. apply subseteq_size. set_solver.
Qed.

Lemma entry_size e : entry_ok e → Z.of_nat (size (sharedl2 e)) ≤ Z.of_nat (length (l2s cfg)).
Proof.
  intros [_ Hsub _ _]. apply inj_le. etrans; [by apply subseteq_size|]. apply size_list_le.
Qed.

Lemma good_set_entry s s' k e :
  good s → entry_ok e → dir s' = <[k := e]> (dir s) →
  num_sharer_histogram s' = num_sharer_histogram s → good s'.
Proof.
  intros [He Hh] Hok Hd Hh'. constructor; [|by rewrite Hh']. rewrite Hd. by apply map_Forall_insert_2.
Qed.

Lemma good_frame s s' :
  good s → dir s' = dir s → num_sharer_histogram s' = num_sharer_histogram s → good s'.
Proof. intros [He Hh] Hd Hh'. constructor; [by rewrite Hd|by rewrite Hh']. Qed.

(** *** Calls leave the state alone *)

Section Same.
Context (s0 : state).
Notation same := (λ s, s = s0).

Lemma same_UL now l d : keeps same (add_event_to_UL cfg now l d).
Proof. unfold add_event_to_UL, to_l2. by repeat keeps_step. Qed.
Lemma same_UL_at now c l : keeps same (add_event_to_UL_at cfg now c l).
Proof. unfold add_event_to_UL_at, to_l2. by repeat keeps_step. Qed.
Lemma same_ULpp now l d : keeps same (add_event_to_ULpp cfg now l d).
Proof. unfold add_event_to_ULpp, to_l2. by repeat keeps_step. Qed.
End Same.

(** The call that carries a message up to an L2. *)
Definition ULpp_call (now : Z) (l : LQE) (d : bool) : call :=
  if bool_decide (head (from l) = Some (cachel2 cfg))
  then Component.add_rep_event (cachel2 cfg) (now ⊕ dir_to_l2_t cfg) l None
  else if d then Component.add_rep_flits (crossbar cfg) (now ⊕ dir_to_xbar_t cfg) l
                   (num_flits_per_packet cfg) (Some (this cfg))
  else Component.add_rep_event (crossbar cfg) (now ⊕ dir_to_xbar_t cfg) l (Some (this cfg)).

Definition UL_call (now : Z) (c : Comp) (l : LQE) (d : bool) : call :=
  if bool_decide (c = cachel2 cfg)
  then Component.add_rep_event (cachel2 cfg) (now ⊕ dir_to_l2_t cfg) l None
  else crq_call cfg now (from_push c l) d.

Lemma call_lqe_UL now c l d : call_lqe (UL_call now c l d) ≠ None.
Proof. unfold UL_call, crq_call. by destruct (bool_decide (c = cachel2 cfg)), d. Qed.

Definition mc_call (now : Z) (l : LQE) : call :=
  Component.add_req_event (memorycontroller cfg) (now ⊕ dir_to_mc_t cfg) l None.

Lemma wp_ULpp E now l d top s Q :
  head (from l) = Some top → Q tt s [ULpp_call now l d] → wp E (add_event_to_ULpp cfg now l d) s Q.
Proof.
  intros Hf HQ. unfold add_event_to_ULpp, to_l2. wp_step.
  eapply wp_lift_ok; [unfold from_top; by rewrite Hf|]. unfold ULpp_call in HQ. rewrite Hf in HQ.
  destruct (decide (top = cachel2 cfg)) as [->|Hne].
  - rewrite bool_decide_eq_true_2 in HQ |- * by done. by wp_steps.
  - rewrite bool_decide_eq_false_2 in HQ by congruence. rewrite bool_decide_eq_false_2 by done.
    by destruct d; wp_steps.
Qed.

Lemma wp_UL E now l d top s Q :
  head (from l) = Some top → Q tt s [UL_call now top l d] → wp E (add_event_to_UL cfg now l d) s Q.
Proof.
  intros Hf HQ. unfold add_event_to_UL, to_l2. wp_step.
  eapply wp_lift_ok; [unfold from_top; by rewrite Hf|]. unfold UL_call in HQ.
  case_bool_decide; by wp_steps.
Qed.

Lemma wp_UL_at E now c l s Q :
  Q tt s [UL_call now c l false] → wp E (add_event_to_UL_at cfg now c l) s Q.
Proof.
  intros HQ. unfold add_event_to_UL_at, to_l2. unfold UL_call in HQ. case_bool_decide; by wp_steps.
Qed.

(** *** Invalidations *)

Definition invalidation (now addr th : Z) (S : gset Comp) (c : Comp) : call :=
  UL_call now c (from_push (this cfg) (new_lqe c (invalidation_for S c) addr th)) false.

Lemma wp_invalidate_all E now addr th (S : gset Comp) cs s :
  wp E (for_each cs (λ c, invalidate cfg now addr th (invalidation_for S c) c)) s (λ _ s' o,
    dir s' = dir s ∧ num_sharer_histogram s' = num_sharer_histogram s ∧
    o = invalidation now addr th S <$> cs).
Proof.
  revert s. induction cs as [|c cs IH]; intros s; cbn [for_each]; [by wp_steps|].
  unfold invalidate. wp_steps. apply wp_UL_at. eapply wp_mono; [apply IH|].
  cbv beta. intros _ s' o (-> & -> & ->). done.
Qed.

(** An acknowledgement by the L2 [c]. *)
Definition ack_of (k : Z) (c : Comp) (l : LQE) : Prop :=
  (type l = et_invalidate ∨ type l = et_invalidate_nd) ∧ 0 ≤ address l ∧ shr (address l) (set_lsb cfg) = k ∧
  ∃ d r, from l = d :: c :: r.

(** What the writer that waited is sent when all have acknowledged. *)
Definition release_call (now : Z) (w : Comp) (p : LQE) (data : bool) : call :=
  if data then UL_call now w p true else mc_call now (from_push (this cfg) (p <| type := et_e_rd |>)).

Definition has_data (acks : list LQE) : bool := existsb (λ l, bool_decide (type l = et_invalidate)) acks.

Lemma list_to_set_rest (c : Comp) cs : c ∉ cs → (list_to_set (c :: cs) : gset Comp) ∖ {[c]} = list_to_set cs.
Proof.
  intros Hc. apply set_eq. intros x.
  rewrite elem_of_difference, elem_of_singleton, !elem_of_list_to_set, elem_of_cons. naive_solver.
Qed.

Lemma filter_carry (c : call) l :
  call_lqe c ≠ None → filter (λ c, call_lqe c ≠ None) (c :: [free_lqe l]) = [c].
Proof. intros Hc. rewrite filter_cons_True by done. by rewrite filter_cons_False by (cbn; auto). Qed.

Lemma wp_acks E now k p w acks cs s e :
  dir s !! k = Some e → cs_type e = cs_tr_to_m → pending e = Some p → head (from p) = Some w →
  sharedl2 e = list_to_set cs → NoDup cs → cs ≠ [] → Forall2 (ack_of k) cs acks →
  wp E (for_each acks (process_reply cfg now)) s (λ _ s' o,
    ∃ e', dir s' = <[k := e']> (dir s) ∧ sharedl2 e' = {[w]} ∧ pending e' = None ∧
      cs_type e' = (if got_cl e || has_data acks then cs_modified else cs_tr_to_m) ∧
      filter (λ c, call_lqe c ≠ None) o = [release_call now w p (got_cl e || has_data acks)]).
Proof.
  intros Hk Hty Hp Hw Hsh Hnd Hne Hacks. revert s e Hk Hty Hp Hsh Hnd Hne.
  induction Hacks as [|c l cs acks (Htl & Ha & Hka & d & r & Hfrom) Hacks IH]; intros s e Hk Hty Hp Hsh Hnd Hne; [done|].
  apply NoDup_cons in Hnd as [Hc Hnd]. cbn [for_each].
  assert (has_data (l :: acks) = bool_decide (type l = et_invalidate) || has_data acks) as Hdata by done.
  wp_step. unfold process_reply. destruct (locate_ok _ Ha) as (set & Hloc). rewrite Hka in Hloc.
  wp_step. eapply wp_lift_ok; [exact Hloc|]. cbv beta iota.
  assert (wp E (on_ack cfg now k l) s (λ _ s1 o1, ∃ e1, dir s1 = <[k := e1]> (dir s) ∧
    match cs with
    | [] => sharedl2 e1 = {[w]} ∧ pending e1 = None ∧
        cs_type e1 = (if got_cl e || bool_decide (type l = et_invalidate) then cs_modified else cs_tr_to_m) ∧
        filter (λ c, call_lqe c ≠ None) o1 =
          [release_call now w p (got_cl e || bool_decide (type l = et_invalidate))]
    | _ => cs_type e1 = cs_tr_to_m ∧ pending e1 = Some p ∧ sharedl2 e1 = list_to_set cs ∧
        got_cl e1 = got_cl e || bool_decide (type l = et_invalidate) ∧
        filter (λ c, call_lqe c ≠ None) o1 = []
    end)) as Hack.
  { unfold on_ack. wp_step. wp_step. rewrite Hk, Hty. rewrite bool_decide_eq_true_2 by done. cbn [negb].
    wp_step. eapply wp_lift_ok; [unfold from_pop; by rewrite Hfrom|]. wp_step.
    eapply wp_lift_ok; [done|]. wp_step. eapply wp_lift_ok; [cbn; by rewrite Hp|]. wp_step. cbn.
    rewrite Hsh, (list_to_set_rest c cs Hc).
    rewrite (orb_comm (bool_decide _)). destruct cs as [|c' cs'].
    - rewrite bool_decide_eq_true_2 by done. unfold last_ack. wp_step.
      eapply wp_lift_ok; [unfold from_top; by rewrite Hw|]. wp_if Hg.
      + cbn in Hg. rewrite Hg. wp_steps. eapply wp_UL; [exact Hw|]. wp_steps. eexists. split; [reflexivity|].
        split_and!; [done|done|done|]. apply filter_carry. apply call_lqe_UL.
      + cbn in Hg. rewrite Hg. wp_steps. unfold to_mc. wp_steps. eexists. split; [reflexivity|].
        split_and!; [done|done|done|by apply filter_carry].
    - rewrite bool_decide_eq_false_2 by (cbn; set_solver). wp_steps. eexists. split; [reflexivity|].
      split_and!; [done|done|cbn [sharedl2]; cbn; rewrite Hsh; by apply list_to_set_rest|done|done]. }
  eapply wp_mono; [destruct Htl as [Htl|Htl]; rewrite Htl at 1; exact Hack|].
  cbv beta. intros _ s1 o1 (e1 & Hd1 & H1). destruct cs as [|c' cs'].
  - apply Forall2_nil_inv_l in Hacks as ->. destruct H1 as (Hs1 & Hp1 & Ht1 & Ho1). cbn [for_each]. wp_steps.
    exists e1. rewrite Hdata. cbn. rewrite orb_false_r, app_nil_r. by split_and!.
  - destruct H1 as (Ht1 & Hp1 & Hs1 & Hg1 & Ho1).
    eapply wp_mono; [apply (IH s1 e1); [rewrite Hd1; apply lookup_insert_eq|done..]|].
    cbv beta. intros _ s2 o2 (e2 & Hd2 & Hs2 & Hp2 & Ht2 & Ho2). exists e2.
    rewrite Hd2, Hd1, insert_insert_eq, app_nil_l, filter_app, Ho1, Ho2, Ht2, Hdata, Hg1. cbn.
    rewrite orb_assoc. by split_and!.
Qed.

(** *** Replies *)

(** What the memory and the L2s promise of a reply: its stack leads back to an L2, and an
    upgrade or a read is answered only while none waits for acknowledgements. *)
Record reply_ok (s : state) (l : LQE) : Prop := {
  reply_address : 0 ≤ address l;
  reply_from : (2 ≤ length (from l))%nat;
  reply_expected : ∀ e, dir s !! shr (address l) (set_lsb cfg) = Some e → cs_type e = cs_tr_to_m →
    type l = et_e_to_i ∨ type l = et_e_to_m ∨ type l = et_e_rd → pending e = None }.

Definition fatal_only (f : failure) : Prop := f = Fatal.

Lemma wp_top E l c r s (Q : Comp → state → list call → Prop) :
  from l = c :: r → Q c s [] → wp E (lift (from_top l)) s Q.
Proof. intros Hf HQ. eapply wp_lift_ok; [unfold from_top; by rewrite Hf|done]. Qed.

Lemma entry_ok_of s k e : good s → dir s !! k = Some e → entry_ok e.
Proof. intros [He _] Hk. by apply He in Hk. Qed.

(** Changes of an entry that keep it good. *)
Lemma entry_ok_upd e e' :
  entry_ok e → state_ok e' → sharedl2 e' ⊆ sharedl2 e → pending e' = pending e ∨ pending e' = None →
  num_sharer e' = num_sharer e → entry_ok e'.
Proof.
  intros [_ Hsub Hp Hn] Hst Hsub' Hp' Hn'. constructor; [done|by etrans| |by rewrite Hn'].
  intros p H. destruct Hp' as [Hp'|Hp']; rewrite Hp' in H; [by apply Hp|done].
Qed.

Lemma drop_one (X : gset Comp) c : size X = 1%nat → X ∖ {[c]} = ∅ ∨ X ∖ {[c]} = X.
Proof.
  intros Hsz. destruct (decide (c ∈ X)) as [Hc|Hc]; [left|right; set_solver].
  apply set_eq. intros d. split; [|set_solver]. intros [Hd Hne]%elem_of_difference.
  destruct Hne. apply elem_of_singleton. by apply (size_singleton_inv X).
Qed.

Lemma drop_sharer_state e c :
  state_ok e → cs_type e ≠ cs_tr_to_m → sharedl2 e ∖ {[c]} ≠ ∅ ∨ waits_for_data e = true →
  state_ok (e <| sharedl2 ::= λ S, S ∖ {[c]} |>).
Proof.
  unfold state_ok, waits_for_data. intros He Hne Hs. cbn.
  assert (size (sharedl2 e ∖ {[c]}) ≤ size (sharedl2 e))%nat as Hle by (apply subseteq_size; set_solver).
  assert (size (sharedl2 e) = 1%nat → sharedl2 e ∖ {[c]} ≠ ∅ → size (sharedl2 e ∖ {[c]}) = 1%nat) as Hone.
  { intros H1 H2. destruct (drop_one _ c H1) as [E|E]; [done|by rewrite E]. }
  destruct (cs_type e); try done; destruct He as [He Hp]; destruct Hs as [Hs|Hs]; try done;
    split; auto; lia.
Qed.

(** A state that is good but for the entry [k]. *)
Lemma wp_forget E set k e s s0 :
  good s0 → dir s = <[k := e]> (dir s0) → num_sharer_histogram s = num_sharer_histogram s0 →
  0 ≤ num_sharer e ≤ Z.of_nat (length (l2s cfg)) →
  wp E (forget cfg set k e) s (λ _ s' o, good s' ∧ dir s' = delete k (dir s0) ∧ o = []).
Proof.
  intros [He Hh] Hd Hh' Hn. unfold forget, remove_directory_cache_entry. rewrite Hcache. wp_steps.
  destruct (vec_get_lt (num_sharer_histogram s) (num_sharer e)) as [n Hget]; [rewrite Hh', Hh; lia|].
  eapply wp_lift_ok; [exact Hget|]. wp_steps.
  assert (delete k (dir s) = delete k (dir s0)) as Hdel by (by rewrite Hd, delete_insert_eq).
  split_and!; [|exact Hdel|done]. constructor; cbn.
  - rewrite Hdel. by apply map_Forall_delete.
  - by rewrite length_vec_alter, Hh'.
Qed.

Section Reply.
Context (s : state) (k set now : Z) (l : LQE) (Hs : good s).
Notation safe m := (wp fatal_only m s (λ _ s' _, good s')).

Lemma safe_evict_line e : dir s !! k = Some e → from l ≠ [] → safe (evict_line cfg now set k l).
Proof.
  intros Hk Hf. destruct (from l) as [|top r] eqn:Hfrom; [done|]. clear Hf.
  pose proof (entry_ok_of _ _ _ Hs Hk) as He. pose proof He as [Hst _ _ _].
  unfold evict_line, dir_at. wp_steps. cbn. rewrite Hk. wp_steps.
  set (s1 := s <| num_evict ::= λ n, n ⊕ 1 |>). set (e' := e <| sharedl2 ::= λ S, S ∖ {[top]} |>).
  assert (good s1) as Hs1 by (by eapply good_frame).
  assert (entry_ok e' → good (set_entry k e' s1)) as Hset by (intros; by eapply good_set_entry).
  assert (state_ok e' → entry_ok e') as Hok' by (intros; eapply entry_ok_upd; [done..|cbn; set_solver|by left|done]).
  assert (cs_type e ≠ cs_tr_to_m → waits_for_data e = false → wp fatal_only (top ← lift (from_top l);
    _ ← modify (set_entry k (e <| sharedl2 ::= λ S, S ∖ {[top]} |>));
    _ ← when (bool_decide (sharedl2 (e <| sharedl2 ::= λ S, S ∖ {[top]} |>) = ∅))
          (forget cfg set k (e <| sharedl2 ::= λ S, S ∖ {[top]} |>));
    emit (free_lqe l)) s1 (λ _ s' _, good s')) as Hdefault.
  { intros Hc Hw. wp_step. eapply wp_top; [exact Hfrom|]. wp_step. wp_step. wp_step. apply wp_when; intros E.
    - eapply wp_mono; [apply (wp_forget _ _ _ _ _ s1); [done|done|done|apply He]|].
      cbv beta. intros _ s2 o2 (Hs2 & _ & _). by wp_steps.
    - apply bool_decide_eq_false in E. wp_steps. apply Hset, Hok', drop_sharer_state; auto. }
  unfold state_ok in Hst. destruct (cs_type e) eqn:Hc; try done; try (by apply Hdefault; unfold waits_for_data; rewrite ?Hc).
  - wp_if Hsz; [done|]. wp_step. eapply wp_top; [exact Hfrom|]. wp_if Hin; [by wp_steps|]. wp_steps.
    rewrite bool_decide_eq_true_2 by done. wp_steps.
    eapply wp_mono; [eapply (wp_forget _ _ _ _ _ s1); [done|by rewrite insert_id|done|apply He]|].
    cbv beta. intros _ s2 o2 (Hs2 & _ & _). unfold to_mc. by wp_steps.
  - wp_step. eapply wp_top; [exact Hfrom|]. wp_steps. apply Hset, Hok'. unfold state_ok. cbn. by rewrite Hc.
  - wp_if Hsz; [done|]. wp_step. eapply wp_top; [exact Hfrom|]. wp_if Hin; [by wp_steps|]. wp_steps.
    rewrite bool_decide_eq_false_2 by done. wp_steps. unfold to_mc. wp_steps.
    apply Hset, Hok', drop_sharer_state; [unfold state_ok; by rewrite Hc|by rewrite Hc|].
    right. unfold waits_for_data. by rewrite Hc.
Qed.

Lemma safe_on_evict : from l ≠ [] → safe (on_evict cfg now set k l).
Proof.
  intros Hf. unfold on_evict. rewrite Hcache. wp_steps. destruct (dir s !! k) as [e|] eqn:Hk; [|by wp_steps].
  wp_steps. apply wp_when; [|done]. intros _. by eapply safe_evict_line.
Qed.

Lemma safe_on_upgraded :
  (∀ e, dir s !! k = Some e → cs_type e = cs_tr_to_m → pending e = None) → safe (on_upgraded cfg set k l).
Proof.
  intros Hexp. unfold on_upgraded. wp_steps. destruct (dir s !! k) as [e|] eqn:Hk; [|by wp_steps].
  pose proof (entry_ok_of _ _ _ Hs Hk) as He. pose proof He as [Hst _ _ _]. wp_if Hc; [done|].
  apply negb_false_iff, bool_decide_eq_true in Hc. specialize (Hexp _ eq_refl Hc).
  unfold state_ok in Hst. rewrite Hc, Hexp in Hst. wp_step. wp_if Ht.
  - wp_steps. eapply wp_mono; [eapply (wp_forget _ _ _ _ _ s); [done|by rewrite insert_id|done|apply He]|].
    cbv beta. intros _ s2 o2 (Hs2 & _ & _). by wp_steps.
  - wp_steps. eapply good_set_entry; [done| |reflexivity|done].
    eapply entry_ok_upd; [exact He|by unfold state_ok|done|by right|done].
Qed.

Lemma safe_on_ack : (2 ≤ length (from l))%nat → safe (on_ack cfg now k l).
Proof.
  intros Hf. destruct (from l) as [|d [|c r]] eqn:Hfrom; cbn in Hf; try lia. unfold on_ack. wp_steps.
  destruct (dir s !! k) as [e|] eqn:Hk; [|by wp_steps].
  pose proof (entry_ok_of _ _ _ Hs Hk) as He. pose proof He as [Hst Hsub Hpend Hn]. wp_if Hc; [done|].
  apply negb_false_iff, bool_decide_eq_true in Hc. wp_step.
  eapply wp_lift_ok; [unfold from_pop; by rewrite Hfrom|]. wp_step. eapply wp_lift_ok; [done|]. wp_step.
  destruct (pending e) as [p|] eqn:Hp; cbn; rewrite Hp; [|by apply wp_lift; intros; simplify_eq].
  eapply wp_lift_ok; [done|]. wp_step. unfold state_ok in Hst. rewrite Hc, Hp in Hst.
  pose proof (Hpend p eq_refl) as Hpok. destruct (request_top p Hpok) as (w & r' & Hfp & Htop & Hin).
  assert ({[w]} ⊆ (list_to_set (l2s cfg) : gset Comp)) as Hws by set_solver.
  wp_if Hempty.
  - unfold last_ack. wp_step. eapply wp_lift_ok; [exact Htop|]. wp_if Hg; wp_steps.
    + eapply wp_UL; [by rewrite Hfp|]. wp_steps. eapply good_set_entry; [done| |reflexivity|done].
      constructor; [|exact Hws|done|done]. unfold state_ok. cbn. split; [apply size_singleton|done].
    + unfold to_mc. wp_steps. eapply good_set_entry; [done| |reflexivity|done].
      constructor; [|exact Hws|done|done]. unfold state_ok. cbn. rewrite Hc. apply size_singleton.
  - apply bool_decide_eq_false in Hempty. wp_steps. eapply good_set_entry; [done| |reflexivity|done].
    eapply entry_ok_upd; [exact He| |cbn; set_solver|by left|done].
    unfold state_ok. cbn. rewrite Hc, Hp. done.
Qed.

Lemma safe_on_no_data : safe (on_no_data cfg now set k l).
Proof.
  unfold on_no_data. wp_steps. destruct (dir s !! k) as [e|] eqn:Hk; [|done].
  pose proof (entry_ok_of _ _ _ Hs Hk) as He. pose proof He as [Hst Hsub Hpend Hn]. wp_if Hw; [done|].
  apply negb_false_iff in Hw. wp_steps.
  destruct (pending e) as [p|] eqn:Hp; cycle 1.
  { unfold waits_for_data, state_ok in *. rewrite Hp in Hst. destruct (cs_type e); try done; by destruct Hst. }
  eapply wp_lift_ok; [done|]. destruct (request_top p (Hpend p eq_refl)) as (w & r' & Hfp & Htop & Hin).
  unfold nack. wp_steps. eapply wp_ULpp; [cbn; by rewrite Hfp|]. wp_steps. apply wp_when; intros Hempty.
  - eapply wp_mono; [eapply (wp_forget _ _ _ _ _ s); [done|reflexivity|done|apply He]|].
    cbv beta. intros _ s2 o2 (Hs2 & _ & _). by wp_steps.
  - apply bool_decide_eq_false in Hempty. wp_steps. eapply good_set_entry; [done| |reflexivity|done].
    eapply entry_ok_upd; [exact He|by split|done|by right|done].
Qed.

Lemma safe_on_data : safe (on_data cfg now k l).
Proof.
  unfold on_data. wp_steps. destruct (dir s !! k) as [e|] eqn:Hk; [|done].
  pose proof (entry_ok_of _ _ _ Hs Hk) as He. pose proof He as [Hst Hsub Hpend Hn]. wp_if Hw; [done|].
  apply negb_false_iff in Hw. wp_steps.
  destruct (pending e) as [p|] eqn:Hp; cycle 1.
  { unfold waits_for_data, state_ok in *. rewrite Hp in Hst. destruct (cs_type e); try done; by destruct Hst. }
  destruct (request_top p (Hpend p eq_refl)) as (w & r' & Hfp & Htop & Hin).
  eapply (wp_mono _ _ _ (λ _ s' _, good s' ∧ dir s' = dir s ∧ num_sharer_histogram s' = num_sharer_histogram s)).
  { unfold to_mc. apply wp_when; intros _; wp_steps; by (split; [eapply good_frame|]). }
  intros _ s1 o1 (Hs1 & Hd1 & Hh1). wp_step. eapply wp_lift_ok; [done|]. wp_step.
  eapply wp_lift_ok; [exact Htop|]. wp_steps. eapply wp_UL; [cbn; by rewrite Hfp|]. wp_steps.
  eapply good_set_entry; [exact Hs1| |reflexivity|done].
  assert ({[w]} ∪ sharedl2 e ⊆ list_to_set (l2s cfg)) as Hsub' by set_solver.
  constructor; [split; [cbn; set_solver|done]|done|done|]. cbn.
  assert (size ({[w]} ∪ sharedl2 e) ≤ length (l2s cfg))%nat; [|lia].
  etrans; [by apply subseteq_size|]. apply size_list_le.
Qed.

Lemma safe_on_memory :
  (2 ≤ length (from l))%nat →
  (∀ e, dir s !! k = Some e → cs_type e = cs_tr_to_m → type l = et_e_rd → pending e = None) →
  safe (on_memory cfg now k l).
Proof.
  intros Hf Hexp. destruct (from l) as [|d [|c r]] eqn:Hfrom; cbn in Hf; try lia. unfold on_memory. wp_steps.
  eapply wp_lift_ok; [unfold from_pop; by rewrite Hfrom|]. wp_steps.
  eapply (wp_mono _ _ _ (λ l' s' _, good s' ∧ from l' = c :: r)).
  2: { intros l' s1 o1 [Hs1 Hl']. eapply wp_ULpp; [by rewrite Hl'|done]. }
  change (dir (s <| num_from_mc ::= λ n, n ⊕ 1 |>)) with (dir s).
  set (s1 := s <| num_from_mc ::= λ n, n ⊕ 1 |>).
  assert (good s1) as Hs1 by (by eapply good_frame).
  destruct (dir s !! k) as [e|] eqn:Hk; [|by wp_steps].
  pose proof (entry_ok_of _ _ _ Hs Hk) as He. pose proof He as [Hst Hsub Hpend Hn]. unfold state_ok in Hst.
  wp_if Ht; [|by wp_steps]. apply bool_decide_eq_true in Ht.
  assert (∀ e' s', dir s' = <[k := e']> (dir s) → num_sharer_histogram s' = num_sharer_histogram s →
    state_ok e' → sharedl2 e' = sharedl2 e → pending e' = pending e → num_sharer e' = num_sharer e →
    good s') as Hset.
  { intros e' s' Hd Hh Hst' E1 E2 E3. eapply good_set_entry; [exact Hs| |exact Hd|exact Hh].
    eapply entry_ok_upd; [exact He|done|by rewrite E1|by left|done]. }
  destruct (cs_type e) eqn:Hc; wp_steps; try done; (split; [|done]); (eapply Hset; [reflexivity|reflexivity| |reflexivity..]); try done.
  specialize (Hexp _ eq_refl Hc Ht). unfold state_ok. cbn. by rewrite Hexp in *.
Qed.
End Reply.

Lemma reply_safe s now l :
  good s → reply_ok s l → wp fatal_only (process_reply cfg now l) s (λ _ s' _, good s').
Proof.
  intros Hs [Ha Hf Hexp]. unfold process_reply. destruct (locate_ok _ Ha) as (set & Hloc).
  wp_step. eapply wp_lift_ok; [exact Hloc|]. cbv beta iota.
  assert (from l ≠ []) as Hne by (by destruct (from l); cbn in *; [lia|]).
  destruct (type l) eqn:Ht;
    first [by apply safe_on_evict|by apply safe_on_upgraded; [|intros; eapply Hexp; eauto]
          |by apply safe_on_ack|by apply safe_on_no_data|by apply safe_on_data
          |apply safe_on_memory; [done|done|intros e H1 H2 H3; rewrite Ht in H3; try done; eapply Hexp; eauto]].
Qed.

(** *** Requests *)

Definition asks (t : event_type) : bool :=
  match t with
  | et_e_to_s | et_dir_rd | et_s_to_s | et_invalidate | et_invalidate_nd | et_nop => true
  | _ => false
  end.

Definition ask_call (w : call) : Prop := ∃ l, call_lqe w = Some l ∧ asks (type l) = true.

(** What becomes of a request for the line [k]: it goes to the memory, is refused, is
    granted (the requester is the only owner), or is held while L2s are asked. *)
Inductive request_fate (now k : Z) (l : LQE) (s : state) : state → list call → Prop :=
| fate_memory s' e' :
    dir s !! k = None → dir s' = <[k := e']> (dir s) → head (from l) ∈ Some <$> set_iter (sharedl2 e') →
    request_fate now k l s s' [mc_call now (from_push (this cfg) (l <| type := et_e_rd |>))]
| fate_refused s' w :
    dir s' = dir s → call_lqe w = Some (l <| type := et_nack |>) ∨
      (∃ c, call_lqe w = Some (from_push c (l <| type := et_nack |>))) →
    request_fate now k l s s' [w]
| fate_granted s' e top :
    dir s !! k = Some e → cs_type e = cs_exclusive → head (from l) = Some top → sharedl2 e = {[top]} →
    type l = et_write →
    dir s' = <[k := e <| cs_type := cs_tr_to_m |>]> (dir s) →
    request_fate now k l s s' [ULpp_call now (l <| type := et_write_nd |>) false]
| fate_held s' e e' o :
    dir s !! k = Some e → pending e = None → dir s' = <[k := e']> (dir s) →
    pending e' = Some l → in_transition (cs_type e') = true → sharedl2 e' = sharedl2 e →
    o ≠ [] → Forall ask_call o → request_fate now k l s s' o.

Lemma ask_UL_call now c l : asks (type l) = true → ask_call (UL_call now c l false).
Proof. intros Ht. unfold ask_call, UL_call, crq_call. case_bool_decide; by eexists. Qed.

Lemma ULpp_nack now l :
  call_lqe (ULpp_call now (l <| type := et_nack |>) false) = Some (l <| type := et_nack |>).
Proof. unfold ULpp_call. by case_bool_decide. Qed.

Lemma wp_nack s k now l :
  good s → request_ok l →
  wp no_failure (nack cfg now l) s (λ _ s' o, good s' ∧ request_fate now k l s s' o).
Proof.
  intros Hs Hl. destruct (request_top l Hl) as (top & r & Hf & _). unfold nack. wp_step. wp_step.
  eapply wp_ULpp; [cbn; by rewrite Hf|]. split; [by eapply good_frame|]. cbn.
  eapply fate_refused; [done|]. left. apply ULpp_nack.
Qed.

Section Request.
Context (s : state) (k now : Z) (l : LQE) (Hs : good s) (Hl : request_ok l).
Context (e : DirEntry) (Hk : dir s !! k = Some e) (Hst : in_transition (cs_type e) = false).

Lemma stable_pending : pending e = None ∧ sharedl2 e ≠ ∅.
Proof.
  pose proof (entry_ok_of _ _ _ Hs Hk) as [H _ _ _]. unfold state_ok in H.
  assert (∀ X : gset Comp, size X = 1%nat → X ≠ ∅) as Hne by (intros X H1 ->; by rewrite size_empty in H1).
  destruct (cs_type e); try done; destruct H; auto.
Qed.

(** Holding the request while the sharers are asked keeps the entry good. *)
Lemma held_ok e' :
  pending e' = Some l → sharedl2 e' = sharedl2 e → num_sharer e' = num_sharer e →
  (cs_type e' = cs_tr_to_s ∨ cs_type e' = cs_tr_to_m ∨
   cs_type e' = cs_m_to_s ∧ size (sharedl2 e) = 1%nat) → entry_ok e'.
Proof.
  intros Hp Hsh Hn Hc. pose proof (entry_ok_of _ _ _ Hs Hk) as [_ Hsub _ Hcount].
  destruct stable_pending as [_ Hne]. constructor.
  - unfold state_ok. rewrite Hp, Hsh. destruct Hc as [-> |[-> |[-> Hsz]]]; [done..|]. split; [done|lia].
  - by rewrite Hsh.
  - rewrite Hp. by intros p [= <-].
  - by rewrite Hn.
Qed.

Lemma held_fate s' e' o :
  dir s' = <[k := e']> (dir s) → num_sharer_histogram s' = num_sharer_histogram s →
  pending e' = Some l → sharedl2 e' = sharedl2 e → num_sharer e' = num_sharer e →
  (cs_type e' = cs_tr_to_s ∨ cs_type e' = cs_tr_to_m ∨
   cs_type e' = cs_m_to_s ∧ size (sharedl2 e) = 1%nat) →
  o ≠ [] → Forall ask_call o → good s' ∧ request_fate now k l s s' o.
Proof.
  intros Hd Hh Hp Hsh Hn Hc Ho Hask. split.
  - eapply good_set_entry; [exact Hs|by eapply held_ok|done|done].
  - eapply fate_held; [exact Hk|apply stable_pending|done|done| |done|done|done].
    by destruct Hc as [-> |[-> |[-> _]]].
Qed.

Lemma first_sharer_ok : ∃ c, first_sharer e = Ok c ∧ c ∈ sharedl2 e ∧ set_begin (sharedl2 e) = Some c.
Proof.
  destruct (set_begin_is_Some _ (proj2 stable_pending)) as (c & Hb & Hc). exists c.
  unfold first_sharer. by rewrite Hb.
Qed.

Lemma wp_read_line :
  type l = et_read →
  wp no_failure (read_line cfg now k e l (Some (address l))) s (λ _ s' o, good s' ∧ request_fate now k l s s' o).
Proof.
  intros Hty. destruct (request_top l Hl) as (top & r & Hf & Htop & Hin). unfold read_line.
  wp_step. eapply wp_lift_ok; [exact Htop|]. wp_if Hm; [by apply wp_nack|].
  destruct first_sharer_ok as (c & Hc & Hcin & _).
  pose proof (entry_ok_of _ _ _ Hs Hk) as [He _ _ _]. unfold state_ok in He.
  destruct (cs_type e) eqn:Hcs in He |- *; try done; try (exfalso; revert Hst; by rewrite Hcs).
  - wp_steps. eapply wp_lift_ok; [done|]. wp_step. eapply wp_lift_ok; [exact Hc|]. unfold hold_and_ask. wp_steps.
    apply wp_UL_at. eapply held_fate; [reflexivity|done|done|done|done|by left|done|].
    constructor; [|constructor]. by apply ask_UL_call.
  - destruct He as [Hsz _]. rewrite bool_decide_eq_true_2 by done. cbn [negb]. wp_steps.
    eapply wp_lift_ok; [done|]. wp_step. eapply wp_lift_ok; [exact Hc|]. unfold hold_and_ask. wp_steps.
    apply wp_UL_at. eapply held_fate; [reflexivity|done|done|done|done|by left|done|].
    constructor; [|constructor]. by apply ask_UL_call.
  - destruct He as [Hsz _]. rewrite bool_decide_eq_true_2 by done. cbn [negb]. wp_steps.
    eapply wp_lift_ok; [done|]. wp_step. eapply wp_lift_ok; [exact Hc|]. unfold hold_and_ask. wp_steps.
    apply wp_UL_at. eapply held_fate; [reflexivity|done|done|done|done|by right; right|done|].
    constructor; [|constructor]. by apply ask_UL_call.
Qed.

Lemma wp_invalidate_one E addr th c s' Q :
  Q tt (s' <| num_invalidate ::= λ n, n ⊕ 1 |>)
    [UL_call now c (from_push (this cfg) (new_lqe c et_invalidate addr th)) false] →
  wp E (invalidate cfg now addr th et_invalidate c) s' Q.
Proof. intros HQ. unfold invalidate. wp_steps. by apply wp_UL_at. Qed.

Lemma wp_dir_write_line :
  type l = et_write → l2s cfg ≠ [] →
  wp no_failure (write_line cfg now k e l (Some (address l))) s (λ _ s' o, good s' ∧ request_fate now k l s s' o).
Proof.
  intros Hty Hl2s. destruct (request_top l Hl) as (top & r & Hf & Htop & Hin). unfold write_line, write_shared.
  destruct first_sharer_ok as (c & Hc & Hcin & _). destruct stable_pending as [Hp Hne].
  pose proof (entry_ok_of _ _ _ Hs Hk) as He. pose proof He as [Hok _ _ _]. unfold state_ok in Hok.
  destruct (cs_type e) eqn:Hcs in Hok |- *; try done; try (exfalso; revert Hst; by rewrite Hcs).
  - rewrite bool_decide_eq_false_2 by done. wp_steps. eapply wp_lift_ok; [done|].
    eapply wp_mono; [apply wp_invalidate_all|]. cbv beta. intros _ s' o (Hd & Hh & ->).
    eapply held_fate; [by rewrite Hd|by rewrite Hh|done|done|done|by right; left|..].
    + cbn. case_match; [by destruct (l2s cfg)|]. intros E. apply fmap_nil_inv in E.
      apply Hne. apply set_eq. intros d. rewrite <- elem_of_set_iter, E. set_solver.
    + cbn. apply Forall_fmap, Forall_forall. intros d _. apply ask_UL_call. cbn. unfold invalidation_for.
      by repeat case_bool_decide.
  - destruct Hok as [Hsz _]. rewrite bool_decide_eq_true_2 by done. cbn [negb]. wp_step.
    eapply wp_lift_ok; [exact Htop|]. wp_step. wp_step. wp_if Hm.
    + apply bool_decide_eq_true in Hm. wp_steps. eapply wp_ULpp; [cbn; by rewrite Hf|]. cbn.
      assert (sharedl2 e = {[top]}) as Hsh.
      { apply set_eq. intros d. rewrite elem_of_singleton. split; [|by intros ->].
        intros Hd. by apply (size_singleton_inv (sharedl2 e)). }
      split.
      * eapply good_set_entry; [exact Hs| |reflexivity|done].
        eapply entry_ok_upd; [exact He|unfold state_ok; cbn; by rewrite Hp|done|by left|done].
      * eapply fate_granted; [exact Hk|done|by rewrite Hf|done|done|done].
    + wp_steps. eapply wp_lift_ok; [done|]. wp_step. eapply wp_lift_ok; [exact Hc|]. apply wp_invalidate_one.
      eapply held_fate; [reflexivity|done|done|done|done|by right; left|done|].
      constructor; [|constructor]. by apply ask_UL_call.
  - destruct Hok as [Hsz _]. rewrite Hp. rewrite (bool_decide_eq_true_2 (size _ = _)) by done. cbn [negb orb bool_decide].
    rewrite bool_decide_eq_true_2 by done. cbn [negb orb]. wp_step.
    eapply wp_lift_ok; [exact Htop|]. wp_if Hm.
    + wp_steps. eapply wp_UL; [cbn; by rewrite Hf|]. split; [by eapply good_frame|]. cbn.
      eapply fate_refused; [done|]. unfold UL_call, crq_call. destruct (bool_decide (top = cachel2 cfg)); [by left|]. right. by eexists.
    + wp_steps. eapply wp_lift_ok; [done|]. wp_step. eapply wp_lift_ok; [exact Hc|]. apply wp_invalidate_one.
      eapply held_fate; [reflexivity|done|done|done|done|by right; left|done|].
      constructor; [|constructor]. by apply ask_UL_call.
Qed.
End Request.

Lemma request_total s now l :
  good s → request_ok l →
  wp no_failure (process_request cfg now l) s (λ _ s' o, good s' ∧
    request_fate now (shr (address l) (set_lsb cfg)) l s s' o).
Proof.
  intros Hs Hl. destruct (request_top l Hl) as (top & r & Hf & Htop & Hin).
  assert (l2s cfg ≠ []) as Hl2s by (intros E; rewrite E in Hin; by apply not_elem_of_nil in Hin).
  unfold process_request. destruct (locate_ok _ (ok_address _ Hl)) as (set & Hloc).
  wp_step. eapply wp_lift_ok; [exact Hloc|]. cbv beta iota. wp_step. wp_step.
  set (k := shr (address l) (set_lsb cfg)) in *.
  destruct (dir s !! k) as [e|] eqn:Hk.
  - rewrite Hcache. wp_steps. unfold access_line, dir_at. wp_steps. rewrite Hk. wp_steps.
    wp_if Hst; [by apply wp_nack|].
    destruct (ok_type _ Hl) as [Ht|Ht]; rewrite Ht; [by eapply wp_read_line|by eapply wp_dir_write_line].
  - unfold first_access. rewrite Hcache. wp_steps. cbn [negb]. wp_step. eapply wp_lift_ok; [exact Htop|].
    unfold to_mc. wp_steps. split.
    + eapply good_set_entry; [exact Hs| |reflexivity|done]. constructor; cbn.
      * destruct (ok_type _ Hl) as [Ht|Ht]; rewrite Ht; unfold state_ok; cbn; rewrite size_singleton; by try split.
      * set_solver.
      * done.
      * assert (1 ≤ length (l2s cfg))%nat by (destruct (l2s cfg); [done|cbn; lia]). lia.
    + eapply fate_memory; [done|reflexivity|]. rewrite Hf. cbn. apply list_elem_of_fmap_2.
      apply elem_of_set_iter. set_solver.
Qed.

(** *** A write that has to invalidate copies *)

Lemma set_iter_singleton c : set_iter ({[c]} : gset Comp) = [c].
Proof.
  pose proof (set_iter_perm ({[c]} : gset Comp)) as H. rewrite elements_singleton in H.
  by apply Permutation_singleton_r in H.
Qed.

Lemma size_one (X : gset Comp) : size X = 1%nat → ∃ c, X = {[c]}.
Proof. intros (c & Hc)%size_1_elem_of. exists c. by apply leibniz_equiv. Qed.

Definition may_write (e : DirEntry) (w : Comp) : Prop :=
  cs_type e = cs_shared ∨ (cs_type e = cs_exclusive ∨ cs_type e = cs_modified) ∧ w ∉ sharedl2 e.

Lemma wp_write_asks s now l e w :
  good s → request_ok l → type l = et_write → head (from l) = Some w →
  dir s !! shr (address l) (set_lsb cfg) = Some e → may_write e w → use_limitless cfg = false → got_cl e = false →
  wp no_failure (process_request cfg now l) s (λ _ s' o,
    dir s' = <[shr (address l) (set_lsb cfg) := e <| pending := Some l |> <| cs_type := cs_tr_to_m |>]> (dir s) ∧
    o = invalidation now (address l) (th_id l) (sharedl2 e) <$> set_iter (sharedl2 e)).
Proof.
  intros Hs Hl Hty Hw Hk Hmay Hlim Hgot.
  unfold process_request. destruct (locate_ok _ (ok_address _ Hl)) as (set & Hloc).
  wp_step. eapply wp_lift_ok; [exact Hloc|]. cbv beta iota. wp_step. wp_step. rewrite Hk, Hcache. wp_steps.
  unfold access_line, dir_at. wp_steps. rewrite Hk. wp_steps.
  assert (in_transition (cs_type e) = false) as -> by (by destruct Hmay as [-> |[[-> | ->] _]]).
  rewrite Hty. pose proof (entry_ok_of _ _ _ Hs Hk) as [Hst _ _ _]. unfold state_ok in Hst.
  assert (from_top l = Ok w) as Htop by (unfold from_top; by rewrite Hw).
  unfold write_line. destruct Hmay as [Hc|[Hc Hnin]].
  - rewrite Hc in *. unfold write_shared. rewrite Hlim. destruct Hst as [Hne Hp].
    rewrite bool_decide_eq_false_2 by done. wp_steps. eapply wp_lift_ok; [done|]. cbn [andb].
    eapply wp_mono; [apply wp_invalidate_all|]. cbv beta. by intros _ s' o (-> & _ & ->).
  - assert (size (sharedl2 e) = 1%nat ∧ pending e = None) as [Hsz Hp]
      by (by destruct Hc as [Hc|Hc]; rewrite Hc in Hst).
    destruct (size_one _ Hsz) as (c & Hsh).
    assert (first_sharer e = Ok c) as Hfirst.
    { unfold first_sharer, set_begin. by rewrite Hsh, set_iter_singleton. }
    assert (invalidation now (address l) (th_id l) (sharedl2 e) <$> set_iter (sharedl2 e) =
      [UL_call now c (from_push (this cfg) (new_lqe c et_invalidate (address l) (th_id l))) false]) as ->.
    { rewrite Hsh, set_iter_singleton. cbn. unfold invalidation, invalidation_for, set_begin.
      by rewrite set_iter_singleton, bool_decide_eq_true_2 by done. }
    assert (e <| got_cl := false |> = e) as Hge by (by destruct e; cbn in *; subst).
    destruct Hc as [Hc|Hc]; rewrite Hc; rewrite ?Hp, (bool_decide_eq_true_2 (size _ = _)) by done;
      rewrite ?(bool_decide_eq_true_2 (None = None)) by done; cbn [negb orb]; wp_step;
      (eapply wp_lift_ok; [exact Htop|]); wp_steps; rewrite bool_decide_eq_false_2 by done; wp_steps;
      (eapply wp_lift_ok; [done|]); wp_step; (eapply wp_lift_ok; [exact Hfirst|]); apply wp_invalidate_one;
      (split; [|done]); cbn; f_equal; by destruct e; cbn in *; subst.
Qed.
End Facts.

(** ** The main properties *)

(** A directory in use. *)
Inductive step `{!Addresses} (cfg : config) : state → state → Prop :=
| step_request now l s s' o :
    request_ok cfg l → process_request cfg now l s = Ok (tt, s', o) → step cfg s s'
| step_reply now l s s' o :
    reply_ok cfg s l → process_reply cfg now l s = Ok (tt, s', o) → step cfg s s'.

Lemma init_good cfg : good cfg (init cfg).
Proof. constructor; cbn; [by apply map_Forall_empty|by rewrite length_replicate]. Qed.

(** C16: the coherence rule.  A write to a line other L2s hold sends each of them one
    invalidation (the first is asked for the data) and is held; whatever the order in which
    they acknowledge, the last acknowledgement releases the write, once: with the data if
    one of them had it, otherwise by reading the memory, and the writer is the only
    sharer. *)
Theorem dir_invalidation_round `{!Addresses} cfg s now now' l e w acks cs :
  0 ≤ set_lsb cfg < 64 → 0 < num_sets cfg → has_directory_cache cfg = false → use_limitless cfg = false →
  good cfg s → request_ok cfg l → type l = et_write → head (from l) = Some w →
  let k := shr (address l) (set_lsb cfg) in
  dir s !! k = Some e → may_write e w → got_cl e = false →
  cs ≡ₚ set_iter (sharedl2 e) → Forall2 (ack_of cfg k) cs acks →
  ∃ s1 s2 o e',
    process_request cfg now l s =
      Ok (tt, s1, invalidation cfg now (address l) (th_id l) (sharedl2 e) <$> set_iter (sharedl2 e)) ∧
    for_each acks (process_reply cfg now') s1 = Ok (tt, s2, o) ∧
    dir s2 = <[k := e']> (dir s) ∧ sharedl2 e' = {[w]} ∧ pending e' = None ∧
    cs_type e' = (if has_data acks then cs_modified else cs_tr_to_m) ∧
    filter (λ c, call_lqe c ≠ None) o = [release_call cfg now' w l (has_data acks)].
Proof.
  intros Hlsb Hsets Hcache Hlim Hs Hl Hty Hw k Hk Hmay Hgot Hcs Hacks.
  destruct (wp_total _ _ _ (wp_write_asks cfg Hlsb Hsets Hcache s now l e w Hs Hl Hty Hw Hk Hmay Hlim Hgot))
    as ([] & s1 & o1 & Hrun1 & Hd1 & ->).
  assert (sharedl2 e ≠ ∅) as Hne.
  { pose proof (entry_ok_of _ _ _ _ Hs Hk) as [Hst _ _ _]. unfold state_ok in Hst. intros E. rewrite E in Hst.
    rewrite size_empty in Hst. by destruct Hmay as [Hc|[[Hc|Hc] _]]; rewrite Hc in Hst; destruct Hst. }
  set (e1 := e <| pending := Some l |> <| cs_type := cs_tr_to_m |>) in *.
  destruct (wp_total _ _ _ (wp_acks cfg Hlsb Hsets Hcache (λ _, False) now' k l w acks cs s1 e1
    (eq_trans (f_equal (lookup k) Hd1) (lookup_insert_eq _ _ _)) eq_refl eq_refl Hw
    ltac:(cbn; apply set_eq; intros c; rewrite elem_of_list_to_set, Hcs; by rewrite elem_of_set_iter)
    ltac:(rewrite Hcs; apply set_iter_NoDup)
    ltac:(intros ->; apply Permutation_nil_l in Hcs; apply Hne, set_eq; intros c;
          rewrite <- elem_of_set_iter, <- Hcs; set_solver) Hacks))
    as ([] & s2 & o2 & Hrun2 & e2 & Hd2 & Hsh2 & Hp2 & Hc2 & Ho2).
  exists s1, s2, o2, e2. cbn in Hc2, Ho2. rewrite Hgot in Hc2, Ho2. cbn in Hc2, Ho2.
  split_and!; [done|done| |done..]. rewrite Hd2, Hd1. apply insert_insert_eq.
Qed.

(** C39: without a directory cache no request is lost and the look-up never fails: a request
    goes to the memory, is refused, is granted, or is held (nothing else was held for the
    line) while at least one L2 is asked. *)
Theorem dir_request_served `{!Addresses} cfg s now l :
  0 ≤ set_lsb cfg < 64 → 0 < num_sets cfg → has_directory_cache cfg = false →
  good cfg s → request_ok cfg l →
  ∃ s' o, process_request cfg now l s = Ok (tt, s', o) ∧ good cfg s' ∧
    request_fate cfg now (shr (address l) (set_lsb cfg)) l s s' o.
Proof.
  intros Hlsb Hsets Hcache Hs Hl.
  destruct (wp_total _ _ _ (request_total cfg Hlsb Hsets Hcache s now l Hs Hl)) as ([] & s' & o & Hfate).
  by exists s', o.
Qed.

(** C15: in every reachable state of a directory without a directory cache an exclusive or
    modified line has one sharer, a shared one at least one, and a line in transition holds
    the request it waits for; and no expected reply leads to undefined behaviour. *)
Theorem dir_reachable_safe `{!Addresses} cfg s :
  0 ≤ set_lsb cfg < 64 → 0 < num_sets cfg → has_directory_cache cfg = false →
  rtc (step cfg) (init cfg) s →
  good cfg s ∧ ∀ now l, reply_ok cfg s l → process_reply cfg now l s ≠ Err Undef.
Proof.
  intros Hlsb Hsets Hcache Hr. assert (good cfg s) as Hs.
  { pose proof (init_good cfg) as Hi. revert Hi. induction Hr as [|s1 s2 s3 Hstep _ IH]; [done|].
    intros H1. apply IH. destruct Hstep as [now l s s' o Hl Hrun|now l s s' o Hl Hrun].
    - eapply (wp_run _ _ _ (λ _ s' o, good cfg s' ∧ _)) in Hrun; [exact (proj1 Hrun)|by eapply request_total].
    - eapply (wp_run _ _ _ (λ _ s' _, good cfg s')) in Hrun; [exact Hrun|by eapply reply_safe]. }
  split; [done|]. intros now l Hl Herr.
  pose proof (reply_safe cfg Hlsb Hsets Hcache s now l Hs Hl) as Hsafe. unfold wp in Hsafe. by rewrite Herr in Hsafe.
Qed.

(** The directory cache evicts from the front, where the entry used last is, and
    reports the eviction with the address of the line that needs the room. *)
Theorem dir_cache_evicts_newest `{!Addresses} cfg s now set k a t k0 ks e0 :
  vec_get (dir_cache s) set = Ok (k0 :: ks) → Z.of_nat (length (k0 :: ks)) = num_ways cfg →
  dir s !! k0 = Some e0 → stays e0 = false →
  ∃ s', make_room cfg now set k a t s = Ok (true, s', [mc_call cfg now (new_lqe (this cfg) t a 0)]) ∧
    dir_cache s' = vec_set set (k :: ks) (dir_cache s) ∧ dir s' = dir s.
Proof.
  intros Hget Hlen Hk He. assert (wp no_failure (make_room cfg now set k a t) s (λ b s' o, b = true ∧
    o = [mc_call cfg now (new_lqe (this cfg) t a 0)] ∧ dir_cache s' = vec_set set (k :: ks) (dir_cache s) ∧
    dir s' = dir s)) as Hwp.
  { unfold make_room. wp_steps. eapply wp_lift_ok; [exact Hget|]. rewrite Hlen, Z.eqb_refl.
    cbn [find_victim]. unfold dir_at. wp_steps. rewrite Hk. wp_steps. rewrite He. wp_steps.
    unfold to_mc. apply wp_when; intros _; wp_steps; (split; [done|]); (split; [done|]);
      (split; [|done]); unfold vec_set; cbn; by rewrite (vec_alter_const _ _ _ _ Hget). }
  apply wp_total in Hwp as (b & s' & o & Hrun & -> & -> & Hd & Hd'). by exists s'.
Qed.

(** When the directory information arrives from the memory, the request that waited for
    it resumes, but the address is read from the message just deleted: a read that has to
    ask an L2 is undefined behaviour. *)
Theorem dir_resumed_read_undefined `{!Addresses} cfg s now l set k ks e p w :
  has_directory_cache cfg = true → locate cfg (address l) = Ok (k, set) → type l = et_rd_dir_info_req →
  vec_get (dir_cache s) set = Ok ks → k ∈ ks → dir s !! k = Some e →
  cs_type e = cs_exclusive ∨ cs_type e = cs_shared → size (sharedl2 e) = 1%nat → pending e = Some p →
  type p = et_read → head (from p) = Some w → w ∉ sharedl2 e →
  process_request cfg now l s = Err Undef.
Proof.
  intros Hdc Hloc Hty Hget Hin Hk Hc Hsz Hp Htp Hw Hnin.
  assert (wp (λ f, f = Undef) (process_request cfg now l) s (λ _ _ _, False)) as Hwp.
  { unfold process_request. wp_step. eapply wp_lift_ok; [exact Hloc|]. cbv beta iota. wp_steps.
    rewrite Hk, Hdc. wp_step. unfold cache_request, cached. wp_steps. eapply wp_lift_ok; [exact Hget|].
    wp_step. rewrite bool_decide_eq_true_2 by done. wp_steps. unfold dir_at. wp_steps. cbn. rewrite Hk. wp_steps.
    rewrite Hty, bool_decide_eq_true_2 by done. wp_steps. eapply wp_lift_ok; [by rewrite Hp|]. wp_steps.
    unfold access_line, dir_at. wp_steps. cbn. rewrite lookup_insert_eq. wp_steps. cbn.
    assert (in_transition (cs_type e) = false) as -> by (by destruct Hc as [-> | ->]).
    rewrite Htp. unfold read_line. wp_step. eapply wp_lift_ok; [unfold from_top; by rewrite Hw|].
    cbn. rewrite bool_decide_eq_false_2 by done.
    destruct Hc as [Hc|Hc]; rewrite Hc; rewrite ?(bool_decide_eq_true_2 (size _ = _)) by done; cbn [negb];
      wp_steps; by apply wp_lift; intros; simplify_eq. }
  unfold wp in Hwp. destruct (process_request cfg now l s) as [[[? ?] ?]|f]; [done|by subst].
Qed.

(** ** Concrete runs *)

#[local] Existing Instance code_addresses.

Definition l2 (n : Z) : Comp := Build_Comp ct_cachel2 n.

Definition example_config (cached : bool) : config :=
  {| this := Build_Comp ct_directory 0; memorycontroller := Build_Comp ct_memory_controller 0;
     cachel2 := l2 0; crossbar := Build_Comp ct_crossbar 0; l2s := [l2 0; l2 1; l2 2];
     process_interval := 50; set_lsb := 6; num_sets := 1; num_ways := 1; dir_to_mc_t := 450;
     dir_to_l2_t := 140; dir_to_xbar_t := 350; num_flits_per_packet := 1;
     has_directory_cache := cached; use_limitless := false; limitless_broadcast_threshold := 4 |}.

Definition message (t : event_type) (a : Z) (st : list Comp) : LQE :=
  {| from := st; type := t; address := a; th_id := 0; dummy := false; rob_entry := -1 |}.

Definition shared_entry : DirEntry :=
  {| cs_type := cs_shared; sharedl2 := {[l2 0; l2 1]}; pending := None; got_cl := false;
     not_in_dc := false; num_sharer := 2 |}.
Definition shared_state : state := (init (example_config false)) <| dir := {[1 := shared_entry]} |>.

Lemma shared_good : good (example_config false) shared_state.
Proof.
  constructor; [|done]. apply map_Forall_singleton. constructor; [|set_solver|done|cbn; lia].
  split; [cbn; set_solver|done].
Qed.

Lemma dir_example_request ty n : ty = et_read ∨ ty = et_write → n ∈ [0; 1; 2] →
  request_ok (example_config false) (message ty 64 [l2 n]).
Proof.
  intros Ht Hn. constructor; [done| |done]. exists (l2 n). split; [done|]. cbn. set_solver.
Qed.

Definition example_acks : list LQE :=
  (λ c, message (invalidation_for (sharedl2 shared_entry) c) 64 [this (example_config false); c]) <$>
    set_iter (sharedl2 shared_entry).

Lemma dir_invalidation_round_witness :
  ∃ s1 s2 o e',
    process_request (example_config false) 100 (message et_write 64 [l2 2]) shared_state =
      Ok (tt, s1, invalidation (example_config false) 100 64 0 (sharedl2 shared_entry) <$>
                    set_iter (sharedl2 shared_entry)) ∧
    for_each example_acks (process_reply (example_config false) 200) s1 = Ok (tt, s2, o) ∧
    dir s2 = <[1 := e']> (dir shared_state) ∧ sharedl2 e' = {[l2 2]} ∧ pending e' = None ∧
    cs_type e' = (if has_data example_acks then cs_modified else cs_tr_to_m) ∧
    filter (λ c, call_lqe c ≠ None) o =
      [release_call (example_config false) 200 (l2 2) (message et_write 64 [l2 2]) (has_data example_acks)].
Proof.
  apply (dir_invalidation_round (example_config false) shared_state 100 200 (message et_write 64 [l2 2])
    shared_entry (l2 2) example_acks (set_iter (sharedl2 shared_entry)));
    [done|done|done|done|apply shared_good|apply dir_example_request; [by right|set_solver]|done|done|done
    |by left|done|done|].
  apply Forall2_fmap_r, Forall_Forall2_diag, Forall_forall. intros c Hc%elem_of_set_iter.
  split; [|split; [done|split; [done|by eexists _, []]]].
  unfold invalidation_for. cbn. case_bool_decide; [by left|]. rewrite bool_decide_eq_true_2 by done. by right.
Defined.

Lemma dir_request_served_witness :
  ∃ s' o, process_request (example_config false) 100 (message et_read 64 [l2 2]) shared_state = Ok (tt, s', o) ∧
    good (example_config false) s' ∧
    request_fate (example_config false) 100 1 (message et_read 64 [l2 2]) shared_state s' o.
Proof.
  apply (dir_request_served (example_config false) shared_state 100 (message et_read 64 [l2 2]));
    [done|done|done|apply shared_good|apply dir_example_request; [by left|set_solver]].
Defined.

Lemma dir_reachable_safe_witness :
  ∃ s, rtc (step (example_config false)) (init (example_config false)) s ∧ dir s ≠ ∅ ∧
    good (example_config false) s ∧
    ∀ now l, reply_ok (example_config false) s l → process_reply (example_config false) now l s ≠ Err Undef.
Proof.
  assert (∃ s, rtc (step (example_config false)) (init (example_config false)) s ∧ dir s ≠ ∅) as (s & Hr & Hne).
  { destruct (process_request (example_config false) 100 (message et_read 64 [l2 2]) (init (example_config false)))
      as [[[[] s'] o]|f] eqn:E.
    - exists s'. split.
      + eapply rtc_once, (step_request _ 100 (message et_read 64 [l2 2])); [|exact E].
        apply dir_example_request; [by left|set_solver].
      + assert (match process_request (example_config false) 100 (message et_read 64 [l2 2])
          (init (example_config false)) with Ok (_, s, _) => size (dir s) = 1%nat | Err _ => True end) as H
          by (vm_compute; reflexivity).
        rewrite E in H. intros Hd. by rewrite Hd in H.
    - assert (match process_request (example_config false) 100 (message et_read 64 [l2 2])
        (init (example_config false)) with Ok _ => True | Err _ => False end) as H by (vm_compute; exact I).
      by rewrite E in H. }
  exists s. split; [exact Hr|]. split; [exact Hne|].
  apply (dir_reachable_safe (example_config false) s); [done|done|done|exact Hr].
Defined.

Definition cached_state : state :=
  (init (example_config true)) <| dir := {[2 := shared_entry]} |> <| dir_cache := [[2]] |>.

Lemma dir_cache_evicts_newest_witness :
  ∃ s', make_room (example_config true) 100 0 1 64 et_dir_evict cached_state =
      Ok (true, s', [mc_call (example_config true) 100 (new_lqe (this (example_config true)) et_dir_evict 64 0)]) ∧
    dir_cache s' = vec_set 0 [1] (dir_cache cached_state) ∧ dir s' = dir cached_state.
Proof.
  apply (dir_cache_evicts_newest (example_config true) cached_state 100 0 1 64 et_dir_evict 2 [] shared_entry); done.
Defined.

Definition resuming_state : state :=
  (init (example_config true))
    <| dir := {[1 := shared_entry <| sharedl2 := {[l2 0]} |>
                                  <| pending := Some (message et_read 64 [l2 2]) |>
                                  <| not_in_dc := true |>]} |>
    <| dir_cache := [[1]] |>.

Lemma dir_resumed_read_undefined_witness :
  process_request (example_config true) 100 (message et_rd_dir_info_req 64 [this (example_config true)])
    resuming_state = Err Undef.
Proof.
  apply (dir_resumed_read_undefined (example_config true) resuming_state 100
    (message et_rd_dir_info_req 64 [this (example_config true)]) 0 1 [1]
    (shared_entry <| sharedl2 := {[l2 0]} |> <| pending := Some (message et_read 64 [l2 2]) |>
                  <| not_in_dc := true |>) (message et_read 64 [l2 2]) (l2 2));
    [done|done|done|done|set_solver|done|by right|done|done|done|done|cbn; set_solver].
Defined.
End Directory.
