(* ===== verification/O3Core.v ===== *)
(** * The cores (BranchPredictor and O3Core, PTSO3Core.h and PTSO3Core.cc)

    A core takes instructions from its queue to the reorder buffer once their cache line
    is loaded, executes those whose dependencies are resolved, sends the memory accesses
    to the data cache and retires in order.  Queue and reorder buffer are circular
    arrays; dependencies are slot numbers. *)

From S2P Require Export Component Ring.

(** [enum ins_type] (McSim.h). *)
Inductive ins_type : Set :=
| mem_rd | mem_2nd_rd | mem_wr | no_mem | ins_branch_taken | ins_branch_not_taken
| ins_lock | ins_unlock | ins_barrier | ins_x87 | ins_notify | ins_waitfor | ins_invalid.

#[export] Instance ins_type_eq_dec : EqDecision ins_type.
Proof. solve_decision. Defined.

Module BranchPredictor.

Record state := {
  num_entries : Z;
  gp_size : Z;
  bimodal_entry : list Z;
  global_history : Z }.

(** The constructor. *)
Definition init (num_entries gp_size : Z) : state :=
  {| num_entries := num_entries; gp_size := gp_size;
     bimodal_entry := replicate (Z.to_nat num_entries) 1; global_history := 0 |}.

(** [x << n] for a shift amount computed at run time: undefined from 64 on. *)
Definition c_shl (x n : Z) : outcome Z := if n <? 64 then Ok (shl64 x n) else Err Undef.

(** The two-bit counter after a branch. *)
Definition next_entry (curr_entry : Z) (taken : bool) : Z :=
  if (curr_entry =? 0) && negb taken then 0
  else if (curr_entry =? 3) && taken then 3
  else if taken then curr_entry ⊕₃₂ 1 else curr_entry ⊖₃₂ 1.

(** [BranchPredictor::miss]. *)
Definition miss (addr : Z) (taken : bool) (s : state) : outcome (bool * state) :=
  let h := if gp_size s =? 0 then 0
           else u64 (shl64 (global_history s) 1 + (if taken then 1 else 0)) in
  shifted ← c_shl h (64 ⊖₃₂ gp_size s);
  let addr := Z.lxor addr shifted in
  if num_entries s =? 0 then Err Undef
  else
    let i := addr mod num_entries s in
    curr_entry ← vec_get (bimodal_entry s) i;
    let missed := ((1 <? curr_entry) && negb taken) || ((curr_entry <? 2) && taken) in
    mret (missed, s <| global_history := h |>
                    <| bimodal_entry ::= vec_set i (next_entry curr_entry taken) |>).
End BranchPredictor.

Module O3Core.
Import Ring.

Inductive o3_instr_queue_state : Set :=
| o3iqs_not_in_queue | o3iqs_being_loaded | o3iqs_ready | o3iqs_invalid.
Inductive o3_instr_rob_state : Set :=
| o3irs_issued | o3irs_executing | o3irs_completed | o3irs_invalid.

#[export] Instance queue_state_eq_dec : EqDecision o3_instr_queue_state.
Proof. solve_decision. Defined.
#[export] Instance rob_state_eq_dec : EqDecision o3_instr_rob_state.
Proof. solve_decision. Defined.

(** [class O3Queue]: an instruction that was fetched. *)
Record O3Queue := {
  q_state : o3_instr_queue_state;
  q_ready_time : Z;
  waddr : Z; wlen : Z;
  raddr : Z; raddr2 : Z; rlen : Z;
  q_ip : Z;
  q_type : ins_type;
  q_rr0 : Z; q_rr1 : Z; q_rr2 : Z; q_rr3 : Z;
  q_rw0 : Z; q_rw1 : Z; q_rw2 : Z; q_rw3 : Z }.

(** [class O3ROB]: a memory access of an instruction, or an instruction without one. *)
Record O3ROB := {
  r_state : o3_instr_rob_state;
  r_ready_time : Z;
  r_ip : Z;
  memaddr : Z;
  isread : bool;
  branch_miss : bool;
  mem_dep : Z; instr_dep : Z; branch_dep : Z;
  r_type : ins_type;
  r_rr0 : Z; r_rr1 : Z; r_rr2 : Z; r_rr3 : Z;
  r_rw0 : Z; r_rw1 : Z; r_rw2 : Z; r_rw3 : Z }.

Record config := {
  this : Comp;
  cachel1d : Comp;
  cachel1i : Comp;
  tlbl1d : Comp;
  tlbl1i : Comp;
  l1i_set_lsb : Z;
  skip_all_instrs : bool;
  process_interval : Z;
  num_hthreads : Z;
  lsu_to_l1i_t : Z;
  lsu_to_l1d_t : Z;
  spinning_slowdown : Z;
  bypass_tlb : bool;
  consecutive_nack_threshold : Z;
  mimick_inorder : bool;
  o3queue_max_size : Z;
  o3rob_max_size : Z;
  max_issue_width : Z;
  max_commit_width : Z;
  max_alu : Z;
  max_ldst : Z;
  max_ld : Z;
  max_st : Z;
  max_sse : Z;
  branch_miss_penalty : Z;
  lock_t : Z;
  unlock_t : Z;
  barrier_t : Z;
  sse_t : Z }.

(** The constructor; [CHECK_GE(o3rob_max_size, 4)].  [hthreads] is the parameter
    [pts.num_hthreads], [lsb] the line size of the instruction cache. *)
Definition make_config (p : params) (c l1d l1i tlbd tlbi : Comp) (lsb hthreads : Z) (skip : bool)
    : outcome config :=
  let get := get_param_uint64 p (c_type c) in
  let pi := get "process_interval"%string 80 in
  let commit := get "max_commit_width"%string 4 in
  bmp ← ceil_by_y (get "branch_miss_penalty"%string 100) pi;
  lock ← ceil_by_y (get "lock_t"%string 100) pi;
  unlock ← ceil_by_y (get "unlock_t"%string 100) pi;
  barrier ← ceil_by_y (get "barrier_t"%string 100) pi;
  if get "o3rob_max_size"%string 16 <? 4 then Err Fatal
  else Ok
  {| this := c; cachel1d := l1d; cachel1i := l1i; tlbl1d := tlbd; tlbl1i := tlbi;
     l1i_set_lsb := lsb; skip_all_instrs := skip; process_interval := pi;
     num_hthreads := hthreads;
     lsu_to_l1i_t := get "to_l1i_t"%string 10;
     lsu_to_l1d_t := get "to_l1d_t"%string 10;
     spinning_slowdown := get "spinning_slowdown"%string 10;
     bypass_tlb := get_param_bool p (c_type c) "bypass_tlb"%string false;
     consecutive_nack_threshold := get "consecutive_nack_threshold"%string 1000;
     mimick_inorder := get_param_bool p (c_type c) "mimick_inorder"%string false;
     o3queue_max_size := get "o3queue_max_size"%string 64 ⊕₃₂ 4;
     o3rob_max_size := get "o3rob_max_size"%string 16;
     max_issue_width := get "max_issue_width"%string 4;
     max_commit_width := commit;
     max_alu := i32 (get "max_alu"%string commit);
     max_ldst := i32 (get "max_ldst"%string commit);
     max_ld := i32 (get "max_ld"%string commit);
     max_st := i32 (get "max_st"%string commit);
     max_sse := i32 (get "max_sse"%string commit);
     branch_miss_penalty := u32 bmp; lock_t := u32 lock; unlock_t := u32 unlock;
     barrier_t := u32 barrier;
     sse_t := get "sse_t"%string 40 |}.

(** [is_migrate_ready] belongs to the simulator and is shared by the cores. *)
Record state := {
  is_active : bool;
  active : bool;
  stack : Z;
  stacksize : Z;
  resume_time : Z;
  num_instrs : Z;
  num_branch : Z;
  num_branch_miss : Z;
  num_nacks : Z;
  num_consecutive_nacks : Z;
  num_call_ops : Z;
  total_mem_wr_time : Z;
  total_mem_rd_time : Z;
  bp : BranchPredictor.state;
  o3queue : list O3Queue;
  o3queue_head : Z;
  o3queue_size : Z;
  o3rob : list O3ROB;
  o3rob_head : Z;
  o3rob_size : Z;
  latest_ip : Z;
  is_migrate_ready : list bool }.

(** The arrays are allocated uninitialised but for the states of their elements: [qs] and
    [rs] are what the allocator left there. *)
Definition init (num_bp_entries gp_size : Z) (qs : list O3Queue) (rs : list O3ROB)
    (cores : nat) : state :=
  {| is_active := false; active := false; stack := 0; stacksize := 0; resume_time := 0;
     num_instrs := 0; num_branch := 0; num_branch_miss := 0; num_nacks := 0;
     num_consecutive_nacks := 0; num_call_ops := 0; total_mem_wr_time := 0;
     total_mem_rd_time := 0;
     bp := BranchPredictor.init num_bp_entries gp_size;
     o3queue := (λ e, e <| q_state := o3iqs_invalid |>) <$> qs;
     o3queue_head := 0; o3queue_size := 0;
     o3rob := (λ e, e <| r_state := o3irs_invalid |>) <$> rs;
     o3rob_head := 0; o3rob_size := 0;
     latest_ip := 0;
     is_migrate_ready := replicate cores false |}.

Definition word_log : Z := 3.

(** [O3Core::IsRegDep]. *)
Definition IsRegDep (rr : Z) (e : O3ROB) : bool :=
  negb (rr =? 0) &&
  ((rr =? r_rw0 e) || (rr =? r_rw1 e) || (rr =? r_rw2 e) || (rr =? r_rw3 e)).

(** [O3Core::is_private]. *)
Definition is_private (addr : Z) (s : state) : bool :=
  (stack s <=? addr) && (addr <? stack s ⊕ stacksize s).

(** The arguments of [McSim::add_instruction], but for the thread and the time. *)
Record instruction := {
  in_waddr : Z; in_wlen : Z; in_raddr : Z; in_raddr2 : Z; in_rlen : Z; in_ip : Z;
  category : Z;
  isbranch : bool; isbranchtaken : bool; islock : bool; isunlock : bool; isbarrier : bool;
  in_rr0 : Z; in_rr1 : Z; in_rr2 : Z; in_rr3 : Z;
  in_rw0 : Z; in_rw1 : Z; in_rw2 : Z; in_rw3 : Z }.

(** The instruction categories are numbered by the XED library. *)
Class XedCategories := {
  XED_CATEGORY_X87_ALU : Z;
  XED_CATEGORY_SSE : Z;
  XED_CATEGORY_CALL : Z }.

(** The result of an entry is not available at [curr_time]. *)
Definition in_flight (curr_time : Z) (e : O3ROB) : bool :=
  negb (bool_decide (r_state e = o3irs_completed) && (r_ready_time e <=? curr_time)).

Section Handlers.
Context (cfg : config).

Definition queue_slot (s : state) (i : Z) : Z := slot (o3queue_max_size cfg) (o3queue_head s) i.
Definition rob_slot (s : state) (i : Z) : Z := slot (o3rob_max_size cfg) (o3rob_head s) i.

Definition set_queue (idx : Z) (f : O3Queue → O3Queue) (s : state) : state :=
  s <| o3queue ::= vec_alter f idx |>.
Definition set_rob (idx : Z) (f : O3ROB → O3ROB) (s : state) : state :=
  s <| o3rob ::= vec_alter f idx |>.

(** [geq->add_event(t, this)]. *)
Definition wake_at (t : Z) : proc call state unit := emit (geq_add_event t (this cfg)).

(** ** Loading instructions: lines 165-185 *)

(** The address of the cache line of [a]. *)
Definition line_of (a : Z) : outcome Z :=
  line ← c_shr a (l1i_set_lsb cfg); Ok (shl64 line (l1i_set_lsb cfg)).

Definition same_line (a b : Z) : outcome bool :=
  x ← c_shr a (l1i_set_lsb cfg); y ← c_shr b (l1i_set_lsb cfg); Ok (x =? y).

(** One round of the loop; the argument and the result are [addr_to_read]. *)
Definition load_one (curr_time addr_to_read i : Z) : proc call state Z :=
  s ← reads (λ s, s);
  let idx := queue_slot s i in
  e ← lift (vec_get (o3queue s) idx);
  if negb (bool_decide (q_state e = o3iqs_not_in_queue)) then mret addr_to_read
  else if addr_to_read =? 0 then
    addr ← lift (line_of (q_ip e));
    _ ← modify (set_queue idx (λ e, e <| q_state := o3iqs_being_loaded |>));
    let lqe := new_lqe (this cfg) et_tlb_rd addr (c_num (this cfg)) in
    _ ← emit (if bypass_tlb cfg
              then Component.add_req_event (cachel1i cfg) (curr_time ⊕ lsu_to_l1i_t cfg)
                     (lqe <| type := et_read |>) None
              else Component.add_req_event (tlbl1i cfg) (curr_time ⊕ lsu_to_l1i_t cfg) lqe None);
    mret addr
  else
    same ← lift (same_line addr_to_read (q_ip e));
    _ ← when same (modify (set_queue idx (λ e, e <| q_state := o3iqs_being_loaded |>)));
    mret addr_to_read.

Fixpoint load_loop (curr_time addr_to_read : Z) (ks : list Z) : proc call state unit :=
  match ks with
  | [] => mret tt
  | i :: ks' => a ← load_one curr_time addr_to_read i; load_loop curr_time a ks'
  end.

(** ** Issue: lines 187-308 *)

(** The newest live slot whose entry satisfies [p], or -1; [js] are the values of [j]. *)
Fixpoint find_newest (p : O3ROB → bool) (s : state) (js : list Z) : outcome Z :=
  match js with
  | [] => Ok (-1)
  | j :: js' =>
      let idx := newest (o3rob_max_size cfg) (o3rob_head s) (o3rob_size s) j in
      e ← vec_get (o3rob s) idx;
      if p e : bool then Ok idx else find_newest p s js'
  end.
Definition newest_such (p : O3ROB → bool) (s : state) : outcome Z :=
  find_newest p s (upto (o3rob_size s)).

(** The access of round [k] of the loop that fills the reorder buffer: 0 and 1 are the
    reads, 2 is the write, and 3 stands for an instruction without a memory access, with
    address 0.  [None]: the round is skipped. *)
Definition access_of (q : O3Queue) (k : Z) : option Z :=
  if k =? 0 then (if raddr q =? 0 then None else Some (raddr q))
  else if k =? 1 then (if raddr2 q =? 0 then None else Some (raddr2 q))
  else if k =? 2 then (if waddr q =? 0 then None else Some (waddr q))
  else if negb (raddr q =? 0) || negb (raddr2 q =? 0) || negb (waddr q =? 0) then None
  else Some 0.

(** What the entries of an instruction share. *)
Record issue_info := {
  i_branch_miss : bool;
  i_branch_dep : Z;
  i_rr0 : Z; i_rr1 : Z; i_rr2 : Z; i_rr3 : Z }.

Definition fill_entry (q : O3Queue) (inf : issue_info) (k addr mdep idep : Z) (e : O3ROB) : O3ROB :=
  e <| memaddr := addr |> <| branch_miss := i_branch_miss inf |> <| isread := k <? 2 |>
    <| mem_dep := mdep |> <| instr_dep := idep |> <| branch_dep := i_branch_dep inf |>
    <| r_type := q_type q |>
    <| r_rr0 := i_rr0 inf |> <| r_rr1 := i_rr1 inf |> <| r_rr2 := i_rr2 inf |> <| r_rr3 := i_rr3 inf |>
    <| r_rw0 := q_rw0 q |> <| r_rw1 := q_rw1 q |> <| r_rw2 := q_rw2 q |> <| r_rw3 := q_rw3 q |>.

Definition same_word (addr : Z) (e : O3ROB) : bool := shr (memaddr e) word_log =? shr addr word_log.

(** A round of the loop over [k]; the accumulator is the pair of [rob_idx] and [instr_dep].
    The first three fields are written even when the round is skipped. *)
Definition fill_one (curr_time : Z) (q : O3Queue) (inf : issue_info) (acc : Z * Z) (k : Z)
    : proc call state (Z * Z) :=
  let '(rob_idx, idep) := acc in
  rob ← reads o3rob;
  _ ← lift (vec_get rob rob_idx);
  _ ← modify (set_rob rob_idx (λ e, e <| r_state := o3irs_issued |>
        <| r_ready_time := curr_time ⊕ process_interval cfg |> <| r_ip := q_ip q |>));
  match access_of q k with
  | None => mret acc
  | Some addr =>
      s ← reads (λ s, s);
      mdep ← lift (if k <? 3
                   then newest_such (λ e, in_flight curr_time e && same_word addr e) s
                   else Ok (-1));
      _ ← modify (set_rob rob_idx (fill_entry q inf k addr mdep idep));
      _ ← modify (λ s, s <| o3rob_size ::= λ n, n ⊕₃₂ 1 |>);
      mret (slot (o3rob_max_size cfg) rob_idx 1, rob_idx)
  end.

Fixpoint fill_loop (curr_time : Z) (q : O3Queue) (inf : issue_info) (acc : Z * Z) (ks : list Z)
    : proc call state unit :=
  match ks with
  | [] => mret tt
  | k :: ks' => acc ← fill_one curr_time q inf acc k; fill_loop curr_time q inf acc ks'
  end.

(** The branch predictor sees every branch once. *)
Definition predict (q : O3Queue) : proc call state bool :=
  if bool_decide (q_type q = ins_branch_taken) || bool_decide (q_type q = ins_branch_not_taken) then
    s ← reads (λ s, s);
    '(missed, b) ← lift (BranchPredictor.miss (q_ip q) (bool_decide (q_type q = ins_branch_taken)) (bp s));
    _ ← modify (λ s, s <| num_branch ::= λ n, n ⊕ 1 |> <| bp := b |>
                       <| num_branch_miss ::= λ n, if missed : bool then n ⊕ 1 else n |>);
    mret missed
  else mret false.

Definition reg_dep (curr_time rr : Z) (s : state) : outcome Z :=
  newest_such (λ e, in_flight curr_time e && IsRegDep rr e) s.

(** The head of the queue is moved to the reorder buffer, if it was loaded. *)
Definition issue_one (curr_time : Z) : proc call state unit :=
  s ← reads (λ s, s);
  let head := o3queue_head s in
  q ← lift (vec_get (o3queue s) head);
  when (bool_decide (q_state q = o3iqs_ready) && (q_ready_time q <=? curr_time))
    (missed ← predict q;
     bdep ← lift (newest_such (λ e, in_flight curr_time e && branch_miss e) s);
     r0 ← lift (reg_dep curr_time (q_rr0 q) s);
     r1 ← lift (reg_dep curr_time (q_rr1 q) s);
     r2 ← lift (reg_dep curr_time (q_rr2 q) s);
     r3 ← lift (reg_dep curr_time (q_rr3 q) s);
     _ ← wake_at (curr_time ⊕ process_interval cfg);
     _ ← fill_loop curr_time q (Build_issue_info missed bdep r0 r1 r2 r3)
           (rob_slot s (o3rob_size s), -1) [0; 1; 2; 3];
     modify (λ s, (set_queue head (λ e, e <| q_state := o3iqs_invalid |>) s)
                    <| o3queue_size ::= λ n, n ⊖₃₂ 1 |>
                    <| o3queue_head := queue_slot s 1 |>)).

Fixpoint issue_loop (curr_time : Z) (width : nat) : proc call state unit :=
  match width with
  | O => mret tt
  | S width' =>
      s ← reads (λ s, s);
      when ((0 <? o3queue_size s) && (o3rob_size s <? o3rob_max_size cfg ⊖₃₂ 3))
        (_ ← issue_one curr_time; issue_loop curr_time width')
  end.

(** ** Execution: lines 310-387 *)

Record counters := { num_alu : Z; num_ldst : Z; num_ld : Z; num_st : Z; num_sse : Z }.

Definition no_deps (e : O3ROB) : bool :=
  (mem_dep e =? -1) && (instr_dep e =? -1) && (branch_dep e =? -1) &&
  (r_rr0 e =? -1) && (r_rr1 e =? -1) && (r_rr2 e =? -1) && (r_rr3 e =? -1).

(** How long an instruction without a memory access takes. *)
Definition latency (e : O3ROB) : Z :=
  match r_type e with
  | ins_lock => lock_t cfg
  | ins_unlock => unlock_t cfg
  | ins_barrier => barrier_t cfg
  | ins_x87 => sse_t cfg
  | _ => if branch_miss e then branch_miss_penalty cfg ⊕₃₂ process_interval cfg
         else process_interval cfg
  end.

(** [state = o3irs_completed; ready_time = t; geq->add_event(t, this)]. *)
Definition complete (idx t : Z) : proc call state unit :=
  _ ← modify (set_rob idx (λ e, e <| r_state := o3irs_completed |> <| r_ready_time := t |>));
  wake_at t.

(** The access of an entry is sent to the TLB, or to the cache when TLBs are bypassed. *)
Definition send_access (curr_time idx : Z) (e : O3ROB) : proc call state unit :=
  _ ← modify (set_rob idx (λ e, e <| r_state := o3irs_executing |>));
  let lqe := (new_lqe (this cfg) et_tlb_rd (memaddr e) (c_num (this cfg))) <| rob_entry := idx |> in
  emit (if bypass_tlb cfg
        then Component.add_req_event (cachel1d cfg) (curr_time ⊕ lsu_to_l1d_t cfg)
               (lqe <| type := if isread e then et_read else et_write |>) None
        else Component.add_req_event (tlbl1d cfg) (curr_time ⊕ lsu_to_l1d_t cfg) lqe None).

(** The next cycle is asked for before a [break]. *)
Definition stall (curr_time : Z) (c : counters) : proc call state (counters * bool) :=
  _ ← wake_at (curr_time ⊕ process_interval cfg); mret (c, true).

(** One round of the loop; the boolean of the result is true for [break]. *)
Definition exec_one (curr_time i : Z) (c : counters) : proc call state (counters * bool) :=
  s ← reads (λ s, s);
  let idx := rob_slot s i in
  e ← lift (vec_get (o3rob s) idx);
  if bool_decide (r_state e = o3irs_issued) && (r_ready_time e <=? curr_time) then
    match r_type e with
    | ins_notify =>
        if i =? 0 then
          _ ← complete idx (curr_time ⊕ barrier_t cfg);
          _ ← lift (vec_get (is_migrate_ready s) (r_rw0 e));
          _ ← modify (λ s, s <| is_migrate_ready ::= vec_set (r_rw0 e) true |>);
          mret (c, false)
        else stall curr_time c
    | ins_waitfor =>
        ready ← lift (if i =? 0 then vec_get (is_migrate_ready s) (r_rw0 e) else Ok false);
        if ready : bool then
          _ ← complete idx (curr_time ⊕ process_interval cfg);
          _ ← modify (λ s, s <| is_migrate_ready ::= vec_set (r_rw0 e) false |>);
          mret (c, false)
        else stall curr_time c
    | _ =>
        if no_deps e then
          if (memaddr e =? 0) && (num_alu c <? max_alu cfg) &&
             (negb (bool_decide (r_type e = ins_x87)) || (num_sse c <? max_sse cfg)) then
            _ ← complete idx (curr_time ⊕ latency e);
            mret (c <| num_alu ::= λ n, n + 1 |>
                    <| num_sse ::= λ n, n + (if bool_decide (r_type e = ins_x87) then 1 else 0) |>, false)
          else if negb (memaddr e =? 0) && (num_ldst c <? max_ldst cfg) &&
                  ((isread e && (num_ld c <? max_ld cfg)) ||
                   (negb (isread e) && (num_st c <? max_st cfg))) then
            _ ← send_access curr_time idx e;
            mret (c <| num_ldst ::= λ n, n + 1 |>
                    <| num_ld ::= λ n, if isread e then n + 1 else n |>
                    <| num_st ::= λ n, if isread e then n else n + 1 |>, false)
          else mret (c, false)
        else if mimick_inorder cfg then stall curr_time c
        else mret (c, false)
    end
  else if mimick_inorder cfg then stall curr_time c
  else mret (c, false).

Fixpoint exec_loop (curr_time : Z) (ks : list Z) (c : counters) : proc call state unit :=
  match ks with
  | [] => mret tt
  | i :: ks' =>
      '(c, stop) ← exec_one curr_time i c;
      if stop : bool then mret tt else exec_loop curr_time ks' c
  end.

(** ** Wake-up: lines 389-412 *)

Definition clear_dep (idx d : Z) : Z := if d =? idx then -1 else d.
Definition clear_deps (idx : Z) (e : O3ROB) : O3ROB :=
  e <| mem_dep ::= clear_dep idx |> <| instr_dep ::= clear_dep idx |>
    <| branch_dep ::= clear_dep idx |>
    <| r_rr0 ::= clear_dep idx |> <| r_rr1 ::= clear_dep idx |>
    <| r_rr2 ::= clear_dep idx |> <| r_rr3 ::= clear_dep idx |>.

Definition wake_next (idx j : Z) : proc call state unit :=
  s ← reads (λ s, s);
  let next_idx := rob_slot s j in
  e ← lift (vec_get (o3rob s) next_idx);
  when (bool_decide (r_state e = o3irs_issued)) (modify (set_rob next_idx (clear_deps idx))).

Definition wake_one (curr_time i : Z) : proc call state unit :=
  s ← reads (λ s, s);
  let idx := rob_slot s i in
  e ← lift (vec_get (o3rob s) idx);
  when (bool_decide (r_state e = o3irs_completed) && (r_ready_time e =? curr_time))
    (_ ← wake_at (curr_time ⊕ process_interval cfg);
     for_each (seqZ (i + 1) (o3rob_size s - (i + 1))) (wake_next idx)).

(** ** Commit: lines 414-427 *)

Definition retires (curr_time : Z) (e : O3ROB) : bool :=
  bool_decide (r_state e = o3irs_completed) && (r_ready_time e <=? curr_time).

Fixpoint commit_loop (curr_time : Z) (width : nat) : proc call state unit :=
  match width with
  | O => mret tt
  | S width' =>
      s ← reads (λ s, s);
      when (0 <? o3rob_size s)
        (e ← lift (vec_get (o3rob s) (o3rob_head s));
         _ ← when (retires curr_time e)
               (modify (λ s, (set_rob (o3rob_head s) (λ e, e <| r_state := o3irs_invalid |>) s)
                               <| o3rob_size ::= λ n, n ⊖₃₂ 1 |>
                               <| o3rob_head := rob_slot s 1 |>));
         commit_loop curr_time width')
  end.

Definition commit_more (curr_time : Z) : proc call state unit :=
  s ← reads (λ s, s);
  when (0 <? o3rob_size s)
    (e ← lift (vec_get (o3rob s) (o3rob_head s));
     when (retires curr_time e) (wake_at (curr_time ⊕ process_interval cfg))).

(** ** The handlers *)

Definition cycle (curr_time : Z) : proc call state unit :=
  s ← reads (λ s, s);
  _ ← load_loop curr_time 0 (upto (o3queue_size s));
  _ ← issue_loop curr_time (Z.to_nat (max_issue_width cfg));
  s ← reads (λ s, s);
  _ ← exec_loop curr_time (upto (o3rob_size s)) (Build_counters 0 0 0 0 0);
  _ ← for_each (upto (o3rob_size s)) (wake_one curr_time);
  _ ← commit_loop curr_time (Z.to_nat (max_commit_width cfg));
  commit_more curr_time.

(** The hardware thread that needs instructions, or [num_hthreads]. *)
Definition process_event (curr_time : Z) : proc call state Z :=
  _ ← when (skip_all_instrs cfg)
        (modify (λ s, s <| o3queue_size := 0 |> <| resume_time := curr_time |>));
  s ← reads (λ s, s);
  if (o3queue_size s <=? shr (o3queue_max_size cfg) 1) && active s then
    _ ← wake_at curr_time; mret (c_num (this cfg))
  else
    _ ← cycle curr_time; mret (num_hthreads cfg).

(** [while (!from.empty()) from.pop(); from.push(this); type = t]. *)
Definition readdress (t : event_type) (l : LQE) : LQE :=
  l <| from := [this cfg] |> <| type := t |>.

(** A negative acknowledgement is counted; too many in a row end the simulation. *)
Definition count_nack (event_time : Z) : proc call state unit :=
  modify (λ s, s <| num_nacks ::= λ n, n ⊕ 1 |> <| num_consecutive_nacks ::= λ n, n ⊕ 1 |>
                 <| resume_time := event_time |>).
Definition check_nacks : proc call state unit :=
  s ← reads (λ s, s);
  if consecutive_nack_threshold cfg <? num_consecutive_nacks s then fails Fatal else mret tt.

(** [event_time + lat + spinning_slowdown*process_interval]; the product is of 32-bit numbers. *)
Definition retry_time (event_time lat : Z) : Z :=
  event_time ⊕ lat ⊕ (spinning_slowdown cfg ⊗₃₂ process_interval cfg).

(** An instruction line arrived. *)
Definition loaded_one (addr aligned i : Z) : proc call state unit :=
  s ← reads (λ s, s);
  let idx := queue_slot s i in
  e ← lift (vec_get (o3queue s) idx);
  if bool_decide (q_state e = o3iqs_being_loaded) then
    same ← lift (same_line addr (q_ip e));
    when same (modify (set_queue idx (λ e, e <| q_state := o3iqs_ready |> <| q_ready_time := aligned |>)))
  else mret tt.

(** The messages of the instruction side. *)
Definition add_req_event (event_time : Z) (local_event : LQE) : proc call state unit :=
  match type local_event with
  | et_tlb_rd =>
      _ ← modify (λ s, s <| resume_time := event_time |> <| latest_ip := address local_event |>);
      emit (Component.add_req_event (cachel1i cfg) (event_time ⊕ lsu_to_l1i_t cfg)
              (readdress et_read local_event) None)
  | et_nack =>
      _ ← count_nack event_time;
      _ ← emit (Component.add_req_event (cachel1i cfg) (retry_time event_time (lsu_to_l1i_t cfg))
                  (readdress et_read local_event) None);
      check_nacks
  | _ =>
      aligned ← lift (ceil_by_y event_time (process_interval cfg));
      _ ← wake_at aligned;
      _ ← modify (λ s, s <| num_consecutive_nacks := 0 |>);
      s ← reads (λ s, s);
      _ ← for_each (upto (o3queue_size s)) (loaded_one (address local_event) aligned);
      _ ← emit (update_os_page_req_dist (address local_event));
      emit (free_lqe local_event)
  end.

Definition access_type (l : LQE) : proc call state event_type :=
  s ← reads (λ s, s);
  e ← lift (vec_get (o3rob s) (rob_entry l));
  mret (if isread e then et_read else et_write).

(** The messages of the data side. *)
Definition add_rep_event (event_time : Z) (local_event : LQE) : proc call state unit :=
  match type local_event with
  | et_tlb_rd =>
      _ ← modify (λ s, s <| resume_time := event_time |>);
      t ← access_type local_event;
      emit (Component.add_req_event (cachel1d cfg) (event_time ⊕ lsu_to_l1d_t cfg)
              (readdress t local_event) None)
  | et_nack =>
      _ ← count_nack event_time;
      t ← access_type local_event;
      _ ← emit (Component.add_req_event (cachel1d cfg) (retry_time event_time (lsu_to_l1d_t cfg))
                  (readdress t local_event) None);
      check_nacks
  | _ =>
      aligned ← lift (ceil_by_y event_time (process_interval cfg));
      _ ← wake_at aligned;
      _ ← modify (λ s, s <| num_consecutive_nacks := 0 |>);
      s ← reads (λ s, s);
      e ← (if (rob_entry local_event <? 0) || (i32 (o3rob_max_size cfg) <=? rob_entry local_event)
           then fails Fatal else lift (vec_get (o3rob s) (rob_entry local_event)));
      let waited := aligned ⊖ r_ready_time e in
      _ ← modify (λ s, if isread e then s <| total_mem_rd_time ::= λ n, n ⊕ waited |>
                       else s <| total_mem_wr_time ::= λ n, n ⊕ waited |>);
      _ ← complete (rob_entry local_event)
            (aligned ⊕ (if branch_miss e then branch_miss_penalty cfg else 0));
      _ ← emit (update_os_page_req_dist (address local_event));
      emit (free_lqe local_event)
  end.

(** ** Fetch: McSim::add_instruction (McSim.cc) *)

Context {xed : XedCategories}.

Definition ins_type_of (i : instruction) : ins_type :=
  if islock i && isunlock i && negb (isbarrier i) then ins_notify
  else if islock i && isunlock i && isbarrier i then ins_waitfor
  else if isbranch i && isbranchtaken i then ins_branch_taken
  else if isbranch i && negb (isbranchtaken i) then ins_branch_not_taken
  else if (category i =? XED_CATEGORY_X87_ALU) || (category i =? XED_CATEGORY_SSE) then ins_x87
  else if islock i then ins_lock
  else if isunlock i then ins_unlock
  else if isbarrier i then ins_barrier
  else no_mem.

Definition queue_entry (curr_time : Z) (i : instruction) : O3Queue :=
  {| q_state := o3iqs_not_in_queue; q_ready_time := curr_time;
     waddr := in_waddr i; wlen := in_wlen i; raddr := in_raddr i; raddr2 := in_raddr2 i;
     rlen := in_rlen i; q_ip := in_ip i; q_type := ins_type_of i;
     q_rr0 := in_rr0 i; q_rr1 := in_rr1 i; q_rr2 := in_rr2 i; q_rr3 := in_rr3 i;
     q_rw0 := in_rw0 i; q_rw1 := in_rw1 i; q_rw2 := in_rw2 i; q_rw3 := in_rw3 i |}.

(** The instruction is dropped when the queue is full; the result is how many more
    instructions may follow, four slots being held back.  (The code first sets the result
    to 0 for some accesses to shared data, and then overwrites it.) *)
Definition add_instruction (curr_time : Z) (i : instruction) : proc call state Z :=
  s ← reads (λ s, s);
  _ ← when ((o3queue_size s =? 0) && (resume_time s <=? curr_time))
        (_ ← wake_at curr_time; modify (λ s, s <| is_active := true |>));
  _ ← modify (λ s, s <| num_instrs ::= λ n, n ⊕ 1 |>
        <| num_call_ops ::= λ n, if category i =? XED_CATEGORY_CALL then n ⊕ 1 else n |>);
  if o3queue_max_size cfg <=? o3queue_size s then mret 0
  else
    let idx := (o3queue_max_size cfg ⊕₃₂ o3queue_head s ⊕₃₂ o3queue_size s) mod o3queue_max_size cfg in
    _ ← lift (vec_get (o3queue s) idx);
    _ ← modify (set_queue idx (λ _, queue_entry curr_time i));
    _ ← modify (λ s, s <| o3queue_size ::= λ n, n ⊕₃₂ 1 |>);
    s ← reads (λ s, s);
    mret (if o3queue_max_size cfg <? o3queue_size s ⊕₃₂ 4 then 0
          else o3queue_max_size cfg ⊖₃₂ (o3queue_size s ⊕₃₂ 4)).
End Handlers.
End O3Core.
