(* ===== verification/O3Pipeline.v ===== *)
(** * The pipeline of a core: invariants and properties of O3Core.v

    The instruction queue and the reorder buffer stand for two lists; every handler is a
    sequence of moves of a queue machine on them.  Dependencies always point to older
    entries whose completion is still to come, at a tick the core will be woken at, so
    that no wake-up is lost and the pipeline never gets stuck. *)

From S2P Require Export O3Core.

Module O3Pipeline.
Import Ring O3Core.

(** A computation that is known to succeed. *)
Ltac log_ok H := log_steps; eapply wpl_lift_ok; [exact H|]; cbv beta iota; log_steps.

(** ** The branch predictor *)

(** The predictor was built with a history of 1 to 64 bits and has its table. *)
Record bp_ok (b : BranchPredictor.state) : Prop := {
  bp_history : 1 ≤ BranchPredictor.gp_size b ≤ 64;
  bp_table : 0 < BranchPredictor.num_entries b;
  bp_length : Z.of_nat (length (BranchPredictor.bimodal_entry b)) = BranchPredictor.num_entries b;
  bp_counters : Forall (λ c, 0 ≤ c ≤ 3) (BranchPredictor.bimodal_entry b) }.

Lemma next_entry_range c taken : 0 ≤ c ≤ 3 → 0 ≤ BranchPredictor.next_entry c taken ≤ 3.
Proof.
  intros Hc. assert (c = 0 ∨ c = 1 ∨ c = 2 ∨ c = 3) as [-> | [-> | [-> | ->]]] by lia;
    destruct taken; vm_compute; split; discriminate.
Qed.

Lemma bp_miss_ok addr taken b :
  bp_ok b → ∃ m b', BranchPredictor.miss addr taken b = Ok (m, b') ∧ bp_ok b'.
Proof.
  intros [Hg Hn Hl Hc]. unfold BranchPredictor.miss, BranchPredictor.c_shl.
  rewrite (u32_id (64 - _)) by (unfold in_u32; lia).
  destruct (Z.ltb_spec (64 - BranchPredictor.gp_size b) 64); [|lia].
  cbn [mbind outcome_bind mret outcome_ret].
  destruct (Z.eqb_spec (BranchPredictor.num_entries b) 0); [lia|].
  set (i := _ mod _). assert (0 ≤ i < BranchPredictor.num_entries b) by (by apply Z.mod_pos_bound).
  destruct (vec_get_lt (BranchPredictor.bimodal_entry b) i) as [c Hi]; [lia|].
  rewrite Hi. cbn. do 2 eexists. split; [done|]. constructor; cbn; try done.
  - unfold vec_set. by rewrite length_vec_alter.
  - apply Forall_vec_alter; [done|]. intros x Hx Hr.
    rewrite Hx in Hi. injection Hi as ->. by apply next_entry_range.
Qed.

(** ** What the buffers stand for *)

(** What an instruction asks of the pipeline: an access, or none (address 0). *)
Record op := {
  op_ip : Z;
  op_addr : Z;
  op_read : bool;
  op_type : ins_type;
  op_writes : Z * Z * Z * Z }.

Definition op_of (e : O3ROB) : op :=
  Build_op (r_ip e) (memaddr e) (isread e) (r_type e) (r_rw0 e, r_rw1 e, r_rw2 e, r_rw3 e).

Definition op_at (q : O3Queue) (k : Z) : option op :=
  (λ a, Build_op (q_ip q) a (k <? 2) (q_type q) (q_rw0 q, q_rw1 q, q_rw2 q, q_rw3 q)) <$> access_of q k.

(** The entries an instruction occupies. *)
Definition micro_ops (q : O3Queue) : list op := omap (op_at q) [0; 1; 2; 3].

(** A queued instruction without its progress. *)
Definition instr_of (q : O3Queue) : O3Queue := q <| q_state := o3iqs_invalid |> <| q_ready_time := 0 |>.

Lemma micro_ops_size q : (1 ≤ length (micro_ops q) ≤ 3)%nat.
Proof.
  unfold micro_ops, op_at, access_of. cbn.
  destruct (raddr q =? 0), (raddr2 q =? 0), (waddr q =? 0); cbn; lia.
Qed.

Lemma op_at_instr q k : op_at (instr_of q) k = op_at q k.
Proof. done. Qed.
Lemma micro_ops_instr q : micro_ops (instr_of q) = micro_ops q.
Proof. done. Qed.

(** Synchronisation of a migration names a thread. *)
Definition sync_ok (n : nat) (t : ins_type) (rw0 : Z) : Prop :=
  t = ins_notify ∨ t = ins_waitfor → 0 ≤ rw0 < Z.of_nat n.

Section Core.
Context (cfg : config).

Record cfg_ok : Prop := {
  ok_rob : 4 ≤ o3rob_max_size cfg < 2 ^ 31;
  ok_queue : 4 ≤ o3queue_max_size cfg < 2 ^ 30;
  ok_lsb : l1i_set_lsb cfg < 64;
  ok_interval : 0 < process_interval cfg < 2 ^ 32;
  ok_to_l1i : in_u32 (lsu_to_l1i_t cfg);
  ok_to_l1d : in_u32 (lsu_to_l1d_t cfg);
  ok_penalty : in_u32 (branch_miss_penalty cfg);
  ok_lock : in_u32 (lock_t cfg);
  ok_unlock : in_u32 (unlock_t cfg);
  ok_barrier : in_u32 (barrier_t cfg);
  ok_sse : in_u32 (sse_t cfg) }.

(** The reorder buffer holds [V], the queue holds [Q]. *)
Definition rob_view (s : state) (V : list O3ROB) : Prop :=
  ring (o3rob_max_size cfg) (o3rob_head s) (o3rob s) V ∧ o3rob_size s = Z.of_nat (length V).
Definition queue_view (s : state) (Q : list O3Queue) : Prop :=
  ring (o3queue_max_size cfg) (o3queue_head s) (o3queue s) Q ∧ o3queue_size s = Z.of_nat (length Q).

Definition deps (e : O3ROB) : list Z :=
  [mem_dep e; instr_dep e; branch_dep e; r_rr0 e; r_rr1 e; r_rr2 e; r_rr3 e].

Lemma no_deps_spec e : no_deps e = true ↔ Forall (λ d, d = -1) (deps e).
Proof.
  unfold no_deps, deps. rewrite !andb_true_iff, !Z.eqb_eq, !Forall_cons, Forall_nil. tauto.
Qed.

(** The search from the tail. *)
Lemma newest_such_spec p s V :
  rob_view s V →
  ∃ d, newest_such cfg p s = Ok d ∧
    ((d = -1 ∧ Forall (λ e, p e = false) V) ∨
     ∃ i e, V !! i = Some e ∧ d = rob_slot cfg s (Z.of_nat i) ∧ p e = true ∧
       Forall (λ e, p e = false) (drop (S i) V)).
Proof.
  intros [R Hs]. unfold newest_such, upto. rewrite Hs.
  assert (∀ m k, Z.of_nat (length V) = k + Z.of_nat m → 0 ≤ k →
    Forall (λ e, p e = false) (drop m V) →
    ∃ d, find_newest cfg p s (seqZ k (Z.of_nat m)) = Ok d ∧
    ((d = -1 ∧ Forall (λ e, p e = false) V) ∨
     ∃ i e, V !! i = Some e ∧ d = rob_slot cfg s (Z.of_nat i) ∧ p e = true ∧
       Forall (λ e, p e = false) (drop (S i) V))) as Hgen.
  { induction m as [|m IH]; intros k Hk Hk0 Hall.
    { rewrite seqZ_nil by lia. exists (-1). split; [done|]. left. split; [done|].
      by rewrite drop_0 in Hall. }
    rewrite seqZ_cons by lia. cbn [find_newest]. rewrite Hs.
    pose proof (ring_size _ _ _ _ R).
    rewrite newest_slot by (destruct R; lia).
    replace (Z.of_nat (length V) - 1 - k) with (Z.of_nat m) by lia.
    destruct (lookup_lt_is_Some_2 V m) as [e He]; [lia|].
    rewrite (ring_get _ _ _ _ _ _ R He). cbn [mbind outcome_bind].
    destruct (p e) eqn:Hp.
    - exists (rob_slot cfg s (Z.of_nat m)). split; [done|]. right. by exists m, e.
    - replace (Z.succ k) with (k + 1) by lia.
      replace (Z.pred (Z.of_nat (S m))) with (Z.of_nat m) by lia.
      apply IH; [lia|lia|]. rewrite (drop_S _ _ _ He). by constructor. }
  destruct (Hgen (length V) 0) as (d & Hd & H); [lia|lia|by rewrite drop_all|].
  exists d. by split.
Qed.

(** ** The invariant of the reorder buffer

    [W i j r]: an entry at offset [i] may depend on one at offset [j] that is completed and
    ready at [r]; [C r]: an entry may be ready at [r]. *)

Definition dep_ok (W : nat → nat → Z → Prop) (h : Z) (V : list O3ROB) (i : nat) (d : Z) : Prop :=
  d = -1 ∨ ∃ j e, (j < i)%nat ∧ V !! j = Some e ∧ d = slot (o3rob_max_size cfg) h (Z.of_nat j) ∧
    (r_state e = o3irs_completed → W i j (r_ready_time e)).

Definition entry_ok (W : nat → nat → Z → Prop) (C : Z → Prop) (h : Z) (V : list O3ROB)
    (i : nat) (e : O3ROB) : Prop :=
  match r_state e with
  | o3irs_issued => C (r_ready_time e) ∧ Forall (dep_ok W h V i) (deps e)
  | o3irs_executing => True
  | o3irs_completed => C (r_ready_time e)
  | o3irs_invalid => False
  end.

(** [out] are the slots of the entries whose access was sent and not answered. *)
Record rob_ok (W : nat → nat → Z → Prop) (C : Z → Prop) (out : list Z) (h : Z) (V : list O3ROB)
    : Prop := {
  rob_entries i e : V !! i = Some e → entry_ok W C h V i e;
  rob_out_NoDup : NoDup out;
  rob_out d : d ∈ out ↔ ∃ i e, V !! i = Some e ∧ r_state e = o3irs_executing ∧
                 d = slot (o3rob_max_size cfg) h (Z.of_nat i) }.

Lemma dep_ok_mono (W W' : nat → nat → Z → Prop) h V i d :
  (∀ j r, W i j r → W' i j r) → dep_ok W h V i d → dep_ok W' h V i d.
Proof. intros HW [->|(j & e & Hj & He & Hd & H)]; [by left|]. right. exists j, e. split_and!; auto. Qed.

Lemma rob_ok_mono (W W' : nat → nat → Z → Prop) (C C' : Z → Prop) out h V :
  (∀ i j r, W i j r → W' i j r) → (∀ r, C r → C' r) →
  rob_ok W C out h V → rob_ok W' C' out h V.
Proof.
  intros HW HC [He Hn Ho]. constructor; [|done..]. intros i e Hi. specialize (He _ _ Hi).
  unfold entry_ok in *. destruct (r_state e); [|done|eauto|done]. destruct He as [Hr Hd].
  split; [eauto|]. eapply Forall_impl; [done|]. intros d. apply dep_ok_mono; auto.
Qed.

Lemma dep_ok_update W h V i k e e' d :
  V !! k = Some e →
  (r_state e' = o3irs_completed →
     (∀ i, W i k (r_ready_time e')) ∨ (r_state e = o3irs_completed ∧ r_ready_time e' = r_ready_time e)) →
  dep_ok W h V i d → dep_ok W h (<[k := e']> V) i d.
Proof.
  intros Hk Hc [->|(j & x & Hj & Hx & Hd & HW)]; [by left|]. right.
  destruct (decide (j = k)) as [->|Hne].
  - exists k, e'. rewrite list_lookup_insert_eq by (by eapply lookup_lt_Some). split_and!; auto.
    intros E. destruct (Hc E) as [H|[H1 H2]]; [done|]. rewrite Hk in Hx. injection Hx as <-.
    rewrite H2. auto.
  - exists j, x. rewrite list_lookup_insert_ne by done. split_and!; auto.
Qed.

(** An update of a live entry. *)
Lemma rob_ok_update W C out out' h l V k e e' :
  ring (o3rob_max_size cfg) h l V → rob_ok W C out h V → V !! k = Some e →
  (r_state e' = o3irs_completed →
     (∀ i, W i k (r_ready_time e')) ∨ (r_state e = o3irs_completed ∧ r_ready_time e' = r_ready_time e)) →
  entry_ok W C h V k e' → NoDup out' →
  (∀ d, d ∈ out' ↔ (d ∈ out ∧ d ≠ slot (o3rob_max_size cfg) h (Z.of_nat k)) ∨
                   (d = slot (o3rob_max_size cfg) h (Z.of_nat k) ∧ r_state e' = o3irs_executing)) →
  rob_ok W C out' h (<[k := e']> V).
Proof.
  intros R [He _ Ho] Hk Hc Hok Hn Hout. constructor; [|done|].
  - intros i x Hi. assert (entry_ok W C h V i x) as Hx.
    { apply list_lookup_insert_Some in Hi as [(<- & <- & _)|[_ Hi]]; [done|by apply He]. }
    unfold entry_ok in *. destruct (r_state x); try done. destruct Hx as [Hr Hd]. split; [done|].
    eapply Forall_impl; [exact Hd|]. intros d. by eapply dep_ok_update.
  - intros d. rewrite Hout, Ho. split.
    + intros [[(i & x & Hi & Hx & Hd) Hne]|[-> Hx]].
      * exists i, x. rewrite list_lookup_insert_ne; [done|]. intros ->. by rewrite <- Hd in Hne.
      * exists k, e'. by rewrite list_lookup_insert_eq by (by eapply lookup_lt_Some).
    + intros (i & x & Hi & Hx & ->). destruct (decide (i = k)) as [->|Hne].
      * rewrite list_lookup_insert_eq in Hi by (by eapply lookup_lt_Some). injection Hi as ->. by right.
      * rewrite list_lookup_insert_ne in Hi by done. left. split; [naive_solver|].
        intros E. apply Hne. by eapply ring_slot_inj.
Qed.

(** A new entry behind the tail. *)
Lemma rob_ok_push W C out h V e :
  rob_ok W C out h V → r_state e = o3irs_issued → C (r_ready_time e) →
  Forall (dep_ok W h V (length V)) (deps e) → rob_ok W C out h (V ++ [e]).
Proof.
  intros [He Hn Ho] Hs Hc Hd.
  assert (∀ i d, dep_ok W h V i d → dep_ok W h (V ++ [e]) i d) as Happ.
  { intros i d [->|(j & x & Hj & Hx & Hrest)]; [by left|]. right. exists j, x.
    split_and!; [done|by apply lookup_app_l_Some|apply Hrest..]. }
  constructor; [|done|].
  - intros i x [Hi|[Hlen Hi]]%lookup_app_Some.
    + specialize (He _ _ Hi). unfold entry_ok in *. destruct (r_state x); try done.
      destruct He. split; [done|]. eapply Forall_impl; eauto.
    + apply list_lookup_singleton_Some in Hi as [Hz <-]. unfold entry_ok. rewrite Hs. split; [done|].
      replace i with (length V) by lia. eapply Forall_impl; eauto.
  - intros d. rewrite Ho. split.
    + intros (i & x & Hi & Hrest). exists i, x. split; [by apply lookup_app_l_Some|done].
    + intros (i & x & [Hi|[_ Hi]]%lookup_app_Some & Hx & Hd'); [by exists i, x|].
      apply list_lookup_singleton_Some in Hi as [_ <-]. by rewrite Hs in Hx.
Qed.

(** The oldest entry leaves: no entry waits for it. *)
Lemma rob_ok_pop W C out h l e V :
  ring (o3rob_max_size cfg) h l (e :: V) → rob_ok W C out h (e :: V) →
  r_state e = o3irs_completed → (∀ i, ¬ W i 0%nat (r_ready_time e)) →
  (∀ i j r, W (S i) (S j) r → W i j r) →
  rob_ok W C out (slot (o3rob_max_size cfg) h 1) V.
Proof.
  intros R [He Hn Ho] Hs Hw Hshift.
  assert (∀ i, Z.of_nat i < o3rob_max_size cfg →
    slot (o3rob_max_size cfg) (slot (o3rob_max_size cfg) h 1) (Z.of_nat i)
    = slot (o3rob_max_size cfg) h (Z.of_nat (S i))) as Hslot.
  { intros i Hi. rewrite slot_shift by (destruct R; lia). f_equal. lia. }
  assert (∀ i x, V !! i = Some x → Z.of_nat i < o3rob_max_size cfg) as Hlt.
  { intros i x Hi. pose proof (ring_index _ _ _ _ (S i) _ R Hi). lia. }
  constructor; [|done|].
  - intros i x Hi. specialize (He (S i) x Hi). unfold entry_ok in *. destruct (r_state x); try done.
    destruct He as [Hr Hd]. split; [done|]. eapply Forall_impl; [exact Hd|].
    intros d [->|([|j] & y & Hj & Hy & -> & HW)]; [by left| |].
    + cbn in Hy. injection Hy as <-. by apply HW, Hw in Hs.
    + right. exists j, y. cbn in Hy. rewrite Hslot by eauto. split_and!; [lia|done|done|]. eauto.
  - intros d. rewrite Ho. split.
    + intros ([|i] & x & Hi & Hx & ->); cbn in Hi; [injection Hi as <-; by rewrite Hs in Hx|].
      exists i, x. by rewrite Hslot by eauto.
    + intros (i & x & Hi & Hx & ->). exists (S i), x. by rewrite Hslot by eauto.
Qed.

(** ** The invariant of a core

    [QI] and [RI] are what the queue and the reorder buffer stand for. *)

Definition op_sync_ok (n : nat) (x : op) : Prop := sync_ok n (op_type x) (op_writes x).1.1.1.
Definition instr_sync_ok (n : nat) (q : O3Queue) : Prop := sync_ok n (q_type q) (q_rw0 q).

Record core_ok (W : nat → nat → Z → Prop) (C : Z → Prop) (out : list Z)
    (QI : list O3Queue) (RI : list op) (s : state) : Prop := {
  core_rob : ∃ V, rob_view s V ∧ rob_ok W C out (o3rob_head s) V ∧ op_of <$> V = RI;
  core_queue : ∃ Q, queue_view s Q ∧ instr_of <$> Q = QI;
  core_bp : bp_ok (bp s);
  core_sync_queue : Forall (instr_sync_ok (length (is_migrate_ready s))) QI;
  core_sync_rob : Forall (op_sync_ok (length (is_migrate_ready s))) RI }.

Lemma core_ok_mono (W W' : nat → nat → Z → Prop) (C C' : Z → Prop) out QI RI s :
  (∀ i j r, W i j r → W' i j r) → (∀ r, C r → C' r) →
  core_ok W C out QI RI s → core_ok W' C' out QI RI s.
Proof.
  intros HW HC [(V & Hv & Hr & HR) ? ? ? ?]. constructor; try done.
  exists V. split_and!; [done| |done]. by eapply rob_ok_mono.
Qed.

(** The invariant reads the buffers, the predictor and the number of threads only. *)
Lemma core_ok_frame W C out QI RI s s' :
  core_ok W C out QI RI s →
  o3rob s' = o3rob s → o3rob_head s' = o3rob_head s → o3rob_size s' = o3rob_size s →
  o3queue s' = o3queue s → o3queue_head s' = o3queue_head s → o3queue_size s' = o3queue_size s →
  bp_ok (bp s') → length (is_migrate_ready s') = length (is_migrate_ready s) →
  core_ok W C out QI RI s'.
Proof.
  intros [(V & Hv & Hr & HR) (Q & Hq & HQ) Hb H1 H2] E1 E2 E3 E4 E5 E6 E7 E8.
  unfold rob_view, queue_view in *. constructor.
  - exists V. unfold rob_view. by rewrite E1, E2, E3.
  - exists Q. unfold queue_view. by rewrite E4, E5, E6.
  - done.
  - by rewrite E8.
  - by rewrite E8.
Qed.

(** Progress of a queued instruction. *)
Lemma core_ok_set_queue W C out QI RI s i f :
  core_ok W C out QI RI s → 0 ≤ i < o3queue_size s → (∀ e, instr_of (f e) = instr_of e) →
  (∃ e, vec_get (o3queue s) (queue_slot cfg s i) = Ok e) ∧
  core_ok W C out QI RI (set_queue (queue_slot cfg s i) f s).
Proof.
  intros [Hrob (Q & [R Hs] & HQ) Hb H1 H2] Hi Hf.
  destruct (lookup_lt_is_Some_2 Q (Z.to_nat i)) as [e He]; [lia|].
  assert (queue_slot cfg s i = slot (o3queue_max_size cfg) (o3queue_head s) (Z.of_nat (Z.to_nat i)))
    as E by (unfold queue_slot; f_equal; lia).
  rewrite E. split; [exists e; by eapply ring_get|].
  constructor; try done. exists (<[Z.to_nat i := f e]> Q). split.
  - split; cbn; [by apply ring_alter|by rewrite length_insert].
  - rewrite list_fmap_insert, Hf, <- HQ. apply list_insert_id. by rewrite list_lookup_fmap, He.
Qed.

(** ** Calls *)

(** The slot of the data access a call sends. *)
Definition data_slot (w : call) : option Z :=
  match w with
  | Component.add_req_event _ _ l _ => if 0 <=? rob_entry l then Some (rob_entry l) else None
  | _ => None
  end.
Definition reqs (o : list call) : list Z := omap data_slot o.

(** The tick at which a call wakes the core itself. *)
Definition own_tick (w : call) : option Z :=
  match w with
  | geq_add_event t c => if bool_decide (c = this cfg) then Some t else None
  | _ => None
  end.
Definition ticks (o : list call) : list Z := omap own_tick o.

Lemma reqs_app o o' : reqs (o ++ o') = reqs o ++ reqs o'.
Proof. apply omap_app. Qed.
Lemma ticks_app o o' : ticks (o ++ o') = ticks o ++ ticks o'.
Proof. apply omap_app. Qed.

(** The commit loop pops entries that retire; [I] is what a pop keeps. *)
Lemma wp_commit_loop (OK : cfg_ok) now (I : Z → list O3ROB → Prop) width :
  (∀ h l e V, ring (o3rob_max_size cfg) h l (e :: V) → retires now e = true →
     I h (e :: V) → I (slot (o3rob_max_size cfg) h 1) V) →
  ∀ V s, rob_view s V → I (o3rob_head s) V →
  wp no_failure (commit_loop cfg now width) s
    (λ _ s' o', o' = [] ∧ ∃ k, (k ≤ width)%nat ∧ rob_view s' (drop k V) ∧ I (o3rob_head s') (drop k V) ∧
       Forall (λ e, retires now e = true) (take k V) ∧
       s' = s <| o3rob := o3rob s' |> <| o3rob_head := o3rob_head s' |> <| o3rob_size := o3rob_size s' |>).
Proof.
  intros Hpop. assert (∀ s : state, s = s <| o3rob := o3rob s |> <| o3rob_head := o3rob_head s |>
    <| o3rob_size := o3rob_size s |>) as Hid by (by intros []).
  induction width as [|width IH]; intros V s [R Hs] Hr; cbn [commit_loop].
  { wp_step. split; [done|]. exists 0%nat. rewrite drop_0. by split_and!. }
  wp_steps. apply wp_when; intros Hpos.
  2: { split; [done|]. exists 0%nat. rewrite drop_0. split_and!; [lia|done..]. }
  apply Z.ltb_lt in Hpos. destruct V as [|e V]; [cbn in Hs; lia|].
  wp_step. eapply wp_lift_ok; [exact (ring_get_head _ _ _ _ _ R)|]. wp_step.
  apply wp_when; intros Hret.
  2: { eapply wp_mono; [by apply (IH (e :: V))|].
       intros [] s1 o1 (-> & k & Hk & Hrest). split; [done|]. exists k. split; [lia|done]. }
  wp_step. set (s1 := set o3rob_head _ _).
  assert (rob_view s1 V) as Hv1.
  { split; unfold s1; cbn.
    - unfold rob_slot. cbn. rewrite <- (slot_0 (o3rob_max_size cfg) (o3rob_head s)) at 2
        by (pose proof (ok_rob OK); destruct R; lia).
      pose proof (ring_alter (λ e : O3ROB, e <| r_state := o3irs_invalid |>) _ _ _ _ 0 e R eq_refl) as R3.
      cbn [insert list_insert] in R3. by eapply ring_pop.
    - rewrite Hs. cbn. rewrite u32_id; [lia|]. unfold in_u32. pose proof (ring_size _ _ _ _ R) as Hz.
      cbn in Hz. pose proof (ok_rob OK). lia. }
  eapply wp_mono; [apply (IH V); [done|by eapply Hpop]|].
  intros [] s2 o2 (-> & k & Hk & Hv2 & Hr2 & Hall & Hf2). split; [done|]. exists (S k).
  split_and!; [lia|done|done|by constructor|]. rewrite Hf2 at 1. unfold s1, set_rob. by destruct s.
Qed.

Section Cycle.
Context (OK : cfg_ok) (now : Z) (Hnow : tick_ok now).
Context (P : Z → Prop) (HP : ∀ r, P r → now ≤ r) (out : list Z).

(** The core will be woken at [r]. *)
Definition due (o : list call) (r : Z) : Prop := P r ∨ r ∈ ticks o.

Lemma due_app o o' r : due o r → due (o ++ o') r.
Proof. unfold due. rewrite ticks_app, elem_of_app. tauto. Qed.

Lemma due_now t o : due (o ++ [geq_add_event t (this cfg)]) t.
Proof.
  unfold due. rewrite ticks_app, elem_of_app. right. right. cbn. rewrite bool_decide_true by done. left.
Qed.

(** The invariant between the phases of a cycle. *)
Definition mid_ok (W : list call → nat → nat → Z → Prop) (QI : list O3Queue) (RI : list op)
    (s : state) (o : list call) : Prop :=
  Forall (not_before now) o ∧
  core_ok (W o) (λ r, due o r ∨ r ≤ now) (out ++ reqs o) QI RI s.

Definition any_due (o : list call) (i j : nat) (r : Z) : Prop := due o r.

Lemma due_after o r : Forall (not_before now) o → due o r → now ≤ r.
Proof.
  intros Ho [Hr|Hr]; [by apply HP|]. apply list_elem_of_omap in Hr as (w & Hw & Hr).
  eapply Forall_forall in Ho; [|exact Hw]. unfold own_tick in Hr. destruct w; try done.
  case_bool_decide; [|done]. injection Hr as <-. exact Ho.
Qed.

(** A call that carries no data access. *)
Lemma mid_ok_emit W QI RI s o w :
  (∀ i j r, W o i j r → W (o ++ [w]) i j r) →
  mid_ok W QI RI s o → not_before now w → data_slot w = None → mid_ok W QI RI s (o ++ [w]).
Proof.
  intros HW [Hb Hc] Hw Hd. split; [by apply Forall_app_2; [|constructor]|].
  rewrite reqs_app. cbn. rewrite Hd, app_nil_r.
  eapply core_ok_mono; [exact HW| |exact Hc]. intros r [Hr|Hr]; [left; by apply due_app|by right].
Qed.

Lemma any_due_emit o w i j r : any_due o i j r → any_due (o ++ [w]) i j r.
Proof. apply due_app. Qed.

Lemma wake_not_before lat : in_u32 lat → not_before now (geq_add_event (now ⊕ lat) (this cfg)).
Proof. intros Hl. by eapply not_before_add. Qed.

Lemma interval_u32 : in_u32 (process_interval cfg).
Proof. pose proof (ok_interval OK). unfold in_u32. lia. Qed.

(** *** Loading *)

Lemma line_of_ok a : ∃ b, line_of cfg a = Ok b.
Proof.
  unfold line_of, c_shr. pose proof (ok_lsb OK). destruct (Z.ltb_spec (l1i_set_lsb cfg) 64); [|lia].
  by eexists.
Qed.
Lemma same_line_ok a b : ∃ c, same_line cfg a b = Ok c.
Proof.
  unfold same_line, c_shr. pose proof (ok_lsb OK). destruct (Z.ltb_spec (l1i_set_lsb cfg) 64); [|lia].
  by eexists.
Qed.

Lemma wpl_load_one W QI RI a i s o :
  (∀ o w i j r, W o i j r → W (o ++ [w]) i j r) →
  mid_ok W QI RI s o → 0 ≤ i < o3queue_size s →
  wpl no_failure (load_one cfg now a i) s o
    (λ _ s' o', mid_ok W QI RI s' o' ∧ o3queue_size s' = o3queue_size s).
Proof.
  intros HW Hm Hi. pose proof Hm as [Hb Hc]. unfold load_one. log_steps.
  pose (f := λ e : O3Queue, e <| q_state := o3iqs_being_loaded |>).
  destruct (core_ok_set_queue _ _ _ _ _ _ i f Hc Hi (λ e, eq_refl)) as [[e He] Hc'].
  log_ok He.
  destruct (negb _); [by log_step|]. destruct (Z.eqb_spec a 0).
  - destruct (line_of_ok (q_ip e)) as [b Hl]. log_ok Hl.
    log_steps. split; [|done]. apply mid_ok_emit; [by apply HW|by split| |by destruct (bypass_tlb cfg)].
    pose proof (ok_to_l1i OK). destruct (bypass_tlb cfg); solve_latency.
  - destruct (same_line_ok a (q_ip e)) as [c Hl]. log_ok Hl.
    apply wpl_when; intros _; by log_steps.
Qed.

Lemma wpl_load_loop W QI RI ks : ∀ a s o,
  (∀ o w i j r, W o i j r → W (o ++ [w]) i j r) →
  mid_ok W QI RI s o → Forall (λ i, 0 ≤ i < o3queue_size s) ks →
  wpl no_failure (load_loop cfg now a ks) s o (λ _ s' o', mid_ok W QI RI s' o').
Proof.
  induction ks as [|i ks IH]; intros a s o HW Hm Hks; cbn [load_loop]; [by log_step|].
  inv Hks. log_step. eapply wpl_mono; [by apply wpl_load_one|]. intros b s' o' [Hm' Hs].
  apply IH; [done|done|by rewrite Hs].
Qed.

(** *** Issue *)

Definition ready_ok (o : list call) (r : Z) : Prop := due o r ∨ r ≤ now.

(** What the searches find is a dependency on an entry whose completion is to come. *)
Lemma newest_dep o outs p s V :
  rob_view s V → rob_ok (any_due o) (ready_ok o) outs (o3rob_head s) V →
  (∀ e, p e = true → in_flight now e = true) →
  ∃ d, newest_such cfg p s = Ok d ∧ dep_ok (any_due o) (o3rob_head s) V (length V) d.
Proof.
  intros Hv Hr Hp. destruct (newest_such_spec p _ _ Hv) as (d & Hd & [[-> _]|(i & e & Hi & -> & He & _)]).
  { exists (-1). split; [done|by left]. }
  eexists. split; [exact Hd|]. right. exists i, e. split_and!; [by eapply lookup_lt_Some|done..|].
  intros Hs. apply Hp in He. unfold in_flight in He. rewrite Hs, bool_decide_true in He by done.
  pose proof (rob_entries _ _ _ _ _ Hr _ _ Hi) as Hok. unfold entry_ok in Hok. rewrite Hs in Hok.
  destruct (Z.leb_spec (r_ready_time e) now); [done|]. destruct Hok; [done|lia].
Qed.

Definition info_deps (inf : issue_info) : list Z :=
  [i_branch_dep inf; i_rr0 inf; i_rr1 inf; i_rr2 inf; i_rr3 inf].

(** The loop that fills the entries of an instruction: [acc] is the next slot and the
    dependency on the entry before; the rest of the state is that of [s0]. *)
Record filling (o : list call) (outs : list Z) (inf : issue_info) (s0 : state) (RI : list op)
    (acc : Z * Z) (s : state) : Prop := {
  fill_rob : ∃ V, rob_view s V ∧ rob_ok (any_due o) (ready_ok o) outs (o3rob_head s) V ∧
    op_of <$> V = RI ∧
    Forall (dep_ok (any_due o) (o3rob_head s) V (length V)) (acc.2 :: info_deps inf);
  fill_slot : acc.1 = rob_slot cfg s (o3rob_size s);
  fill_frame : s = s0 <| o3rob := o3rob s |> <| o3rob_size := o3rob_size s |> }.

Lemma frame_rob s0 s s' :
  s = s0 <| o3rob := o3rob s |> <| o3rob_size := o3rob_size s |> →
  s' = s <| o3rob := o3rob s' |> <| o3rob_size := o3rob_size s' |> →
  s' = s0 <| o3rob := o3rob s' |> <| o3rob_size := o3rob_size s' |>.
Proof. intros H1 H2. rewrite H2 at 1. by rewrite H1. Qed.

Lemma dep_ok_push o h V e d :
  dep_ok (any_due o) h V (length V) d → dep_ok (any_due o) h (V ++ [e]) (length (V ++ [e])) d.
Proof.
  intros [->|(j & x & Hj & Hx & Hrest)]; [by left|]. right. exists j, x.
  rewrite length_app. split_and!; [cbn; lia|by apply lookup_app_l_Some|apply Hrest..].
Qed.

Lemma wpl_fill_one o outs q inf s0 RI acc k s :
  filling o outs inf s0 RI acc s → Z.of_nat (length RI) < o3rob_max_size cfg →
  due o (now ⊕ process_interval cfg) →
  wpl no_failure (fill_one cfg now q inf acc k) s o
    (λ acc' s' o', o' = o ∧ filling o outs inf s0 (RI ++ option_list (op_at q k)) acc' s').
Proof.
  intros [(V & [R Hs] & Hr & HR & Hd) Hslot Hf] Hlen Hdue. rewrite <- HR, length_fmap in Hlen.
  destruct acc as [rob_idx idep]. cbn [fst snd] in *. unfold fill_one. log_step.
  pose proof (ring_size _ _ _ _ R) as Hsz. pose proof (ring_length _ _ _ _ R) as Hl.
  assert (0 ≤ rob_idx < o3rob_max_size cfg) as Hidx.
  { rewrite Hslot. apply slot_range. pose proof (ok_rob OK). lia. }
  destruct (vec_get_lt (o3rob s) rob_idx) as [x Hx]; [lia|]. log_ok Hx.
  assert (rob_idx = slot (o3rob_max_size cfg) (o3rob_head s) (Z.of_nat (length V))) as Hslot'.
  { rewrite Hslot. unfold rob_slot. by rewrite Hs. }
  match goal with |- context [set_rob rob_idx ?f s] => set (f1 := f) end.
  set (s1 := set_rob rob_idx f1 s).
  assert (ring (o3rob_max_size cfg) (o3rob_head s) (o3rob s1) V) as R1.
  { cbn. rewrite Hslot'. apply ring_alter_dead; [done|lia]. }
  unfold op_at. destruct (access_of q k) as [addr|] eqn:Ha; cbn [fmap option_fmap option_map option_list].
  2: { log_step. rewrite app_nil_r. split; [done|]. constructor; [|done|by apply (frame_rob _ s)].
       exists V. by split_and!. }
  log_step. log_step.
  assert (∃ d, (if k <? 3 then newest_such cfg (λ e, in_flight now e && same_word addr e) s1 else Ok (-1))
    = Ok d ∧ dep_ok (any_due o) (o3rob_head s) V (length V) d) as (d & Hm & Hmd).
  { destruct (k <? 3); [|exists (-1); split; [done|by left]].
    apply (newest_dep o outs _ s1 V); [by split|done|]. by intros e [? _]%andb_true_iff. }
  log_ok Hm. split; [done|].
  set (e := fill_entry q inf k addr d idep (f1 x)).
  set (s2 := set o3rob_size _ _).
  assert (vec_get (o3rob s2) rob_idx = Ok e) as He.
  { unfold s2. cbn. by rewrite (vec_get_alter _ _ _ (f1 x)) by by apply vec_get_alter. }
  assert (ring (o3rob_max_size cfg) (o3rob_head s) (o3rob s2) (V ++ [e])) as R2.
  { apply ring_push; [|lia|by rewrite <- Hslot']. unfold s2. cbn. rewrite Hslot' at 1.
    apply ring_alter_dead; [exact R1|lia]. }
  assert (o3rob_size s2 = Z.of_nat (length (V ++ [e]))) as Hs2.
  { unfold s2. cbn. rewrite Hs, length_app, u32_id by (unfold in_u32; pose proof (ok_rob OK); lia). cbn. lia. }
  destruct (Forall_cons_1 _ _ _ Hd) as [Hid Hinf]. constructor.
  - exists (V ++ [e]). split_and!.
    + by split.
    + apply rob_ok_push; [done|done|by left|].
      unfold info_deps in Hinf. rewrite !Forall_cons in Hinf. destruct Hinf as (? & ? & ? & ? & ? & _).
      unfold deps. cbn. by repeat (apply Forall_cons_2 || apply Forall_nil_2).
    + by rewrite fmap_app, HR.
    + cbn [snd]. apply Forall_cons_2.
      * right. exists (length V), e. split_and!; [rewrite length_app; cbn; lia|by apply list_lookup_middle|exact Hslot'|done].
      * eapply Forall_impl; [exact Hinf|]. intros y. apply dep_ok_push.
  - cbn [fst]. rewrite Hslot'. unfold rob_slot. rewrite Hs2, length_app.
    rewrite slot_succ by (destruct R; lia). f_equal. cbn. lia.
  - by apply (frame_rob _ s).
Qed.

Lemma wpl_fill_loop o outs q inf s0 ks : ∀ RI acc s,
  filling o outs inf s0 RI acc s → Z.of_nat (length RI + length ks) ≤ o3rob_max_size cfg →
  due o (now ⊕ process_interval cfg) →
  wpl no_failure (fill_loop cfg now q inf acc ks) s o
    (λ _ s' o', o' = o ∧ ∃ acc', filling o outs inf s0 (RI ++ omap (op_at q) ks) acc' s').
Proof.
  induction ks as [|k ks IH]; intros RI acc s Hf Hlen Hdue; cbn [fill_loop].
  { log_step. split; [done|]. exists acc. by rewrite app_nil_r. }
  cbn in Hlen. log_step. eapply wpl_mono; [apply wpl_fill_one; [done|lia|done]|].
  intros acc' s' o' [-> Hf']. eapply wpl_mono; [apply IH; [exact Hf'| |done]|].
  - rewrite length_app. destruct (op_at q k); cbn; lia.
  - intros _ s2 o2 [-> [acc2 H2]]. split; [done|]. exists acc2. rewrite <- app_assoc in H2.
    cbn [omap list_omap]. by destruct (op_at q k).
Qed.

(** The predictor is all that a prediction changes, but for statistics. *)
Lemma wpl_predict o q s :
  bp_ok (bp s) →
  wpl no_failure (predict q) s o (λ _ s' o', o' = o ∧ bp_ok (bp s') ∧
    o3rob s' = o3rob s ∧ o3rob_head s' = o3rob_head s ∧ o3rob_size s' = o3rob_size s ∧
    o3queue s' = o3queue s ∧ o3queue_head s' = o3queue_head s ∧ o3queue_size s' = o3queue_size s ∧
    is_migrate_ready s' = is_migrate_ready s).
Proof.
  intros Hb. unfold predict. case_match; [|by log_step]. log_steps.
  destruct (bp_miss_ok (q_ip q) (bool_decide (q_type q = ins_branch_taken)) _ Hb) as (m & b & Hm & Hb').
  log_ok Hm. by split_and!.
Qed.

Lemma wpl_wake_at W QI RI s o lat :
  (∀ o w i j r, W o i j r → W (o ++ [w]) i j r) → in_u32 lat → mid_ok W QI RI s o →
  wpl no_failure (wake_at cfg (now ⊕ lat)) s o
    (λ _ s' o', s' = s ∧ mid_ok W QI RI s o' ∧ due o' (now ⊕ lat) ∧ o' ≠ o).
Proof.
  intros HW Hl Hm. unfold wake_at. log_step. split_and!; [done| |apply due_now|].
  - apply mid_ok_emit; [by apply HW|done|by apply wake_not_before|done].
  - intros E. apply (f_equal length) in E. rewrite length_app in E. cbn in E. lia.
Qed.

(** An issue moves the head of the queue behind the tail of the reorder buffer. *)
Definition issued (QI : list O3Queue) (RI : list op) (QI' : list O3Queue) (RI' : list op) : Prop :=
  (QI' = QI ∧ RI' = RI) ∨ ∃ q, QI = q :: QI' ∧ RI' = RI ++ micro_ops q.

Lemma sync_micro_ops n q : instr_sync_ok n q → Forall (op_sync_ok n) (micro_ops q).
Proof.
  intros Hq. apply Forall_forall. intros x Hx. apply list_elem_of_omap in Hx as (k & _ & Hk).
  unfold op_at in Hk. destruct (access_of q k); [|done]. by injection Hk as <-.
Qed.

Lemma sync_instr n q : instr_sync_ok n (instr_of q) ↔ instr_sync_ok n q.
Proof. done. Qed.

Lemma wpl_issue_one QI RI s o :
  mid_ok any_due QI RI s o → 0 < o3queue_size s → o3rob_size s < o3rob_max_size cfg - 3 →
  wpl no_failure (issue_one cfg now) s o
    (λ _ s' o', ∃ QI' RI', mid_ok any_due QI' RI' s' o' ∧ issued QI RI QI' RI').
Proof.
  intros Hm Hqs Hrs. pose proof Hm as [Hb [(V & [R Hs] & Hr & HR) (Q & [RQ HsQ] & HQ) Hbp Hsq Hsr]].
  unfold issue_one. log_steps. destruct Q as [|q Q]; [cbn in HsQ; lia|].
  log_ok (ring_get_head _ _ _ _ _ RQ).
  apply wpl_when; intros Hready; [|exists QI, RI; split; [done|by left]].
  log_step. eapply wpl_mono; [by apply wpl_predict|].
  intros m s1 o1 (-> & Hbp1 & E1 & E2 & E3 & E4 & E5 & E6 & E7).
  assert (∀ p, (∀ e, p e = true → in_flight now e = true) → ∃ d, newest_such cfg p s = Ok d ∧
    dep_ok (any_due o) (o3rob_head s) V (length V) d) as Hdep.
  { intros p. apply (newest_dep o (out ++ reqs o)); [by split|done]. }
  assert (∀ rr, ∃ d, reg_dep cfg now rr s = Ok d ∧ dep_ok (any_due o) (o3rob_head s) V (length V) d) as Hreg.
  { intros rr. apply Hdep. by intros e [? _]%andb_true_iff. }
  destruct (Hdep (λ e, in_flight now e && branch_miss e)) as (db & Hdb & Kb).
  { by intros e [? _]%andb_true_iff. }
  destruct (Hreg (q_rr0 q)) as (d0 & H0 & K0), (Hreg (q_rr1 q)) as (d1 & H1 & K1),
    (Hreg (q_rr2 q)) as (d2 & H2 & K2), (Hreg (q_rr3 q)) as (d3 & H3 & K3).
  log_ok Hdb. log_ok H0. log_ok H1. log_ok H2. log_ok H3.
  assert (mid_ok any_due QI RI s1 o) as Hm1.
  { split; [done|]. eapply core_ok_frame; [apply Hm|done..|by rewrite E7]. }
  unfold wake_at. log_steps. set (w := geq_add_event _ _). set (o1 := o ++ [w]).
  assert (mid_ok any_due QI RI s1 o1) as [Hb2 Hc2].
  { apply mid_ok_emit; [apply any_due_emit|done|apply wake_not_before, interval_u32|done]. }
  assert (reqs o1 = reqs o) as Ho1 by (unfold o1; rewrite reqs_app; apply app_nil_r).
  assert (∀ i d, dep_ok (any_due o) (o3rob_head s) V i d → dep_ok (any_due o1) (o3rob_head s1) V i d) as Hmono.
  { intros i d. rewrite E2. apply dep_ok_mono. intros j r. apply due_app. }
  set (inf := Build_issue_info _ _ _ _ _ _).
  assert (filling o1 (out ++ reqs o) inf s1 RI (rob_slot cfg s (o3rob_size s), -1) s1) as Hf.
  { constructor; [|unfold rob_slot; by rewrite E2, E3|by destruct s1].
    exists V. split_and!; [split; by rewrite ?E1, ?E2, ?E3| |done|].
    - rewrite E2. eapply rob_ok_mono; [| |exact Hr]; [intros i j r; apply due_app|].
      intros r [Hr'|Hr']; [left; by apply due_app|by right].
    - apply Forall_cons_2; [by left|]. unfold info_deps, inf. cbn.
      repeat (apply Forall_cons_2 || apply Forall_nil_2); by apply Hmono. }
  eapply wpl_mono; [eapply (wpl_fill_loop _ _ _ _ _ _ _ _ _ Hf)|].
  { rewrite <- HR, length_fmap. cbn. lia. }
  { apply due_now. }
  intros _ s2 o2 (-> & acc' & [(V2 & [R2 Hs2] & Hr2 & HR2 & _) _ Hf2]). log_step.
  assert (o3queue s2 = o3queue s ∧ o3queue_head s2 = o3queue_head s ∧ o3queue_size s2 = o3queue_size s ∧
    is_migrate_ready s2 = is_migrate_ready s ∧ bp s2 = bp s1) as (F1 & F2 & F3 & F4 & F5).
  { rewrite Hf2. cbn. by split_and!. }
  exists (instr_of <$> Q), (RI ++ micro_ops q). split; [|right; exists (instr_of q); by rewrite <- HQ].
  rewrite <- HQ in Hsq. cbn [fmap list_fmap] in Hsq. apply Forall_cons_1 in Hsq as [Hq HsQ'].
  split; [done|]. rewrite Ho1. constructor.
  - exists V2. by split_and!.
  - exists Q. split; [|done]. split; cbn; rewrite ?F1, ?F2, ?F3.
    + unfold queue_slot. rewrite F2. rewrite <- (slot_0 (o3queue_max_size cfg) (o3queue_head s)) at 2
        by (pose proof (ok_queue OK); destruct RQ; lia).
      pose proof (ring_alter (λ e : O3Queue, e <| q_state := o3iqs_invalid |>) _ _ _ _ 0 q RQ eq_refl) as R3.
      cbn [insert list_insert] in R3. by eapply ring_pop.
    + rewrite HsQ. cbn. rewrite u32_id; [lia|]. unfold in_u32. pose proof (ring_size _ _ _ _ RQ) as Hz.
      cbn in Hz. pose proof (ok_queue OK). lia.
  - cbn. by rewrite F5.
  - cbn. by rewrite F4.
  - cbn. rewrite F4. apply Forall_app_2; [done|]. by apply sync_micro_ops.
Qed.

Lemma wpl_issue_loop width : ∀ QI RI s o,
  mid_ok any_due QI RI s o →
  wpl no_failure (issue_loop cfg now width) s o
    (λ _ s' o', ∃ k, (k ≤ width)%nat ∧
       mid_ok any_due (drop k QI) (RI ++ concat (micro_ops <$> take k QI)) s' o').
Proof.
  induction width as [|width IH]; intros QI RI s o Hm; cbn [issue_loop].
  { log_step. exists 0%nat. by rewrite take_0, drop_0, app_nil_r. }
  log_steps. apply wpl_when; intros Hg.
  2: { exists 0%nat. rewrite take_0, drop_0, app_nil_r. split; [lia|done]. }
  apply andb_true_iff in Hg as [H1%Z.ltb_lt H2%Z.ltb_lt].
  rewrite u32_id in H2 by (unfold in_u32; pose proof (ok_rob OK); lia).
  log_step. eapply wpl_mono; [by apply wpl_issue_one|].
  intros _ s1 o1 (QI1 & RI1 & Hm1 & Hi). eapply wpl_mono; [by apply IH|].
  intros _ s2 o2 (k & Hk & Hm2). destruct Hi as [[-> ->]|(q & -> & ->)].
  - exists k. split; [lia|done].
  - exists (S k). split; [lia|]. cbn. by rewrite app_assoc.
Qed.

(** *** Execution *)

Lemma mid_out_NoDup W QI RI s o : mid_ok W QI RI s o → NoDup (out ++ reqs o).
Proof. intros [_ [(V & _ & Hr & _) _ _ _ _]]. apply Hr. Qed.

(** An entry the loop may execute. *)
Lemma mid_entry W QI RI s o i :
  mid_ok W QI RI s o → 0 ≤ i < o3rob_size s →
  ∃ V e, rob_view s V ∧ rob_ok (W o) (ready_ok o) (out ++ reqs o) (o3rob_head s) V ∧
    op_of <$> V = RI ∧ V !! Z.to_nat i = Some e ∧
    rob_slot cfg s i = slot (o3rob_max_size cfg) (o3rob_head s) (Z.of_nat (Z.to_nat i)) ∧
    vec_get (o3rob s) (rob_slot cfg s i) = Ok e.
Proof.
  intros [_ [(V & [R Hs] & Hr & HR) _ _ _ _]] Hi.
  destruct (lookup_lt_is_Some_2 V (Z.to_nat i)) as [e He]; [lia|].
  assert (rob_slot cfg s i = slot (o3rob_max_size cfg) (o3rob_head s) (Z.of_nat (Z.to_nat i))) as E.
  { unfold rob_slot. f_equal. lia. }
  exists V, e. rewrite E. split_and!; [by split|done..|]. by eapply ring_get.
Qed.

(** An entry changes state and the calls grow by [w]. *)
Lemma mid_update QI RI s o w V k e (f : O3ROB → O3ROB) :
  mid_ok any_due QI RI s o → rob_view s V →
  rob_ok (any_due o) (ready_ok o) (out ++ reqs o) (o3rob_head s) V → op_of <$> V = RI →
  V !! k = Some e → r_state e = o3irs_issued → op_of (f e) = op_of e → not_before now w →
  (r_state (f e) = o3irs_completed ∧ due (o ++ [w]) (r_ready_time (f e)) ∧ data_slot w = None) ∨
  (r_state (f e) = o3irs_executing ∧
     data_slot w = Some (slot (o3rob_max_size cfg) (o3rob_head s) (Z.of_nat k))) →
  mid_ok any_due QI RI
    (set_rob (slot (o3rob_max_size cfg) (o3rob_head s) (Z.of_nat k)) f s) (o ++ [w]).
Proof.
  intros [Hb Hc] [R Hs] Hr HR Hk Hst Hop Hw Hcase.
  assert (∀ i j r, any_due o i j r → any_due (o ++ [w]) i j r) as HW by (intros; by apply due_app).
  split; [by apply Forall_app_2; [|constructor]|]. destruct Hc as [_ HQ Hbp H1 H2].
  constructor; try done. exists (<[k := f e]> V). split_and!.
  - split; cbn; [by apply ring_alter|by rewrite length_insert].
  - assert (slot (o3rob_max_size cfg) (o3rob_head s) (Z.of_nat k) ∉ out ++ reqs o) as Hnot.
    { rewrite (rob_out _ _ _ _ _ Hr). intros (i & x & Hi & Hx & E).
      eapply ring_slot_inj in E; [|exact R|exact Hk|exact Hi]. subst i.
      rewrite Hk in Hi. injection Hi as ->. by rewrite Hst in Hx. }
    assert (rob_ok (any_due (o ++ [w])) (ready_ok (o ++ [w])) (out ++ reqs o) (o3rob_head s) V) as Hr'.
    { eapply rob_ok_mono; [exact HW| |exact Hr]. intros r [Hr'|Hr']; [left; by apply due_app|by right]. }
    rewrite reqs_app. cbn [reqs omap list_omap]. cbn [set_rob o3rob_head set].
    eapply rob_ok_update; [exact R|exact Hr'|exact Hk| | | |].
    + intros E. left. intros i. by destruct Hcase as [(_ & Hd & _)|[E' _]]; [|congruence].
    + unfold entry_ok. destruct Hcase as [(-> & Hd & _)|[-> _]]; [by left|done].
    + destruct Hcase as [(_ & _ & ->)|[_ ->]]; rewrite ?app_nil_r; [apply Hr|].
      rewrite app_assoc. apply NoDup_app. split_and!; [apply Hr| |apply NoDup_singleton].
      intros x Hx ->%list_elem_of_singleton. done.
    + intros d. destruct Hcase as [(E & _ & ->)|[E ->]]; rewrite E, ?app_nil_r.
      * split; [|naive_solver]. intros Hd. left. split; [done|]. by intros ->.
      * rewrite app_assoc, elem_of_app, list_elem_of_singleton.
        split; [intros [Hd|Hd]; [left; split; [done|by intros ->]|by right]|naive_solver].
  - rewrite list_fmap_insert, Hop, <- HR. apply list_insert_id. by rewrite list_lookup_fmap, Hk.
Qed.

(** What the rounds of the loop keep. *)
Definition kept (QI : list O3Queue) (RI : list op) (n : Z) (s : state) (o : list call) : Prop :=
  mid_ok any_due QI RI s o ∧ o3rob_size s = n.

Lemma wpl_complete QI RI n s o i e lat :
  kept QI RI n s o → 0 ≤ i < n → vec_get (o3rob s) (rob_slot cfg s i) = Ok e →
  r_state e = o3irs_issued → in_u32 lat →
  wpl no_failure (complete cfg (rob_slot cfg s i) (now ⊕ lat)) s o
    (λ _ s' o', kept QI RI n s' o' ∧ is_migrate_ready s' = is_migrate_ready s).
Proof.
  intros [Hm <-] Hi He Hs Hl. unfold complete, wake_at. log_steps.
  destruct (mid_entry _ _ _ _ _ _ Hm Hi) as (V & x & Hv & Hr & HR & Hx & E & Hget).
  rewrite He in Hget. injection Hget as <-. rewrite E. split; [|done]. split; [|done].
  eapply mid_update; try done; [by apply wake_not_before|]. left. split_and!; [done|apply due_now|done].
Qed.

Lemma wpl_send_access QI RI n s o i e :
  kept QI RI n s o → 0 ≤ i < n → vec_get (o3rob s) (rob_slot cfg s i) = Ok e →
  r_state e = o3irs_issued →
  wpl no_failure (send_access cfg now (rob_slot cfg s i) e) s o
    (λ _ s' o', kept QI RI n s' o').
Proof.
  intros [Hm <-] Hi He Hs. unfold send_access. log_steps.
  destruct (mid_entry _ _ _ _ _ _ Hm Hi) as (V & x & Hv & Hr & HR & Hx & E & Hget).
  rewrite He in Hget. injection Hget as <-.
  pose proof (slot_range (o3rob_max_size cfg) (o3rob_head s) (Z.of_nat (Z.to_nat i))
    ltac:(pose proof (ok_rob OK); lia)).
  rewrite E. split; [|done]. eapply mid_update; try done.
  - pose proof (ok_to_l1d OK). destruct (bypass_tlb cfg); solve_latency.
  - right. split; [done|]. destruct (bypass_tlb cfg); cbn; by destruct (Z.leb_spec 0
      (slot (o3rob_max_size cfg) (o3rob_head s) (Z.of_nat (Z.to_nat i)))); [|lia].
Qed.

Lemma wpl_stall QI RI n s o c :
  kept QI RI n s o →
  wpl no_failure (stall cfg now c) s o (λ _ s' o', kept QI RI n s' o').
Proof.
  intros [Hm Hn]. unfold stall. log_step.
  eapply wpl_mono; [apply wpl_wake_at; [apply any_due_emit|apply interval_u32|exact Hm]|].
  intros _ s1 o1 (-> & Hm1 & _). by log_step.
Qed.

Lemma kept_migrate QI RI n s o f :
  kept QI RI n s o → (∀ l, length (f l) = length l) →
  kept QI RI n (s <| is_migrate_ready ::= f |>) o.
Proof.
  intros [[Hb Hc] Hn] Hf. split; [|done]. split; [done|]. eapply core_ok_frame; try done.
  - apply Hc.
  - apply Hf.
Qed.

Lemma latency_u32 e : in_u32 (latency cfg e).
Proof.
  destruct OK. unfold latency.
  destruct (r_type e), (branch_miss e); done || apply u32_range || by apply interval_u32.
Qed.

Lemma wpl_exec_one QI RI n i c s o :
  kept QI RI n s o → 0 ≤ i < n →
  wpl no_failure (exec_one cfg now i c) s o (λ _ s' o', kept QI RI n s' o').
Proof.
  intros Hk Hi. pose proof Hk as [Hm Hn]. unfold exec_one. log_steps.
  destruct (mid_entry _ _ _ _ _ i Hm ltac:(lia)) as (V & e & Hv & Hr & HR & Hx & _ & He).
  log_ok He.
  assert (op_sync_ok (length (is_migrate_ready s)) (op_of e)) as Hsync.
  { destruct Hm as [_ Hc]. pose proof (core_sync_rob _ _ _ _ _ _ Hc) as Hall.
    eapply Forall_lookup_1 in Hall; [exact Hall|]. by rewrite <- HR, list_lookup_fmap, Hx. }
  destruct (bool_decide _ && _) eqn:Hst.
  2: { destruct (mimick_inorder cfg); [by apply wpl_stall|by log_step]. }
  apply andb_true_iff in Hst as [Hst%bool_decide_eq_true _].
  assert (r_type e = ins_notify ∨ r_type e = ins_waitfor →
    ∃ b, vec_get (is_migrate_ready s) (r_rw0 e) = Ok b) as Hget.
  { intros Ht. by apply vec_get_lt, Hsync. }
  assert (∀ b (l : list bool), length (vec_set (r_rw0 e) b l) = length l) as Hlen.
  { intros b l. apply length_vec_alter. }
  destruct (r_type e) eqn:Ht.
  11: { (* ins_notify *)
    destruct (i =? 0); [|by apply wpl_stall]. log_step.
    eapply wpl_mono; [by apply (wpl_complete QI RI n _ _ _ e), OK|]. intros _ s1 o1 [Hk1 E].
    destruct Hget as [b Hb]; [by left|]. log_ok Hb. by apply kept_migrate. }
  11: { (* ins_waitfor *)
    assert (∃ b, (if i =? 0 then vec_get (is_migrate_ready s) (r_rw0 e) else Ok false) = Ok b) as [b Hb].
    { destruct (i =? 0); [apply Hget; by right|by eexists]. }
    log_ok Hb. destruct b; [|by apply wpl_stall]. log_step.
    eapply wpl_mono; [by apply (wpl_complete QI RI n _ _ _ e), interval_u32|]. intros _ s1 o1 [Hk1 E].
    log_steps. by apply kept_migrate. }
  all: destruct (no_deps e);
    [|destruct (mimick_inorder cfg); [by apply wpl_stall|by log_step]].
  all: destruct (_ && _ && _);
    [log_step; eapply wpl_mono; [by apply (wpl_complete QI RI n _ _ _ e), latency_u32|];
     intros [] s1 o1 [Hk1 E]; by log_step|].
  all: destruct (_ && _ && _); [|by log_step].
  all: log_step; eapply wpl_mono; [by apply (wpl_send_access QI RI n _ _ _ e)|]; intros [] s1 o1 Hk1;
    by log_step.
Qed.

Lemma wpl_exec_loop QI RI n ks : ∀ c s o,
  kept QI RI n s o → Forall (λ i, 0 ≤ i < n) ks →
  wpl no_failure (exec_loop cfg now ks c) s o (λ _ s' o', kept QI RI n s' o').
Proof.
  induction ks as [|i ks IH]; intros c s o Hk Hall; cbn [exec_loop]; [by log_step|].
  inv Hall. log_step. eapply wpl_mono; [by apply wpl_exec_one|]. intros [c' []] s1 o1 Hk1; [by log_step|].
  by apply IH.
Qed.

(** *** Wake-up

    The entries at offsets below [k] that complete in this cycle have woken their
    dependents; the one at [k] has woken those below [m]. *)

Definition woken (k m : nat) (o : list call) (i j : nat) (r : Z) : Prop :=
  due o r ∧ ((j < k)%nat ∨ (j = k ∧ (i < m)%nat) → r ≠ now).

Lemma woken_emit k m o w i j r : woken k m o i j r → woken k m (o ++ [w]) i j r.
Proof. intros [Hd Hr]. split; [by apply due_app|done]. Qed.

Lemma rob_ok_deps (W W' : nat → nat → Z → Prop) C outs h V :
  (∀ i x d, V !! i = Some x → r_state x = o3irs_issued → d ∈ deps x →
     dep_ok W h V i d → dep_ok W' h V i d) →
  rob_ok W C outs h V → rob_ok W' C outs h V.
Proof.
  intros HW [He Hn Ho]. constructor; [|done..]. intros i x Hi. specialize (He _ _ Hi).
  unfold entry_ok in *. destruct (r_state x) eqn:Hs; try done. destruct He as [Hr Hd]. split; [done|].
  rewrite Forall_forall in Hd |- *. eauto.
Qed.

Lemma mid_deps W W' QI RI s o :
  (∀ V, rob_view s V → ∀ i x d, V !! i = Some x → r_state x = o3irs_issued → d ∈ deps x →
     dep_ok (W o) (o3rob_head s) V i d → dep_ok (W' o) (o3rob_head s) V i d) →
  mid_ok W QI RI s o → mid_ok W' QI RI s o.
Proof.
  intros HW [Hb [(V & Hv & Hr & HR) ? ? ? ?]]. split; [done|]. constructor; try done.
  exists V. split_and!; [done| |done]. eapply rob_ok_deps; [|done]. by apply HW.
Qed.

(** A weaker condition on the targets. *)
Lemma mid_targets (W W' : list call → nat → nat → Z → Prop) QI RI s o :
  (∀ V i j e, rob_view s V → (j < i < length V)%nat → V !! j = Some e →
     W o i j (r_ready_time e) → W' o i j (r_ready_time e)) →
  mid_ok W QI RI s o → mid_ok W' QI RI s o.
Proof.
  intros HW. apply mid_deps. intros V Hv i x d Hi _ _ [->|(j & e & Hj & He & Hd & Hw)]; [by left|].
  right. exists j, e. split_and!; [done..|]. intros Hs. apply (HW V); [done| |done|by apply Hw].
  split; [done|]. by eapply lookup_lt_Some.
Qed.

Lemma clear_deps_in idx e d : d ∈ deps (clear_deps idx e) → d = -1 ∨ (d ∈ deps e ∧ d ≠ idx).
Proof.
  unfold deps, clear_deps, clear_dep. cbn. rewrite !elem_of_cons. intros H.
  destruct H as [->|[->|[->|[->|[->|[->|[->|[]%elem_of_nil]]]]]]];
    case_match eqn:E; (by left) || (apply Z.eqb_neq in E; right; tauto).
Qed.

Definition waking (k m : nat) (QI : list O3Queue) (RI : list op) (n : Z) (s : state) (o : list call)
    : Prop :=
  mid_ok (woken k m) QI RI s o ∧ o3rob_size s = n.

Lemma wpl_wake_next QI RI n k j h s o :
  waking k (Z.to_nat j) QI RI n s o ∧ o3rob_head s = h → Z.of_nat k < j < n →
  wpl no_failure (wake_next cfg (slot (o3rob_max_size cfg) h (Z.of_nat k)) j) s o
    (λ _ s' o', waking k (Z.to_nat (j + 1)) QI RI n s' o' ∧ o3rob_head s' = h).
Proof.
  intros [[Hm Hn] Hh] Hj. unfold wake_next. log_steps.
  destruct (mid_entry _ _ _ _ _ j Hm ltac:(lia)) as (V & e & [R Hs] & Hr & HR & Hx & E & He). log_ok He.
  replace (Z.to_nat (j + 1)) with (S (Z.to_nat j)) by lia.
  set (m := Z.to_nat j) in *. set (idx := slot _ h _).
  assert (∀ i x d V', i ≠ m → V' !! i = Some x → dep_ok (woken k m o) (o3rob_head s) V' i d →
    dep_ok (woken k (S m) o) (o3rob_head s) V' i d) as Hne.
  { intros i x d V' Hi _. apply dep_ok_mono. intros jj r [Hd Hw]. split; [done|].
    intros [Hk|[-> Hk]]; apply Hw; [by left|right; lia]. }
  apply wpl_when; intros Hst.
  - log_step. split; [|done]. split; [|done]. apply bool_decide_eq_true in Hst.
    destruct Hm as [Hb Hc]. split; [done|]. rewrite E. destruct Hc as [_ HQ Hbp H1 H2].
    constructor; try done. exists (<[m := clear_deps idx e]> V). split_and!.
    + split; cbn; [by apply ring_alter|by rewrite length_insert].
    + cbn [set_rob o3rob_head set]. eapply (rob_ok_deps (woken k m o)).
      { intros i x d Hi Hsx Hd Hdep. destruct (decide (i = m)) as [->|Hi']; [|by eapply Hne].
        rewrite list_lookup_insert_eq in Hi by (by eapply lookup_lt_Some). injection Hi as <-.
        apply clear_deps_in in Hd as [->|[Hd Hidx]]; [by left|].
        destruct Hdep as [->|(jj & y & Hjj & Hy & -> & Hw)]; [by left|]. right. exists jj, y.
        split_and!; [done..|]. intros Hsy. destruct (Hw Hsy) as [Hdue Hw']. split; [done|].
        intros [Hk|[-> _]]; [by apply Hw'; left|]. unfold idx in Hidx. by rewrite Hh in Hidx. }
      eapply rob_ok_update; [exact R|exact Hr|exact Hx| | | |].
      * cbn. by rewrite Hst.
      * pose proof (rob_entries _ _ _ _ _ Hr _ _ Hx) as Hok. unfold entry_ok in *. cbn. rewrite Hst in *.
        destruct Hok as [Hok1 Hok2]. split; [done|]. apply Forall_forall. intros d Hd.
        apply clear_deps_in in Hd as [->|[Hd _]]; [by left|]. by eapply Forall_forall in Hok2.
      * apply Hr.
      * intros d. cbn. rewrite Hst. split; [|naive_solver]. intros Hd. left. split; [done|].
        intros ->. apply (rob_out _ _ _ _ _ Hr) in Hd as (i & x & Hi & Hsx & Hd).
        eapply ring_slot_inj in Hd; [|exact R|exact Hx|exact Hi]. subst i. congruence.
    + rewrite list_fmap_insert, <- HR. apply list_insert_id. by rewrite list_lookup_fmap, Hx.
  - split; [|done]. split; [|done]. apply bool_decide_eq_false in Hst.
    eapply mid_deps; [|exact Hm]. intros V' [R' Hs'] i x d Hi Hsx Hd.
    destruct (decide (i = m)) as [->|Hi']; [|by eapply Hne]. exfalso. apply Hst.
    pose proof (ring_get _ _ _ _ _ _ R' Hi) as Hg. rewrite E in He. rewrite He in Hg. by injection Hg as ->.
Qed.

Lemma wpl_wake_one QI RI n i h s o :
  waking (Z.to_nat i) 0 QI RI n s o ∧ o3rob_head s = h → 0 ≤ i < n →
  wpl no_failure (wake_one cfg now i) s o
    (λ _ s' o', waking (Z.to_nat (i + 1)) 0 QI RI n s' o' ∧ o3rob_head s' = h).
Proof.
  intros [[Hm Hn] Hh] Hi. unfold wake_one. log_steps.
  destruct (mid_entry _ _ _ _ _ i Hm ltac:(lia)) as (V & e & [R Hs] & Hr & HR & Hx & E & He). log_ok He.
  replace (Z.to_nat (i + 1)) with (S (Z.to_nat i)) by lia. set (k := Z.to_nat i) in *.
  apply wpl_when; intros Hst.
  - log_step. eapply wpl_mono; [apply wpl_wake_at; [apply woken_emit|apply interval_u32|exact Hm]|].
    intros _ s1 o1 (-> & Hm1 & _). rewrite E, Hn.
    replace (i + 1) with (Z.of_nat (S k)) by lia.
    eapply wpl_mono; [apply (wpl_for_range no_failure (λ j s' o', waking k (Z.to_nat j) QI RI n s' o' ∧ o3rob_head s' = h))|].
    + lia.
    + intros j s2 o2 Hj Hw. rewrite Hh. apply wpl_wake_next; [done|lia].
    + split; [|done]. split; [|done]. rewrite Nat2Z.id. eapply mid_targets; [|exact Hm1].
      intros V' p j x _ Hp _ [Hd Hw]. split; [done|]. intros [Hk|[-> Hk]]; [by apply Hw; left|lia].
    + intros _ s2 o2 [[Hm2 Hn2] Hh2]. split; [|done]. split; [|done].
      eapply mid_targets; [|exact Hm2]. intros V' p j x [_ Hs'] Hp _ [Hd Hw]. split; [done|].
      intros [Hk|[_ Hk]]; [|lia]. apply Hw. destruct (decide (j = k)) as [->|]; [right; lia|left; lia].
  - split; [|done]. split; [|done]. eapply mid_deps; [|exact Hm].
    intros V' [R' Hs'] p x d _ _ _ [->|(j & y & Hj & Hy & Hd & Hw)]; [by left|]. right. exists j, y.
    split_and!; [done..|]. intros Hsy. destruct (Hw Hsy) as [Hdue Hw']. split; [done|].
    intros [Hk|[_ Hk]]; [|lia]. destruct (decide (j = k)) as [->|]; [|apply Hw'; left; lia].
    pose proof (ring_get _ _ _ _ _ _ R' Hy) as Hg. rewrite E in He. rewrite He in Hg. injection Hg as ->.
    rewrite Hsy, bool_decide_true in Hst by done. cbn in Hst. by apply Z.eqb_neq in Hst.
Qed.

(** After the loop, no entry waits for one that is ready by now. *)
Definition later (o : list call) (i j : nat) (r : Z) : Prop := due o r ∧ now < r.

Lemma wpl_wake_loop QI RI s o :
  mid_ok any_due QI RI s o →
  wpl no_failure (for_each (upto (o3rob_size s)) (wake_one cfg now)) s o
    (λ _ s' o', mid_ok later QI RI s' o').
Proof.
  intros Hm. assert (0 ≤ o3rob_size s) as Hs.
  { destruct Hm as [_ [(V & [_ Hs] & _) _ _ _ _]]. lia. }
  eapply wpl_mono; [apply (wpl_for_range no_failure
    (λ i s' o', waking (Z.to_nat i) 0 QI RI (o3rob_size s) s' o' ∧ o3rob_head s' = o3rob_head s))|].
  - done.
  - intros i s1 o1 Hi Hw. by apply wpl_wake_one.
  - split; [|done]. split; [|done]. eapply mid_targets; [|exact Hm]. intros V i j e _ _ _ Hd.
    split; [done|]. lia.
  - intros _ s1 o1 [[Hm1 Hn1] _]. eapply mid_targets; [|exact Hm1].
    intros V i j e [_ Hv] Hj _ [Hd Hw]. split; [done|].
    pose proof (due_after _ _ (proj1 Hm1) Hd). assert (r_ready_time e ≠ now); [apply Hw; left; lia|lia].
Qed.

(** *** Commit *)

Lemma wpl_commit QI RI s o width :
  mid_ok later QI RI s o →
  wpl no_failure (commit_loop cfg now width) s o
    (λ _ s' o', ∃ k, (k ≤ width)%nat ∧ mid_ok later QI (drop k RI) s' o').
Proof.
  intros [Hb [(V & Hv & Hr & HR) HQ Hbp H1 H2]].
  apply wpl_of_wp. eapply wp_mono;
    [apply (wp_commit_loop OK now (rob_ok (later o) (ready_ok o) (out ++ reqs o)) width); [|exact Hv|exact Hr]|].
  { intros h l e V' R' [Hst%bool_decide_eq_true Hrd%Z.leb_le]%andb_true_iff Hr'.
    eapply rob_ok_pop; [exact R'|exact Hr'|done| |done]. intros i [_ Hl]. lia. }
  intros [] s1 o1 (-> & k & Hk & Hv1 & Hr1 & _ & Hf). rewrite app_nil_r.
  exists k. split; [done|]. split; [done|].
  constructor; [|rewrite Hf; done..|].
  - exists (drop k V). split_and!; [done..|]. by rewrite fmap_drop, HR.
  - rewrite Hf. cbn. by apply Forall_drop.
Qed.

Lemma wpl_commit_more QI RI s o :
  mid_ok later QI RI s o →
  wpl no_failure (commit_more cfg now) s o (λ _ s' o', mid_ok later QI RI s' o').
Proof.
  intros Hm. unfold commit_more. log_steps. apply wpl_when; intros Hpos; [|done].
  apply Z.ltb_lt in Hpos. pose proof Hm as [_ [(V & [R Hs] & _) _ _ _ _]].
  destruct V as [|e V]; [cbn in Hs; lia|]. log_ok (ring_get_head _ _ _ _ _ R).
  apply wpl_when; intros _; [|done].
  eapply wpl_mono; [apply wpl_wake_at; [|apply interval_u32|exact Hm]|].
  - intros o1 w i j r [Hd Hl]. split; [by apply due_app|done].
  - by intros [] s1 o1 (-> & Hm1 & _).
Qed.

(** *** The cycle *)

Lemma wpl_cycle QI RI s o :
  mid_ok any_due QI RI s o →
  wpl no_failure (cycle cfg now) s o
    (λ _ s' o', ∃ i c, (i ≤ Z.to_nat (max_issue_width cfg))%nat ∧ (c ≤ Z.to_nat (max_commit_width cfg))%nat ∧
       mid_ok later (drop i QI) (drop c (RI ++ concat (micro_ops <$> take i QI))) s' o').
Proof.
  intros Hm. unfold cycle. log_steps.
  eapply wpl_mono; [apply wpl_load_loop; [apply any_due_emit|exact Hm|]|].
  { apply Forall_forall. intros i. by rewrite elem_of_upto. }
  intros [] s1 o1 Hm1. log_step. eapply wpl_mono; [by apply wpl_issue_loop|].
  intros [] s2 o2 (i & Hi & Hm2). log_steps.
  eapply wpl_mono; [apply wpl_exec_loop; [by split|]|].
  { apply Forall_forall. intros j. by rewrite elem_of_upto. }
  intros [] s3 o3 [Hm3 Hn3]. log_step. rewrite <- Hn3.
  eapply wpl_mono; [by apply wpl_wake_loop|].
  intros [] s4 o4 Hm4. log_step. eapply wpl_mono; [by apply wpl_commit|].
  intros [] s5 o5 (c & Hc & Hm5). eapply wpl_mono; [by apply wpl_commit_more|].
  intros [] s6 o6 Hm6. by exists i, c.
Qed.
End Cycle.

(** ** A cycle that calls nothing *)

(** Every kind of operation can be executed. *)
Record limits_ok : Prop := {
  lim_alu : 0 < max_alu cfg; lim_ldst : 0 < max_ldst cfg; lim_ld : 0 < max_ld cfg;
  lim_st : 0 < max_st cfg; lim_sse : 0 < max_sse cfg }.

Section Quiet.
Context (OK : cfg_ok) (LIM : limits_ok) (now : Z).

(** The core is not woken, and sent no data access. *)
Definition quiet (o : list call) : Prop := ticks o = [] ∧ reqs o = [].

Lemma quiet_app o o' : quiet (o ++ o') ↔ quiet o ∧ quiet o'.
Proof. unfold quiet. rewrite ticks_app, reqs_app, !app_nil. tauto. Qed.

Lemma not_quiet_wake t o : ¬ quiet (geq_add_event t (this cfg) :: o).
Proof. intros [H _]. cbn in H. by rewrite bool_decide_true in H. Qed.

Lemma wp_true {A} (m : proc call state A) s : wp any_failure m s (λ _ _ _, True).
Proof. by apply wp_intro. Qed.

Lemma wp_wake_at E t s (Q : unit → state → list call → Prop) :
  (∀ o, ¬ quiet o → Q tt s o) → wp E (wake_at cfg t) s Q.
Proof. intros H. unfold wake_at. wp_step. apply H, not_quiet_wake. Qed.

(** Whatever follows a wake-up, the run is not quiet. *)
Lemma wp_wake_then {A} t (m : proc call state A) s (R : A → state → Prop) :
  wp any_failure (_ ← wake_at cfg t; m) s (λ a s' o, quiet o → R a s').
Proof.
  wp_step. apply wp_wake_at. intros o Ho. eapply wp_mono; [apply wp_true|].
  by intros a s' o' _ [? _]%quiet_app.
Qed.

(** Sequencing, for what holds of quiet runs. *)
Lemma wp_bind_quiet {A B} (m : proc call state A) (k : A → proc call state B) s
    (Q1 : A → state → Prop) (Q : B → state → Prop) :
  wp any_failure m s (λ a s' o, quiet o → Q1 a s') →
  (∀ a s', Q1 a s' → wp any_failure (k a) s' (λ b s2 o, quiet o → Q b s2)) →
  wp any_failure (m ≫= k) s (λ b s2 o, quiet o → Q b s2).
Proof.
  intros Hm Hk. wp_step. eapply wp_mono; [exact Hm|]. intros a s1 o1 H1.
  apply wp_intro; [|done]. intros b s2 o2 Hr [Hq1 Hq2]%quiet_app.
  specialize (Hk a s1 (H1 Hq1)). eapply wp_run in Hk; [|exact Hr]. by apply Hk.
Qed.

Definition same_rob (s s' : state) : Prop :=
  o3rob s' = o3rob s ∧ o3rob_head s' = o3rob_head s ∧ o3rob_size s' = o3rob_size s.

Lemma load_keeps_rob s ks : ∀ a, keeps (same_rob s) (load_loop cfg now a ks).
Proof.
  induction ks as [|i ks IH]; intros a; cbn [load_loop]; [apply keeps_ret|].
  apply keeps_bind; [|intros; apply IH]. unfold load_one.
  repeat (keeps_step || (apply keeps_modify; by intros s' Hs')).
Qed.

Lemma issue_one_quiet s :
  wp any_failure (issue_one cfg now) s (λ _ s' o, quiet o → same_rob s s').
Proof.
  unfold issue_one. wp_steps. apply wp_lift; [|done]. intros q _. apply wp_when; intros Hw; [|done].
  wp_step. eapply wp_mono; [apply wp_true|]. intros m s1 o1 _.
  do 5 (wp_step; apply wp_lift; [|done]; intros ? _).
  eapply wp_mono; [apply (wp_wake_then _ _ _ (λ _ s', same_rob s s'))|].
  intros [] s2 o2 H [_ [_ [_ [_ [_ [_ Hq]%quiet_app]%quiet_app]%quiet_app]%quiet_app]%quiet_app]%quiet_app.
  by apply H.
Qed.

Lemma issue_loop_quiet width : ∀ s,
  wp any_failure (issue_loop cfg now width) s (λ _ s' o, quiet o → same_rob s s').
Proof.
  induction width as [|width IH]; intros s; cbn [issue_loop]; [by wp_step|].
  wp_steps. apply wp_when; intros _; [|done].
  apply (wp_bind_quiet _ _ _ (λ _ s', same_rob s s')); [apply issue_one_quiet|].
  intros [] s1 (E1 & E2 & E3). eapply wp_mono; [apply IH|].
  intros [] s2 o2 H2 Hq. destruct (H2 Hq) as (F1 & F2 & F3). by split_and!; etrans.
Qed.

(** The entry at offset [i] is not ready to execute. *)
Definition idle (s : state) (i : Z) : Prop :=
  ∀ e, vec_get (o3rob s) (rob_slot cfg s i) = Ok e → r_state e = o3irs_issued →
       r_ready_time e ≤ now → no_deps e = false.

Definition zero : counters := Build_counters 0 0 0 0 0.

Lemma exec_one_quiet s i :
  wp any_failure (exec_one cfg now i zero) s
    (λ r s' o, quiet o → s' = s ∧ r = (zero, false) ∧ idle s i).
Proof.
  assert (∀ r, wp any_failure (stall cfg now zero) s (λ r' s' o, quiet o → r s r')) as Hstall.
  { intros r. apply wp_wake_then with (R := λ r' _, r s r'). }
  assert (∀ {A} idx t (m : proc call state A) (R : A → state → Prop),
    wp any_failure (_ ← complete cfg idx t; m) s (λ r s' o, quiet o → R r s')) as Hcomplete.
  { intros A idx t m R. unfold complete. wp_step. wp_step. wp_step. apply wp_wake_at. intros o Ho.
    eapply wp_mono; [apply wp_true|]. by intros a s' o' _ [? _]%quiet_app. }
  assert (∀ {A} idx e (m : proc call state A) (R : A → state → Prop),
    0 ≤ idx → wp any_failure (_ ← send_access cfg now idx e; m) s (λ r s' o, quiet o → R r s')) as Hsend.
  { intros A idx e m R Hi. unfold send_access. wp_steps. eapply wp_mono; [apply wp_true|].
    intros a s' o' _ [[_ H] _]%quiet_app. exfalso. destruct (bypass_tlb cfg); cbn in H;
      by destruct (Z.leb_spec 0 idx); [|lia]. }
  unfold exec_one. wp_steps. apply wp_lift; [|done]. intros e He.
  destruct (bool_decide _ && _) eqn:Hst.
  2: { destruct (mimick_inorder cfg); [apply (Hstall (λ s r, _))|]. wp_step. intros _.
       split_and!; [done..|]. intros e' He' Hs Hr. rewrite He in He'. injection He' as <-.
       by rewrite Hs, bool_decide_true, (proj2 (Z.leb_le _ _) Hr) in Hst. }
  destruct (r_type e) eqn:Ht.
  11: { destruct (i =? 0); [|apply (Hstall (λ s r, _))]. apply (Hcomplete _ _ _ _ (λ r s', _)). }
  11: { wp_step. apply wp_lift; [|done]. intros [] _; [|apply (Hstall (λ s r, _))].
        apply (Hcomplete _ _ _ _ (λ r s', _)). }
  all: destruct (no_deps e) eqn:Hnd.
  all: try (destruct (mimick_inorder cfg); [apply (Hstall (λ s r, _))|]; wp_step; intros _;
            split_and!; [done..|]; intros e' He' _ _; rewrite He in He'; by injection He' as <-).
  all: match goal with |- context [if ?b && (num_alu zero <? _) && ?c then _ else _] =>
         destruct (b && (num_alu zero <? max_alu cfg) && c) eqn:Halu end;
       [apply (Hcomplete _ _ _ _ (λ r s', _))|].
  all: match goal with |- context [if ?b && (num_ldst zero <? _) && ?c then _ else _] =>
         destruct (b && (num_ldst zero <? max_ldst cfg) && c) eqn:Hmem end;
       [apply (Hsend _ _ _ _ (λ r s', _)); apply slot_range; pose proof (ok_rob OK); lia|].
  all: exfalso; destruct LIM as [H1 H2 H3 H4 H5]; cbn in Halu, Hmem;
    rewrite ?(proj2 (Z.ltb_lt _ _) H1), ?(proj2 (Z.ltb_lt _ _) H5), ?orb_true_r, ?andb_true_r in Halu;
    rewrite (proj2 (Z.ltb_lt _ _) H2), (proj2 (Z.ltb_lt _ _) H3), (proj2 (Z.ltb_lt _ _) H4) in Hmem;
    rewrite Halu in Hmem; destruct (isread e); discriminate.
Qed.

Lemma exec_loop_quiet s ks :
  wp any_failure (exec_loop cfg now ks zero) s
    (λ _ s' o, quiet o → s' = s ∧ Forall (idle s) ks).
Proof.
  induction ks as [|i ks IH]; cbn [exec_loop]; [by wp_step|].
  eapply (wp_bind_quiet _ _ _ _ (λ _ s', s' = s ∧ Forall (idle s) (i :: ks))); [apply exec_one_quiet|].
  intros r s1 (-> & -> & Hi). eapply wp_mono; [exact IH|]. intros [] s2 o2 H2 Hq.
  destruct (H2 Hq). split; [done|by constructor].
Qed.

(** No entry becomes available in this cycle. *)
Lemma wake_one_quiet s i : wp any_failure (wake_one cfg now i) s (λ _ s' o, quiet o → s' = s).
Proof.
  unfold wake_one. wp_steps. apply wp_lift; [|done]. intros e _. apply wp_when; intros _; [|done].
  apply wp_wake_then with (R := λ _ s', s' = s).
Qed.

Lemma wake_loop_quiet s ks :
  wp any_failure (for_each ks (wake_one cfg now)) s (λ _ s' o, quiet o → s' = s).
Proof.
  induction ks as [|i ks IH]; cbn [for_each]; [by wp_step|].
  apply (wp_bind_quiet _ _ _ (λ _ s', s' = s)); [apply wake_one_quiet|]. by intros [] s1 ->.
Qed.

(** The oldest entry can neither retire nor execute. *)
Definition head_waits (s : state) : Prop :=
  ∃ V, rob_view s V ∧ ∀ e, head V = Some e → retires now e = false ∧
    (r_state e = o3irs_issued → r_ready_time e ≤ now → no_deps e = false).

Lemma commit_more_quiet s V :
  rob_view s V →
  wp any_failure (commit_more cfg now) s
    (λ _ s' o, quiet o → s' = s ∧ ∀ e, head V = Some e → retires now e = false).
Proof.
  intros [R Hs]. unfold commit_more. wp_steps. apply wp_when; intros Hpos.
  - apply Z.ltb_lt in Hpos. destruct V as [|e V]; [cbn in Hs; lia|].
    wp_step. eapply wp_lift_ok; [exact (ring_get_head _ _ _ _ _ R)|].
    apply wp_when; intros Hret.
    + apply wp_wake_at. intros o Hq Hq'. by destruct Hq.
    + intros _. split; [done|]. by intros e' [= <-].
  - intros _. split; [done|]. intros e He. destruct V; [done|]. apply Z.ltb_ge in Hpos. cbn in Hs. lia.
Qed.

(** After a cycle that calls nothing. *)
Lemma cycle_quiet s V :
  rob_view s V → wp any_failure (cycle cfg now) s (λ _ s' o, quiet o → head_waits s').
Proof.
  intros Hv. unfold cycle. do 2 wp_step.
  apply (wp_bind_quiet _ _ _ (λ _ s', same_rob s s') (λ _ s', head_waits s')).
  { eapply wp_mono; [by apply (load_keeps_rob s)|]. auto. }
  intros [] s1 (E1 & E2 & E3).
  apply (wp_bind_quiet _ _ _ (λ _ s', same_rob s1 s') (λ _ s', head_waits s')); [apply issue_loop_quiet|].
  intros [] s2 (F1 & F2 & F3).
  assert (rob_view s2 V) as Hv2 by (unfold rob_view in *; by rewrite F1, F2, F3, E1, E2, E3).
  do 2 wp_step.
  apply (wp_bind_quiet _ _ _ (λ _ s', s' = s2 ∧ Forall (idle s2) (upto (o3rob_size s2))) (λ _ s', head_waits s'));
    [apply exec_loop_quiet|].
  intros [] s3 [-> Hidle].
  apply (wp_bind_quiet _ _ _ (λ _ s', s' = s2) (λ _ s', head_waits s')); [apply wake_loop_quiet|].
  intros [] s3 ->.
  apply (wp_bind_quiet _ _ _ (λ _ s', ∃ k, rob_view s' (drop k V)) (λ _ s', head_waits s')).
  { apply (wp_weaken any_failure no_failure); [done|].
    eapply wp_mono; [by apply (wp_commit_loop OK now (λ _ _, True))|].
    intros [] s4 o4 (_ & k & _ & Hk & _) _. by exists k. }
  intros [] s4 [k Hk]. eapply wp_mono; [by apply (commit_more_quiet _ (drop k V))|].
  intros [] s5 o5 H5 Hq. destruct (H5 Hq) as [-> Hhead]. exists (drop k V). split; [done|].
  intros e He. split; [by apply Hhead|]. intros Hst Hr.
  assert (V !! k = Some e) as Hke by (by rewrite <- (Nat.add_0_r k), <- lookup_drop, <- head_lookup).
  destruct Hv2 as [R2 Hs2]. pose proof (lookup_lt_Some _ _ _ Hke).
  rewrite Forall_forall in Hidle. apply (Hidle (Z.of_nat k)); [apply elem_of_upto; lia| |done|done].
  by apply (ring_get _ _ _ _ _ _ R2).
Qed.
End Quiet.

(** ** A core and its surroundings

    The global queue keeps the ticks at which the core is scheduled, and the memory system
    the accesses it was sent. *)

Lemma core_ok_perm W C out out' QI RI s :
  out ≡ₚ out' → core_ok W C out QI RI s → core_ok W C out' QI RI s.
Proof.
  intros Hp [(V & Hv & [He Hn Ho] & HR) ? ? ? ?]. constructor; try done. exists V. split_and!; try done.
  constructor; [done|by rewrite <- Hp|]. intros d. by rewrite <- Hp.
Qed.

Definition at_pend (P : Z → Prop) (i j : nat) (r : Z) : Prop := P r.
Definition due_or_past (P : Z → Prop) (now r : Z) : Prop := P r ∨ r ≤ now.

Lemma core_ok_skip W C out QI RI s t :
  core_ok W C out QI RI s → core_ok W C out [] RI (s <| o3queue_size := 0 |> <| resume_time := t |>).
Proof.
  intros [(V & Hv & Hr & HR) (Q & [R Hs] & HQ) Hb H1 H2]. constructor; try done.
  - by exists V.
  - exists []. split; [|done]. split; [by eapply ring_clear|done].
Qed.

(** The instructions a cycle works on. *)
Definition after_skip (QI : list O3Queue) : list O3Queue := if skip_all_instrs cfg then [] else QI.

Lemma wp_process_event (OK : cfg_ok) now (Hnow : tick_ok now) P (HP : ∀ r, P r → now ≤ r) out QI RI s :
  core_ok (at_pend P) (due_or_past P now) out QI RI s →
  wp no_failure (process_event cfg now) s (λ r s' o,
    (r = c_num (this cfg) ∧ o = [geq_add_event now (this cfg)] ∧
       core_ok (at_pend P) (due_or_past P now) out (after_skip QI) RI s') ∨
    (r = num_hthreads cfg ∧
       ∃ i c, (i ≤ Z.to_nat (max_issue_width cfg))%nat ∧ (c ≤ Z.to_nat (max_commit_width cfg))%nat ∧
         mid_ok now P out (later now P) (drop i (after_skip QI))
           (drop c (RI ++ concat (micro_ops <$> take i (after_skip QI)))) s' o)).
Proof.
  intros Hc. unfold process_event. wp_step.
  apply (wp_mono _ _ _ (λ _ s1 o1, o1 = [] ∧
    core_ok (at_pend P) (due_or_past P now) out (after_skip QI) RI s1)).
  { unfold after_skip. apply wp_when; intros ->; [|done]. wp_step. split; [done|]. by eapply core_ok_skip. }
  intros [] s1 o1 [-> Hc1]. do 2 wp_step. case_match.
  - unfold wake_at. wp_steps. left. by split_and!.
  - wp_step. eapply wp_mono; [apply (wpl_cycle OK now Hnow P HP out (after_skip QI) RI s1 [])|].
    + split; [constructor|]. rewrite app_nil_r. eapply core_ok_mono; [| |exact Hc1].
      * intros i j r Hr. by left.
      * intros r [Hr|Hr]; [left; by left|by right].
    + intros [] s2 o2 (i & c & Hi & Hco & Hm). wp_step. right. split; [done|]. exists i, c.
      by rewrite app_nil_r.
Qed.

(** The handlers of the instruction side move queued instructions forward only. *)
Lemma wpl_loaded_one (OK : cfg_ok) W C out QI RI addr t i n s o :
  core_ok W C out QI RI s ∧ o3queue_size s = n → 0 ≤ i < n →
  wpl no_failure (loaded_one cfg addr t i) s o
    (λ _ s' o', o' = o ∧ core_ok W C out QI RI s' ∧ o3queue_size s' = n).
Proof.
  intros [Hc Hn] Hi. unfold loaded_one. log_steps.
  pose (f := λ e : O3Queue, e <| q_state := o3iqs_ready |> <| q_ready_time := t |>).
  destruct (core_ok_set_queue _ _ _ _ _ _ i f Hc ltac:(lia) (λ e, eq_refl)) as [[e He] Hc'].
  log_ok He. case_match; [|by log_step].
  destruct (same_line_ok OK addr (q_ip e)) as [b Hb]. log_ok Hb.
  apply wpl_when; intros _; [by log_step|done].
Qed.

Lemma wp_loaded_loop (OK : cfg_ok) W C out QI RI addr t s :
  core_ok W C out QI RI s →
  wp no_failure (for_each (upto (o3queue_size s)) (loaded_one cfg addr t)) s
    (λ _ s' o', o' = [] ∧ core_ok W C out QI RI s').
Proof.
  intros Hc. eapply wp_mono.
  - apply wpl_wp. apply (wpl_for_each no_failure (λ s' o', o' = [] ∧ core_ok W C out QI RI s' ∧ o3queue_size s' = o3queue_size s)).
    + intros i s1 o1 Hi%elem_of_upto (-> & Hc1 & Hn). by apply wpl_loaded_one.
    + by split_and!.
  - intros [] s1 o1 (Ho & Hc1 & _). by split.
Qed.

Lemma ceil_ok (OK : cfg_ok) t : tick_ok t → ∃ a, ceil_by_y t (process_interval cfg) = Ok a ∧ t ≤ a < t + 2 ^ 32.
Proof.
  intros Ht. unfold tick_ok in Ht. pose proof (ok_interval OK).
  destruct (ceil_by_y_spec t (process_interval cfg)) as (a & Ha & Hr & _); [lia..|]. exists a. split; [done|lia].
Qed.

(** What a message to the core does to the scheduled ticks and to the accesses. *)
Definition delivered (now : Z) (P : Z → Prop) (out : list Z) (QI : list O3Queue) (RI : list op)
    (s' : state) (o : list call) : Prop :=
  core_ok (at_pend (due P o)) (due_or_past (due P o) now) (out ++ reqs o) QI RI s' ∧
  ∀ r, r ∈ ticks o → now ≤ r.

(** Only exceeding the limit of refusals ends the simulation. *)
Definition only_fatal (f : failure) : Prop := f = Fatal.

Lemma core_ok_grow now P out QI RI s o :
  reqs o = [] → core_ok (at_pend P) (due_or_past P now) out QI RI s →
  core_ok (at_pend (due P o)) (due_or_past (due P o) now) (out ++ reqs o) QI RI s.
Proof.
  intros -> Hc. rewrite app_nil_r. eapply core_ok_mono; [| |exact Hc].
  - intros i j r Hr. by left.
  - intros r [Hr|Hr]; [left; by left|by right].
Qed.

Lemma wp_core_line (OK : cfg_ok) now t P out QI RI s l :
  now ≤ t → tick_ok t → rob_entry l < 0 →
  core_ok (at_pend P) (due_or_past P now) out QI RI s →
  wp only_fatal (add_req_event cfg t l) s (λ _ s' o, delivered now P out QI RI s' o).
Proof.
  intros Ht Htick Hl Hc.
  assert (∀ s' o, ticks o = [] → reqs o = [] →
    core_ok (at_pend P) (due_or_past P now) out QI RI s' → delivered now P out QI RI s' o) as Hdel.
  { intros s' o Ht' Hr Hc'. split; [by apply core_ok_grow|]. rewrite Ht'. by intros r ?%elem_of_nil. }
  assert (∀ dst t' ty, reqs [Component.add_req_event dst t' (readdress cfg ty l) None] = []) as Hreq.
  { intros dst t' ty. cbn. by destruct (Z.leb_spec 0 (rob_entry l)); [lia|]. }
  unfold add_req_event. destruct (type l).
  26: { wp_steps. apply Hdel; [done|apply Hreq|]. eapply core_ok_frame; try done. apply Hc. }
  21: { unfold count_nack, check_nacks. wp_steps. case_match; [by apply wp_fails|]. wp_step.
        apply Hdel; [done|apply Hreq|]. eapply core_ok_frame; try done. apply Hc. }
  all: destruct (ceil_ok OK t Htick) as (a & Ha & Hta).
  all: wp_step; eapply wp_lift_ok; [exact Ha|]; unfold wake_at; wp_steps.
  all: eapply wp_mono; [apply (wp_weaken _ no_failure); [done|]; apply (wp_loaded_loop OK
    (at_pend P) (due_or_past P now) out QI RI); eapply core_ok_frame; try done; apply Hc|].
  all: intros [] s1 o1 [-> Hc1]; wp_steps.
  all: split; [by apply core_ok_grow|].
  all: intros r; cbn; rewrite bool_decide_true by done; intros ->%list_elem_of_singleton; lia.
Qed.

(** The entry an outstanding access belongs to. *)
Lemma outstanding W C out QI RI s d :
  core_ok W C (d :: out) QI RI s →
  ∃ V k e, rob_view s V ∧ rob_ok W C (d :: out) (o3rob_head s) V ∧ op_of <$> V = RI ∧
    V !! k = Some e ∧ r_state e = o3irs_executing ∧
    d = slot (o3rob_max_size cfg) (o3rob_head s) (Z.of_nat k) ∧
    vec_get (o3rob s) d = Ok e ∧ 0 ≤ d < o3rob_max_size cfg.
Proof.
  intros [(V & [R Hs] & Hr & HR) _ _ _ _].
  destruct (proj1 (rob_out _ _ _ _ _ Hr d) ltac:(left)) as (k & e & Hk & He & Hd).
  assert (vec_get (o3rob s) d = Ok e) by (rewrite Hd; by apply (ring_get _ _ _ _ _ _ R)).
  assert (0 ≤ d < o3rob_max_size cfg) by (rewrite Hd; apply slot_range; destruct R; lia).
  exists V, k, e. split_and!; (done || by split || lia).
Qed.

(** The answer completes its entry. *)
Lemma core_ok_complete now P out QI RI s d t o :
  core_ok (at_pend P) (due_or_past P now) (d :: out) QI RI s →
  reqs o = [] → due P o t →
  core_ok (at_pend (due P o)) (due_or_past (due P o) now) (out ++ reqs o) QI RI
    (set_rob d (λ e, e <| r_state := o3irs_completed |> <| r_ready_time := t |>) s).
Proof.
  intros Hc Ho Ht. destruct (outstanding _ _ _ _ _ _ _ Hc) as (V & k & e & [R Hs] & Hr & HR & Hk & He & Hd & _).
  destruct Hc as [_ HQ Hb H1 H2]. rewrite Ho, app_nil_r. constructor; try done.
  set (f := λ e : O3ROB, e <| r_state := o3irs_completed |> <| r_ready_time := t |>).
  exists (<[k := f e]> V). split_and!.
  - split; cbn; [rewrite Hd; by apply (ring_alter f)|by rewrite length_insert].
  - assert (NoDup (d :: out)) as Hnd by apply Hr. apply NoDup_cons in Hnd as [Hnot Hnd].
    change (o3rob_head (set_rob _ _ s)) with (o3rob_head s).
    apply (rob_ok_update _ _ (d :: out) _ _ (o3rob s) V k e (f e)); [done| |done| | |done|].
    + eapply rob_ok_mono; [| |exact Hr]; [intros i j r Hr'; by left|].
      intros r [Hr'|Hr']; [left; by left|by right].
    + intros _. by left.
    + by left.
    + intros x. rewrite <- Hd, elem_of_cons. cbn. split; [|naive_solver].
      intros Hx. left. split; [by right|]. by intros ->.
  - rewrite list_fmap_insert, <- HR. apply list_insert_id. by rewrite list_lookup_fmap, Hk.
Qed.

Lemma wp_core_reply (OK : cfg_ok) now t P out QI RI s l :
  now ≤ t → tick_ok t →
  core_ok (at_pend P) (due_or_past P now) (rob_entry l :: out) QI RI s →
  wp only_fatal (add_rep_event cfg t l) s (λ _ s' o, delivered now P out QI RI s' o).
Proof.
  intros Ht Htick Hc.
  destruct (outstanding _ _ _ _ _ _ _ Hc) as (V & k & e & _ & _ & _ & _ & He & _ & Hget & Hd).
  assert (∀ s' dst t' ty, core_ok (at_pend P) (due_or_past P now) (rob_entry l :: out) QI RI s' →
    delivered now P out QI RI s' [Component.add_req_event dst t' (readdress cfg ty l) None]) as Hdel.
  { intros s' dst t' ty Hc'. split; [|intros r; cbn; by intros ?%elem_of_nil].
    assert (reqs [Component.add_req_event dst t' (readdress cfg ty l) None] = [rob_entry l]) as ->.
    { cbn. by destruct (Z.leb_spec 0 (rob_entry l)); [|lia]. }
    apply (core_ok_perm _ _ (rob_entry l :: out)); [apply Permutation_cons_append|].
    eapply core_ok_mono; [| |exact Hc']; [intros i j r Hr; by left|].
    intros r [Hr|Hr]; [left; by left|by right]. }
  unfold add_rep_event. destruct (type l).
  26: { wp_step. wp_step. unfold access_type. wp_steps. eapply wp_lift_ok; [exact Hget|]. wp_steps.
        apply Hdel. eapply core_ok_frame; try done. apply Hc. }
  21: { unfold count_nack, check_nacks, access_type. wp_steps. eapply wp_lift_ok; [exact Hget|]. wp_steps.
        case_match; [by apply wp_fails|]. wp_step.
        apply Hdel. eapply core_ok_frame; try done. apply Hc. }
  all: destruct (ceil_ok OK t Htick) as (a & Ha & Hta).
  all: wp_step; eapply wp_lift_ok; [exact Ha|]; unfold wake_at, complete; wp_steps.
  all: assert (i32 (o3rob_max_size cfg) = o3rob_max_size cfg) as Hi32
    by (pose proof (ok_rob OK); unfold i32; rewrite Z.mod_small; lia).
  all: replace ((rob_entry l <? 0) || (i32 (o3rob_max_size cfg) <=? rob_entry l)) with false
    by (rewrite Hi32; destruct (Z.ltb_spec (rob_entry l) 0), (Z.leb_spec (o3rob_max_size cfg) (rob_entry l));
        done || lia).
  all: eapply wp_lift_ok; [exact Hget|]; wp_steps.
  all: set (pen := if branch_miss e then branch_miss_penalty cfg else 0).
  all: assert (0 ≤ pen < 2 ^ 32) as Hpen
    by (pose proof (ok_penalty OK) as Hp; unfold in_u32 in Hp; unfold pen; destruct (branch_miss e); lia).
  all: assert (a ⊕ pen = a + pen) as -> by (apply u64_id; unfold in_u64, tick_ok in *; lia).
  all: split;
    [|intros r; cbn; rewrite bool_decide_true by done; rewrite !elem_of_cons;
      intros [->|[->|[]%elem_of_nil]]; lia].
  all: eapply core_ok_frame; [eapply (core_ok_complete now P _ _ _ s (rob_entry l) (a + pen)); [exact Hc|done|]|..].
  all: try (destruct (isread e); done).
  all: try (destruct (isread e); apply Hc).
  all: right; cbn; rewrite bool_decide_true by done; right; left.
Qed.

(** An instruction joins the queue, unless it is full; the result is the room that is left. *)
Lemma wp_core_fetch `{!XedCategories} (OK : cfg_ok) now t P out QI RI s i :
  now ≤ t → core_ok (at_pend P) (due_or_past P now) out QI RI s →
  instr_sync_ok (length (is_migrate_ready s)) (queue_entry t i) →
  wp no_failure (add_instruction cfg t i) s (λ r s' o,
    if o3queue_max_size cfg <=? Z.of_nat (length QI)
    then r = 0 ∧ delivered now P out QI RI s' o
    else r = Z.max 0 (o3queue_max_size cfg - 5 - Z.of_nat (length QI)) ∧
         delivered now P out (QI ++ [instr_of (queue_entry t i)]) RI s' o).
Proof.
  intros Ht Hc Hsync. unfold add_instruction. do 2 wp_step.
  set (s1 := λ act, s <| is_active := act |> <| num_instrs ::= λ n, n ⊕ 1 |>
        <| num_call_ops ::= λ n, if category i =? XED_CATEGORY_CALL then n ⊕ 1 else n |>).
  wp_step. apply (wp_mono _ _ _ (λ _ s' o, (∃ act, s' = s <| is_active := act |>) ∧ reqs o = [] ∧
    ∀ r, r ∈ ticks o → now ≤ r)).
  { apply wp_when; intros _.
    - unfold wake_at. wp_steps. split_and!; [by eexists|done|]. intros r. cbn.
      rewrite bool_decide_true by done. intros ->%list_elem_of_singleton. done.
    - split_and!; [exists (is_active s); by destruct s|done|]. by intros r ?%elem_of_nil. }
  intros [] s' o ([act ->] & Hreq & Hticks). wp_steps. fold (s1 act).
  change (o3queue_size s) with (o3queue_size (s1 act)). change (o3queue_head s) with (o3queue_head (s1 act)).
  change (o3queue s) with (o3queue (s1 act)).
  assert (∀ QI' s', core_ok (at_pend P) (due_or_past P now) out QI' RI s' → ∀ o', o' = o →
    delivered now P out QI' RI s' o') as Hdel.
  { intros QI' s' Hc' o' ->. split; [by apply core_ok_grow|done]. }
  assert (core_ok (at_pend P) (due_or_past P now) out QI RI (s1 act)) as Hc1.
  { eapply core_ok_frame; try done. apply Hc. }
  destruct Hc1 as [Hrob (Q & [RQ HsQ] & HQ) Hb H1 H2].
  assert (Z.of_nat (length QI) = o3queue_size (s1 act)) as HlQ by (rewrite <- HQ, length_fmap; done).
  rewrite HlQ. destruct (Z.leb_spec (o3queue_max_size cfg) (o3queue_size (s1 act))) as [Hfull|Hroom].
  { wp_step. split; [done|]. apply (Hdel QI (s1 act)); [|by rewrite !app_nil_r].
    constructor; try done. exists Q. split; [by split|done]. }
  pose proof (ok_queue OK). pose proof (ring_head _ _ _ _ RQ). pose proof (ring_length _ _ _ _ RQ).
  assert ((o3queue_max_size cfg ⊕₃₂ o3queue_head (s1 act) ⊕₃₂ o3queue_size (s1 act)) mod o3queue_max_size cfg
    = slot (o3queue_max_size cfg) (o3queue_head (s1 act)) (Z.of_nat (length Q))) as ->.
  { rewrite HsQ in *. unfold slot, u32.
    set (h := o3queue_head (s1 act)) in *. set (n := o3queue_max_size cfg) in *.
    rewrite (Z.mod_small (n + h)), (Z.mod_small (n + h + _)), (Z.mod_small (h + _) (2 ^ 32)) by lia.
    rewrite <- (Z_mod_plus (h + _) 1 n) by lia. f_equal. lia. }
  set (idx := slot _ _ _). assert (0 ≤ idx < o3queue_max_size cfg) by (apply slot_range; lia).
  destruct (vec_get_lt (o3queue (s1 act)) idx) as [x Hx]; [lia|].
  wp_step. eapply wp_lift_ok; [exact Hx|]. wp_steps.
  assert (o3queue_size (s1 act) ⊕₃₂ 1 = o3queue_size (s1 act) + 1) as Hs1
    by (apply u32_id; unfold in_u32; lia).
  split.
  - cbn [o3queue_size set set_queue]. rewrite Hs1.
    rewrite (u32_id (o3queue_size (s1 act) + 1 + 4)) by (unfold in_u32; lia).
    destruct (Z.ltb_spec (o3queue_max_size cfg) (o3queue_size (s1 act) + 1 + 4)); [lia|].
    rewrite u32_id by (unfold in_u32; lia). lia.
  - apply (Hdel (QI ++ [instr_of (queue_entry t i)])); [|by rewrite !app_nil_r].
    constructor; try done.
    + exists (Q ++ [queue_entry t i]). split; [|by rewrite fmap_app, HQ]. split.
      * apply ring_push; [|lia|].
        -- apply ring_alter_dead; [done|lia].
        -- by apply (vec_get_set _ _ x).
      * cbn [o3queue_size set set_queue]. rewrite Hs1, HsQ, length_app. cbn. lia.
    + cbn. by apply Forall_app_2; [|constructor].
Qed.
End Core.
End O3Pipeline.
