(* ===== verification/O3Machine.v ===== *)
(** * A core among its neighbours: the theorems on O3Core.v

    A transition system of a core, the ticks the global queue holds for it and the data
    accesses the memory system owes it, with the theorems on all its reachable states. *)

From S2P Require Export O3Pipeline.

Module O3Machine.
Import Ring O3Core O3Pipeline.

Record machine := {
  time : Z;
  scheduled : gset Z;
  unanswered : list Z;
  core : state }.

Section Machine.
Context {xed : XedCategories} (cfg : config).

(** The global queue wakes the core at the earliest tick it is scheduled for; messages of
    the caches and the TLBs arrive at any time from now on, an answer to an access once;
    the front end adds instructions and blocks or resumes the thread. *)
Inductive step (m : machine) : machine → Prop :=
| step_tick t r s' o :
    t ∈ scheduled m → (∀ t', t' ∈ scheduled m → t ≤ t') → tick_ok t →
    process_event cfg t (core m) = Ok (r, s', o) →
    step m (Build_machine t (scheduled m ∖ {[t]} ∪ list_to_set (ticks cfg o))
              (unanswered m ++ reqs o) s')
| step_answer t l out s' o :
    time m ≤ t → tick_ok t → unanswered m ≡ₚ rob_entry l :: out →
    add_rep_event cfg t l (core m) = Ok (tt, s', o) →
    step m (Build_machine (time m) (scheduled m ∪ list_to_set (ticks cfg o)) (out ++ reqs o) s')
| step_line t l s' o :
    time m ≤ t → tick_ok t → rob_entry l < 0 →
    add_req_event cfg t l (core m) = Ok (tt, s', o) →
    step m (Build_machine (time m) (scheduled m ∪ list_to_set (ticks cfg o))
              (unanswered m ++ reqs o) s')
| step_fetch t i r s' o :
    time m ≤ t → instr_sync_ok (length (is_migrate_ready (core m))) (queue_entry t i) →
    add_instruction cfg t i (core m) = Ok (r, s', o) →
    step m (Build_machine (time m) (scheduled m ∪ list_to_set (ticks cfg o))
              (unanswered m ++ reqs o) s')
| step_active b :
    step m (Build_machine (time m) (scheduled m) (unanswered m) ((core m) <| active := b |>)).

(** Before the first instruction. *)
Definition start (entries gp : Z) (qs : list O3Queue) (rs : list O3ROB) (cores : nat) : machine :=
  Build_machine 0 ∅ [] (init entries gp qs rs cores).

(** The invariant: the core's, with the scheduled ticks as the ones it will be woken at;
    and something is always under way while the reorder buffer is not empty. *)
Record machine_ok (m : machine) (QI : list O3Queue) (RI : list op) : Prop := {
  mc_time : tick_ok (time m);
  mc_scheduled t : t ∈ scheduled m → time m ≤ t;
  mc_core : core_ok cfg (at_pend (λ r, r ∈ scheduled m)) (due_or_past (λ r, r ∈ scheduled m) (time m))
              (unanswered m) QI RI (core m);
  mc_alive : RI ≠ [] → scheduled m ≠ ∅ ∨ unanswered m ≠ [] }.

Lemma start_ok entries gp qs rs cores :
  cfg_ok cfg → 0 < entries → 1 ≤ gp ≤ 64 →
  Z.of_nat (length qs) = o3queue_max_size cfg → Z.of_nat (length rs) = o3rob_max_size cfg →
  machine_ok (start entries gp qs rs cores) [] [].
Proof.
  intros OK He Hg Hq Hr. constructor; cbn; [unfold tick_ok; lia|set_solver| |done]. constructor; cbn.
  - exists []. split_and!; [|constructor; [done|constructor|]|done].
    + split; [|done]. cbn. pose proof (ok_rob _ OK). apply ring_nil; [by rewrite length_fmap|lia|lia].
    + intros d. split; [by intros ?%elem_of_nil|]. by intros (i & e & Hi & _).
  - exists []. split; [|done]. split; [|done]. cbn. pose proof (ok_queue _ OK).
    apply ring_nil; [by rewrite length_fmap|lia|lia].
  - constructor; cbn; [done|done|rewrite length_replicate; lia|].
    apply Forall_replicate. lia.
  - constructor.
  - constructor.
Qed.

Lemma delivered_ok m out QI RI s' o :
  tick_ok (time m) → (∀ t, t ∈ scheduled m → time m ≤ t) →
  delivered cfg (time m) (λ r, r ∈ scheduled m) out QI RI s' o →
  (RI ≠ [] → scheduled m ∪ list_to_set (ticks cfg o) ≠ ∅ ∨ out ++ reqs o ≠ []) →
  machine_ok (Build_machine (time m) (scheduled m ∪ list_to_set (ticks cfg o)) (out ++ reqs o) s') QI RI.
Proof.
  intros Ht Hs [Hc Hticks] Ha. constructor; cbn; [done| | |done].
  - intros t [Hin|Hin%elem_of_list_to_set]%elem_of_union; auto.
  - eapply core_ok_mono; [| |exact Hc]; unfold at_pend, due_or_past, due; set_solver.
Qed.

Lemma rob_view_inj s V V' : rob_view cfg s V → rob_view cfg s V' → V = V'.
Proof.
  intros [R Hs] [R' Hs']. apply (list_eq_same_length V V' (length V)); [lia|done|].
  intros i x y _ Hx Hy. apply (ring_get _ _ _ _ _ _ R) in Hx. apply (ring_get _ _ _ _ _ _ R') in Hy.
  congruence.
Qed.

Lemma process_event_quiet (OK : cfg_ok cfg) (LIM : limits_ok cfg) t s V :
  rob_view cfg s V →
  wp any_failure (process_event cfg t) s (λ _ s' o, quiet cfg o → head_waits cfg t s').
Proof.
  intros Hv. unfold process_event. wp_step.
  apply (wp_mono _ _ _ (λ _ s1 o1, rob_view cfg s1 V ∧ o1 = [])).
  { apply wp_when; intros _; [by wp_step|done]. }
  intros [] s1 o1 [Hv1 ->]. do 2 wp_step. case_match.
  - eapply wp_mono; [apply (wp_wake_then cfg _ _ _ (λ _ s', head_waits cfg t s'))|]. done.
  - wp_step. eapply wp_mono; [by eapply (cycle_quiet cfg OK LIM)|].
    intros [] s2 o2 H2. wp_step. by rewrite app_nil_r.
Qed.

(** A core that waits with a non-empty buffer has something under way. *)
Lemma head_waits_alive t P out QI RI s :
  head_waits cfg t s → core_ok cfg (at_pend P) (due_or_past P t) out QI RI s → RI ≠ [] →
  (∃ r, P r) ∨ out ≠ [].
Proof.
  intros (V' & Hv' & Hhead) [(V & Hv & [He _ Ho] & <-) _ _ _ _] HR.
  rewrite (rob_view_inj _ _ _ Hv' Hv) in Hhead. destruct V as [|e V]; [done|].
  destruct (Hhead e eq_refl) as [Hret Hidle]. specialize (He 0%nat e eq_refl). unfold entry_ok in He.
  destruct (r_state e) eqn:Hs; [| | |done].
  - destruct He as [[Hr|Hr] Hd]; [left; by eexists|]. specialize (Hidle eq_refl Hr).
    enough (no_deps e = true) by congruence. apply no_deps_spec. eapply Forall_impl; [exact Hd|].
    intros d [->|(j & x & Hj & _)]; [done|lia].
  - right. intros ->. assert (slot (o3rob_max_size cfg) (o3rob_head s) (Z.of_nat 0) ∈ []) as Hin.
    { apply Ho. by exists 0%nat, e. }
    by apply elem_of_nil in Hin.
  - destruct He as [Hr|Hr]; [left; by eexists|]. unfold retires in Hret.
    rewrite Hs, bool_decide_true, (proj2 (Z.leb_le _ _) Hr) in Hret by done. done.
Qed.

(** Every answer wakes the core or is sent on. *)
Lemma answer_loud t l s :
  0 ≤ rob_entry l → wp any_failure (add_rep_event cfg t l) s (λ _ s' o, ¬ quiet cfg o).
Proof.
  intros Hl.
  assert (∀ dst t' ty o, ¬ quiet cfg (Component.add_req_event dst t' (readdress cfg ty l) None :: o)) as Hsend.
  { intros dst t' ty o [_ Hq]. cbn in Hq. by destruct (Z.leb_spec 0 (rob_entry l)); [|lia]. }
  assert (∀ {A} t' (m : proc call state A) s, wp any_failure (_ ← wake_at cfg t'; m) s (λ _ _ o, ¬ quiet cfg o))
    as Hwake.
  { intros A t' m s0. wp_step. apply (wp_wake_at cfg). intros o Ho. eapply wp_mono; [apply wp_true|].
    by intros a s' o' _ [? _]%quiet_app. }
  unfold add_rep_event, access_type. destruct (type l).
  26: { wp_steps. apply wp_lift; [|done]. intros e _. wp_steps. apply Hsend. }
  21: { wp_steps. unfold count_nack. wp_steps. apply wp_lift; [|done]. intros e _. wp_steps.
        eapply wp_mono; [apply wp_true|]. intros ? ? ? _. apply Hsend. }
  all: wp_step; apply wp_lift; [|done]; intros a _; apply Hwake.
Qed.

(** The invariant of the core, seen from the tick it is woken at. *)
Lemma core_at m t QI RI :
  machine_ok m QI RI → t ∈ scheduled m →
  core_ok cfg (at_pend (λ r, r ∈ scheduled m)) (due_or_past (λ r, r ∈ scheduled m) t)
    (unanswered m) QI RI (core m).
Proof.
  intros [_ Hs Hc _] Hin. eapply core_ok_mono; [done| |exact Hc]. intros x [Hx|Hx]; [by left|right].
  specialize (Hs t Hin). lia.
Qed.

Lemma step_ok m m' QI RI :
  cfg_ok cfg → limits_ok cfg → machine_ok m QI RI → step m m' → ∃ QI' RI', machine_ok m' QI' RI'.
Proof.
  intros OK LIM Hm Hstep. pose proof Hm as [Ht Hs Hc Ha].
  destruct Hstep as [t r s' o Hin Hmin Htick Hstep|t l out s' o Hle Htick Hperm Hstep
    |t l s' o Hle Htick Hl Hstep|t i r s' o Hle Hsync Hstep|b].
  - pose proof (core_at _ _ _ _ Hm Hin) as Hc'.
    pose proof Hc' as [(V & Hv & _) _ _ _ _].
    pose proof (wp_run _ _ _ _ _ _ _ (wp_process_event cfg OK t Htick _ Hmin _ _ _ _ Hc') Hstep) as Hrun.
    pose proof (wp_run _ _ _ _ _ _ _ (process_event_quiet OK LIM t _ V Hv) Hstep) as Hq.
    assert (∃ QI' RI', core_ok cfg (at_pend (λ x, x ∈ scheduled m ∖ {[t]} ∪ list_to_set (ticks cfg o)))
      (due_or_past (λ x, x ∈ scheduled m ∖ {[t]} ∪ list_to_set (ticks cfg o)) t)
      (unanswered m ++ reqs o) QI' RI' s' ∧ ∀ x, x ∈ ticks cfg o → t ≤ x) as (QI' & RI' & Hcore & Hticks).
    { destruct Hrun as [(_ & -> & Hcore)|(_ & i & c & _ & _ & Hb & Hcore)].
      - exists (after_skip cfg QI), RI. cbn. rewrite bool_decide_true, app_nil_r by done. split.
        + eapply core_ok_mono; [| |exact Hcore]; unfold at_pend, due_or_past; cbn.
          * intros _ _ x Hx. destruct (decide (x = t)); set_solver.
          * intros x [Hx|Hx]; [|by right]. destruct (decide (x = t)); [right; lia|left; set_solver].
        + intros x Hx%list_elem_of_singleton. lia.
      - do 2 eexists. split.
        + eapply core_ok_mono; [| |exact Hcore]; unfold at_pend, due_or_past, later, due; cbn.
          * intros _ _ x [[Hx|Hx] Hlt]; [|set_solver].
            apply elem_of_union_l, elem_of_difference. split; [done|]. intros ->%elem_of_singleton. lia.
          * intros x [[Hx|Hx]|Hx]; [|set_solver|by right].
            destruct (decide (x = t)); [right; lia|left; set_solver].
        + intros x Hx. apply (due_after cfg t (λ x, x ∈ scheduled m) Hmin o); [done|by right]. }
    exists QI', RI'. constructor; cbn; [done| |done|].
    + intros x [Hx|Hx%elem_of_list_to_set]%elem_of_union; [apply Hmin; set_solver|auto].
    + intros HR. destruct (decide (ticks cfg o = [] ∧ reqs o = [])) as [Hquiet|Hnq].
      * destruct (head_waits_alive _ _ _ _ _ _ (Hq Hquiet) Hcore HR) as [[x Hx]|]; [|by right].
        left. set_solver.
      * destruct (ticks cfg o) as [|x l] eqn:Et; [|left; set_solver].
        destruct (reqs o) as [|x l] eqn:Er; [by destruct Hnq|]. right. by destruct (unanswered m).
  - exists QI, RI. apply delivered_ok; [done|done| |].
    + exact (wp_run _ _ _ _ _ _ _ (wp_core_reply cfg OK _ t _ out QI RI _ l Hle Htick
        (core_ok_perm _ _ _ _ _ _ _ _ Hperm Hc)) Hstep).
    + intros _. destruct (outstanding _ _ _ _ _ _ _ _ (core_ok_perm _ _ _ _ _ _ _ _ Hperm Hc))
        as (V & k & e & _ & _ & _ & _ & _ & _ & _ & Hd).
      pose proof (wp_run _ _ _ _ _ _ _ (answer_loud t l (core m) (proj1 Hd)) Hstep) as Hq. cbv beta in Hq.
      destruct (ticks cfg o) as [|x k'] eqn:Et; [|left; set_solver].
      destruct (reqs o) as [|x k'] eqn:Er; [by destruct Hq|]. right. by destruct out.
  - exists QI, RI. apply delivered_ok; [done|done| |].
    + exact (wp_run _ _ _ _ _ _ _ (wp_core_line cfg OK _ t _ _ _ _ _ l Hle Htick Hl Hc) Hstep).
    + intros HR. destruct (Ha HR) as [Hp|Hp]; [left; set_solver|right]. by destruct (unanswered m).
  - pose proof (wp_run _ _ _ _ _ _ _ (wp_core_fetch cfg OK _ t _ _ _ _ _ i Hle Hc Hsync) Hstep) as Hrun.
    case_match; destruct Hrun as [_ Hd]; do 2 eexists; (apply delivered_ok; [done|done|exact Hd|]);
      intros HR; (destruct (Ha HR) as [Hp|Hp]; [left; set_solver|right; by destruct (unanswered m)]).
  - exists QI, RI. constructor; cbn; [done|done| |done].
    eapply core_ok_frame; try done. apply Hc.
Qed.

(** The invariant of all reachable states. *)
Lemma reachable_ok entries gp qs rs cores m :
  cfg_ok cfg → limits_ok cfg → 0 < entries → 1 ≤ gp ≤ 64 →
  Z.of_nat (length qs) = o3queue_max_size cfg → Z.of_nat (length rs) = o3rob_max_size cfg →
  rtc (step) (start entries gp qs rs cores) m → ∃ QI RI, machine_ok m QI RI.
Proof.
  intros OK LIM He Hg Hq Hr Hrun.
  assert (∃ QI RI, machine_ok (start entries gp qs rs cores) QI RI) as Hs.
  { exists [], []. by apply start_ok. }
  induction Hrun as [m|m1 m2 m3 Hstep _ IH]; [done|]. apply IH.
  destruct Hs as (QI & RI & Hm). by eapply step_ok.
Qed.

(** ** Theorems *)

(** *** Steps as functions *)

Definition succeeds {A} (m : outcome A) : bool := match m with Ok _ => true | Err _ => false end.

Definition do_tick (t : Z) (m : machine) : machine :=
  match process_event cfg t (core m) with
  | Ok (_, s', o) => Build_machine t (scheduled m ∖ {[t]} ∪ list_to_set (ticks cfg o))
                       (unanswered m ++ reqs o) s'
  | Err _ => m
  end.
Definition do_fetch (t : Z) (i : instruction) (m : machine) : machine :=
  match add_instruction cfg t i (core m) with
  | Ok (_, s', o) => Build_machine (time m) (scheduled m ∪ list_to_set (ticks cfg o))
                       (unanswered m ++ reqs o) s'
  | Err _ => m
  end.
Definition do_line (t : Z) (l : LQE) (m : machine) : machine :=
  match add_req_event cfg t l (core m) with
  | Ok (_, s', o) => Build_machine (time m) (scheduled m ∪ list_to_set (ticks cfg o))
                       (unanswered m ++ reqs o) s'
  | Err _ => m
  end.

Lemma do_tick_step t m :
  bool_decide (t ∈ scheduled m ∧ set_Forall (λ t', t ≤ t') (scheduled m)) = true → tick_ok t →
  succeeds (process_event cfg t (core m)) = true → step m (do_tick t m).
Proof.
  intros [Hin Hall]%bool_decide_eq_true Ht Hok. unfold do_tick.
  destruct (process_event cfg t (core m)) as [[[r s'] o]|] eqn:E; [|done]. by eapply step_tick.
Qed.
Lemma do_fetch_step t i m :
  time m ≤ t → instr_sync_ok (length (is_migrate_ready (core m))) (queue_entry t i) →
  succeeds (add_instruction cfg t i (core m)) = true → step m (do_fetch t i m).
Proof.
  intros Ht Hs Hok. unfold do_fetch.
  destruct (add_instruction cfg t i (core m)) as [[[r s'] o]|] eqn:E; [|done]. by eapply step_fetch.
Qed.
Lemma do_line_step t l m :
  time m ≤ t → tick_ok t → rob_entry l < 0 →
  succeeds (add_req_event cfg t l (core m)) = true → step m (do_line t l m).
Proof.
  intros Ht Htick Hl Hok. unfold do_line.
  destruct (add_req_event cfg t l (core m)) as [[[[] s'] o]|] eqn:E; [|done]. by eapply step_line.
Qed.

(** C11: woken at the earliest tick it is scheduled for, a core never fails.  Either it asks
    for instructions and stays as it is, or it runs one cycle: the oldest instructions of
    the queue move to the reorder buffer, in order and each as its accesses, the oldest
    entries retire, in order, at most an issue width and a commit width of them, and
    nothing else enters or leaves.  No event is scheduled in the past, and afterwards an
    entry only waits for older ones that are yet to complete, at a tick the core will be
    woken at. *)
Theorem core_cycle m t QI RI :
  cfg_ok cfg → machine_ok m QI RI →
  t ∈ scheduled m → (∀ t', t' ∈ scheduled m → t ≤ t') → tick_ok t →
  ∃ r s' o, process_event cfg t (core m) = Ok (r, s', o) ∧
    let P r := r ∈ scheduled m in
    ((r = c_num (this cfg) ∧ o = [geq_add_event t (this cfg)] ∧
        core_ok cfg (at_pend P) (due_or_past P t) (unanswered m) (after_skip cfg QI) RI s') ∨
     (r = num_hthreads cfg ∧ Forall (not_before t) o ∧
        ∃ i c, (i ≤ Z.to_nat (max_issue_width cfg))%nat ∧ (c ≤ Z.to_nat (max_commit_width cfg))%nat ∧
          let P' r := P r ∨ r ∈ ticks cfg o in
          core_ok cfg (at_pend (λ r, P' r ∧ t < r)) (due_or_past P' t) (unanswered m ++ reqs o)
            (drop i (after_skip cfg QI))
            (drop c (RI ++ concat (micro_ops <$> take i (after_skip cfg QI)))) s')).
Proof.
  intros OK Hm Hin Hmin Ht.
  assert (core_ok cfg (at_pend (λ r, r ∈ scheduled m)) (due_or_past (λ r, r ∈ scheduled m) t)
    (unanswered m) QI RI (core m)) as Hc by (by apply core_at).
  destruct (wp_total _ _ _ (wp_process_event cfg OK t Ht _ Hmin _ QI RI _ Hc)) as (r & s' & o & Hrun & H).
  exists r, s', o. split; [done|]. destruct H as [H|(Hr & i & c & Hi & Hco & Hb & Hm')]; [by left|].
  right. split_and!; [done..|]. by exists i, c.
Qed.

(** C12: whatever instructions a core is given and however the memory system answers, the
    buffers never overflow, the outstanding data accesses are exactly those of the executing
    entries, one each, and no wake-up is lost: every dependency of a waiting entry is an
    older live entry that has not completed, or that completes at a tick the core is
    scheduled for. *)
Theorem core_reachable entries gp qs rs cores m :
  cfg_ok cfg → limits_ok cfg → 0 < entries → 1 ≤ gp ≤ 64 →
  Z.of_nat (length qs) = o3queue_max_size cfg → Z.of_nat (length rs) = o3rob_max_size cfg →
  rtc step (start entries gp qs rs cores) m →
  ∃ V Q, rob_view cfg (core m) V ∧ queue_view cfg (core m) Q ∧
    NoDup (unanswered m) ∧
    (∀ d, d ∈ unanswered m ↔
       ∃ i e, V !! i = Some e ∧ r_state e = o3irs_executing ∧ d = rob_slot cfg (core m) (Z.of_nat i)) ∧
    ∀ i e d, V !! i = Some e → r_state e = o3irs_issued → d ∈ deps e → d ≠ -1 →
      ∃ j e', (j < i)%nat ∧ V !! j = Some e' ∧ d = rob_slot cfg (core m) (Z.of_nat j) ∧
        (r_state e' = o3irs_completed → r_ready_time e' ∈ scheduled m).
Proof.
  intros OK LIM He Hg Hq Hr Hrun.
  destruct (reachable_ok _ _ _ _ _ _ OK LIM He Hg Hq Hr Hrun) as (QI & RI & [_ _ Hc _]).
  destruct Hc as [(V & Hv & [Hent Hnd Hout] & _) (Q & HQ & _) _ _ _].
  exists V, Q. split_and!; [done..|]. intros i e d Hi Hs Hd Hne. specialize (Hent i e Hi).
  unfold entry_ok in Hent. rewrite Hs in Hent. destruct Hent as [_ Hall].
  rewrite Forall_forall in Hall. destruct (Hall d Hd) as [->|(j & e' & Hj & He' & Hd' & Hw)]; [done|].
  by exists j, e'.
Qed.

(** C13: a core never gets stuck: while its reorder buffer is not empty, it is scheduled at
    some tick or an access it sent is still to be answered. *)
Theorem core_never_stuck entries gp qs rs cores m :
  cfg_ok cfg → limits_ok cfg → 0 < entries → 1 ≤ gp ≤ 64 →
  Z.of_nat (length qs) = o3queue_max_size cfg → Z.of_nat (length rs) = o3rob_max_size cfg →
  rtc step (start entries gp qs rs cores) m →
  0 < o3rob_size (core m) → scheduled m ≠ ∅ ∨ unanswered m ≠ [].
Proof.
  intros OK LIM He Hg Hq Hr Hrun Hsize.
  destruct (reachable_ok _ _ _ _ _ _ OK LIM He Hg Hq Hr Hrun) as (QI & RI & [_ _ Hc Ha]).
  apply Ha. destruct Hc as [(V & [_ Hs] & _ & <-) _ _ _ _]. destruct V; [cbn in Hs; lia|done].
Qed.

(** The dependency an instruction records for a register it reads is the newest older
    entry that writes the register and whose result is not available yet, if there is one;
    register 0 stands for none. *)
Theorem reg_dep_newest (m : machine) now rr V :
  rob_view cfg (core m) V →
  ∃ d, reg_dep cfg now rr (core m) = Ok d ∧
    ((d = -1 ∧ ∀ e, e ∈ V → in_flight now e = true → IsRegDep rr e = false) ∨
     ∃ i e, V !! i = Some e ∧ d = rob_slot cfg (core m) (Z.of_nat i) ∧ rr ≠ 0 ∧
       in_flight now e = true ∧ rr ∈ [r_rw0 e; r_rw1 e; r_rw2 e; r_rw3 e] ∧
       ∀ j e', (i < j)%nat → V !! j = Some e' → in_flight now e' = true → IsRegDep rr e' = false).
Proof.
  intros Hv. unfold reg_dep.
  destruct (newest_such_spec cfg (λ e, in_flight now e && IsRegDep rr e) (core m) V Hv) as (d & Hd & H).
  exists d. split; [done|]. destruct H as [[-> H]|(i & e & Hi & -> & He & H)].
  - left. split; [done|]. intros e Hin Hf. rewrite Forall_forall in H. specialize (H e Hin). cbv beta in H.
    by rewrite Hf in H.
  - right. apply andb_true_iff in He as [Hf Hreg]. exists i, e. unfold IsRegDep in Hreg.
    apply andb_true_iff in Hreg as [Hz%negb_true_iff%Z.eqb_neq Hreg].
    split_and!; [done..| |].
    + rewrite !elem_of_cons. rewrite !orb_true_iff, !Z.eqb_eq in Hreg. tauto.
    + intros j e' Hj He' Hf'. rewrite Forall_forall in H. specialize (H e').
      cbv beta in H. rewrite Hf' in H. apply H. apply list_elem_of_lookup. exists (j - S i)%nat.
      rewrite lookup_drop. by replace (S i + (j - S i))%nat with j by lia.
Qed.

(** With a history of 0 bits, the default, the first branch a core issues is undefined
    behaviour: the predictor shifts a 64-bit number by 64. *)
Theorem default_predictor_undefined (m : machine) now q :
  BranchPredictor.gp_size (bp (core m)) = 0 →
  vec_get (o3queue (core m)) (o3queue_head (core m)) = Ok q →
  q_state q = o3iqs_ready → q_ready_time q ≤ now →
  q_type q = ins_branch_taken ∨ q_type q = ins_branch_not_taken →
  issue_one cfg now (core m) = Err Undef.
Proof.
  intros Hg Hq Hs Hr Ht.
  unfold issue_one, mbind, proc_bind, reads, lift, when. rewrite Hq. cbn [fst].
  rewrite Hs, bool_decide_true, (proj2 (Z.leb_le _ _) Hr) by done. cbn [andb].
  unfold predict. assert (bool_decide (q_type q = ins_branch_taken) ||
    bool_decide (q_type q = ins_branch_not_taken) = true) as ->.
  { destruct Ht as [-> | ->]; done. }
  unfold mbind, proc_bind, reads, lift, BranchPredictor.miss. rewrite Hg. done.
Qed.
End Machine.

(** ** Concrete runs *)

#[local] Instance example_categories : XedCategories :=
  {| XED_CATEGORY_X87_ALU := 1; XED_CATEGORY_SSE := 2; XED_CATEGORY_CALL := 3 |}.

Definition example_config : config :=
  {| this := Build_Comp ct_o3core 0; cachel1d := Build_Comp ct_cachel1d 0;
     cachel1i := Build_Comp ct_cachel1i 0; tlbl1d := Build_Comp ct_tlbl1d 0;
     tlbl1i := Build_Comp ct_tlbl1i 0; l1i_set_lsb := 6; skip_all_instrs := false;
     process_interval := 10; num_hthreads := 1; lsu_to_l1i_t := 10; lsu_to_l1d_t := 10;
     spinning_slowdown := 10; bypass_tlb := true; consecutive_nack_threshold := 1000;
     mimick_inorder := false; o3queue_max_size := 8; o3rob_max_size := 8;
     max_issue_width := 4; max_commit_width := 4; max_alu := 4; max_ldst := 4; max_ld := 4;
     max_st := 4; max_sse := 4; branch_miss_penalty := 100; lock_t := 100; unlock_t := 100;
     barrier_t := 100; sse_t := 40 |}.

Lemma example_config_ok : cfg_ok example_config.
Proof. by constructor; cbn; unfold in_u32; lia. Qed.
Lemma example_limits_ok : limits_ok example_config.
Proof. by constructor. Qed.

(** A load of address 64 into register 1, then an addition that reads it. *)
Definition load_instr : instruction :=
  Build_instruction 0 0 64 0 8 4096 0 false false false false false 0 0 0 0 1 0 0 0.
Definition add_instr : instruction :=
  Build_instruction 0 0 0 0 0 4100 0 false false false false false 1 0 0 0 2 0 0 0.

Definition blank_queue : list O3Queue :=
  replicate 8 (Build_O3Queue o3iqs_invalid 0 0 0 0 0 0 0 no_mem 0 0 0 0 0 0 0 0).
Definition blank_rob : list O3ROB :=
  replicate 8 (Build_O3ROB o3irs_invalid 0 0 0 false false 0 0 0 no_mem 0 0 0 0 0 0 0 0).
Definition example_start : machine := start 16 4 blank_queue blank_rob 1.

Definition line_reply : LQE :=
  {| from := []; type := et_read; address := 4096; th_id := 0; dummy := false; rob_entry := -1 |}.

(** The addition waits in the buffer for the load, which was sent to the cache. *)
Definition example_issued : machine :=
  do_tick example_config 20 (do_line example_config 20 line_reply
    (do_tick example_config 0 (do_fetch example_config 0 add_instr
      (do_fetch example_config 0 load_instr example_start)))).
Definition example_waiting : machine := do_tick example_config 30 example_issued.

Lemma example_issued_reachable : rtc (step example_config) example_start example_issued.
Proof.
  unfold example_issued.
  eapply rtc_l; [apply (do_fetch_step _ 0 load_instr); [done|by intros []|by vm_compute]|].
  eapply rtc_l; [apply (do_fetch_step _ 0 add_instr); [by vm_compute|by intros []|by vm_compute]|].
  eapply rtc_l; [apply (do_tick_step _ 0); [by vm_compute|by unfold tick_ok|by vm_compute]|].
  eapply rtc_l; [apply (do_line_step _ 20 line_reply); [by vm_compute|by unfold tick_ok|done|by vm_compute]|].
  eapply rtc_l; [apply (do_tick_step _ 20); [by vm_compute|by unfold tick_ok|by vm_compute]|].
  apply rtc_refl.
Qed.

Lemma example_waiting_reachable : rtc (step example_config) example_start example_waiting.
Proof.
  eapply rtc_r; [apply example_issued_reachable|].
  apply (do_tick_step _ 30); [by vm_compute|by unfold tick_ok|by vm_compute].
Qed.

Lemma core_reachable_witness :
  ∃ m, rtc (step example_config) example_start m ∧ unanswered m = [0] ∧
    ∃ V Q, rob_view example_config (core m) V ∧ queue_view example_config (core m) Q ∧
      length V = 2%nat ∧ NoDup (unanswered m).
Proof.
  exists example_waiting. split; [apply example_waiting_reachable|]. split; [by vm_compute|].
  destruct (core_reachable example_config 16 4 blank_queue blank_rob 1 example_waiting
    example_config_ok example_limits_ok ltac:(lia) ltac:(lia) eq_refl eq_refl example_waiting_reachable)
    as (V & Q & [HV Hs] & HQ & Hnd & _).
  exists V, Q. split; [by split|]. split; [done|]. split; [|done].
  assert (o3rob_size (core example_waiting) = 2) as E by (by vm_compute). rewrite E in Hs. lia.
Defined.

Lemma core_never_stuck_witness :
  0 < o3rob_size (core example_waiting) ∧
  (scheduled example_waiting ≠ ∅ ∨ unanswered example_waiting ≠ []).
Proof.
  assert (0 < o3rob_size (core example_waiting)) as H by (by vm_compute). split; [done|].
  by apply (core_never_stuck example_config 16 4 blank_queue blank_rob 1 example_waiting
    example_config_ok example_limits_ok ltac:(lia) ltac:(lia) eq_refl eq_refl example_waiting_reachable).
Defined.

(** The dependency of the addition on the load. *)
Lemma reg_dep_newest_witness :
  ∃ V, rob_view example_config (core example_waiting) V ∧
    reg_dep example_config 30 1 (core example_waiting) = Ok 0 ∧
    ∃ d, reg_dep example_config 30 1 (core example_waiting) = Ok d ∧ d ≠ -1.
Proof.
  destruct (reachable_ok example_config 16 4 blank_queue blank_rob 1 example_waiting
    example_config_ok example_limits_ok ltac:(lia) ltac:(lia) eq_refl eq_refl example_waiting_reachable)
    as (QI & RI & [_ _ [(V & Hv & _) _ _ _ _] _]).
  exists V. split; [done|]. split; [by vm_compute|].
  destruct (reg_dep_newest example_config example_waiting 30 1 V Hv) as (d & Hd & _). exists d. split; [done|].
  assert (reg_dep example_config 30 1 (core example_waiting) = Ok 0) as E by (by vm_compute).
  rewrite E in Hd. by injection Hd as <-.
Defined.

Lemma tick_ok_30 : tick_ok 30.
Proof. by unfold tick_ok. Qed.

(** A cycle of a core that holds a ready load and an addition that waits for it. *)
Lemma core_cycle_witness :
  ∃ QI RI r s' o, process_event example_config 30 (core example_issued) = Ok (r, s', o) ∧
    machine_ok example_config example_issued QI RI ∧ Forall (not_before 30) o.
Proof.
  destruct (reachable_ok example_config 16 4 blank_queue blank_rob 1 example_issued
    example_config_ok example_limits_ok ltac:(lia) ltac:(lia) eq_refl eq_refl example_issued_reachable)
    as (QI & RI & Hm).
  assert (30 ∈ scheduled example_issued) as Hin by (apply (bool_decide_eq_true_1 _); by vm_compute).
  assert (set_Forall (λ t, 30 ≤ t) (scheduled example_issued)) as Hmin
    by (apply (bool_decide_eq_true_1 _); by vm_compute).
  unfold set_Forall in Hmin.
  destruct (core_cycle example_config example_issued 30 QI RI example_config_ok Hm Hin Hmin tick_ok_30)
    as (r & s' & o & Hrun & H).
  exists QI, RI, r, s', o. split; [done|]. split; [done|].
  destruct H as [(_ & -> & _)|(_ & Hb & _)]; [|done]. by repeat constructor.
Defined.

(** The default predictor and a branch at the head of the queue. *)
Definition branch_entry : O3Queue :=
  Build_O3Queue o3iqs_ready 0 0 0 0 0 0 4096 ins_branch_taken 0 0 0 0 0 0 0 0.
Definition branch_machine : machine :=
  Build_machine 20 {[20]} []
    ((init 256 0 blank_queue blank_rob 1) <| o3queue ::= <[0%nat := branch_entry]> |> <| o3queue_size := 1 |>).
Lemma default_predictor_undefined_witness : issue_one example_config 20 (core branch_machine) = Err Undef.
Proof.
  apply (default_predictor_undefined example_config branch_machine 20 branch_entry);
    [done|reflexivity|done|done|by left].
Defined.
End O3Machine.
