(* ===== verification/Frontend.v ===== *)
(** * The front end's half of the connection to the timing simulator (PTS.cpp)

    A Pin tool runs the simulated program and reports what it does to the timing
    simulator, through messages in a shared page.  [PthreadTimingSimulator] is the
    proxy of the front end: it piles instructions up and sends them in batches. *)

From S2P Require Export Prelude.
From stdpp Require Export strings.
#[global] Open Scope Z_scope.

Module PTSInterface.

Definition instr_batch_size : Z := 32.

Record PTSInstr := {
  hthreadid_ : Z;
  curr_time_ : Z;
  waddr : Z;
  wlen : Z;
  raddr : Z;
  raddr2 : Z;
  rlen : Z;
  ip : Z;
  category : Z;
  isbranch : bool;
  isbranchtaken : bool;
  islock : bool;
  isunlock : bool;
  isbarrier : bool;
  rr0 : Z;
  rr1 : Z;
  rr2 : Z;
  rr3 : Z;
  rw0 : Z;
  rw1 : Z;
  rw2 : Z;
  rw3 : Z }.

(** An instruction as the tools record it (PTS.h, tracegen.cpp); 0 stands for an address
    or a register the instruction does not have. *)
Record PTSInstrTrace := {
  t_waddr : Z;
  t_wlen : Z;
  t_raddr : Z;
  t_raddr2 : Z;
  t_rlen : Z;
  t_ip : Z;
  t_category : Z;
  t_isbranch : bool;
  t_isbranchtaken : bool;
  t_rr0 : Z;
  t_rr1 : Z;
  t_rr2 : Z;
  t_rr3 : Z;
  t_rw0 : Z;
  t_rw1 : Z;
  t_rw2 : Z;
  t_rw3 : Z }.

(** [PTSMessage] as the front end fills it: for each type the fields it writes. *)
Inductive PTSMessage : Type :=
| pts_destructor
| pts_resume_simulation (bool_val killed : bool)
| pts_add_instruction (instr : list PTSInstr)
| pts_set_stack_n_size (uint32_t_val stack_val stacksize_val : Z)
| pts_set_active (uint32_t_val : Z) (bool_val : bool)
| pts_get_num_hthreads
| pts_get_param_uint64 (str : string) (uint64_t_val : Z)
| pts_get_param_bool (str : string) (bool_val : bool)
| pts_get_curr_time.

(** The fields the front end reads back. *)
Record reply := { uint32_t_val : Z; uint64_t_val : Z; bool_val : bool }.

(** The simulator behind the page: it serves a message and writes its answer. *)
Class Backend (B : Type) := serve : PTSMessage → B → reply * B.

(** What the front end does that others see: a request to the simulator, a word stored
    in the memory of the simulated program, a call of a destructor of thread-specific
    data, and a jump to a register context. *)
Inductive event : Type :=
| Request (msg : PTSMessage)
| Store (addr value : Z)
| CallDestructor (func data : Z)
| ExecuteAt (context : Z).

(** Pin.  A [CONTEXT] is the register file of a thread and an [FPSTATE] its floating-point
    part; both are opaque and only Pin's functions look inside, so they are named by
    numbers. *)
Inductive REG : Set := REG_STACK_PTR | REG_INST_PTR | REG_GDI.
Class Pin := {
  PIN_GetContextReg : Z → REG → Z;
  PIN_SetContextReg : Z → REG → Z → Z;
  PIN_GetContextFPState : Z → Z;
  PIN_SetContextFPState : Z → Z → Z;
  (* the address of [StartThreadFunc] in the tool *)
  StartThreadFunc : Z }.

End PTSInterface.
Export (hints) PTSInterface.

Module PTS.
Import PTSInterface.

(** [instr] is the filled part of [ptsmessage->val.instr], so that
    [num_piled_instr] is its length; [type_is_add] is
    [ptsmessage->type == pts_add_instruction]; [mcsim] is the other side. *)
Record pts {B : Type} := {
  instr : list PTSInstr;
  type_is_add : bool;
  num_hthreads : Z;
  num_available_slot : list Z;
  mcsim : B }.
Arguments pts : clear implicits.

Section Proxy.
Context {B : Type} {BE : Backend B}.

Notation handler := (proc event (pts B)).

Definition num_piled_instr (s : pts B) : Z := Z.of_nat (length (instr s)).

(** [sync_with_mcsim] with the message in the page. *)
Definition sync_with_mcsim (msg : PTSMessage) : handler reply :=
  _ ← emit (Request msg);
  b ← reads mcsim;
  let (r, b') := serve msg b in
  _ ← modify (set mcsim (λ _, b'));
  mret r.

(** The answer to a batch: how many more instructions the thread may send. *)
Definition store_slots (r : reply) (hthreadid : Z) : handler unit :=
  slots ← reads num_available_slot;
  _ ← lift (vec_get slots hthreadid);
  modify (set num_available_slot (vec_set hthreadid (uint32_t_val r))).

Definition send_instr_batch : handler unit :=
  t ← reads type_is_add;
  _ ← ASSERTX t;
  l ← reads instr;
  r ← sync_with_mcsim (pts_add_instruction l);
  i ← lift (some_or_undef (last l));
  _ ← store_slots r (hthreadid_ i);
  modify (set instr (λ _, [])).

(** [if (num_piled_instr) send_instr_batch();] *)
Definition flush : handler unit :=
  n ← reads num_piled_instr;
  when (negb (n =? 0)) send_instr_batch.

(** Every message but [pts_add_instruction]: flush, fill the page, synchronise. *)
Definition request (msg : PTSMessage) : handler reply :=
  _ ← flush;
  _ ← modify (set type_is_add (λ _, false));
  sync_with_mcsim msg.

Definition add_instruction (i : PTSInstr) (can_be_piled : bool) : handler bool :=
  n ← reads num_piled_instr;
  _ ← ASSERTX (n <? instr_batch_size);
  _ ← modify (set type_is_add (λ _, true));
  l ← reads instr;
  _ ← ASSERTX (match last l with Some p => hthreadid_ p =? hthreadid_ i | None => true end);
  _ ← modify (set instr (λ _, l ++ [i]));
  let n := n ⊕₃₂ 1 in
  full ← (if negb can_be_piled || (instr_batch_size <=? n) then mret true
          else slots ← reads num_available_slot;
               k ← lift (vec_get slots (hthreadid_ i));
               mret (k <=? n));
  if full : bool then
    r ← sync_with_mcsim (pts_add_instruction (l ++ [i]));
    _ ← modify (set instr (λ _, []));
    _ ← store_slots r (hthreadid_ i);
    mret (uint32_t_val r <=? 1)
  else mret false.

Definition resume_simulation (must_switch killed : bool) : handler (Z * Z) :=
  r ← request (pts_resume_simulation must_switch killed);
  mret (uint32_t_val r, uint64_t_val r).

Definition set_stack_n_size (pth_id stack stacksize : Z) : handler unit :=
  _ ← request (pts_set_stack_n_size (u32 pth_id) stack stacksize);
  mret tt.

Definition set_active (pth_id : Z) (is_active : bool) : handler unit :=
  _ ← request (pts_set_active (u32 pth_id) is_active);
  mret tt.

Definition get_num_hthreads : handler Z :=
  r ← request pts_get_num_hthreads;
  mret (uint32_t_val r).

Definition get_param_uint64 (str : string) (def : Z) : handler Z :=
  r ← request (pts_get_param_uint64 str def);
  mret (uint64_t_val r).

Definition get_param_bool (str : string) (def_value : bool) : handler bool :=
  r ← request (pts_get_param_bool str def_value);
  mret (bool_val r).

Definition get_curr_time : handler Z :=
  r ← request pts_get_curr_time;
  mret (uint64_t_val r).

(** The constructor, on a page that nobody has written. *)
Definition make : handler unit :=
  n ← get_num_hthreads;
  modify (λ s, s <| num_hthreads := n |> <| num_available_slot := replicate (Z.to_nat n) 1 |>).

Definition init (b : B) : pts B :=
  {| instr := []; type_is_add := false; num_hthreads := 0; num_available_slot := []; mcsim := b |}.

(** The destructor: it leaves its message without waiting for an answer. *)
Definition destroy : handler unit :=
  _ ← flush;
  _ ← modify (set type_is_add (λ _, false));
  _ ← sync_with_mcsim pts_destructor;
  mret tt.

(** ** The calls of the scheduler, as data *)

Inductive call : Type :=
| AddInstruction (i : PTSInstr) (can_be_piled : bool)
| Ask (msg : PTSMessage).

Definition run_call (c : call) : handler unit :=
  match c with
  | AddInstruction i p => _ ← add_instruction i p; mret tt
  | Ask msg => _ ← request msg; mret tt
  end.

Definition run_calls (cs : list call) : handler unit := for_each cs run_call.

End Proxy.
(** ** Batching is transparent

    The reference sends every instruction at once.  [expand] reads the stream of
    instructions and other messages off the log of a run. *)

Definition expand_one (e : event) : list (PTSInstr + PTSMessage) :=
  match e with
  | Request (pts_add_instruction l) => inl <$> l
  | Request msg => [inr msg]
  | _ => []
  end.
Definition expand (o : list event) : list (PTSInstr + PTSMessage) := o ≫= expand_one.

Definition reference (c : call) : list (PTSInstr + PTSMessage) :=
  match c with AddInstruction i _ => [inl i] | Ask msg => [inr msg] end.

Definition is_batch (msg : PTSMessage) : bool :=
  match msg with pts_add_instruction _ => true | _ => false end.

(** A batch has at most [instr_batch_size] instructions, all of one thread. *)
Definition batch_ok (e : event) : Prop :=
  match e with
  | Request (pts_add_instruction l) =>
      l ≠ [] ∧ Z.of_nat (length l) ≤ instr_batch_size ∧
      ∃ h, Forall (λ i, hthreadid_ i = h) l
  | _ => True
  end.

(** What the proxy asks of its user: a thread that adds an instruction behind piled
    ones of another thread is refused, so [t] is the thread that may have some piled. *)
Fixpoint well_ordered (n : Z) (t : option Z) (cs : list call) : Prop :=
  match cs with
  | [] => True
  | AddInstruction i can_be_piled :: cs' =>
      (t = None ∨ t = Some (hthreadid_ i)) ∧ 0 ≤ hthreadid_ i < n ∧
      well_ordered n (if can_be_piled then Some (hthreadid_ i) else None) cs'
  | Ask msg :: cs' => is_batch msg = false ∧ well_ordered n None cs'
  end.

Section Transparent.
Context {B : Type} {BE : Backend B}.
Implicit Types (s : pts B) (o : list event) (T : list (PTSInstr + PTSMessage)).

Record pile_ok (n : Z) (t : option Z) (s : pts B) : Prop := {
  pile_slots : Z.of_nat (length (num_available_slot s)) = n;
  pile_thread : Forall (λ i, 0 ≤ hthreadid_ i < n ∧ t = Some (hthreadid_ i)) (instr s);
  pile_bound : num_piled_instr s < instr_batch_size;
  pile_type : instr s ≠ [] → type_is_add s = true }.

(** [T] was issued: it is what was sent, and what is piled up. *)
Definition issued (T : list (PTSInstr + PTSMessage)) s o : Prop :=
  expand o ++ (inl <$> instr s) = T ∧ Forall batch_ok o.

Lemma expand_app o1 o2 : expand (o1 ++ o2) = expand o1 ++ expand o2.
Proof. apply bind_app. Qed.

Lemma wpl_sync E msg s o (Q : reply → pts B → list event → Prop) :
  (∀ r b, serve msg (mcsim s) = (r, b) → Q r (s <| mcsim := b |>) (o ++ [Request msg])) →
  wpl E (sync_with_mcsim msg) s o Q.
Proof.
  intros HQ. unfold sync_with_mcsim. log_steps. destruct (serve msg (mcsim s)) as [r b] eqn:Hserve.
  log_steps. by apply HQ.
Qed.

Lemma wpl_store E r h n s o (Q : unit → pts B → list event → Prop) :
  Z.of_nat (length (num_available_slot s)) = n → 0 ≤ h < n →
  (∀ l, length l = length (num_available_slot s) → Q tt (s <| num_available_slot := l |>) o) →
  wpl E (store_slots r h) s o Q.
Proof.
  intros Hl Hh HQ. unfold store_slots. log_steps.
  destruct (vec_get_lt (num_available_slot s) h) as [x Hx]; [lia|].
  eapply wpl_lift_ok; [exact Hx|]. cbv beta. log_steps. apply (HQ (vec_set _ _ _)). apply length_vec_alter.
Qed.

Lemma pile_batch n t s : pile_ok n t s → instr s ≠ [] →
  ∃ h, t = Some h ∧ 0 ≤ h < n ∧ Forall (λ i, hthreadid_ i = h) (instr s).
Proof.
  intros [_ Ht _ _] Hl. destruct (instr s) as [|j k] eqn:E; [done|].
  inv Ht. destruct H1 as [Hr ->]. exists (hthreadid_ j). split_and!; [done|lia|lia|].
  constructor; [done|]. eapply Forall_weaken; [exact H2|]. intros x [_ [=]]. done.
Qed.

Lemma issued_batch T o l s' :
  expand o ++ (inl <$> l) = T → Forall batch_ok o → l ≠ [] →
  Z.of_nat (length l) ≤ instr_batch_size → (∃ h, Forall (λ i, hthreadid_ i = h) l) →
  instr s' = [] → issued T s' (o ++ [Request (pts_add_instruction l)]).
Proof.
  intros HT Ho Hl Hn Hh Hs'. split.
  - rewrite expand_app, Hs'. cbn. by rewrite !app_nil_r.
  - apply Forall_app. split; [done|]. by constructor.
Qed.

(** What the simulator does with the batch that may be sent, seen from outside: any
    relation that it keeps. *)
Section Served.
Context (R : B → B → Prop) (R_refl : ∀ b, R b b).

(** A flush leaves nothing piled up, for whatever thread comes next. *)
Lemma wpl_flush n t s o T (Q : unit → pts B → list event → Prop) :
  pile_ok n t s → issued T s o → R (mcsim s) (snd (serve (pts_add_instruction (instr s)) (mcsim s))) →
  (∀ s' o', pile_ok n None s' → instr s' = [] → issued T s' o' →
     num_hthreads s' = num_hthreads s → R (mcsim s) (mcsim s') → Q tt s' o') →
  wpl no_failure flush s o Q.
Proof.
  intros Hs [HT Ho] Hb' HQ. unfold flush. log_steps. apply wpl_when.
  - intros Hne%negb_true_iff%Z.eqb_neq.
    assert (instr s ≠ []) as Hl by (intros E; unfold num_piled_instr in Hne; by rewrite E in Hne).
    destruct (pile_batch _ _ _ Hs Hl) as (h & -> & Hh & Hall). destruct Hs as [Hn _ Hb Hty].
    unfold send_instr_batch. log_steps. apply wpl_ASSERTX; [intros _|by rewrite (Hty Hl)].
    log_steps. apply wpl_sync. intros r b Hserve. log_steps.
    destruct (last (instr s)) as [i|] eqn:Hi; [|by apply last_None in Hi].
    eapply wpl_lift_ok; [done|]. cbv beta. log_steps.
    assert (hthreadid_ i = h) as ->.
    { apply last_Some in Hi as [l' Hi]. rewrite Hi in Hall. by apply Forall_app in Hall as [_ [? _]%Forall_cons]. }
    eapply wpl_store; [exact Hn|done|]. intros l Hlen. log_steps.
    rewrite Hserve in Hb'. apply HQ; [|done| |done|exact Hb'].
    + split; cbn; [by rewrite Hlen|done|done|done].
    + eapply issued_batch; [done..| | |done]; [unfold num_piled_instr in Hb; lia|by exists h].
  - intros Hz%negb_false_iff%Z.eqb_eq.
    assert (instr s = []) as Hl by (unfold num_piled_instr in Hz; by destruct (instr s)).
    apply HQ; [|done|done|done|apply R_refl]. destruct Hs as [Hn _ Hb Hty]. split; [done|by rewrite Hl|done|by rewrite Hl].
Qed.

Lemma wpl_request n t s o T msg (Q : reply → pts B → list event → Prop) :
  is_batch msg = false → pile_ok n t s → issued T s o →
  R (mcsim s) (snd (serve (pts_add_instruction (instr s)) (mcsim s))) →
  (∀ r s' o', pile_ok n None s' → instr s' = [] → issued (T ++ [inr msg]) s' o' →
     num_hthreads s' = num_hthreads s →
     (∃ b, R (mcsim s) b ∧ serve msg b = (r, mcsim s')) → Q r s' o') →
  wpl no_failure (request msg) s o Q.
Proof.
  intros Hm Hs HT Hb HQ. unfold request. log_steps. eapply wpl_flush; [done..|].
  intros s1 o1 Hs1 Hn [HT1 Ho1] Hnum HR. log_steps. apply wpl_sync. intros r b Hserve.
  apply HQ; [|done| |done|by eexists].
  - destruct Hs1 as [? ? ? ?]. split; [done|done|done|]. by intros ?.
  - split.
    + rewrite expand_app. cbn. rewrite Hn, app_nil_r in HT1 |- *. rewrite HT1. by destruct msg.
    + apply Forall_app. split; [done|]. constructor; [by destruct msg|done].
Qed.

Lemma wpl_add_instruction n t i (p : bool) s o T (Q : bool → pts B → list event → Prop) :
  t = None ∨ t = Some (hthreadid_ i) → 0 ≤ hthreadid_ i < n → pile_ok n t s → issued T s o →
  R (mcsim s) (snd (serve (pts_add_instruction (instr s ++ [i])) (mcsim s))) →
  (∀ r s' o', pile_ok n (if p then Some (hthreadid_ i) else None) s' →
     issued (T ++ [inl i]) s' o' → num_hthreads s' = num_hthreads s →
     R (mcsim s) (mcsim s') → instr s' ⊆ instr s ++ [i] → Q r s' o') →
  wpl no_failure (add_instruction i p) s o Q.
Proof.
  intros Ht Hi Hs [HT Ho] Hb' HQ.
  assert (Forall (λ j, hthreadid_ j = hthreadid_ i) (instr s)) as Hsame.
  { eapply Forall_weaken; [apply (pile_thread _ _ _ Hs)|]. intros j [_ Hj]. destruct Ht; congruence. }
  destruct Hs as [Hn _ Hb Hty]. unfold add_instruction. log_steps.
  apply wpl_ASSERTX; [intros _|intros ?%Z.ltb_ge; lia]. log_steps. cbn [instr].
  apply wpl_ASSERTX; [intros _|].
  2:{ cbn. destruct (last (instr s)) as [j|] eqn:Hj; [|done]. intros Hne%Z.eqb_neq.
      apply Hne. apply last_Some in Hj as [l' Hj]. rewrite Hj in Hsame.
      by apply Forall_app in Hsame as [_ [? _]%Forall_cons]. }
  log_steps. cbn [instr].
  assert (num_piled_instr s ⊕₃₂ 1 = Z.of_nat (length (instr s ++ [i]))) as Hnum.
  { unfold num_piled_instr, instr_batch_size, u32 in *. rewrite length_app. cbn. rewrite Z.mod_small by lia. lia. }
  assert (expand o ++ (inl <$> instr s ++ [i]) = T ++ [inl i]) as HT'.
  { by rewrite fmap_app, app_assoc, HT. }
  assert (Z.of_nat (length (instr s ++ [i])) ≤ instr_batch_size) as Hlen.
  { rewrite length_app. cbn. unfold num_piled_instr in Hb. lia. }
  assert (Forall (λ j, hthreadid_ j = hthreadid_ i) (instr s ++ [i])) as Hsame'.
  { apply Forall_app. split; [done|by repeat constructor]. }
  eapply (wpl_mono _ _ _ _ (λ full s1 o1, o1 = o ∧ s1 = s <| type_is_add := true |> <| instr := instr s ++ [i] |> ∧
    (full = false → p = true ∧ num_piled_instr s ⊕₃₂ 1 < instr_batch_size))).
  { destruct (negb p || (instr_batch_size <=? num_piled_instr s ⊕₃₂ 1)) eqn:Hfull; [by apply wpl_ret|].
    apply orb_false_iff in Hfull as [Hp%negb_false_iff Hlt%Z.leb_gt]. log_steps.
    destruct (vec_get_lt (num_available_slot s) (hthreadid_ i)) as [x Hx]; [lia|].
    eapply wpl_lift_ok; [exact Hx|]. cbv beta. log_steps. done. }
  intros full s1 o1 (-> & -> & Hpile). destruct full.
  - log_steps. apply wpl_sync. intros r b Hserve. log_steps. eapply wpl_store; [exact Hn|done|].
    intros l Hl. log_steps. cbn in Hserve. rewrite Hserve in Hb'. apply HQ; [| |done|exact Hb'|by intros ? ?%not_elem_of_nil].
    + split; cbn; [by rewrite Hl|done|done|done].
    + eapply issued_batch; [exact HT'|done|by intros [_ [=]]%app_eq_nil|exact Hlen|by exists (hthreadid_ i)|done].
  - destruct (Hpile eq_refl) as [-> Hlt]. apply wpl_ret. apply HQ; [| |done|apply R_refl|done].
    + split; cbn; [done| |rewrite Hnum in Hlt; exact Hlt|done].
      eapply Forall_weaken; [exact Hsame'|]. intros j ->. done.
    + split; [exact HT'|done].
Qed.
End Served.

Lemma wpl_run_calls n cs t s o T :
  well_ordered n t cs → pile_ok n t s → issued T s o →
  wpl no_failure (run_calls cs) s o (λ _ s' o',
    (∃ t', pile_ok n t' s') ∧ issued (T ++ (cs ≫= reference)) s' o').
Proof.
  revert t s o T. induction cs as [|c cs IH]; intros t s o T Hcs Hs HT; unfold run_calls; cbn [for_each].
  - apply wpl_ret. cbn. rewrite app_nil_r. eauto.
  - log_steps. destruct c as [i p|msg]; unfold run_call; log_steps.
    + destruct Hcs as (Ht & Hi & Hcs). eapply (wpl_add_instruction (λ _ _, True)); [done..|].
      intros r s1 o1 Hs1 HT1 _ _ _. log_steps. cbn [mbind list_bind reference]. rewrite app_assoc.
      by eapply IH.
    + destruct Hcs as (Hm & Hcs). eapply (wpl_request (λ _ _, True)); [done..|].
      intros r s1 o1 Hs1 _ HT1 _ _. log_steps. cbn [mbind list_bind reference]. rewrite app_assoc.
      by eapply IH.
Qed.

(** C18: The proxy is transparent: for any sequence of calls in which a thread adds
    instructions only when no other thread has some piled up, the run succeeds, and the
    instructions and other messages that reach the simulator, in their order, followed by
    what is still piled up, are exactly those the reference without piling sends.  Every
    batch is of one thread, not empty, and no longer than the message has room for; no
    instruction overtakes another message. *)
Theorem pts_batching_transparent n t cs s :
  pile_ok n t s → well_ordered n t cs →
  ∃ s' o, run_calls cs s = Ok (tt, s', o) ∧
    expand o ++ (inl <$> instr s') = (inl <$> instr s) ++ (cs ≫= reference) ∧
    Forall batch_ok o ∧ num_piled_instr s' < instr_batch_size.
Proof.
  intros Hs Hcs. assert (issued (inl <$> instr s) s []) as HT by by split.
  destruct (wp_total _ _ _ (wpl_run_calls _ _ _ _ _ _ Hcs Hs HT)) as (() & s' & o & Hrun & Ht & HT' & Ho).
  destruct Ht as [t' Ht]. exists s', o. split_and!; [done..|]. apply Ht.
Qed.

End Transparent.

(** ** The log is what the other side served *)

Definition served_by {B} {BE : Backend B} (e : event) (b : B) : B :=
  match e with Request msg => snd (serve msg b) | _ => b end.

Definition replay {B} {BE : Backend B} (o : list event) (b : B) : B := foldl (λ b e, served_by e b) b o.

(** The simulator, which [get] finds in the state, is in the state in which the requests
    of the log left it. *)
Definition logged {B} {BE : Backend B} {S A} (get : S → B) (m : proc event S A) : Prop :=
  ∀ s a s' o, m s = Ok (a, s', o) → get s' = replay o (get s).

Section LoggedRules.
Context {B : Type} {BE : Backend B} {S : Type} (get : S → B).

Lemma logged_ret {A} (a : A) : logged get (mret a).
Proof. by intros s a' s' o [= <- <- <-]. Qed.
Lemma logged_bind {A A'} (m : proc event S A) (k : A → proc event S A') :
  logged get m → (∀ a, logged get (k a)) → logged get (m ≫= k).
Proof.
  intros Hm Hk s a' s' o (a & s1 & o1 & o2 & H1%Hm & H2%Hk & ->)%bind_run.
  unfold replay. by rewrite foldl_app, H2, H1.
Qed.
Lemma logged_lift {A} (x : outcome A) : logged get (lift x).
Proof. intros s a s' o. unfold lift. destruct x; [|done]. by intros [= <- <- <-]. Qed.
Lemma logged_fails {A} f : logged get (fails f : proc event S A).
Proof. done. Qed.
Lemma logged_reads {A} (f : S → A) : logged get (reads f).
Proof. by intros s a s' o [= <- <- <-]. Qed.
Lemma logged_modify (f : S → S) : (∀ s, get (f s) = get s) → logged get (modify f).
Proof. intros Hf s a s' o [= <- <- <-]. apply Hf. Qed.
Lemma logged_emit e : (∀ msg, e ≠ Request msg) → logged get (emit e).
Proof. intros He s a s' o [= <- <- <-]. by destruct e as [msg| | |]; [destruct (He msg)|..]. Qed.
Lemma logged_zoom {T A} (part : S → T) put (get' : T → B) (m : proc event T A) :
  (∀ s t, get (put (λ _, t) s) = get' t) → (∀ s, get s = get' (part s)) →
  logged get' m → logged get (zoom part put m).
Proof.
  intros Hput Hget Hm s a s' o. unfold zoom. destruct (m (part s)) as [[[a0 t] o0]|] eqn:E; [|done].
  intros [= <- <- <-]. rewrite Hput, Hget. by eapply Hm.
Qed.
End LoggedRules.

Ltac logged_step :=
  lazymatch goal with
  | |- logged _ (_ ≫= _) => apply logged_bind; [|intros ?]
  | |- logged _ (mret _) => apply logged_ret
  | |- logged _ (lift _) => apply logged_lift
  | |- logged _ (fails _) => apply logged_fails
  | |- logged _ (reads _) => apply logged_reads
  | |- logged _ (modify _) => by apply logged_modify
  | |- logged _ (emit _) => by apply logged_emit
  | |- logged _ (ASSERTX _) => unfold ASSERTX
  | |- logged _ (when _ _) => unfold when
  | |- logged _ (match ?x with _ => _ end) => destruct x
  end.
Ltac logged_steps := repeat logged_step.

Section Logged.
Context {B : Type} {BE : Backend B}.

Lemma logged_sync msg : logged mcsim (sync_with_mcsim msg).
Proof.
  intros s a s' o. unfold sync_with_mcsim, mbind, proc_bind, emit, reads, modify. cbn.
  destruct (serve msg (mcsim s)) as [r b] eqn:E. cbn. intros [= <- <- <-]. cbn. by rewrite E.
Qed.

Lemma logged_request msg : logged mcsim (request msg).
Proof. unfold request, flush, send_instr_batch, store_slots. repeat (logged_step || apply logged_sync). Qed.
Lemma logged_add_instruction i p : logged mcsim (add_instruction i p).
Proof. unfold add_instruction, store_slots. repeat (logged_step || apply logged_sync). Qed.

Lemma logged_run_calls cs : logged mcsim (run_calls cs).
Proof.
  induction cs as [|c cs IH]; [apply logged_ret|]. apply logged_bind; [|done].
  destruct c; (apply logged_bind; [|intros ?; apply logged_ret]);
    [apply logged_add_instruction|apply logged_request].
Qed.
End Logged.

(** A simulator that always has room for three instructions. *)
Definition roomy : Backend unit :=
  λ msg b, ({| uint32_t_val := 3; uint64_t_val := 0; bool_val := false |}, b).

Definition an_instr (h a : Z) : PTSInstr :=
  {| hthreadid_ := h; curr_time_ := 0; waddr := 0; wlen := 0; raddr := a; raddr2 := 0; rlen := 8;
     ip := 0; category := 0; isbranch := false; isbranchtaken := false; islock := false;
     isunlock := false; isbarrier := false; rr0 := 0; rr1 := 0; rr2 := 0; rr3 := 0;
     rw0 := 0; rw1 := 0; rw2 := 0; rw3 := 0 |}.

Definition some_calls : list call :=
  [AddInstruction (an_instr 0 8) true; AddInstruction (an_instr 0 16) true;
   Ask (pts_set_active 1 true); AddInstruction (an_instr 1 24) true].

Lemma pts_batching_transparent_witness :
  ∃ s' o, run_calls (BE := roomy) some_calls {| instr := []; type_is_add := false; num_hthreads := 2;
      num_available_slot := [3; 3]; mcsim := tt |} = Ok (tt, s', o) ∧
    expand o ++ (inl <$> instr s') = [] ++ (some_calls ≫= reference) ∧
    Forall batch_ok o ∧ num_piled_instr s' < instr_batch_size.
Proof.
  apply (pts_batching_transparent (BE := roomy) 2 None).
  - split; cbn; [done|constructor|done|done].
  - cbn. split_and!; auto; lia.
Defined.

End PTS.
