(* ===== verification/Handshake.v ===== *)
(** * The shared page between the front ends and the simulator (PTS.cpp, main.cc)

    Each process that is simulated shares a page with the simulator: a message and two
    flags, on which both sides spin.  The module is a transition system whose steps are
    the single accesses of the two sides, in any interleaving (with sequentially
    consistent accesses, as [volatile] on the machines at hand provides). *)

From S2P Require Import Prelude.

Module Handshake.

(** What the page holds: the [n]-th request of the process, or the answer made out of
    the backend's copy of a message. *)
Inductive content : Set :=
| Blank
| Asked (n : Z)
| Answered (to : content).

(** Where a front end is in [sync_with_mcsim]. *)
Inductive front_pc : Set :=
| F_run      (* outside: it may write the message, or read the answer *)
| F_post     (* the message is written; next, [mmap_flag[0] = false] *)
| F_wait     (* in [while (mmap_flag[1]) {}] *)
| F_ack      (* next, [mmap_flag[1] = true] *)
| F_gone.    (* its destructor left a message and unmapped the page *)

(** Where the loop of [main] is. *)
Inductive back_pc : Set :=
| B_poll     (* in [while ((curr_p->mmap_flag)[0]) {}] *)
| B_copy     (* next, [memcpy(curr_p->buffer, curr_p->pmmap)] *)
| B_serve    (* in the [switch]; it may set [curr_p] to another process *)
| B_write    (* next, [memcpy(curr_p->pmmap, curr_p->buffer)] *)
| B_release  (* next, [(curr_p->mmap_flag)[1] = false] *)
| B_stop.    (* [any_thread] is false *)

#[export] Instance front_pc_eq_dec : EqDecision front_pc.
Proof. solve_decision. Defined.
#[export] Instance back_pc_eq_dec : EqDecision back_pc.
Proof. solve_decision. Defined.
#[export] Instance content_eq_dec : EqDecision content.
Proof. solve_decision. Defined.

(** A process: its front end, its page, and its [buffer] in the simulator.  [sent]
    counts its requests. *)
Record process := {
  pc : front_pc;
  flag0 : bool;
  flag1 : bool;
  page : content;
  sent : Z;
  buffer : content }.

Record state := {
  procs : list process;
  curr_pid : nat;
  bpc : back_pc }.

Inductive action : Set :=
| FWrite (i : nat) | FPost (i : nat) | FSee (i : nat) | FAck (i : nat) | FLeave (i : nat)
| BTake | BCopy | BServe (j : nat) | BWrite | BRelease | BStop.

(** A front end: [sync_with_mcsim], once the message is filled in. *)
Definition front_step (a : action) (p : process) : option process :=
  match a, pc p with
  | FWrite _, F_run => Some (p <| page := Asked (sent p + 1) |> <| pc := F_post |>)
  | FPost _, F_post => Some (p <| flag0 := false |> <| sent ::= Z.succ |> <| pc := F_wait |>)
  | FSee _, F_wait => if flag1 p then None else Some (p <| pc := F_ack |>)
  | FAck _, F_ack => Some (p <| flag1 := true |> <| pc := F_run |>)
  | FLeave _, F_run =>
      Some (p <| page := Asked (sent p + 1) |> <| sent ::= Z.succ |> <| flag0 := false |>
              <| pc := F_gone |>)
  | _, _ => None
  end.

(** The loop of [main], on the process [p] it is at. *)
Definition back_step (a : action) (pcb : back_pc) (p : process) : option (process * back_pc) :=
  match a, pcb with
  | BTake, B_poll => if flag0 p then None else Some (p <| flag0 := true |>, B_copy)
  | BCopy, B_copy => Some (p <| buffer := page p |>, B_serve)
  | BWrite, B_write => Some (p <| page := Answered (buffer p) |>, B_release)
  | BRelease, B_release => Some (p <| flag1 := false |>, B_poll)
  | BStop, B_serve => if decide (pc p = F_gone) then Some (p, B_stop) else None
  | _, _ => None
  end.

Definition front_of (a : action) : option nat :=
  match a with
  | FWrite i | FPost i | FSee i | FAck i | FLeave i => Some i
  | _ => None
  end.

Definition step (a : action) (s : state) : option state :=
  match front_of a with
  | Some i =>
      p ← procs s !! i;
      p' ← front_step a p;
      mret (s <| procs ::= <[i := p']> |>)
  | None =>
      match a with
      | BServe j =>
          if decide (bpc s = B_serve ∧ (j < length (procs s))%nat) then
            mret (s <| curr_pid := j |> <| bpc := B_write |>)
          else None
      | _ =>
          p ← procs s !! curr_pid s;
          '(p', pcb) ← back_step a (bpc s) p;
          mret (s <| procs ::= <[curr_pid s := p']> |> <| bpc := pcb |>)
      end
  end.

(** Both flags of every page are set before the processes start. *)
Definition start (n : nat) : state :=
  {| procs := replicate n {| pc := F_run; flag0 := true; flag1 := true; page := Blank; sent := 0;
                             buffer := Blank |};
     curr_pid := 0; bpc := B_poll |}.

Fixpoint run (l : list action) (s : state) : option state :=
  match l with
  | [] => Some s
  | a :: l' => s' ← step a s; run l' s'
  end.

(** The simulator has heard of the process: it has copied a message of it, and the process
    has not left. *)
Definition heard (s : state) (j : nat) : Prop :=
  ∃ p, procs s !! j = Some p ∧ buffer p ≠ Blank ∧ pc p ≠ F_gone.

(** A step that answers only a process the simulator has heard of. *)
Definition orderly (a : action) (s : state) : Prop :=
  ∀ j, a = BServe j → heard s j.

(** The steps a program decides on; all others belong to the handshake. *)
Definition is_request (a : action) : bool := match a with FWrite _ | FLeave _ => true | _ => false end.

Inductive reachable (n : nat) : state → Prop :=
| reach_start : reachable n (start n)
| reach_step a s s' : reachable n s → orderly a s → step a s = Some s' → reachable n s'.

(** The simulator is about to touch the page of process [i]. *)
Definition back_uses (s : state) (i : nat) : Prop :=
  curr_pid s = i ∧ (bpc s = B_copy ∨ bpc s = B_write ∨ bpc s = B_release).

(** The front end is outside the handshake, or about to post. *)
Definition front_uses (p : process) : Prop := pc p = F_run ∨ pc p = F_post.

(** ** The invariant *)

(** Process [i], when the loop of [main] is at process [c] with program counter [b]. *)
Inductive phase (i c : nat) (b : back_pc) (p : process) : Prop :=
| ph_run : pc p = F_run → flag0 p = true → flag1 p = true →
    (0 < sent p → page p = Answered (Asked (sent p))) → (c = i → b = B_poll) →
    (buffer p ≠ Blank → c = i) → phase i c b p
| ph_post : pc p = F_post → flag0 p = true → flag1 p = true →
    page p = Asked (sent p + 1) → (c = i → b = B_poll) → (buffer p ≠ Blank → c = i) → phase i c b p
| ph_posted : pc p = F_wait ∨ pc p = F_gone → flag0 p = false → flag1 p = true →
    page p = Asked (sent p) → (c = i → b = B_poll) → (buffer p ≠ Blank → c = i) → phase i c b p
| ph_copy : pc p = F_wait ∨ pc p = F_gone → flag0 p = true → flag1 p = true →
    page p = Asked (sent p) → c = i → b = B_copy → phase i c b p
| ph_taken : pc p = F_wait → flag0 p = true → flag1 p = true →
    buffer p = Asked (sent p) → (c = i → b = B_serve ∨ b = B_write) → phase i c b p
| ph_written : pc p = F_wait → flag0 p = true → flag1 p = true →
    page p = Answered (Asked (sent p)) → c = i → b = B_release → phase i c b p
| ph_released : pc p = F_wait ∨ pc p = F_ack → flag0 p = true → flag1 p = false →
    page p = Answered (Asked (sent p)) → c = i → b = B_poll → phase i c b p
| ph_left : pc p = F_gone → flag0 p = true → flag1 p = true → buffer p = Asked (sent p) →
    (c = i → b = B_serve ∨ b = B_stop) → phase i c b p.

Record ok (s : state) : Prop := {
  ok_sent i p : procs s !! i = Some p → 0 ≤ sent p;
  ok_cur : (curr_pid s < length (procs s))%nat;
  ok_phase i p : procs s !! i = Some p → phase i (curr_pid s) (bpc s) p }.

(** The program counter of the loop concerns only the process it is at. *)
Lemma phase_other i c c' b b' p : c ≠ i → c' ≠ i → phase i c b p → phase i c' b' p.
Proof. destruct 3; solve [econstructor; eauto; solve [congruence | intros; exfalso; eauto] | congruence]. Qed.

Lemma phase_front a i c b p p' :
  front_step a p = Some p' → 0 ≤ sent p → phase i c b p → phase i c b p' ∧ 0 ≤ sent p'.
Proof.
  intros Hstep Hn Hp. destruct a; cbn in Hstep; try done.
  all: destruct Hp, p as [pcp f0 f1 pg sn bf]; cbn in *; destruct_or?; subst; cbn in *;
    simplify_eq/=; (split; [|lia]).
  all: first [by apply ph_run; cbn; auto; lia | by apply ph_post; cbn; auto | by apply ph_posted; cbn; auto
             | by apply ph_released; cbn; auto].
Qed.

Lemma phase_back a i b b' p p' :
  back_step a b p = Some (p', b') → phase i i b p → phase i i b' p' ∧ sent p' = sent p.
Proof.
  intros Hstep Hp. destruct a, b; cbn in Hstep; try done.
  all: destruct Hp, p as [pcp f0 f1 pg sn bf]; cbn in *;
    repeat case_decide; destruct_or?; subst; cbn in *; simplify_eq/=; 
    repeat match goal with H : ?x = ?x → _ |- _ => specialize (H eq_refl) end; destruct_or?; simplify_eq/=;
    (split; [|done]).
  all: first [by apply ph_copy; auto | by apply ph_taken; auto | by apply ph_written; auto
    | by apply ph_left; auto | by apply ph_released; auto | by apply ph_posted; auto].
Qed.

Lemma pages_start_ok n : (0 < n)%nat → ok (start n).
Proof.
  intros Hn. split; cbn.
  - by intros i p [-> _]%lookup_replicate.
  - by rewrite length_replicate.
  - intros i p [-> _]%lookup_replicate. by apply ph_run; cbn; auto.
Qed.

Lemma ok_insert s i p' c b :
  ok s → (c < length (procs s))%nat → 0 ≤ sent p' → phase i c b p' →
  (∀ j p, j ≠ i → procs s !! j = Some p → phase j c b p) →
  ok {| procs := <[i := p']> (procs s); curr_pid := c; bpc := b |}.
Proof.
  intros [Hn Hc Hp] Hc' Hs Hi Hj. split; cbn.
  - intros j p [(-> & -> & _)|[Hne Hl]]%list_lookup_insert_Some; eauto.
  - by rewrite length_insert.
  - intros j p [(-> & -> & _)|[Hne Hl]]%list_lookup_insert_Some; [done|by apply Hj].
Qed.

(** The process the loop of [main] serves: it waits for the answer, or it has left. *)
Lemma phase_served i p : phase i i B_serve p →
  (pc p = F_wait ∧ flag0 p = true ∧ flag1 p = true ∧ buffer p = Asked (sent p)) ∨
  (pc p = F_gone ∧ flag0 p = true ∧ flag1 p = true ∧ buffer p = Asked (sent p)).
Proof.
  destruct 1; try done; try (by left); try (by right);
    exfalso; match goal with H : i = i → _ |- _ => specialize (H eq_refl) end; done.
Qed.

(** A process the loop of [main] has heard of waits for its answer. *)
Lemma heard_taken s j : ok s → bpc s = B_serve → heard s j →
  ∃ p, procs s !! j = Some p ∧ pc p = F_wait ∧ flag0 p = true ∧ flag1 p = true ∧ buffer p = Asked (sent p).
Proof.
  intros Hok Hb (p & Hp & Hbuf & Hgone). exists p. split; [done|].
  pose proof (ok_phase _ Hok _ _ Hp) as Hph. rewrite Hb in Hph.
  destruct (decide (curr_pid s = j)) as [Hc|Hc].
  - rewrite Hc in Hph. by destruct (phase_served _ _ Hph) as [?|[? _]].
  - destruct Hph; try done; exfalso; auto.
Qed.

(** A step of the loop of [main] answers a process, or is one of [back_step]. *)
Lemma back_cases a s s' : front_of a = None → step a s = Some s' →
  (∃ j, a = BServe j) ∨ (∃ p p' pcb, procs s !! curr_pid s = Some p ∧
    back_step a (bpc s) p = Some (p', pcb) ∧ s' = s <| procs ::= <[curr_pid s := p']> |> <| bpc := pcb |>).
Proof.
  unfold step. intros -> Hstep. destruct a; try done; eauto; right;
    apply bind_Some in Hstep as (p & Hp & Hstep); apply bind_Some in Hstep as ([p' b'] & Hb & [= <-]);
    by exists p, p', b'.
Qed.

Lemma page_step_ok a s s' : orderly a s → step a s = Some s' → ok s → ok s'.
Proof.
  intros Ha Hstep Hok. destruct (front_of a) as [i|] eqn:Hf.
  - unfold step in Hstep. rewrite Hf in Hstep. apply bind_Some in Hstep as (p & Hp & Hstep). apply bind_Some in Hstep as (p' & Hp' & [= <-]).
    destruct (phase_front a i _ _ _ _ Hp' (ok_sent _ Hok _ _ Hp) (ok_phase _ Hok _ _ Hp)) as [Hi Hs].
    destruct s as [ps c b]. apply (ok_insert {| procs := ps; curr_pid := c; bpc := b |}); try done.
    + apply (ok_cur _ Hok).
    + intros j q _. apply (ok_phase _ Hok).
  - destruct (back_cases a s s' Hf Hstep) as [[j ->]|(p & p' & b' & Hp & Hb & ->)].
    + cbn in Hstep. case_decide as Hj; [|done]. destruct Hj as [Hb Hj]. injection Hstep as <-.
      destruct (heard_taken s j Hok Hb (Ha j eq_refl)) as (p & Hp & Hpc & H0 & H1 & Hbuf).
      destruct s as [ps c b]. cbn in *. subst b.
      split; cbn; [apply (ok_sent _ Hok)|done|]. intros i q Hq.
      pose proof (ok_phase _ Hok _ _ Hq) as Hph. cbn in Hph. destruct (decide (i = j)) as [->|Hne].
      * simplify_eq. by apply ph_taken; auto.
      * destruct (decide (c = i)) as [->|Hc]; [|by eapply phase_other, Hph].
        destruct (phase_served _ _ Hph) as [(? & ? & ? & ?)|(? & ? & ? & ?)]; [by apply ph_taken|by apply ph_left].
    + destruct (phase_back a (curr_pid s) _ _ _ _ Hb (ok_phase _ Hok _ _ Hp)) as [Hph Hs].
      destruct s as [ps c b]. apply (ok_insert {| procs := ps; curr_pid := c; bpc := b |}); auto.
      * apply (ok_cur _ Hok).
      * cbn in Hs. rewrite Hs. by eapply ok_sent.
      * intros j q Hne Hq. eapply phase_other; [..|by eapply (ok_phase _ Hok)]; done.
Qed.

Lemma pages_reachable_ok n s : (0 < n)%nat → reachable n s → ok s.
Proof. intros Hn. induction 1; [by apply pages_start_ok|by eapply page_step_ok]. Qed.

(** ** What the handshake promises *)

(** The two sides never use the page of a process at the same time; what a front end
    reads back is the answer to its own last request; what the loop of [main] handles is
    the last request of the process it is at. *)
Record page_ok (s : state) (i : nat) (p : process) : Prop := {
  page_exclusive : ¬ (front_uses p ∧ back_uses s i);
  page_answer : pc p = F_run → 0 < sent p → page p = Answered (Asked (sent p));
  page_request : curr_pid s = i → bpc s = B_serve → buffer p = Asked (sent p) }.

Lemma phase_page_ok s i p : phase i (curr_pid s) (bpc s) p → page_ok s i p.
Proof.
  intros Hp. split.
  - intros [Hf [Hc Hb]]. unfold front_uses in Hf. destruct Hp; destruct_or?; naive_solver congruence.
  - intros Hr Hs. destruct Hp; destruct_or?; try congruence. auto.
  - intros Hc Hb. destruct Hp;
      repeat match goal with H : curr_pid s = i → _ |- _ => specialize (H Hc) end; destruct_or?; congruence.
Qed.

(** While the loop of [main] is running, a step of the handshake is possible unless it waits
    for a running program. *)
Lemma ok_progress s : ok s → bpc s ≠ B_stop →
  (∃ p, procs s !! curr_pid s = Some p ∧ bpc s = B_poll ∧ pc p = F_run) ∨
  ∃ a s', is_request a = false ∧ orderly a s ∧ step a s = Some s'.
Proof.
  intros Hok Hstop. destruct (lookup_lt_is_Some_2 _ _ (ok_cur _ Hok)) as [p Hp].
  pose proof (ok_phase _ Hok _ _ Hp) as Hph.
  assert (∀ a s', is_request a = false → (∀ j, a ≠ BServe j) → step a s = Some s' →
    ∃ a s', is_request a = false ∧ orderly a s ∧ step a s = Some s') as Hmove.
  { intros a s' Hq Ha Hs. exists a, s'. split_and!; [done| |done]. intros j Hj. by destruct (Ha j Hj). }
  assert (∀ a p' b, front_of a = None → is_request a = false → (∀ j, a ≠ BServe j) → back_step a (bpc s) p = Some (p', b) →
    ∃ a s', is_request a = false ∧ orderly a s ∧ step a s = Some s') as Hback.
  { intros a p' b Hf Hq Ha Hs. eapply Hmove; [exact Hq|exact Ha|]. unfold step. rewrite Hf.
    destruct a; try done; rewrite Hp; cbn [mbind option_bind]; by rewrite Hs. }
  assert (∀ a p', front_of a = Some (curr_pid s) → is_request a = false → front_step a p = Some p' →
    ∃ a s', is_request a = false ∧ orderly a s ∧ step a s = Some s') as Hfront.
  { intros a p' Hf Hq Hs. eapply (Hmove a); [done|by destruct a|]. unfold step. rewrite Hf, Hp.
    cbn [mbind option_bind]. by rewrite Hs. }
  destruct (bpc s) eqn:Hb; [| | | | |done].
  - destruct Hph as [Hr|Hr|? H0|?|? ? ? ? Hx|?|Hr ? H1|? ? ? ? Hx];
      try (by destruct (Hx eq_refl)); try done.
    + left. by exists p.
    + right. eapply (Hfront (FPost _)); [done|done|]. cbn. by rewrite Hr.
    + right. eapply (Hback BTake); [done|done|done|]. cbn. by rewrite H0.
    + right. destruct Hr as [Hr|Hr]; [eapply (Hfront (FSee _))|eapply (Hfront (FAck _))]; try done; cbn; rewrite Hr;
        [by rewrite H1|done].
  - right. by eapply (Hback BCopy).
  - right. destruct (phase_served _ _ Hph) as [(Hw & _ & _ & Hbuf)|(Hg & _)].
    + assert (orderly (BServe (curr_pid s)) s) as Ho by (intros j [= <-]; exists p; split_and!; congruence).
      eexists (BServe (curr_pid s)), _. split_and!; [done|exact Ho|]. unfold step. cbn.
      by rewrite decide_True by (split; [done|apply (ok_cur _ Hok)]).
    + eapply (Hback BStop); [done|done|done|]. cbn. by rewrite decide_True.
  - right. by eapply (Hback BWrite).
  - right. by eapply (Hback BRelease).
Qed.

(** A run whose steps are orderly. *)
Fixpoint orderly_run (l : list action) (s : state) : Prop :=
  match l with
  | [] => True
  | a :: l' => orderly a s ∧ match step a s with Some s' => orderly_run l' s' | None => True end
  end.

Lemma run_reachable n l s s' :
  reachable n s → orderly_run l s → run l s = Some s' → reachable n s'.
Proof.
  revert s. induction l as [|a l IH]; intros s Hs Ho Hr; cbn in *; [by simplify_eq|].
  apply bind_Some in Hr as (s1 & H1 & Hr). rewrite H1 in Ho. destruct Ho as [Ha Ho].
  eapply IH; [|exact Ho|exact Hr]. by eapply reach_step.
Qed.

(** ** The handshake ends *)

(** How many steps of the handshake a process can still cause. *)
Definition remaining (i c : nat) (b : back_pc) (p : process) : nat :=
  match pc p with
  | F_run => 0
  | F_post => 8
  | F_ack => 1
  | F_wait =>
      if negb (flag0 p) then 7 else if negb (flag1 p) then 2
      else if decide (c = i) then match b with B_copy => 6 | B_write => 4 | B_release => 3 | _ => 5 end else 5
  | F_gone =>
      if negb (flag0 p) then 3
      else if decide (c = i) then match b with B_copy => 2 | B_serve => 1 | _ => 0 end else 0
  end.

Definition remainings (s : state) : list nat := imap (λ i p, remaining i (curr_pid s) (bpc s) p) (procs s).
Definition total (s : state) : nat := sum_list (remainings s).

Lemma remaining_other i c b b' p : c ≠ i → remaining i c b p = remaining i c b' p.
Proof. intros H. unfold remaining. by rewrite !decide_False by done. Qed.

Lemma sum_list_le (l l' : list nat) : Forall2 le l' l → (sum_list l' ≤ sum_list l)%nat.
Proof. induction 1; cbn; lia. Qed.

Lemma sum_list_lt (l l' : list nat) i x x' :
  Forall2 le l' l → l !! i = Some x → l' !! i = Some x' → (x' < x)%nat → (sum_list l' < sum_list l)%nat.
Proof.
  intros Hl. revert i. induction Hl as [|y' y l' l Hy Hl IH]; intros [|i]; cbn; try done.
  - intros [= ->] [= ->] Hx. pose proof (sum_list_le _ _ Hl). lia.
  - intros Hi Hi' Hx. pose proof (IH i Hi Hi' Hx). lia.
Qed.

(** One process has fewer steps left, and no other has more. *)
Lemma total_lt s s' i p p' :
  length (procs s') = length (procs s) → procs s !! i = Some p → procs s' !! i = Some p' →
  (remaining i (curr_pid s') (bpc s') p' < remaining i (curr_pid s) (bpc s) p)%nat →
  (∀ j q q', j ≠ i → procs s !! j = Some q → procs s' !! j = Some q' →
     (remaining j (curr_pid s') (bpc s') q' ≤ remaining j (curr_pid s) (bpc s) q)%nat) →
  (total s' < total s)%nat.
Proof.
  intros Hlen Hp Hp' Hlt Hle. apply (sum_list_lt _ _ i (remaining i (curr_pid s) (bpc s) p) (remaining i (curr_pid s') (bpc s') p'));
    [|unfold remainings; by rewrite list_lookup_imap, ?Hp, ?Hp'..|done].
  apply Forall2_same_length_lookup_2; [unfold remainings; by rewrite !length_imap|].
  intros j x' x Hx' Hx. unfold remainings in Hx, Hx'. rewrite list_lookup_imap in Hx, Hx'.
  destruct (procs s !! j) as [q|] eqn:Hq; [|done]. destruct (procs s' !! j) as [q'|] eqn:Hq'; [|done].
  cbn in Hx, Hx'. injection Hx as <-. injection Hx' as <-. destruct (decide (j = i)) as [->|Hne]; [|by apply Hle].
  simplify_eq. lia.
Qed.

Lemma remaining_front a i c b p p' :
  is_request a = false → front_step a p = Some p' → phase i c b p → (remaining i c b p' < remaining i c b p)%nat.
Proof.
  intros Ha Hstep Hp. destruct a; cbn in Hstep, Ha; try done.
  all: destruct Hp, p as [pcp f0 f1 pg sn bf]; cbn in *; destruct_or?; subst; cbn in *; simplify_eq/=; try (cbn; lia).
  all: unfold remaining; cbn; repeat case_decide; lia.
Qed.

Lemma remaining_back a i b b' p p' :
  back_step a b p = Some (p', b') → phase i i b p → (remaining i i b' p' < remaining i i b p)%nat.
Proof.
  intros Hstep Hp. destruct a, b; cbn in Hstep; try done.
  all: destruct Hp, p as [pcp f0 f1 pg sn bf]; cbn in *;
    repeat case_decide; destruct_or?; subst; cbn in *; simplify_eq/=;
    repeat match goal with H : ?x = ?x → _ |- _ => specialize (H eq_refl) end; destruct_or?; simplify_eq/=.
  all: unfold remaining; cbn; rewrite ?decide_True by done; cbn; lia.
Qed.

(** Every step of the handshake brings its end nearer. *)
Lemma handshake_step a s s' :
  ok s → is_request a = false → orderly a s → step a s = Some s' → (total s' < total s)%nat.
Proof.
  intros Hok Hreq Ha Hstep. destruct (front_of a) as [i|] eqn:Hf.
  - unfold step in Hstep. rewrite Hf in Hstep. apply bind_Some in Hstep as (p & Hp & Hstep). apply bind_Some in Hstep as (p' & Hp' & [= <-]).
    pose proof (lookup_lt_Some _ _ _ Hp). apply (total_lt _ _ i p p'); cbn; [by rewrite length_insert|done|by rewrite list_lookup_insert_eq| |].
    + by eapply remaining_front, (ok_phase _ Hok).
    + intros j q q' Hne Hq. rewrite list_lookup_insert_ne by done. intros Hq'. by simplify_eq.
  - destruct (back_cases a s s' Hf Hstep) as [[j ->]|(p & p' & b' & Hp & Hb & ->)]; cycle 1.
    { pose proof (lookup_lt_Some _ _ _ Hp).
      apply (total_lt _ _ (curr_pid s) p p'); cbn; [by rewrite length_insert|done|by rewrite list_lookup_insert_eq| |].
      + by eapply remaining_back, (ok_phase _ Hok).
      + intros j q q' Hne Hq. rewrite list_lookup_insert_ne by done. intros Hq'. simplify_eq.
        by rewrite (remaining_other j _ b' (bpc s)). }
    cbn in Hstep. case_decide as Hj; [|done]. destruct Hj as [Hb Hj]. injection Hstep as <-.
    destruct (heard_taken s j Hok Hb (Ha j eq_refl)) as (p & Hp & Hpc & H0 & H1 & _).
    apply (total_lt _ _ j p p); cbn; [done..| |].
    + unfold remaining. rewrite Hpc, H0, H1, Hb. cbn. rewrite decide_True by done. case_decide; lia.
    + intros k q q' Hne Hq Hq'. simplify_eq. destruct (decide (curr_pid s = k)) as [Hc|Hc].
      * pose proof (ok_phase _ Hok _ _ Hq) as Hph. rewrite Hb, Hc in Hph. unfold remaining. rewrite Hb, Hc.
        rewrite (decide_True (P := k = k)), (decide_False (P := j = k)) by congruence.
        destruct (phase_served _ _ Hph) as [(Hq1 & Hq2 & Hq3 & _)|(Hq1 & Hq2 & Hq3 & _)]; rewrite Hq1, Hq2, ?Hq3; cbn; repeat case_decide; lia.
      * unfold remaining. rewrite !decide_False by congruence. done.
Qed.

Lemma handshake_run l s s' :
  ok s → Forall (λ a, is_request a = false) l → orderly_run l s → run l s = Some s' →
  (length l + total s' ≤ total s)%nat.
Proof.
  revert s. induction l as [|a l IH]; intros s Hok Hl Ho Hr; cbn in *; [simplify_eq; lia|].
  apply Forall_cons in Hl as [Ha Hl]. apply bind_Some in Hr as (s1 & H1 & Hr). rewrite H1 in Ho. destruct Ho as [Ho1 Ho].
  pose proof (handshake_step a s s1 Hok Ha Ho1 H1). pose proof (IH s1 (page_step_ok _ _ _ Ho1 H1 Hok) Hl Ho Hr). lia.
Qed.

Lemma total_bound s : (total s ≤ 8 * length (procs s))%nat.
Proof.
  unfold total, remainings. assert (∀ l off, (sum_list (imap (λ i p, remaining (off + i) (curr_pid s) (bpc s) p) l) ≤ 8 * length l)%nat) as H;
    [|apply (H (procs s) 0%nat)].
  intros l. induction l as [|p l IH]; intros off; [done|]. rewrite imap_cons. cbn [sum_list_with length]. unfold id at 1.
  assert (remaining (off + 0) (curr_pid s) (bpc s) p ≤ 8)%nat
    by (unfold remaining; repeat case_match; lia).
  specialize (IH (S off)).
  rewrite (imap_ext ((λ i p, remaining (off + i) (curr_pid s) (bpc s) p) ∘ S) (λ i p, remaining (S off + i) (curr_pid s) (bpc s) p));
    [lia|]. intros i q _. cbn. do 2 f_equal. lia.
Qed.

Lemma reachable_length n s : reachable n s → length (procs s) = n.
Proof.
  induction 1 as [|a s s' _ IH _ Hstep]; [apply length_replicate|]. rewrite <- IH. unfold step in Hstep.
  destruct (front_of a); [apply bind_Some in Hstep as (? & _ & Hstep); apply bind_Some in Hstep as (? & _ & [= <-]);
    apply length_insert|].
  destruct a; try done; try (case_decide; [by injection Hstep as <-|done]);
    apply bind_Some in Hstep as (? & _ & Hstep); apply bind_Some in Hstep as ([? ?] & _ & [= <-]); apply length_insert.
Qed.

(** The only process there is has been heard of when the simulator answers it. *)
Lemma single_heard s p s' j :
  reachable 1 s → procs s !! 0%nat = Some p → pc p ≠ F_gone → step (BServe j) s = Some s' → heard s j.
Proof.
  intros Hs Hp Hg Hstep. pose proof (pages_reachable_ok 1 s ltac:(lia) Hs) as Hok.
  pose proof (reachable_length _ _ Hs) as Hlen. pose proof (ok_cur _ Hok) as Hc. cbn in Hstep.
  case_decide as Hj; [|done]. destruct Hj as [Hb Hj].
  assert (j = 0 ∧ curr_pid s = 0)%nat as [-> Hc0] by lia.
  pose proof (ok_phase _ Hok _ _ Hp) as Hph. rewrite Hb, Hc0 in Hph.
  exists p. split_and!; [done| |done].
  destruct (phase_served _ _ Hph) as [(_ & _ & _ & Hbuf)|(? & _)]; congruence.
Qed.

(** C19: The handshake of front ends and simulator, in any interleaving of their accesses in
    which the simulator answers only processes it has heard of and that have not left.  The
    two sides never use a page at the same time; every answer a front end reads is the
    answer to its own last request; every message the simulator handles is the last request
    of its sender.  No side spins for ever: with [n] processes the handshake takes at most
    [8 * n] steps until a program makes its next request, and until then a step is possible
    unless the simulator waits for a program that is running.  With one process the
    restriction says only that the simulator does not answer a process that has left. *)
Theorem handshake_safe n s :
  (0 < n)%nat → reachable n s →
  (∀ i p, procs s !! i = Some p → page_ok s i p) ∧
  (∀ l s', Forall (λ a, is_request a = false) l → orderly_run l s → run l s = Some s' → (length l ≤ 8 * n)%nat) ∧
  (bpc s ≠ B_stop →
   (∃ p, procs s !! curr_pid s = Some p ∧ bpc s = B_poll ∧ pc p = F_run) ∨
   ∃ a s', is_request a = false ∧ orderly a s ∧ step a s = Some s') ∧
  (n = 1%nat → ∀ p s', procs s !! 0%nat = Some p → pc p ≠ F_gone → ∀ j, step (BServe j) s = Some s' → heard s j).
Proof.
  intros Hn Hs. pose proof (pages_reachable_ok _ _ Hn Hs) as Hok. pose proof (reachable_length _ _ Hs) as Hlen. split_and!.
  - intros i p Hp. apply phase_page_ok. by apply (ok_phase _ Hok).
  - intros l s' Hl Ho Hr. pose proof (handshake_run l s s' Hok Hl Ho Hr). pose proof (total_bound s). lia.
  - by apply ok_progress.
  - intros -> p s' Hp Hg j Hstep. by eapply single_heard.
Qed.

(** A process may be answered before its first request was taken: when the threads of
    process 0 wait for their instructions to be simulated and the simulator switches to a
    thread of process 1, which has just asked for the number of threads. *)
Definition early_switch : list action :=
  [FWrite 0; FPost 0; BTake; BCopy; FWrite 1; FPost 1; BServe 1; BWrite; BRelease;
   FSee 1; FAck 1; BTake; FWrite 1].

Lemma switch_before_request :
  ∃ s p, run early_switch (start 2) = Some s ∧ procs s !! 1%nat = Some p ∧
    sent p = 1 ∧ front_uses p ∧ back_uses s 1 ∧
    ∃ s1 p1, run (take 11 early_switch) (start 2) = Some s1 ∧ procs s1 !! 1%nat = Some p1 ∧
      pc p1 = F_run ∧ sent p1 = 1 ∧ page p1 = Answered Blank.
Proof.
  eexists _, _. split; [vm_compute; reflexivity|]. split; [reflexivity|].
  split; [done|]. split; [by right|]. split; [split; [done|by left]|].
  eexists _, _. split; [vm_compute; reflexivity|]. done.
Qed.

Definition one_round : list action := [FWrite 0; FPost 0; BTake; BCopy; BServe 0; BWrite; BRelease; FSee 0; FAck 0].

Lemma handshake_safe_witness :
  ∃ s, run one_round (start 1) = Some s ∧
  (∀ i p, procs s !! i = Some p → page_ok s i p) ∧
  (∀ l s', Forall (λ a, is_request a = false) l → orderly_run l s → run l s = Some s' → (length l ≤ 8)%nat) ∧
  (bpc s ≠ B_stop →
   (∃ p, procs s !! curr_pid s = Some p ∧ bpc s = B_poll ∧ pc p = F_run) ∨
   ∃ a s', is_request a = false ∧ orderly a s ∧ step a s = Some s').
Proof.
  eexists. split; [vm_compute; reflexivity|]. edestruct (handshake_safe 1) as (H1 & H2 & H3 & _); [lia| |exact (conj H1 (conj H2 H3))].
  eapply (run_reachable 1 one_round); [apply reach_start| |vm_compute; reflexivity].
  cbn. split_and!; try done. all: intros j [= <-]. by eexists.
Defined.

End Handshake.
