(* ===== verification/PthreadAttr.v ===== *)
(** * Thread attributes (PthreadAttr.cpp, PthreadUtil.cpp, PthreadMutexAttr.cpp)

    [pthread_attr_t] is used as a [struct pthread_attr].  [PthreadUtil] sets and reads
    its fields as the C library does; [PthreadAttr] is what the simulated program calls. *)

From S2P Require Import Prelude.

Module PthreadAttr.

Definition EINVAL : Z := 22.
Definition ENOTSUP : Z := 95.
Definition PTHREAD_CREATE_JOINABLE : Z := 0.
Definition PTHREAD_CREATE_DETACHED : Z := 1.
Definition PTHREAD_INHERIT_SCHED : Z := 0.
Definition PTHREAD_EXPLICIT_SCHED : Z := 1.
Definition PTHREAD_SCOPE_SYSTEM : Z := 0.
Definition PTHREAD_SCOPE_PROCESS : Z := 1.
Definition SCHED_OTHER : Z := 0.
Definition SCHED_FIFO : Z := 1.
Definition SCHED_RR : Z := 2.
Definition PTHREAD_STACK_MIN : Z := 16384.
Definition ARCH_STACK_DEFAULT_SIZE : Z := 2 * 1024 * 1024.

Definition ATTR_FLAG_DETACHSTATE : Z := 1.
Definition ATTR_FLAG_NOTINHERITSCHED : Z := 2.
Definition ATTR_FLAG_SCOPEPROCESS : Z := 4.
Definition ATTR_FLAG_STACKADDR : Z := 8.
Definition ATTR_FLAG_POLICY_SET : Z := 64.

(** [struct pthread_attr]; the fields nothing touches are left out.  [flags] is an [int]. *)
Record pthread_attr := {
  schedpolicy : Z;
  flags : Z;
  stackaddr : Z;
  stacksize : Z }.

(** [flags |= f] and [flags &= ~f]. *)
Definition set_flag (f : Z) (a : pthread_attr) : pthread_attr := a <| flags ::= λ x, Z.lor x f |>.
Definition clear_flag (f : Z) (a : pthread_attr) : pthread_attr := a <| flags ::= λ x, Z.ldiff x f |>.

(** ** PthreadUtil.cpp: the result and the attribute afterwards *)

Definition pthread_attr_setdetachstate (detachstate : Z) (a : pthread_attr) : Z * pthread_attr :=
  if negb (detachstate =? PTHREAD_CREATE_DETACHED) && negb (detachstate =? PTHREAD_CREATE_JOINABLE) then (EINVAL, a)
  else if detachstate =? PTHREAD_CREATE_DETACHED then (0, set_flag ATTR_FLAG_DETACHSTATE a)
  else (0, clear_flag ATTR_FLAG_DETACHSTATE a).

Definition pthread_attr_setschedpolicy (policy : Z) (a : pthread_attr) : Z * pthread_attr :=
  if negb (policy =? SCHED_OTHER) && negb (policy =? SCHED_FIFO) && negb (policy =? SCHED_RR) then (EINVAL, a)
  else (0, set_flag ATTR_FLAG_POLICY_SET (a <| schedpolicy := policy |>)).

Definition pthread_attr_setinheritsched (inherit : Z) (a : pthread_attr) : Z * pthread_attr :=
  if negb (inherit =? PTHREAD_INHERIT_SCHED) && negb (inherit =? PTHREAD_EXPLICIT_SCHED) then (EINVAL, a)
  else if negb (inherit =? PTHREAD_INHERIT_SCHED) then (0, set_flag ATTR_FLAG_NOTINHERITSCHED a)
  else (0, clear_flag ATTR_FLAG_NOTINHERITSCHED a).

Definition pthread_attr_setscope (scope : Z) (a : pthread_attr) : Z * pthread_attr :=
  if scope =? PTHREAD_SCOPE_SYSTEM then (0, clear_flag ATTR_FLAG_SCOPEPROCESS a)
  else if scope =? PTHREAD_SCOPE_PROCESS then (ENOTSUP, a)
  else (EINVAL, a).

Definition pthread_attr_setstack (addr size : Z) (a : pthread_attr) : Z * pthread_attr :=
  if size <? PTHREAD_STACK_MIN then (EINVAL, a)
  else (0, set_flag ATTR_FLAG_STACKADDR (a <| stacksize := size |> <| stackaddr := addr ⊕ size |>)).

Definition pthread_attr_getdetachstate (a : pthread_attr) : Z :=
  if Z.land (flags a) ATTR_FLAG_DETACHSTATE =? 0 then PTHREAD_CREATE_JOINABLE else PTHREAD_CREATE_DETACHED.

Definition pthread_attr_getstack (a : pthread_attr) : Z * Z := (stackaddr a ⊖ stacksize a, stacksize a).

Definition pthread_attr_getstacksize (a : pthread_attr) : Z :=
  if stacksize a =? 0 then ARCH_STACK_DEFAULT_SIZE else stacksize a.

Definition pthread_attr_setstacksize (size : Z) (a : pthread_attr) : Z * pthread_attr :=
  if size <? PTHREAD_STACK_MIN then (EINVAL, a) else (0, a <| stacksize := size |>).

(** ** PthreadAttr.cpp *)

(** [PTHREAD_ATTR_DEFAULT] starts from a local variable that nothing initialises. *)
Definition PTHREAD_ATTR_DEFAULT (garbage : pthread_attr) : pthread_attr :=
  let a := snd (pthread_attr_setdetachstate PTHREAD_CREATE_JOINABLE garbage) in
  let a := snd (pthread_attr_setschedpolicy SCHED_OTHER a) in
  let a := snd (pthread_attr_setinheritsched PTHREAD_EXPLICIT_SCHED a) in
  let a := snd (pthread_attr_setscope PTHREAD_SCOPE_SYSTEM a) in
  snd (pthread_attr_setstack 0 PTHREAD_STACK_MIN a).

Definition attr_destroy (a : pthread_attr) : Z * pthread_attr := (0, a).

Definition attr_init (garbage : pthread_attr) : Z * pthread_attr := (0, PTHREAD_ATTR_DEFAULT garbage).

Definition attr_getdetachstate (a : pthread_attr) : Z := pthread_attr_getdetachstate a.

Definition attr_getstackaddr (a : pthread_attr) : Z := fst (pthread_attr_getstack a).

Definition attr_getstacksize (a : pthread_attr) : Z := pthread_attr_getstacksize a.

Definition attr_getstack (a : pthread_attr) : Z * Z := (attr_getstackaddr a, attr_getstacksize a).

Definition attr_setdetachstate (detachstate : Z) (a : pthread_attr) : Z * pthread_attr :=
  let a' := snd (pthread_attr_setdetachstate detachstate a) in
  if (detachstate =? PTHREAD_CREATE_JOINABLE) || (detachstate =? PTHREAD_CREATE_DETACHED) then (0, a')
  else (EINVAL, a').

Definition attr_setstackaddr (addr : Z) (a : pthread_attr) : Z * pthread_attr :=
  let a' := snd (pthread_attr_setstack addr (attr_getstacksize a) a) in
  if negb (Z.land addr 7 =? 0) then (EINVAL, a') else (0, a').

Definition attr_setstacksize (size : Z) (a : pthread_attr) : Z * pthread_attr :=
  let a' := snd (pthread_attr_setstacksize size a) in
  if size <? PTHREAD_STACK_MIN then (EINVAL, a') else (0, a').

Definition attr_setstack (addr size : Z) (a : pthread_attr) : Z * pthread_attr :=
  let (e1, a) := attr_setstackaddr addr a in
  let (e2, a) := attr_setstacksize size a in
  (e1 + e2, a).

(** ** PthreadMutexAttr.cpp: the getter and the setter of the C library's part are empty *)

Definition PTHREAD_MUTEX_FAST_NP : Z := 0.
Definition PTHREAD_MUTEX_RECURSIVE_NP : Z := 1.
Definition PTHREAD_MUTEX_ERRORCHECK_NP : Z := 2.
Definition PTHREAD_MUTEX_DEFAULT : Z := 0.

(** [pthread_mutexattr_t] is opaque to this code: nothing is read from it or stored in it. *)
Definition pthread_mutexattr_gettype (attr kind : Z) : Z * Z := (0, kind).
Definition pthread_mutexattr_settype (attr kind : Z) : Z * Z := (0, attr).

(** [_pthread_mutexattr_getkind(attr, &kind)]: [kind] before and after. *)
Definition mutexattr_getkind {W S} (attr kind : Z) : proc W S Z :=
  let kind := if kind =? PTHREAD_MUTEX_DEFAULT then PTHREAD_MUTEX_FAST_NP else kind in
  _ ← ASSERTX ((kind =? PTHREAD_MUTEX_FAST_NP) || (kind =? PTHREAD_MUTEX_RECURSIVE_NP) ||
               (kind =? PTHREAD_MUTEX_ERRORCHECK_NP) || (kind =? PTHREAD_MUTEX_DEFAULT));
  mret (snd (pthread_mutexattr_gettype attr kind)).

Definition mutexattr_setkind (attr kind : Z) : Z * Z :=
  let attr' :=
    if kind =? PTHREAD_MUTEX_DEFAULT then snd (pthread_mutexattr_settype attr PTHREAD_MUTEX_FAST_NP)
    else snd (pthread_mutexattr_settype attr kind) in
  if (kind =? PTHREAD_MUTEX_FAST_NP) || (kind =? PTHREAD_MUTEX_RECURSIVE_NP) ||
     (kind =? PTHREAD_MUTEX_ERRORCHECK_NP) || (kind =? PTHREAD_MUTEX_DEFAULT) then (0, attr')
  else (EINVAL, attr').

(** ** Reading back what was set *)

Lemma land_lor_flag x f : f ≠ 0 → Z.land (Z.lor x f) f ≠ 0.
Proof.
  intros Hf H. apply Hf. rewrite <- H. rewrite Z.land_lor_distr_l, Z.land_diag.
  apply Z.bits_inj'. intros n Hn. rewrite Z.lor_spec, Z.land_spec. by destruct (Z.testbit x n), (Z.testbit f n).
Qed.

Lemma land_ldiff_flag x f : Z.land (Z.ldiff x f) f = 0.
Proof.
  apply Z.bits_inj'. intros n Hn. rewrite Z.land_spec, Z.ldiff_spec, Z.bits_0.
  by destruct (Z.testbit x n), (Z.testbit f n).
Qed.

Lemma land_lor_other x f g : Z.land f g = 0 → Z.land (Z.lor x f) g = Z.land x g.
Proof. intros H. by rewrite Z.land_lor_distr_l, H, Z.lor_0_r. Qed.

Lemma land_ldiff_other x f g : Z.land f g = 0 → Z.land (Z.ldiff x f) g = Z.land x g.
Proof.
  intros H. apply Z.bits_inj'. intros n Hn. rewrite !Z.land_spec, Z.ldiff_spec.
  assert (Z.testbit (Z.land f g) n = false) as Hb by (by rewrite H, Z.bits_0).
  rewrite Z.land_spec in Hb. destruct (Z.testbit x n), (Z.testbit f n), (Z.testbit g n); done.
Qed.

Lemma detachstate_roundtrip d a :
  d = PTHREAD_CREATE_JOINABLE ∨ d = PTHREAD_CREATE_DETACHED →
  fst (attr_setdetachstate d a) = 0 ∧ attr_getdetachstate (snd (attr_setdetachstate d a)) = d.
Proof.
  unfold attr_getdetachstate, pthread_attr_getdetachstate. intros [->| ->]; (split; [done|]); cbn.
  - by rewrite land_ldiff_flag.
  - case_match eqn:E; [|done]. by apply Z.eqb_eq, land_lor_flag in E.
Qed.

(** The default attribute, whatever was in the variable. *)
Lemma default_attr g :
  attr_getdetachstate (PTHREAD_ATTR_DEFAULT g) = PTHREAD_CREATE_JOINABLE ∧
  attr_getstack (PTHREAD_ATTR_DEFAULT g) = (0, PTHREAD_STACK_MIN).
Proof.
  split; [|done]. unfold attr_getdetachstate, pthread_attr_getdetachstate. cbn.
  by rewrite land_lor_other, land_ldiff_other, !land_lor_other, land_ldiff_flag.
Qed.

(** Attributes read back what was set: the detach state always; the stack always in
    its size, and in its address exactly when the size is the one the attribute had
    before - the setter stores the end of the stack computed with the old size. *)
Theorem attr_roundtrip d addr size a :
  d = PTHREAD_CREATE_JOINABLE ∨ d = PTHREAD_CREATE_DETACHED →
  in_u64 addr → Z.land addr 7 = 0 → PTHREAD_STACK_MIN ≤ size < 2 ^ 64 →
  PTHREAD_STACK_MIN ≤ attr_getstacksize a < 2 ^ 64 →
  (fst (attr_setdetachstate d a) = 0 ∧ attr_getdetachstate (snd (attr_setdetachstate d a)) = d) ∧
  fst (attr_setstack addr size a) = 0 ∧
  attr_getstack (snd (attr_setstack addr size a)) = (addr ⊕ attr_getstacksize a ⊖ size, size) ∧
  (attr_getstackaddr (snd (attr_setstack addr size a)) = addr ↔ attr_getstacksize a = size).
Proof.
  intros Hd Ha Hal Hsz Hold. split; [by apply detachstate_roundtrip|].
  assert (attr_setstack addr size a = (0, (set_flag ATTR_FLAG_STACKADDR
    (a <| stacksize := attr_getstacksize a |> <| stackaddr := addr ⊕ attr_getstacksize a |>))
      <| stacksize := size |>)) as E.
  { unfold attr_setstack, attr_setstackaddr, attr_setstacksize, pthread_attr_setstack, pthread_attr_setstacksize.
    rewrite (proj2 (Z.ltb_ge _ _)) by lia. cbn. rewrite Hal. cbn.
    rewrite (proj2 (Z.ltb_ge size PTHREAD_STACK_MIN)) by lia. done. }
  rewrite E. cbn [fst snd]. split; [done|].
  unfold PTHREAD_STACK_MIN in *. set (old := attr_getstacksize a) in *.
  assert (∀ x, attr_getstacksize (x <| stacksize := size |>) = size) as Hsize.
  { intros x. unfold attr_getstacksize, pthread_attr_getstacksize. cbn.
    by rewrite (proj2 (Z.eqb_neq size 0)) by lia. }
  assert (attr_getstackaddr ((set_flag ATTR_FLAG_STACKADDR
    (a <| stacksize := old |> <| stackaddr := addr ⊕ old |>)) <| stacksize := size |>) = addr ⊕ old ⊖ size)
    as Haddr by done.
  unfold attr_getstack. rewrite Hsize, Haddr. split; [done|].
  unfold u64, in_u64 in *.
  split; [|intros ->; rewrite Zminus_mod_idemp_l; replace (addr + size - size) with addr by lia; by apply Z.mod_small].
  rewrite Zminus_mod_idemp_l. intros H.
  assert ((addr + old - size - addr) mod 2 ^ 64 = 0) as H0.
  { rewrite Zminus_mod, H, (Z.mod_small addr) by lia. by rewrite Z.sub_diag. }
  replace (addr + old - size - addr) with (old - size) in H0 by lia.
  apply Z.mod_divide in H0 as [k Hk]; [|lia]. nia.
Qed.

Definition blank_attr : pthread_attr := {| schedpolicy := 0; flags := 0; stackaddr := 0; stacksize := 0 |}.

Lemma attr_roundtrip_witness :
  let a := PTHREAD_ATTR_DEFAULT blank_attr in
  (fst (attr_setdetachstate 1 a) = 0 ∧ attr_getdetachstate (snd (attr_setdetachstate 1 a)) = 1) ∧
  fst (attr_setstack 4096 65536 a) = 0 ∧
  attr_getstack (snd (attr_setstack 4096 65536 a)) = (4096 ⊕ attr_getstacksize a ⊖ 65536, 65536) ∧
  (attr_getstackaddr (snd (attr_setstack 4096 65536 a)) = 4096 ↔ attr_getstacksize a = 65536).
Proof.
  intros a. apply (attr_roundtrip 1 4096 65536 a).
  - by right.
  - split; lia.
  - done.
  - vm_compute. split; congruence.
  - vm_compute. split; congruence.
Defined.

End PthreadAttr.
