(* ===== verification/PthreadSync.v ===== *)
(** * Mutexes, condition variables and barriers (PthreadMutex, PthreadCond, PthreadBarrier)

    The managers decide who holds what and who waits, first come first served; they never
    block anybody themselves.  The objects live in the memory of the simulated program and
    are named by their addresses; thread ids and addresses are 64-bit words. *)

From S2P Require Import Prelude PthreadAttr.
Import PthreadAttr(EINVAL, PTHREAD_MUTEX_FAST_NP, PTHREAD_MUTEX_RECURSIVE_NP,
  PTHREAD_MUTEX_ERRORCHECK_NP, PTHREAD_MUTEX_DEFAULT, mutexattr_getkind).

Definition EPERM : Z := 1.
Definition EBUSY : Z := 16.
Definition EDEADLK : Z := 35.

(** The fields of [pthread_mutex_t] the code uses: an [unsigned int] and two [int]s. *)
Record mutex := { count : Z; owner : Z; kind : Z }.

(** Memory that nobody has written, as a mutex. *)
Definition no_mutex : mutex := {| count := 0; owner := 0; kind := 0 |}.

(** The mutexes, and [PthreadMutexManager::spinning]. *)
Record mutexes := {
  objs : gmap Z mutex;
  spinning : gmap Z (list Z) }.

Definition obj (p : Z) (s : mutexes) : mutex := default no_mutex (objs s !! p).
Definition set_obj (p : Z) (o : mutex) (s : mutexes) : mutexes := s <| objs ::= <[p := o]> |>.

Module PthreadMutex.
Section Ops.
Context {W : Type}.
Notation handler := (proc W mutexes).

Definition IsLocked (p : Z) : handler bool :=
  _ ← ASSERTX (negb (p =? 0));
  o ← reads (obj p);
  _ ← ASSERTX (0 <=? count o);
  mret (0 <? count o).

Definition Lock (p owner : Z) : handler unit :=
  _ ← ASSERTX (negb (p =? 0));
  modify (λ s, set_obj p {| count := 1; owner := i32 owner; kind := kind (obj p s) |} s).

Definition LockAgain (p : Z) : handler unit :=
  _ ← ASSERTX (negb (p =? 0));
  o ← reads (obj p);
  _ ← ASSERTX (kind o =? PTHREAD_MUTEX_RECURSIVE_NP);
  _ ← ASSERTX (1 <=? count o);
  modify (set_obj p (o <| count ::= λ c, c ⊕₃₂ 1 |>)).

Definition Unlock (p : Z) : handler unit :=
  _ ← ASSERTX (negb (p =? 0));
  modify (λ s, set_obj p ((obj p s) <| count := 0 |>) s).

Definition UnlockAgain (p : Z) : handler unit :=
  _ ← ASSERTX (negb (p =? 0));
  o ← reads (obj p);
  _ ← ASSERTX (kind o =? PTHREAD_MUTEX_RECURSIVE_NP);
  _ ← ASSERTX (1 <=? count o);
  modify (set_obj p (o <| count ::= λ c, c ⊖₃₂ 1 |>)).

(** [(pthread_t)mutex->__data.__owner], from an [int] to an [unsigned long]. *)
Definition GetOwner (p : Z) : handler Z :=
  _ ← ASSERTX (negb (p =? 0));
  o ← reads (obj p);
  mret (u64 (owner o)).

Definition GetKind (p : Z) : handler Z :=
  _ ← ASSERTX (negb (p =? 0));
  o ← reads (obj p);
  if kind o =? PTHREAD_MUTEX_DEFAULT then mret PTHREAD_MUTEX_FAST_NP
  else
    _ ← ASSERTX ((kind o =? PTHREAD_MUTEX_FAST_NP) || (kind o =? PTHREAD_MUTEX_RECURSIVE_NP) ||
                 (kind o =? PTHREAD_MUTEX_ERRORCHECK_NP));
    mret (kind o).

Definition pthread_mutex_destroy (p : Z) : handler Z :=
  locked ← IsLocked p;
  mret (if locked : bool then EBUSY else 0).

(** [mutexattr] is [None] for a null pointer. *)
Definition pthread_mutex_init (p : Z) (mutexattr : option Z) : handler Z :=
  _ ← ASSERTX (negb (p =? 0));
  o ← reads (obj p);
  k ← match mutexattr with
      | Some attr => mutexattr_getkind attr (kind o)
      | None => mret PTHREAD_MUTEX_FAST_NP
      end;
  _ ← modify (set_obj p {| count := 0; owner := -1; kind := k |});
  mret 0.
End Ops.
End PthreadMutex.

Module PthreadMutexManager.
Section Ops.
Context {W : Type}.
Notation handler := (proc W mutexes).

Definition BlockThread (thread p : Z) : handler unit :=
  q ← reads (λ s, spinning s !! p);
  match q with
  | None => modify (set spinning <[p := [thread]]>)
  | Some q => modify (set spinning <[p := q ++ [thread]]>)
  end.

Definition Lock (thread p : Z) (trylock : bool) : handler Z :=
  locked ← PthreadMutex.IsLocked p;
  if negb locked then
    _ ← PthreadMutex.Lock p thread;
    mret 0
  else
    owner ← PthreadMutex.GetOwner p;
    if owner =? thread then
      kind ← PthreadMutex.GetKind p;
      if (kind =? PTHREAD_MUTEX_FAST_NP) || (kind =? PTHREAD_MUTEX_ERRORCHECK_NP) then
        _ ← when (negb trylock) (BlockThread thread p);
        mret EDEADLK
      else if kind =? PTHREAD_MUTEX_RECURSIVE_NP then
        _ ← PthreadMutex.LockAgain p;
        mret 0
      else fails Fatal
    else
      _ ← when (negb trylock) (BlockThread thread p);
      mret EBUSY.

(** [PthreadsSpinning::PopThread] *)
Definition PopThread (q : list Z) : handler (Z * list Z) :=
  match q with
  | [] => fails Fatal
  | t :: q => mret (t, q)
  end.

(** The result is the thread that was unblocked, if any. *)
Definition UnblockThread (p : Z) : handler (option Z) :=
  q ← reads (λ s, spinning s !! p);
  match q with
  | None => mret None
  | Some q =>
      '(unblocked, q) ← PopThread q;
      _ ← modify (set spinning (match q with [] => delete p | _ => <[p := q]> end));
      _ ← Lock unblocked p false;
      mret (Some unblocked)
  end.

(** The unblocked thread, if any, and [*error]. *)
Definition Unlock (thread p : Z) : handler (option Z * Z) :=
  kind ← PthreadMutex.GetKind p;
  refused ← (if kind =? PTHREAD_MUTEX_ERRORCHECK_NP then
               locked ← PthreadMutex.IsLocked p;
               if negb locked then mret true
               else owner ← PthreadMutex.GetOwner p; mret (negb (owner =? thread))
             else mret false);
  if refused : bool then mret (None, EPERM)
  else
    kind ← PthreadMutex.GetKind p;
    still ← (if kind =? PTHREAD_MUTEX_RECURSIVE_NP then
               _ ← PthreadMutex.UnlockAgain p;
               PthreadMutex.IsLocked p
             else
               _ ← PthreadMutex.Unlock p;
               mret false);
    if still : bool then mret (None, 0)
    else
      u ← UnblockThread p;
      mret (u, 0).
End Ops.
End PthreadMutexManager.

(** ** Condition variables *)

(** [PthreadCondManager::waiters]: threads with the mutex they gave up, in order. *)
Record conds := { cond_waiters : gmap Z (list (Z * Z)) }.

Module PthreadCondManager.
Section Ops.
Context {W : Type}.
Notation handler := (proc W conds).

Definition HasMoreWaiters (cond : Z) : handler bool :=
  reads (λ s, bool_decide (is_Some (cond_waiters s !! cond))).

Definition AddWaiter (cond thread mutex : Z) : handler unit :=
  q ← reads (λ s, cond_waiters s !! cond);
  match q with
  | None => modify (set cond_waiters <[cond := [(thread, mutex)]]>)
  | Some q => modify (set cond_waiters <[cond := q ++ [(thread, mutex)]]>)
  end.

Definition RemoveWaiter (cond : Z) : handler (Z * Z) :=
  q ← reads (λ s, cond_waiters s !! cond);
  match q with
  | None | Some [] => fails Fatal
  | Some (w :: q) =>
      _ ← modify (set cond_waiters (match q with [] => delete cond | _ => <[cond := q]> end));
      mret w
  end.
End Ops.
End PthreadCondManager.

(** [pthread_cond_init] and the attributes of condition variables do nothing. *)
Definition pthread_cond_init (cond attr : Z) : Z := 0.
Definition pthread_condattr_destroy (attr : Z) : Z := 0.
Definition pthread_condattr_init (attr : Z) : Z := 0.

(** ** Barriers *)

Record barrier := { num_participants : Z; barrier_waiters : list Z }.
Record barrier_table := { barriers : gmap Z barrier }.

Module PthreadBarrierManager.
Section Ops.
Context {W : Type}.
Notation handler := (proc W barrier_table).

(** The entry of a barrier that must have one. *)
Definition find (p : Z) : handler barrier :=
  b ← reads (λ s, barriers s !! p);
  match b with Some b => mret b | None => fails Fatal end.

Definition NumParticipants (p : Z) : handler Z := b ← find p; mret (num_participants b).

Definition HasMoreWaiters (p : Z) : handler bool :=
  b ← find p;
  mret (match barrier_waiters b with [] => false | _ => true end).

Definition AddWaiter (p thread : Z) : handler bool :=
  b ← find p;
  let b := b <| barrier_waiters ::= λ q, q ++ [thread] |> in
  _ ← modify (set barriers <[p := b]>);
  mret (Z.of_nat (length (barrier_waiters b)) =? num_participants b).

Definition RemoveWaiter (p : Z) : handler Z :=
  b ← find p;
  match barrier_waiters b with
  | [] => fails Fatal
  | t :: q =>
      _ ← modify (set barriers <[p := b <| barrier_waiters := q |>]>);
      mret t
  end.

Definition InitWaiters (p num : Z) : handler unit :=
  modify (set barriers <[p := {| num_participants := num; barrier_waiters := [] |}]>).

Definition DestroyWaiters (p : Z) : handler unit :=
  _ ← find p;
  modify (set barriers (delete p)).
End Ops.
End PthreadBarrierManager.

(** ** What a mutex promises: a lock that is handed over in the order of arrival *)

Inductive lock_state : Type :=
| Free
| Held (by_thread depth : Z) (waiting : list Z).

(** [pthread_mutex_lock] and [pthread_mutex_trylock]; the result is not zero when the
    thread did not get the lock. *)
Definition spec_lock (k t : Z) (trylock : bool) (st : lock_state) : lock_state * Z :=
  match st with
  | Free => (Held t 1 [], 0)
  | Held o n q =>
      if (o =? t) && (k =? PTHREAD_MUTEX_RECURSIVE_NP) then (Held o (n + 1) q, 0)
      else (if trylock then st else Held o n (q ++ [t]), if o =? t then EDEADLK else EBUSY)
  end.

(** The longest waiting thread gets the lock. *)
Definition spec_release (st : lock_state) : lock_state * option Z :=
  match st with
  | Held _ _ (t :: q) => (Held t 1 q, Some t)
  | _ => (Free, None)
  end.

(** [None]: an assertion of the code fails. *)
Definition spec_unlock (k t : Z) (st : lock_state) : option (lock_state * (option Z * Z)) :=
  if k =? PTHREAD_MUTEX_ERRORCHECK_NP then
    match st with
    | Held o _ _ => if o =? t then Some (let (st', u) := spec_release st in (st', (u, 0)))
                    else Some (st, (None, EPERM))
    | Free => Some (st, (None, EPERM))
    end
  else if k =? PTHREAD_MUTEX_RECURSIVE_NP then
    match st with
    | Held o n q => if n =? 1 then Some (let (st', u) := spec_release st in (st', (u, 0)))
                    else Some (Held o (n - 1) q, (None, 0))
    | Free => None
    end
  else Some (let (st', u) := spec_release st in (st', (u, 0))).

Definition abs (s : mutexes) (p : Z) : lock_state :=
  if count (obj p s) =? 0 then Free
  else Held (u64 (owner (obj p s))) (count (obj p s)) (default [] (spinning s !! p)).

(** Thread ids are numbers of threads; they fit the [int] in which a mutex keeps its owner. *)
Definition tid (t : Z) : Prop := 0 ≤ t < 2 ^ 31.

Record wf (s : mutexes) : Prop := {
  wf_waiting p q : spinning s !! p = Some q → q ≠ [] ∧ Forall tid q ∧ 0 < count (obj p s);
  wf_count p : 0 ≤ count (obj p s) < 2 ^ 32;
  wf_owner p : 0 < count (obj p s) → tid (owner (obj p s));
  wf_kind p : 0 ≤ kind (obj p s) ≤ 2 }.

(** [s'] is [s] with the mutex [p] in the state [st]. *)
Record becomes (s s' : mutexes) (p : Z) (st : lock_state) : Prop := {
  becomes_wf : wf s';
  becomes_here : abs s' p = st;
  becomes_there p' : p' ≠ p → abs s' p' = abs s p';
  becomes_kind p' : kind (obj p' s') = kind (obj p' s) }.

Section MutexFacts.
Context {W : Type}.
Implicit Types (s : mutexes) (p t : Z).

Lemma obj_set p p' o s : obj p' (set_obj p o s) = if decide (p' = p) then o else obj p' s.
Proof.
  unfold obj, set_obj. cbn. case_decide as Hp.
  - subst. by rewrite lookup_insert_eq.
  - by rewrite lookup_insert_ne by done.
Qed.

Lemma i32_tid t : tid t → i32 t = t.
Proof. unfold tid, i32. intros H. rewrite Z.mod_small by lia. lia. Qed.

Lemma u64_tid t : tid t → u64 t = t.
Proof. unfold tid, u64. intros H. apply Z.mod_small. lia. Qed.

Lemma IsLocked_eq p s : p ≠ 0 → 0 ≤ count (obj p s) →
  PthreadMutex.IsLocked (W:=W) p s = Ok (0 <? count (obj p s), s, []).
Proof.
  intros Hp Hs. unfold PthreadMutex.IsLocked, mbind, proc_bind, ASSERTX.
  rewrite (proj2 (Z.eqb_neq p 0)) by done. cbn. by rewrite (proj2 (Z.leb_le 0 _)).
Qed.

Lemma GetOwner_eq p s : p ≠ 0 → PthreadMutex.GetOwner (W:=W) p s = Ok (u64 (owner (obj p s)), s, []).
Proof.
  intros Hp. unfold PthreadMutex.GetOwner, mbind, proc_bind, ASSERTX.
  by rewrite (proj2 (Z.eqb_neq p 0)) by done.
Qed.

Lemma GetKind_eq p s : p ≠ 0 → wf s → PthreadMutex.GetKind (W:=W) p s = Ok (kind (obj p s), s, []).
Proof.
  intros Hp Hs. unfold PthreadMutex.GetKind, mbind, proc_bind, ASSERTX, reads, mret, proc_ret.
  rewrite (proj2 (Z.eqb_neq p 0)) by done. cbn [negb app].
  unfold PTHREAD_MUTEX_DEFAULT, PTHREAD_MUTEX_FAST_NP, PTHREAD_MUTEX_RECURSIVE_NP, PTHREAD_MUTEX_ERRORCHECK_NP.
  destruct (Z.eqb_spec (kind (obj p s)) 0) as [->|Hk]; [done|].
  pose proof (wf_kind _ Hs p).
  assert (kind (obj p s) = 1 ∨ kind (obj p s) = 2) as [-> | ->] by lia; done.
Qed.

Lemma abs_locked s p : (0 <? count (obj p s)) = false → wf s → abs s p = Free.
Proof.
  intros H%Z.ltb_ge Hs. pose proof (wf_count _ Hs p). unfold abs.
  by rewrite (proj2 (Z.eqb_eq _ 0)) by lia.
Qed.

Lemma abs_held s p : (0 <? count (obj p s)) = true →
  abs s p = Held (u64 (owner (obj p s))) (count (obj p s)) (default [] (spinning s !! p)).
Proof. intros H%Z.ltb_lt. unfold abs. by rewrite (proj2 (Z.eqb_neq _ 0)) by lia. Qed.

(** The entry of a queue: an empty queue has none. *)
Definition entry (q : list Z) : option (list Z) := match q with [] => None | _ => Some q end.

Lemma spinning_entry s p : wf s → spinning s !! p = entry (default [] (spinning s !! p)).
Proof.
  intros Hs. destruct (spinning s !! p) as [q|] eqn:E; [|done].
  destruct (wf_waiting _ Hs _ _ E) as [Hq _]. by destruct q.
Qed.

Lemma waiting_tid s p : wf s → Forall tid (default [] (spinning s !! p)).
Proof.
  intros Hs. destruct (spinning s !! p) as [q|] eqn:E; [|constructor]. by apply (wf_waiting _ Hs _ _ E).
Qed.

(** An update of the object and of the queue of [p]. *)
Lemma becomes_intro s s' p o q :
  wf s → (∀ p', obj p' s' = if decide (p' = p) then o else obj p' s) →
  (∀ p', spinning s' !! p' = if decide (p' = p) then entry q else spinning s !! p') →
  kind o = kind (obj p s) → 0 ≤ count o < 2 ^ 32 → (0 < count o → tid (owner o)) →
  Forall tid q → (q ≠ [] → 0 < count o) →
  becomes s s' p (if count o =? 0 then Free else Held (u64 (owner o)) (count o) q).
Proof.
  intros Hs Hobj Hspin Hk Hc Ho Hq Hqc. split.
  - split; intros p'; rewrite ?Hobj.
    + intros q'. rewrite Hspin. case_decide; [|by apply Hs]. destruct q; [done|]. intros [= <-]. split_and!; auto.
    + case_decide; [done|apply Hs].
    + case_decide; [done|apply Hs].
    + case_decide; [subst; rewrite Hk; apply Hs|apply Hs].
  - unfold abs. rewrite Hobj, Hspin, !decide_True by done. by destruct (count o =? 0), q.
  - intros p' Hne. unfold abs. by rewrite Hobj, Hspin, !decide_False by done.
  - intros p'. rewrite Hobj. case_decide; [by subst|done].
Qed.

Lemma becomes_same s p : wf s → becomes s s p (abs s p).
Proof. by split. Qed.

Lemma becomes_queue s p t : wf s → tid t → 0 < count (obj p s) →
  becomes s (s <| spinning ::= <[p := default [] (spinning s !! p) ++ [t]]> |>) p
    (Held (u64 (owner (obj p s))) (count (obj p s)) (default [] (spinning s !! p) ++ [t])).
Proof.
  intros Hs Ht Hc. set (q := default [] (spinning s !! p) ++ [t]).
  assert (Held (u64 (owner (obj p s))) (count (obj p s)) q =
    if count (obj p s) =? 0 then Free else Held (u64 (owner (obj p s))) (count (obj p s)) q) as ->
    by (by rewrite (proj2 (Z.eqb_neq _ 0)) by lia).
  apply becomes_intro; try done.
  - intros p'. change (obj p' (s <| spinning ::= <[p := q]> |>)) with (obj p' s). case_decide; by subst.
  - intros p'. cbn. unfold entry. case_decide as Hp; [subst p'|].
    + rewrite lookup_insert_eq. unfold q. by destruct (default [] _).
    + by rewrite lookup_insert_ne by done.
  - by apply wf_count.
  - by apply wf_owner.
  - apply Forall_app. split; [by apply waiting_tid|by apply Forall_singleton].
Qed.

Lemma becomes_obj s p o : wf s → kind o = kind (obj p s) → 0 ≤ count o < 2 ^ 32 →
  (0 < count o → tid (owner o)) → (default [] (spinning s !! p) ≠ [] → 0 < count o) →
  becomes s (set_obj p o s) p
    (if count o =? 0 then Free else Held (u64 (owner o)) (count o) (default [] (spinning s !! p))).
Proof.
  intros Hs Hk Hc Ho Hq. apply becomes_intro; try done.
  - intros p'. apply obj_set.
  - intros p'. case_decide; [subst; exact (spinning_entry s p Hs)|done].
  - by apply waiting_tid.
Qed.

Lemma BlockThread_spec s p t : wf s → tid t → 0 < count (obj p s) →
  ∃ s', PthreadMutexManager.BlockThread (W:=W) t p s = Ok (tt, s', []) ∧
    becomes s s' p (Held (u64 (owner (obj p s))) (count (obj p s)) (default [] (spinning s !! p) ++ [t])).
Proof.
  intros Hs Ht Hc. exists (s <| spinning ::= <[p := default [] (spinning s !! p) ++ [t]]> |>).
  split; [|by apply becomes_queue].
  unfold PthreadMutexManager.BlockThread, mbind, proc_bind, reads.
  by destruct (spinning s !! p).
Qed.

Lemma mutex_Lock_eq p t s : p ≠ 0 → tid t → PthreadMutex.Lock (W:=W) p t s =
  Ok (tt, set_obj p {| count := 1; owner := t; kind := kind (obj p s) |} s, []).
Proof.
  intros Hp Ht. unfold PthreadMutex.Lock, mbind, proc_bind, ASSERTX.
  rewrite (proj2 (Z.eqb_neq p 0)) by done. cbn. by rewrite i32_tid.
Qed.

Lemma Lock_free_eq s p t trylock : p ≠ 0 → tid t → count (obj p s) = 0 →
  PthreadMutexManager.Lock (W:=W) t p trylock s =
    Ok (0, set_obj p {| count := 1; owner := t; kind := kind (obj p s) |} s, []).
Proof.
  intros Hp Ht Hc. unfold PthreadMutexManager.Lock, mbind, proc_bind.
  rewrite IsLocked_eq by (done || lia). rewrite Hc. cbn. by rewrite mutex_Lock_eq.
Qed.

Lemma Lock_spec s p t trylock : wf s → p ≠ 0 → tid t → count (obj p s) + 1 < 2 ^ 32 →
  ∃ s', PthreadMutexManager.Lock (W:=W) t p trylock s
      = Ok (snd (spec_lock (kind (obj p s)) t trylock (abs s p)), s', []) ∧
    becomes s s' p (fst (spec_lock (kind (obj p s)) t trylock (abs s p))).
Proof.
  intros Hs Hp Ht Hn. pose proof (wf_count _ Hs p) as Hwc. destruct (0 <? count (obj p s)) eqn:Hc.
  2:{ rewrite abs_locked by done. pose proof Hc as Hc'%Z.ltb_ge. rewrite Lock_free_eq by (done || lia). cbn.
      eexists. split; [done|].
      assert (default [] (spinning s !! p) = []) as Hq.
      { destruct (spinning s !! p) as [q|] eqn:E; [|done]. apply Z.ltb_ge in Hc. destruct (wf_waiting _ Hs _ _ E). lia. }
      pose proof (becomes_obj s p {| count := 1; owner := t; kind := kind (obj p s) |} Hs eq_refl) as Hb.
      rewrite Hq in Hb. cbn in Hb. rewrite u64_tid in Hb by done. by apply Hb; [lia|..]. }
  rewrite abs_held by done. pose proof (proj1 (Z.ltb_lt _ _) Hc) as Hc'.
  unfold PthreadMutexManager.Lock. unfold mbind at 1, proc_bind at 1.
  rewrite IsLocked_eq by (done || lia). rewrite Hc. cbn [negb].
  unfold mbind at 1, proc_bind at 1. rewrite GetOwner_eq by done. cbn [spec_lock].
  assert (∃ s', (when (negb trylock) (PthreadMutexManager.BlockThread (W:=W) t p)) s = Ok (tt, s', []) ∧
    becomes s s' p (if trylock then Held (u64 (owner (obj p s))) (count (obj p s)) (default [] (spinning s !! p))
      else Held (u64 (owner (obj p s))) (count (obj p s)) (default [] (spinning s !! p) ++ [t]))) as (s' & Hblock & Hs').
  { destruct trylock; cbn; [|by apply BlockThread_spec]. exists s. split; [done|].
    rewrite <- abs_held by done. by apply becomes_same. }
  destruct (u64 (owner (obj p s)) =? t) eqn:Hot; cbn [andb].
  - unfold mbind at 1, proc_bind at 1. rewrite GetKind_eq by done. pose proof (wf_kind _ Hs p) as Hk.
    unfold PTHREAD_MUTEX_FAST_NP, PTHREAD_MUTEX_RECURSIVE_NP, PTHREAD_MUTEX_ERRORCHECK_NP.
    assert (kind (obj p s) = 0 ∨ kind (obj p s) = 1 ∨ kind (obj p s) = 2) as [E|[E|E]] by lia; rewrite E; cbn [Z.eqb Pos.eqb orb].
    + unfold mbind, proc_bind. rewrite Hblock. by exists s'.
    + unfold mbind, proc_bind, PthreadMutex.LockAgain, ASSERTX, reads. rewrite (proj2 (Z.eqb_neq p 0)) by done.
      cbn [negb]. unfold mret, proc_ret, mbind, proc_bind. rewrite E. cbn.
      rewrite (proj2 (Z.leb_le 1 _)) by lia. cbn. eexists. split; [done|].
      assert (count (obj p s) ⊕₃₂ 1 = count (obj p s) + 1) as Hc1 by (unfold u32; apply Z.mod_small; lia).
      pose (o' := (obj p s) <| count ::= λ c, c ⊕₃₂ 1 |>).
      pose proof (becomes_obj s p o' Hs) as Hb. unfold o' in Hb.
      cbn in Hb. rewrite Hc1 in Hb. rewrite (proj2 (Z.eqb_neq _ 0)) in Hb by lia.
      apply Hb; [done|lia|intros _; by apply wf_owner|lia].
    + unfold mbind, proc_bind. rewrite Hblock. by exists s'.
  - unfold mbind, proc_bind. rewrite Hblock. by exists s'.
Qed.

(** The object was released; whoever waits longest gets it. *)
Lemma UnblockThread_spec s p o n : wf s → p ≠ 0 → count o = 0 → kind o = kind (obj p s) →
  let st := Held n n (default [] (spinning s !! p)) in
  ∃ s', PthreadMutexManager.UnblockThread (W:=W) p (set_obj p o s) = Ok (snd (spec_release st), s', []) ∧
    becomes s s' p (fst (spec_release st)).
Proof.
  intros Hs Hp Hc Hk st. unfold PthreadMutexManager.UnblockThread, mbind, proc_bind, reads.
  change (spinning (set_obj p o s) !! p) with (spinning s !! p). unfold st.
  destruct (spinning s !! p) as [q|] eqn:Hq; cbn [default spec_release fst snd].
  2:{ eexists. split; [done|]. pose proof (becomes_obj s p o Hs Hk) as Hb. rewrite Hq, Hc in Hb. cbn in Hb.
      by apply Hb; [lia|lia|]. }
  destruct (wf_waiting _ Hs _ _ Hq) as (Hne & Ht & _). destruct q as [|t q]; [done|]. inv Ht.
  cbn [PthreadMutexManager.PopThread id spec_release fst snd]. unfold mret, proc_ret, modify.
  set (s1 := set spinning (match q with [] => delete p | _ => <[p := q]> end) (set_obj p o s)).
  assert (∀ p', obj p' s1 = if decide (p' = p) then o else obj p' s) as Hobj by (intros; apply obj_set).
  rewrite Lock_free_eq by (try done; by rewrite Hobj, decide_True). rewrite Hobj, decide_True by done.
  eexists. split; [done|].
  assert (Held t 1 q = if 1 =? 0 then Free else Held (u64 t) 1 q) as -> by (by rewrite u64_tid).
  apply (becomes_intro s _ p {| count := 1; owner := t; kind := kind o |}); try done.
  - intros p'. rewrite obj_set. case_decide; [done|]. by rewrite Hobj, decide_False.
  - intros p'. unfold s1. cbn. unfold entry. case_decide as Hpp; [subst|]; destruct q;
      by rewrite ?lookup_delete_eq, ?lookup_insert_eq, ?lookup_delete_ne, ?lookup_insert_ne by done.
Qed.

(** The same, in terms of the state of the lock before it was released. *)
Lemma UnblockThread_abs s p o : wf s → p ≠ 0 → count o = 0 → kind o = kind (obj p s) →
  ∃ s', PthreadMutexManager.UnblockThread (W:=W) p (set_obj p o s) = Ok (snd (spec_release (abs s p)), s', []) ∧
    becomes s s' p (fst (spec_release (abs s p))).
Proof.
  intros Hs Hp Ho Hko. destruct (UnblockThread_spec s p o 0 Hs Hp Ho Hko) as (s' & H1 & H2). exists s'.
  assert (spec_release (abs s p) = spec_release (Held 0 0 (default [] (spinning s !! p)))) as ->; [|done].
  pose proof (wf_count _ Hs p). destruct (0 <? count (obj p s)) eqn:E; [by rewrite abs_held|].
  rewrite abs_locked by done. apply Z.ltb_ge in E. destruct (spinning s !! p) as [q|] eqn:Hq; [|done].
  destruct (wf_waiting _ Hs _ _ Hq). lia.
Qed.

Lemma mutex_Unlock_eq p s : p ≠ 0 →
  PthreadMutex.Unlock (W:=W) p s = Ok (tt, set_obj p ((obj p s) <| count := 0 |>) s, []).
Proof. intros Hp. unfold PthreadMutex.Unlock, mbind, proc_bind, ASSERTX. by rewrite (proj2 (Z.eqb_neq p 0)). Qed.

(** A mutex that is not recursive is released at once. *)
Lemma Unlock_plain s p t : wf s → p ≠ 0 → kind (obj p s) = 0 →
  ∃ s', PthreadMutexManager.Unlock (W:=W) t p s = Ok (snd (spec_release (abs s p)), 0, s', []) ∧
    becomes s s' p (fst (spec_release (abs s p))).
Proof.
  intros Hs Hp Hk. unfold PthreadMutexManager.Unlock, PTHREAD_MUTEX_ERRORCHECK_NP, PTHREAD_MUTEX_RECURSIVE_NP, mbind, proc_bind.
  rewrite !GetKind_eq, Hk by done.
  cbn [Z.eqb]. unfold mret, proc_ret. cbn [app].
  rewrite GetKind_eq, Hk by done. cbn [Z.eqb]. rewrite mutex_Unlock_eq by done. cbn [app].
  destruct (UnblockThread_abs s p ((obj p s) <| count := 0 |>)) as (s' & -> & Hs'); [done..|]. by exists s'.
Qed.

Lemma Unlock_errorcheck s p t : wf s → p ≠ 0 → kind (obj p s) = 2 →
  (if match abs s p with Held o _ _ => o =? t | Free => false end then
     ∃ s', PthreadMutexManager.Unlock (W:=W) t p s = Ok (snd (spec_release (abs s p)), 0, s', []) ∧
       becomes s s' p (fst (spec_release (abs s p)))
   else PthreadMutexManager.Unlock (W:=W) t p s = Ok (None, EPERM, s, [])).
Proof.
  intros Hs Hp Hk. pose proof (wf_count _ Hs p) as Hc.
  pose proof (UnblockThread_abs s p ((obj p s) <| count := 0 |>) Hs Hp eq_refl eq_refl) as (s' & Hu & Hs').
  unfold PthreadMutexManager.Unlock, PTHREAD_MUTEX_ERRORCHECK_NP, PTHREAD_MUTEX_RECURSIVE_NP, mbind, proc_bind.
  rewrite GetKind_eq, Hk by done.
  cbn [Z.eqb Pos.eqb]. rewrite IsLocked_eq by (done || lia).
  destruct (0 <? count (obj p s)) eqn:E; cbn [negb]; [|by rewrite abs_locked].
  rewrite GetOwner_eq by done. unfold mret, proc_ret. cbn [app]. rewrite abs_held in Hs', Hu |- * by done.
  destruct (u64 (owner (obj p s)) =? t); cbn [negb]; [|done].
  rewrite GetKind_eq, Hk by done. cbn [Z.eqb Pos.eqb].
  rewrite mutex_Unlock_eq by done. cbn [app]. rewrite Hu. by exists s'.
Qed.

Lemma Unlock_recursive s p t : wf s → p ≠ 0 → kind (obj p s) = 1 →
  match abs s p with
  | Free => PthreadMutexManager.Unlock (W:=W) t p s = Err Fatal
  | Held o n q =>
      if n =? 1 then
        ∃ s', PthreadMutexManager.Unlock (W:=W) t p s = Ok (snd (spec_release (abs s p)), 0, s', []) ∧
          becomes s s' p (fst (spec_release (abs s p)))
      else ∃ s', PthreadMutexManager.Unlock (W:=W) t p s = Ok (None, 0, s', []) ∧
             becomes s s' p (Held o (n - 1) q)
  end.
Proof.
  intros Hs Hp Hk. pose proof (wf_count _ Hs p) as Hc. pose proof (UnblockThread_abs s p) as Hu.
  unfold PthreadMutexManager.Unlock, PTHREAD_MUTEX_ERRORCHECK_NP, PTHREAD_MUTEX_RECURSIVE_NP, mbind, proc_bind.
  rewrite GetKind_eq, Hk by done.
  cbn [Z.eqb Pos.eqb]. unfold mret, proc_ret. cbn [app].
  rewrite GetKind_eq, Hk by done. cbn [Z.eqb Pos.eqb].
  unfold PthreadMutex.UnlockAgain, PTHREAD_MUTEX_RECURSIVE_NP, ASSERTX, reads, mbind, proc_bind, mret, proc_ret.
  rewrite (proj2 (Z.eqb_neq p 0)) by done. cbn [negb]. rewrite Hk. cbn [Z.eqb Pos.eqb].
  destruct (0 <? count (obj p s)) eqn:E.
  2:{ rewrite abs_locked by done. apply Z.ltb_ge in E. by rewrite (proj2 (Z.leb_gt 1 _)) by lia. }
  rewrite abs_held in Hu |- * by done. apply Z.ltb_lt in E. rewrite (proj2 (Z.leb_le 1 _)) by lia.
  unfold modify. cbn [app]. set (o := (obj p s) <| count ::= λ c, c ⊖₃₂ 1 |>).
  assert (count o = count (obj p s) - 1) as Ho by (unfold o, u32; cbn; apply Z.mod_small; lia).
  rewrite IsLocked_eq; [|done|rewrite obj_set, decide_True by done; lia].
  rewrite obj_set, decide_True, Ho by done. destruct (Z.eqb_spec (count (obj p s)) 1) as [E0|E0].
  - rewrite (proj2 (Z.ltb_ge 0 _)) by lia.
    destruct (Hu o) as (s' & -> & Hs'); [done|done|lia|done|]. by exists s'.
  - rewrite (proj2 (Z.ltb_lt 0 _)) by lia. eexists. split; [done|].
    pose proof (becomes_obj s p o Hs eq_refl) as Hb. rewrite Ho in Hb.
    rewrite (proj2 (Z.eqb_neq _ 0)) in Hb by lia. change (owner o) with (owner (obj p s)) in Hb.
    apply Hb; [lia|intros _; apply wf_owner; [done|lia]|lia].
Qed.

Lemma Unlock_spec s p t : wf s → p ≠ 0 →
  match spec_unlock (kind (obj p s)) t (abs s p) with
  | Some (st, r) => ∃ s', PthreadMutexManager.Unlock (W:=W) t p s = Ok (r, s', []) ∧ becomes s s' p st
  | None => PthreadMutexManager.Unlock (W:=W) t p s = Err Fatal
  end.
Proof.
  intros Hs Hp. pose proof (wf_kind _ Hs p) as Hk.
  unfold spec_unlock, PTHREAD_MUTEX_ERRORCHECK_NP, PTHREAD_MUTEX_RECURSIVE_NP.
  assert (kind (obj p s) = 0 ∨ kind (obj p s) = 1 ∨ kind (obj p s) = 2) as [E|[E|E]] by lia;
    rewrite E; cbn [Z.eqb Pos.eqb].
  - destruct (Unlock_plain s p t Hs Hp E) as (s' & H1 & H2). destruct (spec_release (abs s p)). by exists s'.
  - pose proof (Unlock_recursive s p t Hs Hp E) as H. destruct (abs s p) as [|o n q]; [done|].
    destruct (n =? 1); [|exact H]. destruct (spec_release _). exact H.
  - pose proof (Unlock_errorcheck s p t Hs Hp E) as H. pose proof (becomes_same s p Hs) as Hsame.
    destruct (abs s p) as [|o n q]; [by exists s|]. destruct (o =? t); [|by exists s].
    destruct (spec_release _). exact H.
Qed.

End MutexFacts.

(** ** Sequences of operations of any threads on any mutexes *)

Inductive op : Type :=
| OpLock (t p : Z) (trylock : bool)
| OpUnlock (t p : Z).

Definition op_ok (o : op) : Prop :=
  match o with OpLock t p _ => tid t ∧ p ≠ 0 | OpUnlock t p => p ≠ 0 end.

(** The unblocked thread, if any, and the error. *)
Definition run_op {W} (o : op) : proc W mutexes (option Z * Z) :=
  match o with
  | OpLock t p trylock => e ← PthreadMutexManager.Lock t p trylock; mret (None, e)
  | OpUnlock t p => PthreadMutexManager.Unlock t p
  end.

Fixpoint run_ops {W} (l : list op) : proc W mutexes (list (option Z * Z)) :=
  match l with
  | [] => mret []
  | o :: l => r ← run_op o; rs ← run_ops l; mret (r :: rs)
  end.

Definition upd (A : Z → lock_state) (p : Z) (st : lock_state) : Z → lock_state :=
  λ p', if decide (p' = p) then st else A p'.

(** The specification, with the kinds [K] of the mutexes. *)
Definition spec_op (K : Z → Z) (o : op) (A : Z → lock_state) :
    option ((Z → lock_state) * (option Z * Z)) :=
  match o with
  | OpLock t p trylock =>
      let (st, e) := spec_lock (K p) t trylock (A p) in Some (upd A p st, (None, e))
  | OpUnlock t p =>
      '(st, r) ← spec_unlock (K p) t (A p); Some (upd A p st, r)
  end.

Fixpoint spec_ops (K : Z → Z) (l : list op) (A : Z → lock_state) :
    option ((Z → lock_state) * list (option Z * Z)) :=
  match l with
  | [] => Some (A, [])
  | o :: l =>
      '(A1, r) ← spec_op K o A;
      '(A2, rs) ← spec_ops K l A1;
      Some (A2, r :: rs)
  end.

Definition depth (st : lock_state) : Z := match st with Free => 0 | Held _ n _ => n end.

Lemma depth_abs s p : depth (abs s p) = count (obj p s).
Proof. unfold abs. destruct (Z.eqb_spec (count (obj p s)) 0); cbn; lia. Qed.

Lemma spec_lock_depth k t b st : 0 ≤ depth st → depth (fst (spec_lock k t b st)) ≤ depth st + 1.
Proof. destruct st as [|o n q]; cbn; [lia|]. repeat case_match; cbn; lia. Qed.

Lemma spec_unlock_depth k t st st' r :
  0 ≤ depth st → spec_unlock k t st = Some (st', r) → depth st' ≤ depth st + 1.
Proof.
  intros Hd. assert (depth (fst (spec_release st)) ≤ depth st + 1) as Hr by (destruct st as [|? ? [|]]; cbn in *; lia).
  unfold spec_unlock. intros H. destruct (spec_release st) as [st1 u]; cbn in Hr.
  repeat (case_match; simplify_eq/=); lia.
Qed.

(** One operation implements its specification. *)
Lemma run_op_spec {W} o s :
  wf s → op_ok o → (∀ p, count (obj p s) + 1 < 2 ^ 32) →
  match spec_op (λ p, kind (obj p s)) o (abs s) with
  | Some (A, r) => ∃ s', run_op (W:=W) o s = Ok (r, s', []) ∧ wf s' ∧ (∀ p, abs s' p = A p) ∧
      (∀ p, kind (obj p s') = kind (obj p s)) ∧ (∀ p, count (obj p s') ≤ count (obj p s) + 1)
  | None => run_op (W:=W) o s = Err Fatal
  end.
Proof.
  intros Hs Ho Hn.
  assert (∀ s' p st, becomes s s' p st → depth st ≤ depth (abs s p) + 1 →
    wf s' ∧ (∀ p', abs s' p' = upd (abs s) p st p') ∧ (∀ p', kind (obj p' s') = kind (obj p' s)) ∧
    (∀ p', count (obj p' s') ≤ count (obj p' s) + 1)) as Hb.
  { intros s' p st [Hw Hh Ht Hk] Hd.
    assert (∀ p', abs s' p' = upd (abs s) p st p') as Habs
      by (intros p'; unfold upd; case_decide; [by subst|by apply Ht]).
    split_and!; try done. intros p'. rewrite <- !depth_abs, Habs. unfold upd. case_decide; [by subst|lia]. }
  assert (∀ p, 0 ≤ depth (abs s p)) as Hd by (intros p; rewrite depth_abs; by apply wf_count).
  destruct o as [t p b|t p]; cbn [spec_op run_op].
  - destruct Ho as [Ht Hp]. destruct (Lock_spec (W:=W) s p t b Hs Hp Ht (Hn p)) as (s' & Hl & Hs').
    pose proof (spec_lock_depth (kind (obj p s)) t b _ (Hd p)) as Hdp. destruct (spec_lock _ _ _ _) as [st e].
    exists s'. split; [|by apply Hb]. unfold mbind, proc_bind. by rewrite Hl.
  - pose proof (Unlock_spec (W:=W) s p t Hs Ho) as Hu. pose proof (spec_unlock_depth (kind (obj p s)) t (abs s p)) as Hdp.
    destruct (spec_unlock _ _ _) as [[st r]|]; [|done]. destruct Hu as (s' & Hu & Hs').
    exists s'. split; [exact Hu|]. apply Hb; [done|]. by eapply Hdp.
Qed.

Lemma spec_ops_ext K K' l A A' :
  (∀ p, K p = K' p) → (∀ p, A p = A' p) →
  match spec_ops K l A, spec_ops K' l A' with
  | Some (B, r), Some (B', r') => r = r' ∧ ∀ p, B p = B' p
  | None, None => True
  | _, _ => False
  end.
Proof.
  intros HK. revert A A'. induction l as [|o l IH]; intros A A' HA; cbn; [done|].
  assert (match spec_op K o A, spec_op K' o A' with
    | Some (B, r), Some (B', r') => r = r' ∧ ∀ p, B p = B' p | None, None => True | _, _ => False end) as H.
  { destruct o as [t p b|t p]; cbn; rewrite <- HK, <- HA.
    - destruct (spec_lock _ _ _ _) as [st e]. split; [done|]. intros p'. unfold upd. by case_decide.
    - destruct (spec_unlock _ _ _) as [[st r]|]; cbn; [|done]. split; [done|]. intros p'. unfold upd. by case_decide. }
  destruct (spec_op K o A) as [[B r]|], (spec_op K' o A') as [[B' r']|]; cbn; try done.
  destruct H as [-> HB]. specialize (IH B B' HB).
  destruct (spec_ops K l B) as [[C rs]|], (spec_ops K' l B') as [[C' rs']|]; cbn; naive_solver.
Qed.

(** C17: The mutexes implement their specification: any sequence of lock, trylock and
    unlock operations of any threads on any mutexes gives, operation by operation, the
    results and hand-overs of locks that pass from thread to thread in the order of
    arrival, are counted when recursive and refuse strangers when error-checking; an
    assertion fails exactly where a recursive mutex is released that nobody holds. *)
Theorem mutex_refines {W} l s :
  wf s → Forall op_ok l → (∀ p, count (obj p s) + Z.of_nat (length l) < 2 ^ 32) →
  match spec_ops (λ p, kind (obj p s)) l (abs s) with
  | Some (A, rs) => ∃ s', run_ops (W:=W) l s = Ok (rs, s', []) ∧ wf s' ∧ ∀ p, abs s' p = A p
  | None => run_ops (W:=W) l s = Err Fatal
  end.
Proof.
  intros Hs Hl. revert s Hs. induction Hl as [|o l Ho Hl IH]; intros s Hs Hn; cbn [spec_ops run_ops].
  { by exists s. }
  cbn [length] in Hn. pose proof (run_op_spec (W:=W) o s Hs Ho) as H.
  destruct (spec_op _ o (abs s)) as [[A r]|]; cbn [mbind option_bind].
  - destruct H as (s1 & H1 & Hs1 & HA & HK & Hc); [intros p; specialize (Hn p); lia|].
    specialize (IH s1 Hs1). pose proof (spec_ops_ext (λ p, kind (obj p s1)) (λ p, kind (obj p s)) l _ _ HK HA) as He.
    assert (∀ p, count (obj p s1) + Z.of_nat (length l) < 2 ^ 32) as Hn1
      by (intros p; specialize (Hn p); specialize (Hc p); lia).
    specialize (IH Hn1). unfold mbind, proc_bind, option_bind. rewrite H1.
    destruct (spec_ops _ l (abs s1)) as [[B rs]|], (spec_ops _ l A) as [[B' rs']|]; try done; cbn.
    + destruct He as [-> HB]. destruct IH as (s2 & -> & Hs2 & HB2). exists s2. split_and!; [done..|].
      intros p. by rewrite HB2.
    + by rewrite IH.
  - unfold mbind, proc_bind. rewrite H; [done|]. intros p. specialize (Hn p). lia.
Qed.

(** Three threads and a recursive mutex at address 64. *)
Definition some_ops : list op :=
  [OpLock 0 64 false; OpLock 0 64 false; OpLock 1 64 false; OpLock 2 64 true; OpLock 2 64 false;
   OpUnlock 0 64; OpUnlock 0 64; OpUnlock 1 64].
Definition some_mutexes : mutexes :=
  {| objs := {[ 64 := {| count := 0; owner := 0; kind := 1 |} ]}; spinning := ∅ |}.

Lemma mutex_refines_witness :
  (∃ s', run_ops (W:=unit) some_ops some_mutexes =
      Ok ([(None, 0); (None, 0); (None, EBUSY); (None, EBUSY); (None, EBUSY); (None, 0); (Some 1, 0); (Some 2, 0)], s', [])
    ∧ wf s' ∧ abs s' 64 = Held 2 1 []).
Proof.
  pose proof (mutex_refines (W:=unit) some_ops some_mutexes) as H.
  assert (∀ p, obj p some_mutexes = if decide (p = 64) then {| count := 0; owner := 0; kind := 1 |} else no_mutex) as Ho.
  { intros p. unfold obj, some_mutexes. cbn. case_decide; [subst; by rewrite lookup_singleton_eq|].
    by rewrite lookup_singleton_ne. }
  assert (wf some_mutexes) as Hw.
  { split; [done|..]; intros p; rewrite Ho; case_decide; cbn; lia. }
  assert (Forall op_ok some_ops) as Hops
    by (repeat (apply Forall_cons; split; [cbn; unfold tid; lia|]); by apply Forall_nil).
  assert (∀ p, count (obj p some_mutexes) + Z.of_nat (length some_ops) < 2 ^ 32) as Hc
    by (intros p; rewrite Ho; case_decide; cbn; lia).
  specialize (H Hw Hops Hc).
  assert ((λ '(A, rs), (A 64, rs)) <$> spec_ops (λ p, kind (obj p some_mutexes)) some_ops (abs some_mutexes) =
    Some (Held 2 1 [], [(None, 0); (None, 0); (None, EBUSY); (None, EBUSY); (None, EBUSY); (None, 0); (Some 1, 0); (Some 2, 0)]))
    as Hspec by (vm_compute; reflexivity).
  destruct (spec_ops _ _ _) as [[A rs]|]; [|done]. injection Hspec as HA ->.
  destruct H as (s' & Hr & Hs' & HA'). exists s'. split_and!; [exact Hr|done|]. by rewrite HA'.
Defined.
