(* ===== verification/PthreadThreads.v ===== *)
(** * What is kept per thread: joining, cancellation, cleanup, thread-specific data
    (PthreadJoin, PthreadCancel, PthreadCleanup, PthreadKey, PthreadOnce, PthreadMalloc)

    Each manager is a table indexed by thread id. *)

From S2P Require Import Prelude Containers PthreadAttr Frontend.
Import OrdMap.
Import PTSInterface.
Import PthreadAttr(EINVAL).

Definition EAGAIN : Z := 11.

(** ** Joining *)

(** A thread that may be joined; [joiner] and [retval] mean something once [joined] and
    [done] are set. *)
Record joinee := { done : bool; joined : bool; joinee_joiner : Z; joinee_retval : Z }.
(** A thread that waits for another. *)
Record joiner := { joiner_joinee : Z; joiner_retvalptr : Z }.

Record joins := { joinables : gmap Z joinee; joinings : gmap Z joiner }.

Module PthreadJoinManager.
Notation handler := (proc event joins).

Definition GetJoinee_entry (thread : Z) : handler joinee :=
  e ← reads (λ s, joinables s !! thread);
  match e with Some e => mret e | None => fails Fatal end.

Definition InsertJoinee (thread : Z) : handler unit :=
  e ← reads (λ s, joinables s !! thread);
  _ ← ASSERTX (match e with None => true | Some _ => false end);
  modify (set joinables <[thread := {| done := false; joined := false; joinee_joiner := 0; joinee_retval := 0 |}]>).

Definition EraseJoinee (thread : Z) : handler unit :=
  _ ← GetJoinee_entry thread;
  modify (set joinables (delete thread)).

Definition IsJoinable (thread : Z) : handler bool :=
  reads (λ s, bool_decide (is_Some (joinables s !! thread))).

Definition IsDone (thread : Z) : handler bool := e ← GetJoinee_entry thread; mret (done e).
Definition IsJoined (thread : Z) : handler bool := e ← GetJoinee_entry thread; mret (joined e).

Definition GetJoiner (thread : Z) : handler Z :=
  e ← GetJoinee_entry thread;
  _ ← ASSERTX (joined e);
  mret (joinee_joiner e).

Definition SetJoiner (joinee joiner : Z) : handler unit :=
  e ← GetJoinee_entry joinee;
  modify (set joinables <[joinee := e <| joined := true |> <| joinee_joiner := joiner |>]>).

Definition GetRetval (thread : Z) : handler Z := e ← GetJoinee_entry thread; mret (joinee_retval e).

Definition SetRetval (thread retval : Z) : handler unit :=
  e ← GetJoinee_entry thread;
  modify (set joinables <[thread := e <| joinee_retval := retval |> <| done := true |>]>).

Definition GetJoiner_entry (thread : Z) : handler joiner :=
  e ← reads (λ s, joinings s !! thread);
  match e with Some e => mret e | None => fails Fatal end.

Definition InsertJoiner (joiner joinee retvalptr : Z) : handler unit :=
  e ← reads (λ s, joinings s !! joiner);
  _ ← ASSERTX (match e with None => true | Some _ => false end);
  modify (set joinings <[joiner := {| joiner_joinee := joinee; joiner_retvalptr := retvalptr |}]>).

Definition EraseJoiner (thread : Z) : handler unit :=
  _ ← GetJoiner_entry thread;
  modify (set joinings (delete thread)).

Definition GetJoinee (thread : Z) : handler Z := e ← GetJoiner_entry thread; mret (joiner_joinee e).
Definition GetRetvalptr (thread : Z) : handler Z := e ← GetJoiner_entry thread; mret (joiner_retvalptr e).

(** [AddThread] is given the detach state of the attribute. *)
Definition AddThread (thread : Z) (attr : PthreadAttr.pthread_attr) : handler unit :=
  when (PthreadAttr.attr_getdetachstate attr =? PthreadAttr.PTHREAD_CREATE_JOINABLE) (InsertJoinee thread).

(** The thread that was waiting for the dying one. *)
Definition KillThread (thread retval : Z) : handler (option Z) :=
  joinable ← IsJoinable thread;
  if joinable : bool then
    joined ← IsJoined thread;
    if joined : bool then
      joiner ← GetJoiner thread;
      joinee ← GetJoinee joiner;
      _ ← ASSERTX (joinee =? thread);
      retvalptr ← GetRetvalptr joiner;
      _ ← when (negb (retvalptr =? 0)) (emit (Store retvalptr retval));
      _ ← EraseJoiner joiner;
      _ ← EraseJoinee thread;
      mret (Some joiner)
    else
      _ ← SetRetval thread retval;
      mret None
  else mret None.

Definition DetachThread (thread : Z) : handler Z :=
  joinable ← IsJoinable thread;
  if negb joinable then mret EINVAL
  else
    joined ← IsJoined thread;
    _ ← when (negb joined) (modify (set joinables (delete thread)));
    mret 0.

(** Whether the joining thread has to wait. *)
Definition JoinThreads (joiner joinee retvalptr : Z) : handler bool :=
  _ ← ASSERTX (negb (joiner =? joinee));
  joinable ← IsJoinable joinee;
  _ ← ASSERTX joinable;
  joined ← IsJoined joinee;
  _ ← ASSERTX (negb joined);
  done ← IsDone joinee;
  if done : bool then
    _ ← (if negb (retvalptr =? 0) then v ← GetRetval joinee; emit (Store retvalptr v) else mret tt);
    _ ← EraseJoinee joinee;
    mret false
  else
    _ ← SetJoiner joinee joiner;
    _ ← InsertJoiner joiner joinee retvalptr;
    mret true.

Definition GetAttr (thread : Z) (attr : PthreadAttr.pthread_attr) : handler PthreadAttr.pthread_attr :=
  joinable ← IsJoinable thread;
  mret (snd (PthreadAttr.attr_setdetachstate
    (if joinable : bool then PthreadAttr.PTHREAD_CREATE_JOINABLE else PthreadAttr.PTHREAD_CREATE_DETACHED) attr)).
End PthreadJoinManager.

(** ** Cancellation *)

Definition PTHREAD_CANCEL_ENABLE : Z := 0.
Definition PTHREAD_CANCEL_DISABLE : Z := 1.
Definition PTHREAD_CANCEL_DEFERRED : Z := 0.
Definition PTHREAD_CANCEL_ASYNCHRONOUS : Z := 1.
(** [(void * ) -1] *)
Definition PTHREAD_CANCELED : Z := 2 ^ 64 - 1.

Record PthreadCancel := { canceled : bool; cancelstate : Z; canceltype : Z }.
Record cancels := { cancel_pthreads : gmap Z PthreadCancel }.

Module PthreadCancelManager.
Notation handler := (proc event cancels).

Definition AddThread (thread : Z) : handler unit :=
  e ← reads (λ s, cancel_pthreads s !! thread);
  _ ← ASSERTX (match e with None => true | Some _ => false end);
  modify (set cancel_pthreads <[thread :=
    {| canceled := false; cancelstate := PTHREAD_CANCEL_ENABLE; canceltype := PTHREAD_CANCEL_DEFERRED |}]>).

Definition KillThread (thread : Z) : handler unit :=
  e ← reads (λ s, cancel_pthreads s !! thread);
  _ ← ASSERTX (bool_decide (is_Some e));
  modify (set cancel_pthreads (delete thread)).

(** Null when the thread is not in the table; the callers dereference it. *)
Definition GetThreadCancelState (thread : Z) : handler PthreadCancel :=
  e ← reads (λ s, cancel_pthreads s !! thread);
  lift (some_or_undef e).

Definition Cancel (thread : Z) : handler bool :=
  e ← GetThreadCancelState thread;
  if cancelstate e =? PTHREAD_CANCEL_ENABLE then
    if canceltype e =? PTHREAD_CANCEL_ASYNCHRONOUS then mret true
    else
      _ ← ASSERTX (canceltype e =? PTHREAD_CANCEL_DEFERRED);
      _ ← modify (set cancel_pthreads <[thread := e <| canceled := true |>]>);
      mret false
  else mret false.

Definition IsCanceled (thread : Z) : handler bool := e ← GetThreadCancelState thread; mret (canceled e).

(** [oldstate] and [oldtype] may be null pointers. *)
Definition SetState (thread newstate oldstate : Z) : handler Z :=
  if negb (newstate =? PTHREAD_CANCEL_ENABLE) && negb (newstate =? PTHREAD_CANCEL_DISABLE) then mret EINVAL
  else
    e ← GetThreadCancelState thread;
    _ ← when (negb (oldstate =? 0)) (emit (Store oldstate (cancelstate e)));
    _ ← modify (set cancel_pthreads <[thread := e <| cancelstate := newstate |>]>);
    mret 0.

Definition SetType (thread newtype oldtype : Z) : handler Z :=
  if negb (newtype =? PTHREAD_CANCEL_ASYNCHRONOUS) && negb (newtype =? PTHREAD_CANCEL_DEFERRED) then mret EINVAL
  else
    e ← GetThreadCancelState thread;
    _ ← when (negb (oldtype =? 0)) (emit (Store oldtype (canceltype e)));
    _ ← modify (set cancel_pthreads <[thread := e <| canceltype := newtype |>]>);
    mret 0.
End PthreadCancelManager.

(** What a call of the library does with the thread that makes it: it returns, or Pin
    takes the thread elsewhere ([PIN_ExecuteAt] does not return). *)
Inductive flow (A : Type) : Type := Returns (a : A) | Leaves.
Arguments Returns {A} a.
Arguments Leaves {A}.

(** ** Cleanup handlers *)

Record cleanups := { cleanup_handlers : gmap Z (list (Z * Z)) }.

Module PthreadCleanupManager.
Notation handler := (proc event cleanups).

(** The stack of the thread, which it gets when it has none. *)
Definition GetHandlerLIFO (thread : Z) : handler (list (Z * Z)) :=
  h ← reads (λ s, cleanup_handlers s !! thread);
  match h with
  | Some l => mret l
  | None => _ ← modify (set cleanup_handlers <[thread := []]>); mret []
  end.

Definition PushHandler (thread func arg : Z) : handler unit :=
  l ← GetHandlerLIFO thread;
  modify (set cleanup_handlers <[thread := l ++ [(func, arg)]]>).

Definition PopHandler `{!Pin} (thread execute ctxt : Z) : handler (flow unit) :=
  h ← reads (λ s, cleanup_handlers s !! thread);
  match h with
  | None => mret (Returns tt)
  | Some _ =>
      l ← GetHandlerLIFO thread;
      match last l with
      | None => mret (Returns tt)
      | Some (func, arg) =>
          _ ← modify (set cleanup_handlers <[thread := take (length l - 1) l]>);
          if negb (execute =? 0) then
            let sp := PIN_GetContextReg ctxt REG_STACK_PTR in
            _ ← emit (Store sp arg);
            _ ← emit (Store (sp ⊖ 8) func);
            let ctxt := PIN_SetContextReg ctxt REG_STACK_PTR (sp ⊖ 16) in
            let ctxt := PIN_SetContextReg ctxt REG_INST_PTR StartThreadFunc in
            _ ← emit (ExecuteAt ctxt);
            mret Leaves
          else mret (Returns tt)
      end
  end.
End PthreadCleanupManager.

(** ** Once-only initialisation *)

Definition PTHREAD_ONCE_INIT : Z := 0.
Definition PTHREAD_ONCE_DONE : Z := 1.

(** The [once_control] words of the program; a word nobody has written is initial. *)
Record onces := { once_control : gmap Z Z }.

Definition pthread_once `{!Pin} (p init_routine ctxt : Z) : proc event onces (flow unit) :=
  _ ← ASSERTX (negb (p =? 0));
  v ← reads (λ s, default PTHREAD_ONCE_INIT (once_control s !! p));
  if v =? PTHREAD_ONCE_INIT then
    _ ← modify (set once_control <[p := PTHREAD_ONCE_DONE]>);
    _ ← emit (ExecuteAt (PIN_SetContextReg ctxt REG_INST_PTR init_routine));
    mret Leaves
  else mret (Returns tt).

(** ** Thread-specific data *)

Definition PTHREAD_KEYS_MAX : Z := 1024.

(** [PthreadTLS]: the data of one thread, by key. *)
Module PthreadTLS.
Definition AddKey {W} (key : Z) : proc W (gmap Z Z) unit :=
  d ← reads (λ s, s !! key);
  match d with
  | None => modify (insert key 0)
  | Some _ => ASSERTX (key =? 0)
  end.

Definition RemoveKey (key : Z) (tls : gmap Z Z) : bool * gmap Z Z :=
  match tls !! key with None => (false, tls) | Some _ => (true, delete key tls) end.

Definition SetData (key data : Z) (tls : gmap Z Z) : Z * gmap Z Z :=
  if negb (bool_decide (is_Some (tls !! key))) && negb (key =? 0) then (EINVAL, tls)
  else (0, <[key := data]> tls).

Definition GetData (key : Z) (tls : gmap Z Z) : Z := default 0 (tls !! key).
End PthreadTLS.

Record tls_table := {
  newkey : Z;
  tls : gmap Z (gmap Z Z);
  destr : gmap Z Z }.

Definition no_tls : tls_table := {| newkey := 1; tls := ∅; destr := ∅ |}.

Module PthreadTLSManager.
Notation handler := (proc event tls_table).

Definition GetTLS (thread : Z) : handler (gmap Z Z) :=
  e ← reads (λ s, tls s !! thread);
  match e with Some e => mret e | None => fails Fatal end.

(** Run on the data of a thread that is in the table. *)
Definition on_thread {A} (thread : Z) (d : gmap Z Z) (m : proc event (gmap Z Z) A) : handler A := fun s =>
  match m d with
  | Ok (a, d', o) => Ok (a, s <| tls ::= <[thread := d']> |>, o)
  | Err f => Err f
  end.

Definition AddThread (thread : Z) : handler unit :=
  e ← reads (λ s, tls s !! thread);
  _ ← ASSERTX (match e with None => true | Some _ => false end);
  ks ← reads (λ s, (in_order (destr s)).*1);
  on_thread thread ∅ (for_each ks PthreadTLS.AddKey).

Definition KillThread (thread : Z) : handler unit :=
  d ← GetTLS thread;
  ds ← reads (λ s, in_order (destr s));
  _ ← when (negb (thread =? 0)) (for_each ds (λ '(key, func),
        when (negb (func =? 0)) (emit (CallDestructor func (PthreadTLS.GetData key d)))));
  modify (set tls (delete thread)).

(** The key is returned through [*key], also with an error. *)
Definition AddKey (func : Z) : handler (Z * Z) :=
  key ← reads newkey;
  _ ← modify (set newkey (λ k, k ⊕₃₂ 1));
  n ← reads (λ s, Z.of_nat (size (tls s)));
  if PTHREAD_KEYS_MAX <=? n then mret (key, EAGAIN)
  else
    ts ← reads (λ s, in_order (tls s));
    _ ← for_each ts (λ '(thread, d), on_thread thread d (PthreadTLS.AddKey key));
    e ← reads (λ s, destr s !! key);
    _ ← ASSERTX (match e with None => true | Some _ => false end);
    _ ← modify (set destr <[key := func]>);
    mret (key, 0).

Definition RemoveKey (key : Z) : handler Z :=
  ts ← reads (λ s, in_order (tls s));
  known ← reads (λ s, bool_decide (is_Some (destr s !! key)));
  _ ← modify (λ s, s <| tls ::= fmap (λ d, snd (PthreadTLS.RemoveKey key d)) |> <| destr ::= delete key |>);
  if forallb (λ td, fst (PthreadTLS.RemoveKey key (snd td))) ts && known then mret 0 else mret EINVAL.

Definition SetData (thread key data : Z) : handler Z :=
  d ← GetTLS thread;
  let (error, d') := PthreadTLS.SetData key data d in
  _ ← modify (set tls <[thread := d']>);
  mret error.

Definition GetData (thread key : Z) : handler Z :=
  d ← GetTLS thread;
  mret (PthreadTLS.GetData key d).
End PthreadTLSManager.

(** ** Where threads may be switched (PthreadMalloc) *)

(** [s.find(sub) != npos] *)
Definition contains (sub s : string) : bool :=
  match String.index 0 sub s with Some _ => true | None => false end.

Record malloc_state := { enablecontextswitch : bool; malloc_depth : Z; malloc_current : Z }.

Module PthreadMalloc.
Notation handler := (proc event malloc_state).

Definition init : malloc_state := {| enablecontextswitch := true; malloc_depth := 0; malloc_current := 0 |}.

Definition CanSwitchThreads : handler bool := reads enablecontextswitch.

Definition IsMalloc (rtn_name : string) : bool :=
  existsb (λ sub, contains sub rtn_name)
    ["__libc_malloc"; "_int_malloc"; "calloc"; "realloc"; "__cfree"; "_int_free"; "istream";
     "ostream"; "fstream"; "printf"; "malloc"; "mmap"]%string
  && negb (contains "g_" rtn_name) && negb (contains "iostream" rtn_name).

Definition Analyze (thread : Z) (iscall istailcall : bool) (rtn_name : string) : handler unit :=
  s ← reads id;
  if enablecontextswitch s then
    _ ← ASSERTX (malloc_depth s =? 0);
    when (iscall && IsMalloc rtn_name)
      (modify (λ s, s <| enablecontextswitch := false |> <| malloc_depth ::= λ d, d ⊕₃₂ 1 |>
                      <| malloc_current := thread |>))
  else if negb (contains "pthread" rtn_name) || contains "_pthread" rtn_name then
    _ ← ASSERTX (0 <? malloc_depth s);
    _ ← ASSERTX (malloc_current s =? thread);
    if iscall && negb istailcall then modify (set malloc_depth (λ d, d ⊕₃₂ 1))
    else if (istailcall && (malloc_depth s =? 1) && negb (IsMalloc rtn_name)) || negb iscall then
      _ ← modify (set malloc_depth (λ d, d ⊖₃₂ 1));
      d ← reads malloc_depth;
      when (d =? 0) (modify (set enablecontextswitch (λ _, true)))
    else mret tt
  else mret tt.
End PthreadMalloc.
