(* ===== verification/PthreadScheduler.v ===== *)
(** * The scheduler of the front end (EEPthreadScheduler.cpp)

    It keeps the state of every thread of the process, tells the simulator which hardware
    thread runs which, and switches the context of the process to the thread the
    simulator wants to hear from. *)

From S2P Require Import Prelude PthreadAttr Frontend PthreadThreads.
Import PTSInterface.

Definition def_stack_sz : Z := 2 ^ 23.
(** [sizeof(ADDRINT)] *)
Definition word_size : Z := 8.

(** A thread.  [startctxt] and [fpstate] hold where it goes on; they are 0 until
    something is saved there. *)
Record Pthread := {
  active : bool;
  started : bool;
  executed : bool;
  stack : Z;
  stacksize : Z;
  startctxt : Z;
  fpstate : Z;
  start_time : Z;
  num_ins : Z;
  num_ins_for_spinning : Z;
  num_ins_mem_rd : Z;
  num_ins_mem_wr : Z;
  num_ins_2nd_mem_rd : Z;
  skip_instrs : Z;
  spinning : Z;
  num_mutex_lock : Z;
  num_mutex_trylock : Z }.

(** [hth_to_pth] and [current] are iterators: the thread they point at, or nothing
    before they are set.  An iterator of a thread that was erased dangles. *)
Record scheduler {B : Type} := {
  pthreads : gmap Z Pthread;
  current : option Z;
  nactive : Z;
  curr_time : Z;
  pts : PTS.pts B;
  pth_to_hth : gmap Z Z;
  hth_to_pth : list (option Z);
  total_instrs : Z;
  total_discarded_instrs : Z;
  total_discarded_mem_rd : Z;
  total_discarded_mem_wr : Z;
  total_discarded_2nd_mem_rd : Z;
  num_cond_broadcast : Z;
  num_cond_signal : Z;
  num_cond_wait : Z;
  num_barrier_wait : Z;
  ignore_skip_instrs : bool;
  repeat_playing : bool }.
Arguments scheduler : clear implicits.

Module PthreadScheduler.
Section Scheduler.
Context {B : Type} {BE : Backend B} {PIN : Pin}.

Notation handler := (proc event (scheduler B)).

Definition on_pts {A} (m : proc event (PTS.pts B) A) : handler A :=
  zoom pts (λ f s, s <| pts ::= f |>) m.

(** ** Tables *)

Definition GetThread (thread : Z) : handler Pthread :=
  e ← reads (λ s, pthreads s !! thread);
  match e with Some e => mret e | None => fails Fatal end.

Definition update_thread (thread : Z) (f : Pthread → Pthread) : handler unit :=
  modify (set pthreads (alter f thread)).

(** [current->first] and [current->second]; undefined when [current] is not set, or dangles. *)
Definition current_entry : handler (Z * Pthread) :=
  c ← reads current;
  t ← lift (some_or_undef c);
  e ← reads (λ s, pthreads s !! t);
  p ← lift (some_or_undef e);
  mret (t, p).

Definition update_current (f : Pthread → Pthread) : handler unit :=
  '(t, _) ← current_entry;
  update_thread t f.

Definition GetCurrentThread : handler Z := '(t, _) ← current_entry; mret t.

Definition IsActive (thread : Z) : handler bool := p ← GetThread thread; mret (active p).

Definition IsThreadValid (thread : Z) : handler bool :=
  reads (λ s, bool_decide (is_Some (pthreads s !! thread))).

(** It names the thread to the simulator by its pthread id. *)
Definition SetActiveState (thread : Z) (b : bool) : handler unit :=
  _ ← GetThread thread;
  _ ← update_thread thread (λ p, p <| active := b |>);
  on_pts (PTS.set_active (i32 thread) b).

(** [pth_to_hth[pthreads[thread]]]: a thread that does not exist is a null pointer, for
    which the table makes up 0. *)
Definition hth_of (thread : Z) : handler Z :=
  reads (λ s, match pthreads s !! thread with
              | Some _ => default 0 (pth_to_hth s !! thread)
              | None => 0
              end).

(** An instruction that stands for a synchronisation. *)
Definition synch_instr (hth time waddr wlen : Z) (islock isunlock isbarrier : bool) : PTSInstr :=
  {| hthreadid_ := hth; curr_time_ := time; waddr := waddr; wlen := wlen; raddr := 0; raddr2 := 0;
     rlen := 0; ip := 0; category := 0; isbranch := false; isbranchtaken := false; islock := islock;
     isunlock := isunlock; isbarrier := isbarrier; rr0 := 0; rr1 := 0; rr2 := 0; rr3 := 0;
     rw0 := 0; rw1 := 0; rw2 := 0; rw3 := 0 |}.

Definition send_synch (thread waddr wlen : Z) (islock isunlock isbarrier : bool) : handler unit :=
  _ ← GetThread thread;
  hth ← hth_of thread;
  t ← reads curr_time;
  _ ← on_pts (PTS.add_instruction (synch_instr hth t waddr wlen islock isunlock isbarrier) false);
  mret tt.

(** ** Threads come and go *)

(** The constructor of [Pthread]; [new_stack] is what [mmap] returns for its stack. *)
Definition new_Pthread (ctxt : option Z) (func arg time new_stack : Z) : handler Pthread :=
  match ctxt with
  | Some ctxt =>
      sz ← on_pts (PTS.get_param_uint64 "stack_sz" def_stack_sz);
      let sz := if (sz / word_size) mod 2 =? 0 then sz ⊕ word_size else sz in
      _ ← ASSERTX (negb (new_stack =? 2 ^ 64 - 1));
      let sp := new_stack ⊕ word_size * (sz / word_size - 1) in
      _ ← ASSERTX (Z.land sp 7 =? 0);
      _ ← ASSERTX (Z.land sp 8 =? 0);
      let sp := sp ⊖ word_size in
      _ ← emit (Store sp StartThreadFunc);
      let c := PIN_SetContextReg ctxt REG_STACK_PTR sp in
      let c := PIN_SetContextReg c REG_GDI arg in
      let c := PIN_SetContextReg c REG_INST_PTR func in
      mret {| active := true; started := false; executed := true; stack := new_stack; stacksize := sz;
              startctxt := c; fpstate := PIN_GetContextFPState ctxt; start_time := time; num_ins := 0;
              num_ins_for_spinning := 0; num_ins_mem_rd := 0; num_ins_mem_wr := 0;
              num_ins_2nd_mem_rd := 0; skip_instrs := 0; spinning := 0; num_mutex_lock := 0;
              num_mutex_trylock := 0 |}
  | None =>
      mret {| active := true; started := true; executed := true; stack := 0; stacksize := 0;
              startctxt := 0; fpstate := 0; start_time := time; num_ins := 0;
              num_ins_for_spinning := 0; num_ins_mem_rd := 0; num_ins_mem_wr := 0;
              num_ins_2nd_mem_rd := 0; skip_instrs := 0; spinning := 0; num_mutex_lock := 0;
              num_mutex_trylock := 0 |}
  end.

(** [hth_to_pth.insert(hth_to_pth.begin() + n, it)]: undefined behind the end. *)
Definition insert_at {A} (n : Z) (x : A) (l : list A) : outcome (list A) :=
  if (0 <=? n) && (n <=? Z.of_nat (length l)) then Ok (take (Z.to_nat n) l ++ x :: drop (Z.to_nat n) l)
  else Err Undef.

Definition AddThread (thread : Z) (startctxt : option Z) (func arg new_stack : Z) : handler unit :=
  e ← reads (λ s, pthreads s !! thread);
  _ ← ASSERTX (match e with None => true | Some _ => false end);
  t ← reads curr_time;
  p ← new_Pthread startctxt func arg t new_stack;
  _ ← modify (set pthreads <[thread := p]>);
  n ← reads (λ s, Z.of_nat (size (pthreads s)));
  num ← reads (λ s, PTS.num_hthreads (pts s));
  _ ← (if n =? 1 then modify (set current (λ _, Some thread)) else ASSERTX (negb (num <? n)));
  _ ← modify (set nactive (λ k, k ⊕₃₂ 1));
  let pthread_num := n - 1 in
  h ← reads hth_to_pth;
  h ← lift (insert_at pthread_num (Some thread) h);
  _ ← modify (set hth_to_pth (λ _, h));
  _ ← modify (set pth_to_hth <[thread := u32 pthread_num]>);
  _ ← on_pts (PTS.set_stack_n_size (i32 pthread_num) (stack p) (stacksize p));
  _ ← on_pts (PTS.set_active (i32 pthread_num) (active p));
  _ ← on_pts PTS.get_curr_time;
  if negb (pthread_num =? 0) then
    t ← reads curr_time;
    _ ← on_pts (PTS.add_instruction (synch_instr (u32 pthread_num) t 0 0 false false false) false);
    mret tt
  else mret tt.

Definition KillThread (thread : Z) : handler unit :=
  c ← GetCurrentThread;
  _ ← (if thread =? c then a ← IsActive thread; ASSERTX a else mret tt);
  hth ← hth_of thread;
  _ ← on_pts (PTS.set_stack_n_size (i32 hth) 0 0);
  _ ← on_pts (PTS.set_active (i32 hth) false);
  _ ← on_pts PTS.get_curr_time;
  _ ← modify (set pthreads (delete thread));
  modify (set nactive (λ k, k ⊖₃₂ 1)).

(** ** Switching *)

(** [PIN_SaveContext] and the floating-point state, into the current thread. *)
Definition save_context (ctxt : Z) : handler unit :=
  update_current (λ p, p <| startctxt := ctxt |> <| fpstate := PIN_GetContextFPState ctxt |>
                         <| executed := false |>).

Definition resume_simulation (must_switch killed : bool) : handler (flow unit) :=
  '(hth, time) ← on_pts (PTS.resume_simulation must_switch killed);
  _ ← modify (set curr_time (λ _, time));
  h ← reads hth_to_pth;
  it ← match h !! Z.to_nat hth with Some it => mret it | None => fails Fatal end;
  c ← reads current;
  same ← (if bool_decide (it = c) then '(_, p) ← current_entry; mret (started p) else mret false);
  if same : bool then
    _ ← update_current (λ p, p <| executed := true |>);
    mret (Returns tt)
  else
    _ ← modify (set current (λ _, it));
    n ← reads nactive;
    if (1 <? n) || must_switch then
      _ ← update_current (λ p, p <| started := true |>);
      '(_, p) ← current_entry;
      _ ← emit (ExecuteAt (PIN_SetContextFPState (startctxt p) (fpstate p)));
      mret Leaves
    else mret (Returns tt).

(** A barrier travels in the address and the length of a store. *)
Definition BlockThread (thread ctxt barrier n_part : Z) : handler (flow unit) :=
  _ ← when (negb (barrier =? 0)) (send_synch thread barrier n_part false false true);
  a ← IsActive thread;
  _ ← ASSERTX a;
  _ ← SetActiveState thread false;
  _ ← modify (set nactive (λ k, k ⊖₃₂ 1));
  n ← reads nactive;
  _ ← ASSERTX (0 <? n);
  _ ← save_context ctxt;
  resume_simulation true false.

Definition UnblockThread (thread : Z) : handler unit :=
  a ← IsActive thread;
  _ ← ASSERTX (negb a);
  _ ← SetActiveState thread true;
  _ ← send_synch thread 0 0 false false false;
  modify (set nactive (λ k, k ⊕₃₂ 1)).

(** [ignore_skip_instrs == false && skip_instrs > 0 && spinning <= 0] *)
Definition skipping (p : Pthread) : handler bool :=
  i ← reads ignore_skip_instrs;
  mret (negb i && (0 <? skip_instrs p) && (spinning p <=? 0)).

Definition add_synch_instruction (thread : Z) (islock isunlock : bool) (barrier n_part : Z) : handler unit :=
  '(_, p) ← current_entry;
  skip ← skipping p;
  if skip : bool then mret tt
  else if negb (barrier =? 0) then send_synch thread barrier n_part islock isunlock true
  else send_synch thread 0 0 islock isunlock false.

Definition GetAttr (thread : Z) (attr : PthreadAttr.pthread_attr) : handler PthreadAttr.pthread_attr :=
  e ← reads (λ s, pthreads s !! thread);
  p ← lift (some_or_undef e);
  if stack p =? 0 then mret (snd (PthreadAttr.attr_setstack 0xbfff0000 0x10000 attr))
  else mret (snd (PthreadAttr.attr_setstack (stack p) (stacksize p) attr)).

Definition GetNumActiveThreads : handler Z := reads nactive.

(** ** Instructions *)

Definition instr_of (hth time : Z) (i : PTSInstrTrace) : PTSInstr :=
  {| hthreadid_ := hth; curr_time_ := time; waddr := t_waddr i; wlen := t_wlen i; raddr := t_raddr i;
     raddr2 := t_raddr2 i; rlen := t_rlen i; ip := t_ip i; category := t_category i;
     isbranch := t_isbranch i; isbranchtaken := t_isbranchtaken i; islock := false; isunlock := false;
     isbarrier := false; rr0 := t_rr0 i; rr1 := t_rr1 i; rr2 := t_rr2 i; rr3 := t_rr3 i;
     rw0 := t_rw0 i; rw1 := t_rw1 i; rw2 := t_rw2 i; rw3 := t_rw3 i |}.

(** [x += c ? 1 : 0] on [uint64_t]. *)
Definition count_if (c : bool) (x : Z) : Z := if c then x ⊕ 1 else x.

(** [context] is a null pointer for an instruction of a trace. *)
Definition process_ins (context : option Z) (i : PTSInstrTrace) : handler (flow unit) :=
  '(t, p) ← current_entry;
  if negb (executed p) && bool_decide (is_Some context) then
    _ ← update_thread t (λ p, p <| executed := true |>);
    mret (Returns tt)
  else
    skip ← skipping p;
    if skip : bool then mret (Returns tt)
    else
      _ ← update_thread t (λ p, p
        <| num_ins_mem_rd ::= count_if (negb (t_raddr i =? 0)) |>
        <| num_ins_mem_wr ::= count_if (negb (t_waddr i =? 0)) |>
        <| num_ins_2nd_mem_rd ::= count_if (negb (t_raddr2 i =? 0)) |>
        <| num_ins ::= count_if true |>
        <| num_ins_for_spinning ::= count_if (0 <? spinning p) |>);
      _ ← modify (set total_instrs (count_if true));
      hth ← hth_of t;
      time ← reads curr_time;
      must_resume ← on_pts (PTS.add_instruction (instr_of hth time i) true);
      if must_resume : bool then
        n ← reads nactive;
        _ ← when (1 <? n) (match context with Some c => save_context c | None => fails Undef end);
        resume_simulation false false
      else mret (Returns tt).

Definition set_stack (ctxt : Z) : handler unit :=
  '(t, p) ← current_entry;
  if stack p =? 0 then
    sz ← on_pts (PTS.get_param_uint64 "stack_sz" def_stack_sz);
    let st := PIN_GetContextReg ctxt REG_STACK_PTR ⊖ sz ⊕ word_size in
    _ ← update_thread t (λ p, p <| stacksize := sz |> <| stack := st |>);
    on_pts (PTS.set_stack_n_size (i32 t) st sz)
  else mret tt.

Definition mcsim_skip_instrs_begin : handler unit := update_current (λ p, p <| skip_instrs ::= λ n, i32 (n + 1) |>).
Definition mcsim_skip_instrs_end : handler unit := update_current (λ p, p <| skip_instrs ::= λ n, i32 (n - 1) |>).
Definition mcsim_spinning_begin : handler unit := update_current (λ p, p <| spinning ::= λ n, i32 (n + 1) |>).
Definition mcsim_spinning_end : handler unit := update_current (λ p, p <| spinning ::= λ n, i32 (n - 1) |>).

(** ** Construction and destruction *)

Definition init (b : B) : scheduler B :=
  {| pthreads := ∅; current := None; nactive := 0; curr_time := 0; pts := PTS.init b; pth_to_hth := ∅;
     hth_to_pth := []; total_instrs := 0; total_discarded_instrs := 0; total_discarded_mem_rd := 0;
     total_discarded_mem_wr := 0; total_discarded_2nd_mem_rd := 0; num_cond_broadcast := 0;
     num_cond_signal := 0; num_cond_wait := 0; num_barrier_wait := 0; ignore_skip_instrs := false;
     repeat_playing := false |}.

Definition make : handler unit :=
  _ ← on_pts PTS.make;
  n ← reads (λ s, PTS.num_hthreads (pts s));
  _ ← modify (set hth_to_pth (λ _, replicate (Z.to_nat n) None));
  ignore ← on_pts (PTS.get_param_bool "pts.ignore_skip_instrs" false);
  _ ← modify (set ignore_skip_instrs (λ _, ignore));
  repeat_ ← on_pts (PTS.get_param_bool "pts.repeat_playing" false);
  modify (set repeat_playing (λ _, repeat_)).

Definition destroy : handler (flow unit) :=
  f ← resume_simulation true true;
  match f with
  | Leaves => mret Leaves
  | Returns _ =>
      c ← GetCurrentThread;
      _ ← KillThread c;
      _ ← on_pts PTS.destroy;
      mret (Returns tt)
  end.

End Scheduler.
End PthreadScheduler.
