(* ===== verification/Trace.v ===== *)
(** * Instruction traces: the writer (tracegen.cpp) and the player (PlayTraces)

    The trace generator cuts the instructions of a program into slices and writes the
    chosen ones to files, each as groups of instructions, compressed, with a footer; the
    front end plays a file instead of running a program.  Compression is Snappy's, a
    parameter with the one law that makes it lossless. *)

From coqutil Require Word.LittleEndianList.
From S2P Require Import Prelude Frontend PthreadThreads PthreadScheduler.
Import PTSInterface.
Import Byte.

(** ** The layout of a file *)

Module TraceFormat.
Import LittleEndianList.

Definition instr_group_size : nat := 100000.
Definition kTraceMagicNumber : Z := 0x1628efca19620db1.

(** A structure in memory: its fields and the padding between them, little endian; the
    layout lists their sizes. *)
Fixpoint pack (layout : list nat) (fields : list Z) : list byte :=
  match layout, fields with
  | n :: layout, x :: fields => le_split n x ++ pack layout fields
  | _, _ => []
  end.
Fixpoint unpack (layout : list nat) (b : list byte) : list Z :=
  match layout with
  | n :: layout => le_combine (take n b) :: unpack layout (drop n b)
  | [] => []
  end.

(** [PTSInstrTrace]: padding follows [wlen], [rlen] and [isbranchtaken].  The array of
    the writer is static, so its padding is 0. *)
Definition instr_layout : list nat := [8; 4; 4; 8; 8; 4; 4; 8; 4; 1; 1; 2; 4; 4; 4; 4; 4; 4; 4; 4]%nat.
Definition sizeof_instr : nat := 88.

Definition instr_bytes (i : PTSInstrTrace) : list byte :=
  pack instr_layout [t_waddr i; t_wlen i; 0; t_raddr i; t_raddr2 i; t_rlen i; 0; t_ip i; t_category i;
    Z.b2z (t_isbranch i); Z.b2z (t_isbranchtaken i); 0; t_rr0 i; t_rr1 i; t_rr2 i; t_rr3 i; t_rw0 i; t_rw1 i;
    t_rw2 i; t_rw3 i].

Definition no_instr : PTSInstrTrace :=
  {| t_waddr := 0; t_wlen := 0; t_raddr := 0; t_raddr2 := 0; t_rlen := 0; t_ip := 0; t_category := 0;
     t_isbranch := false; t_isbranchtaken := false; t_rr0 := 0; t_rr1 := 0; t_rr2 := 0; t_rr3 := 0;
     t_rw0 := 0; t_rw1 := 0; t_rw2 := 0; t_rw3 := 0 |}.

Definition instr_of_bytes (b : list byte) : PTSInstrTrace :=
  match unpack instr_layout b with
  | [waddr; wlen; _; raddr; raddr2; rlen; _; ip; category; br; taken; _; rr0; rr1; rr2; rr3; rw0; rw1; rw2; rw3] =>
      {| t_waddr := waddr; t_wlen := wlen; t_raddr := raddr; t_raddr2 := raddr2; t_rlen := rlen; t_ip := ip;
         t_category := category; t_isbranch := negb (br =? 0); t_isbranchtaken := negb (taken =? 0); t_rr0 := rr0;
         t_rr1 := rr1; t_rr2 := rr2; t_rr3 := rr3; t_rw0 := rw0; t_rw1 := rw1; t_rw2 := rw2; t_rw3 := rw3 |}
  | _ => no_instr
  end.

(** An array of them, and one of [n] at the start of a buffer. *)
Definition instrs_bytes (l : list PTSInstrTrace) : list byte := l ≫= instr_bytes.
Definition instrs_of_bytes (n : nat) (b : list byte) : list PTSInstrTrace :=
  (λ k, instr_of_bytes (drop (k * sizeof_instr) b)) <$> seq 0 n.

(** [Footer]: padding follows [instr_group_size_], and holds whatever was there. *)
Record Footer := { offset_ : Z; total_slice_ : Z; instr_group_size_ : Z; magic_number_ : Z }.
Definition footer_layout : list nat := [8; 8; 4; 4; 8]%nat.
Definition sizeof_footer : nat := 32.

Definition footer_bytes (pad : Z) (f : Footer) : list byte :=
  pack footer_layout [offset_ f; total_slice_ f; instr_group_size_ f; pad; magic_number_ f].
Definition footer_of_bytes (b : list byte) : Footer :=
  match unpack footer_layout b with
  | [offset; total; group; _; magic] =>
      {| offset_ := offset; total_slice_ := total; instr_group_size_ := group; magic_number_ := magic |}
  | _ => {| offset_ := 0; total_slice_ := 0; instr_group_size_ := 0; magic_number_ := 0 |}
  end.
End TraceFormat.

(** ** The writer *)

Module TraceGen.
Import TraceFormat LittleEndianList.

(** The globals.  [curr_file] is the slice whose file is open, [files] what was written
    so far, by slice; [slice_index_iter] are the slices still to be traced. *)
Record tracer := {
  num_instrs : Z;
  num_ins_mem_rd : Z;
  num_ins_mem_wr : Z;
  num_ins_2nd_mem_rd : Z;
  slice_index_iter : list Z;
  curr_file : option Z;
  files : gmap Z (list byte);
  curr_index : Z;
  tracing : bool;
  instrs : list PTSInstrTrace;
  slice_count : Z;
  offset : Z }.

Section Writer.
(** [G] is [instr_group_size]; [can_open] says which files can be created, [pad] is what
    the padding of the footer holds. *)
Context (G : nat) (slice_size : Z) (can_open : Z → bool) (pad : Z).
Context (RawCompress : list byte → list byte).

Notation handler := (proc event tracer).

(** [std::set] *)
Definition in_set_order (l : list Z) : list Z := merge_sort Z.le (remove_dups l).

(** [Init], with the slices of the command line; without any the program exits. *)
Definition Init (index : list Z) : option tracer :=
  match in_set_order index with
  | [] => None
  | its => Some {| num_instrs := 0; num_ins_mem_rd := 0; num_ins_mem_wr := 0; num_ins_2nd_mem_rd := 0;
                   slice_index_iter := its; curr_file := None; files := ∅; curr_index := 0; tracing := false;
                   instrs := replicate G no_instr; slice_count := 0; offset := 0 |}
  end.

(** [n % slice_size == 0] *)
Definition at_boundary (n : Z) : handler bool :=
  if slice_size =? 0 then fails Undef else mret (n mod slice_size =? 0).

(** [curr_file.write], which does nothing when no file is open. *)
Definition write (b : list byte) : handler unit :=
  modify (λ s, match curr_file s with Some k => s <| files ::= alter (λ f, f ++ b) k |> | None => s end).

(** A slice begins: it is traced when its index is the next wanted. *)
Definition begin_slice : handler (flow unit) :=
  i ← reads curr_index;
  it ← reads slice_index_iter;
  x ← lift (some_or_undef (head it));
  f ← (if i =? x then
         _ ← modify (λ s, s <| tracing := true |> <| slice_index_iter := tail it |>);
         if can_open i then
           _ ← modify (λ s, s <| files ::= <[i := []]> |> <| curr_file := Some i |>);
           mret (Returns tt)
         else mret Leaves
       else mret (Returns tt));
  match f with
  | Leaves => mret Leaves
  | Returns _ => _ ← modify (set curr_index (λ i, i ⊕ 1)); mret (Returns tt)
  end.

Definition write_group : handler unit :=
  _ ← modify (set slice_count (λ c, c ⊕ 1));
  l ← reads instrs;
  let compressed := RawCompress (instrs_bytes l) in
  let compressed_length := Z.of_nat (length compressed) in
  c ← reads slice_count;
  _ ← write (le_split 8 c);
  _ ← write (le_split 8 compressed_length);
  _ ← write compressed;
  modify (set offset (λ o, o ⊕ 16 ⊕ compressed_length)).

Definition end_slice : handler (flow unit) :=
  _ ← modify (set tracing (λ _, false));
  c ← reads slice_count;
  o ← reads offset;
  _ ← write (footer_bytes pad {| offset_ := o; total_slice_ := c; instr_group_size_ := Z.of_nat G;
                                 magic_number_ := kTraceMagicNumber |});
  _ ← modify (λ s, s <| curr_file := None |> <| slice_count := 0 |> <| offset := 0 |>);
  it ← reads slice_index_iter;
  mret (match it with [] => Leaves | _ => Returns tt end).

(** An instruction of a slice that is traced. *)
Definition trace_instr (i : PTSInstrTrace) : handler (flow unit) :=
  n ← reads num_instrs;
  _ ← modify (λ s, s
    <| instrs ::= <[Z.to_nat (n mod Z.of_nat G) := i]> |>
    <| num_ins_mem_rd ::= PthreadScheduler.count_if (negb (t_raddr i =? 0)) |>
    <| num_ins_mem_wr ::= PthreadScheduler.count_if (negb (t_waddr i =? 0)) |>
    <| num_ins_2nd_mem_rd ::= PthreadScheduler.count_if (negb (t_raddr2 i =? 0)) |>
    <| num_instrs ::= λ n, n ⊕ 1 |>);
  n ← reads num_instrs;
  _ ← when (n mod Z.of_nat G =? 0) write_group;
  b ← at_boundary n;
  if b : bool then end_slice else mret (Returns tt).

(** It is called before every instruction of the program; [Leaves] is its [exit(1)]. *)
Definition ProcessMemIns (i : PTSInstrTrace) : handler (flow unit) :=
  n ← reads num_instrs;
  b ← at_boundary n;
  f ← (if b : bool then begin_slice else mret (Returns tt));
  match f with
  | Leaves => mret Leaves
  | Returns _ =>
      t ← reads tracing;
      if t : bool then trace_instr i
      else
        _ ← modify (set num_instrs (λ n, n ⊕ 1));
        mret (Returns tt)
  end.

(** The program, as far as it runs. *)
Fixpoint trace (l : list PTSInstrTrace) : handler (flow unit) :=
  match l with
  | [] => mret (Returns tt)
  | i :: l =>
      f ← ProcessMemIns i;
      match f with Leaves => mret Leaves | Returns _ => trace l end
  end.
End Writer.
End TraceGen.

(** ** The player *)

Module TracePlay.
Import TraceFormat LittleEndianList.

Section Player.
Context {B : Type} {BE : Backend B} {PIN : Pin}.
Context (G : nat) (MaxCompressedLength : Z) (RawUncompress : list byte → option (list byte)).

Notation handler := (proc event (scheduler B)).

(** [read] of [n] bytes into a buffer: at the end of the file it reads what is left. *)
Definition read_into (n : nat) (buffer rest : list byte) : list byte * list byte :=
  let got := take n rest in (got ++ drop (length got) buffer, drop n rest).

(** The instructions of a group: the first [skip] of the file are left out; [sent] is
    [num_sent_instrs]. *)
Fixpoint play_instrs (skip sent : Z) (l : list PTSInstrTrace) : handler (flow Z) :=
  match l with
  | [] => mret (Returns sent)
  | i :: l =>
      f ← (if skip <=? sent then PthreadScheduler.process_ins None i else mret (Returns tt));
      match f with Leaves => mret Leaves | Returns _ => play_instrs skip (sent ⊕ 1) l end
  end.

(** How a pass over the file ends: at its end, with the instructions counted so far; with
    a return from [PlayTraces] because the file cannot be opened or a group is corrupted; or
    not within the fuel. *)
Inductive played : Type := PlayedAll (sent : Z) | Unopened | Corrupted | Unfinished.

(** The groups: [count] and [len] are the bytes of [slice_count] and of
    [compressed_length]. *)
Fixpoint play_groups (fuel : nat) (total skip sent : Z) (count len compressed buffer rest : list byte)
    : handler (flow played) :=
  match fuel with
  | O => mret (Returns Unfinished)
  | S fuel =>
      let (count, rest) := read_into 8 count rest in
      let (len, rest) := read_into 8 len rest in
      let n := Z.to_nat (le_combine len) in
      _ ← (if MaxCompressedLength <? le_combine len then fails Undef else mret tt);
      let (compressed, rest) := read_into n compressed rest in
      match RawUncompress (take n compressed) with
      | None => mret (Returns Corrupted)
      | Some b =>
          _ ← (if (G * sizeof_instr <? length b)%nat then fails Undef else mret tt);
          let buffer := b ++ drop (length b) buffer in
          f ← play_instrs skip sent (instrs_of_bytes G buffer);
          match f with
          | Leaves => mret Leaves
          | Returns sent =>
              if le_combine count <? total
              then play_groups fuel total skip sent count len compressed buffer rest
              else mret (Returns (PlayedAll sent))
          end
      end
  end.

(** One pass over the file; [compressed] and [buffer] are what the new arrays hold. *)
Definition play_file (fuel : nat) (skip sent : Z) (compressed buffer file : list byte) : handler (flow played) :=
  _ ← ASSERTX (sizeof_footer <=? length file)%nat;
  let offset := (length file - sizeof_footer)%nat in
  let footer := footer_of_bytes (drop offset file) in
  _ ← ASSERTX (magic_number_ footer =? kTraceMagicNumber);
  _ ← ASSERTX (offset_ footer =? Z.of_nat offset);
  _ ← ASSERTX (0 <? total_slice_ footer);
  play_groups fuel (total_slice_ footer) skip sent (le_split 8 (total_slice_ footer)) (le_split 8 0) compressed buffer file.

(** [PlayTraces]: pass after pass while [repeat_playing]; the file may not open. *)
Fixpoint PlayTraces (passes fuel : nat) (skip sent : Z) (compressed buffer : list byte) (trace_file : option (list byte))
    : handler (flow played) :=
  match passes, trace_file with
  | O, _ => mret (Returns Unfinished)
  | S _, None => mret (Returns Unopened)
  | S passes, Some file =>
      f ← play_file fuel skip sent compressed buffer file;
      match f with
      | Returns (PlayedAll sent) =>
          again ← reads repeat_playing;
          if again : bool then PlayTraces passes fuel skip sent compressed buffer trace_file else mret f
      | _ => mret f
      end
  end.
End Player.

(** What a front end that plays a trace is given: its options, the files, what Snappy does,
    what the new arrays hold, and how long the model follows it.  Without a name the front
    end runs a program. *)
Record player := {
  trace_name : string;
  trace_skip_first : Z;
  file_system : string → option (list byte);
  group_size : nat;
  snappy_max : Z;
  snappy_uncompress : list byte → option (list byte);
  new_compressed : list byte;
  new_buffer : list byte;
  play_passes : nat;
  play_fuel : nat }.

Definition no_player : player :=
  {| trace_name := ""; trace_skip_first := 0; file_system := λ _, None; group_size := instr_group_size;
     snappy_max := 0; snappy_uncompress := λ _, None; new_compressed := []; new_buffer := []; play_passes := 0; play_fuel := 0 |}.

(** [scheduler->PlayTraces(trace_name, trace_skip_first)] *)
Definition play {B : Type} {BE : Backend B} {PIN : Pin} (P : player) : proc event (scheduler B) (flow played) :=
  PlayTraces (group_size P) (snappy_max P) (snappy_uncompress P) (play_passes P) (play_fuel P) (trace_skip_first P) 0
    (new_compressed P) (new_buffer P) (file_system P (trace_name P)).
End TracePlay.

(** ** A structure reads back *)

Module TraceProofs.
Import TraceFormat TraceGen TracePlay LittleEndianList.

Lemma unpack_pack layout fields rest : length layout = length fields →
  unpack layout (pack layout fields ++ rest) = zip_with (λ n x, x mod 2 ^ (Z.of_nat n * 8)) layout fields.
Proof.
  revert fields. induction layout as [|n layout IH]; intros [|x fields] Hl; try done.
  cbn [unpack pack zip_with]. rewrite <- app_assoc, take_app_length', drop_app_length' by by rewrite length_le_split.
  rewrite le_combine_split. f_equal. apply IH. by injection Hl.
Qed.

Lemma length_pack layout fields : length layout = length fields → length (pack layout fields) = sum_list layout.
Proof.
  revert fields. induction layout as [|n layout IH]; intros [|x fields] Hl; try done. cbn [pack].
  rewrite length_app, length_le_split, IH; [done|by injection Hl].
Qed.

Record instr_ok (i : PTSInstrTrace) : Prop := {
  ok_waddr : in_u64 (t_waddr i); ok_wlen : in_u32 (t_wlen i);
  ok_raddr : in_u64 (t_raddr i); ok_raddr2 : in_u64 (t_raddr2 i); ok_rlen : in_u32 (t_rlen i);
  ok_ip : in_u64 (t_ip i); ok_category : in_u32 (t_category i);
  ok_rr : in_u32 (t_rr0 i) ∧ in_u32 (t_rr1 i) ∧ in_u32 (t_rr2 i) ∧ in_u32 (t_rr3 i);
  ok_rw : in_u32 (t_rw0 i) ∧ in_u32 (t_rw1 i) ∧ in_u32 (t_rw2 i) ∧ in_u32 (t_rw3 i) }.

Lemma field8 x : in_u64 x → x mod 2 ^ (Z.of_nat 8 * 8) = x.
Proof. apply Z.mod_small. Qed.
Lemma field4 x : in_u32 x → x mod 2 ^ (Z.of_nat 4 * 8) = x.
Proof. apply Z.mod_small. Qed.
Lemma field1 b : negb (Z.b2z b mod 2 ^ (Z.of_nat 1 * 8) =? 0) = b.
Proof. by destruct b. Qed.

Lemma instr_roundtrip i rest : instr_ok i → instr_of_bytes (instr_bytes i ++ rest) = i.
Proof.
  intros [? ? ? ? ? ? ? (? & ? & ? & ?) (? & ? & ? & ?)]. unfold instr_of_bytes, instr_bytes, instr_layout.
  rewrite unpack_pack by done. cbn [zip_with]. rewrite !field1, !field8, !field4 by done. by destruct i.
Qed.

Lemma length_instr_bytes i : length (instr_bytes i) = sizeof_instr.
Proof. unfold instr_bytes. by rewrite length_pack. Qed.

Lemma length_instrs_bytes l : length (instrs_bytes l) = (length l * sizeof_instr)%nat.
Proof.
  unfold instrs_bytes. induction l as [|i l IH]; [done|]. cbn [mbind list_bind]. rewrite length_app, length_instr_bytes, IH.
  cbn [length]. lia.
Qed.

Lemma instrs_roundtrip l rest : Forall instr_ok l → instrs_of_bytes (length l) (instrs_bytes l ++ rest) = l.
Proof.
  unfold instrs_of_bytes. induction 1 as [|i l Hi Hl IH]; [done|].
  cbn [length seq fmap list_fmap]. f_equal.
  - cbn [Nat.mul drop]. unfold instrs_bytes. cbn [mbind list_bind]. rewrite <- app_assoc. by apply instr_roundtrip.
  - rewrite <- IH at 2. rewrite <- fmap_S_seq, <- list_fmap_compose. apply list_fmap_ext. intros k x _. cbn [compose].
    unfold instrs_bytes. cbn [mbind list_bind]. change (list_bind _ _ instr_bytes l) with (instrs_bytes l).
    rewrite <- app_assoc, Nat.mul_succ_l, Nat.add_comm, <- drop_drop.
    by rewrite drop_app_length' by (by rewrite length_instr_bytes).
Qed.

Definition footer_ok (f : Footer) : Prop :=
  in_u64 (offset_ f) ∧ in_u64 (total_slice_ f) ∧ in_u32 (instr_group_size_ f) ∧ in_u64 (magic_number_ f).

Lemma footer_roundtrip pad f : footer_ok f → footer_of_bytes (footer_bytes pad f) = f.
Proof.
  intros (? & ? & ? & ?). unfold footer_of_bytes, footer_bytes, footer_layout.
  rewrite <- (app_nil_r (pack _ _)), unpack_pack by done. cbn [zip_with]. rewrite !field8, !field4 by done. by destruct f.
Qed.

Lemma length_footer pad f : length (footer_bytes pad f) = sizeof_footer.
Proof. unfold footer_bytes. by rewrite length_pack. Qed.

(** ** The player on a well-formed file *)

Section Play.
Context {B : Type} {BE : Backend B} {PIN : Pin}.
Context (G : nat) (MaxCompressedLength : Z) (RawCompress : list byte → list byte)
  (RawUncompress : list byte → option (list byte)).

(** Snappy loses nothing, and a compressed group fits into the buffer. *)
Record snappy_laws : Prop := {
  lossless b : RawUncompress (RawCompress b) = Some b;
  compressed_fits b : length b = (G * sizeof_instr)%nat → Z.of_nat (length (RawCompress b)) ≤ MaxCompressedLength;
  max_in_range : in_u64 MaxCompressedLength }.

(** The file of some groups. *)
Fixpoint blocks (n : Z) (gs : list (list PTSInstrTrace)) : list byte :=
  match gs with
  | [] => []
  | g :: gs =>
      let c := RawCompress (instrs_bytes g) in
      le_split 8 n ++ le_split 8 (Z.of_nat (length c)) ++ c ++ blocks (n + 1) gs
  end.

Definition trace_file (pad : Z) (gs : list (list PTSInstrTrace)) : list byte :=
  blocks 1 gs ++ footer_bytes pad {| offset_ := Z.of_nat (length (blocks 1 gs)); total_slice_ := Z.of_nat (length gs);
    instr_group_size_ := Z.of_nat G; magic_number_ := kTraceMagicNumber |}.

Definition group_ok (g : list PTSInstrTrace) : Prop := length g = G ∧ Forall instr_ok g.

Lemma read_into_app (n : nat) b x rest : length x = n → length b = n → read_into n b (x ++ rest) = (x, rest).
Proof.
  intros Hx Hb. unfold read_into. rewrite take_app_length', drop_app_length' by done.
  by rewrite drop_ge, app_nil_r by lia.
Qed.

Lemma take_read_into (n : nat) b x rest : length x = n →
  ∃ b', read_into n b (x ++ rest) = (b', rest) ∧ take n b' = x.
Proof.
  intros Hx. unfold read_into. rewrite take_app_length', drop_app_length' by done. eexists. split; [done|].
  by rewrite take_app_length'.
Qed.

Lemma le_combine_8 x : in_u64 x → le_combine (le_split 8 x) = x.
Proof. intros H. rewrite le_combine_split. by apply field8. Qed.

Lemma play_instrs_app skip sent l1 l2 (s : scheduler B) :
  play_instrs skip sent (l1 ++ l2) s =
  (f ← play_instrs skip sent l1; match f with Leaves => mret Leaves | Returns sent => play_instrs skip sent l2 end) s.
Proof.
  revert sent s. induction l1 as [|i l1 IH]; intros sent s; [cbn [app play_instrs]; by rewrite proc_bind_ret|].
  cbn [app play_instrs]. rewrite proc_bind_assoc. apply proc_bind_ext. intros [[]|] s1; [|by rewrite proc_bind_ret].
  apply IH.
Qed.

Lemma play_groups_ok (fuel : nat) k total skip sent count len compressed buffer gs tail (s : scheduler B) :
  snappy_laws → gs ≠ [] → Forall group_ok gs → (length gs ≤ fuel)%nat → 0 ≤ k → total = k + Z.of_nat (length gs) →
  in_u64 total → length count = 8%nat → length len = 8%nat →
  play_groups G MaxCompressedLength RawUncompress fuel total skip sent count len compressed buffer
    (blocks (k + 1) gs ++ tail) s =
  (f ← play_instrs skip sent (concat gs);
   mret (match f with Leaves => Leaves | Returns sent => Returns (PlayedAll sent) end)) s.
Proof.
  intros HL. revert fuel k sent count len compressed buffer s.
  induction gs as [|g gs IH]; intros [|fuel] k sent count len compressed buffer s Hne Hgs Hf Hk Ht Hr Hc Hl;
    try done; [cbn in Hf; lia|]. cbn [length] in Hf, Ht. inv Hgs. destruct H1 as [Hg Hok].
  set (c := RawCompress (instrs_bytes g)).
  assert (length (instrs_bytes g) = (G * sizeof_instr)%nat) as Hlen by (by rewrite length_instrs_bytes, Hg).
  assert (0 ≤ Z.of_nat (length c) ≤ MaxCompressedLength) as Hcl by (split; [lia|by apply HL]).
  pose proof (max_in_range HL) as Hmax. unfold in_u64 in Hmax, Hr.
  cbn [play_groups blocks]. fold c. rewrite <- !app_assoc.
  rewrite read_into_app by (rewrite ?length_le_split; done). rewrite read_into_app by (rewrite ?length_le_split; done).
  rewrite !le_combine_8 by (unfold in_u64; lia). rewrite Nat2Z.id.
  rewrite (proj2 (Z.ltb_ge MaxCompressedLength (Z.of_nat (length c)))) by lia. rewrite proc_bind_ret.
  destruct (take_read_into (length c) compressed c (blocks (k + 1 + 1) gs ++ tail)) as (b' & -> & ->); [done|].
  unfold c. rewrite (lossless HL). rewrite Hlen, Nat.ltb_irrefl, proc_bind_ret.
  rewrite <- Hg at 1. rewrite instrs_roundtrip by done. cbn [concat].
  rewrite (proc_bind_ext_l _ _ _ _ (play_instrs_app skip sent g (concat gs) s)), proc_bind_assoc.
  apply proc_bind_ext. intros [sent1|] s1; [|by rewrite proc_bind_ret].
  destruct gs as [|g2 gs].
  - rewrite (proj2 (Z.ltb_ge (k + 1) _)) by (cbn [length]; lia). cbn [concat play_instrs]. by rewrite proc_bind_ret.
  - rewrite (proj2 (Z.ltb_lt (k + 1) _)) by (cbn [length]; lia).
    apply IH; try done; try (by rewrite length_le_split); unfold in_u64; cbn [length] in *; lia.
Qed.

(** What playing the trace is to come to: the instructions one after the other. *)
Fixpoint play_all (l : list PTSInstrTrace) : proc event (scheduler B) (flow unit) :=
  match l with
  | [] => mret (Returns tt)
  | i :: l =>
      f ← PthreadScheduler.process_ins None i;
      match f with Leaves => mret Leaves | Returns _ => play_all l end
  end.

Lemma play_instrs_all skip sent l (s : scheduler B) :
  0 ≤ sent → sent + Z.of_nat (length l) < 2 ^ 64 →
  play_instrs skip sent l s =
  (f ← play_all (drop (Z.to_nat (skip - sent)) l);
   mret (match f with Leaves => Leaves | Returns _ => Returns (sent + Z.of_nat (length l)) end)) s.
Proof.
  revert sent s. induction l as [|i l IH]; intros sent s Hs Hl.
  { cbn [play_instrs length]. rewrite drop_nil. cbn [play_all]. by rewrite proc_bind_ret, Z.add_0_r. }
  cbn [length] in Hl. cbn [play_instrs].
  assert (sent ⊕ 1 = sent + 1) as Hs1 by (unfold u64; apply Z.mod_small; lia).
  replace (sent + Z.of_nat (length (i :: l))) with (sent + 1 + Z.of_nat (length l)) by (cbn [length]; lia).
  destruct (Z.leb_spec skip sent) as [Hle|Hlt].
  - replace (Z.to_nat (skip - sent)) with O by lia. cbn [drop play_all]. rewrite proc_bind_assoc. apply proc_bind_ext.
    intros [[]|] s1; [|by rewrite proc_bind_ret]. rewrite Hs1, IH by lia.
    by replace (Z.to_nat (skip - (sent + 1))) with O by lia.
  - replace (Z.to_nat (skip - sent)) with (S (Z.to_nat (skip - (sent + 1)))) by lia. cbn [drop].
    rewrite proc_bind_ret, Hs1. apply IH; lia.
Qed.

Lemma length_blocks n gs : (length gs ≤ length (blocks n gs))%nat.
Proof.
  revert n. induction gs as [|g gs IH]; intros n; cbn [blocks length]; [lia|].
  rewrite !length_app, !length_le_split. specialize (IH (n + 1)). lia.
Qed.

Lemma play_file_ok (fuel : nat) skip pad compressed buffer gs (s : scheduler B) :
  snappy_laws → gs ≠ [] → Forall group_ok gs → (length gs ≤ fuel)%nat → Z.of_nat (length (trace_file pad gs)) < 2 ^ 64 →
  in_u32 (Z.of_nat G) → Z.of_nat (length (concat gs)) < 2 ^ 64 →
  play_file G MaxCompressedLength RawUncompress fuel skip 0 compressed buffer (trace_file pad gs) s =
  (f ← play_all (drop (Z.to_nat skip) (concat gs));
   mret (match f with Leaves => Leaves | Returns _ => Returns (PlayedAll (Z.of_nat (length (concat gs)))) end)) s.
Proof.
  intros HL Hne Hgs Hf Hlen HG Hcat. pose proof (length_blocks 1 gs) as Hb. unfold play_file.
  unfold trace_file in *. set (F := {| offset_ := _ |}) in *. rewrite length_app, length_footer in *.
  assert (0 < Z.of_nat (length gs)) as Hpos by (destruct gs; [done|cbn; lia]).
  assert (footer_ok F) as HF by (unfold footer_ok, in_u64, in_u32, kTraceMagicNumber in *; cbn; lia).
  replace (length (blocks 1 gs) + sizeof_footer - sizeof_footer)%nat with (length (blocks 1 gs)) by lia.
  rewrite drop_app_length, footer_roundtrip by done. rewrite (proj2 (Nat.leb_le _ _)) by lia.
  change (magic_number_ F) with kTraceMagicNumber. change (offset_ F) with (Z.of_nat (length (blocks 1 gs))).
  change (total_slice_ F) with (Z.of_nat (length gs)). rewrite !Z.eqb_refl, (proj2 (Z.ltb_lt 0 _)) by done.
  unfold ASSERTX. rewrite !proc_bind_ret.
  rewrite (play_groups_ok fuel 0) by (try done; try (by rewrite length_le_split); unfold in_u64; lia).
  rewrite (proc_bind_ext_l _ _ _ _ (play_instrs_all skip 0 (concat gs) s ltac:(lia) ltac:(lia))), proc_bind_assoc.
  rewrite Z.sub_0_r. apply proc_bind_ext. intros [[]|] s1; cbv beta; by rewrite proc_bind_ret.
Qed.

End Play.
Lemma length_concat_groups G gs : Forall (λ g : list PTSInstrTrace, length g = G) gs → length (concat gs) = (length gs * G)%nat.
Proof. induction 1 as [|g gs Hg Hgs IH]; [done|]. cbn [concat length]. rewrite length_app, Hg, IH. lia. Qed.

(** ** The writer, slice by slice *)

Section Write.
Context (G : nat) (m : Z) (pad : Z) (RawCompress : list byte → list byte).
Let slice_size : Z := m * Z.of_nat G.
Context (G_pos : (0 < G)%nat) (m_pos : 0 < m).
Notation can_open := (λ _ : Z, true).
Notation blocks := (blocks RawCompress).
Notation trace_file := (trace_file G RawCompress pad).
Notation trace_instr := (trace_instr G slice_size pad RawCompress).
Notation ProcessMemIns := (ProcessMemIns G slice_size can_open pad RawCompress).
Notation trace := (trace G slice_size can_open pad RawCompress).
Notation wrote := (wpl no_failure).

(** Slice [k] is about to begin, and [its] are still to be traced. *)
Record at_slice (k : Z) (its : list Z) (s : tracer) : Prop := {
  as_num : num_instrs s = k * slice_size;
  as_index : curr_index s = k;
  as_iter : slice_index_iter s = its;
  as_tracing : tracing s = false;
  as_array : length (instrs s) = G;
  as_count : slice_count s = 0;
  as_offset : offset s = 0 }.

(** In slice [k], which is traced: the groups [gs] are written, [cur] are in the array;
    [F] are the files of other slices. *)
Record in_slice (k : Z) (its : list Z) (F : gmap Z (list byte)) (gs : list (list PTSInstrTrace)) (cur : list PTSInstrTrace)
    (s : tracer) : Prop := {
  is_num : num_instrs s = k * slice_size + Z.of_nat (length gs * G + length cur);
  is_index : curr_index s = k + 1;
  is_iter : slice_index_iter s = its;
  is_tracing : tracing s = true;
  is_array : length (instrs s) = G;
  is_cur : take (length cur) (instrs s) = cur;
  is_short : (length cur < G)%nat;
  is_groups : Forall (λ g, length g = G) gs;
  is_count : slice_count s = Z.of_nat (length gs);
  is_offset : offset s = Z.of_nat (length (blocks 1 gs));
  is_file : curr_file s = Some k;
  is_files : files s = <[k := blocks 1 gs]> F }.

Lemma mod_group q c : 0 ≤ c < Z.of_nat G → (q * Z.of_nat G + c) mod Z.of_nat G = c.
Proof. intros Hc. rewrite Z.add_comm, Z.mod_add by lia. by apply Z.mod_small. Qed.

Lemma num_mod_group k gs c : (c < G)%nat → (k * slice_size + Z.of_nat (length (A:=list PTSInstrTrace) gs * G + c)) mod Z.of_nat G = Z.of_nat c.
Proof.
  intros Hc. unfold slice_size. replace (k * (m * Z.of_nat G) + Z.of_nat (length gs * G + c))
    with ((k * m + Z.of_nat (length gs)) * Z.of_nat G + Z.of_nat c) by lia. apply mod_group. lia.
Qed.

Lemma blocks_app n gs g : blocks n (gs ++ [g]) = blocks n gs ++ blocks (n + Z.of_nat (length gs)) [g].
Proof.
  revert n. induction gs as [|g1 gs IH]; intros n; [by rewrite Z.add_0_r|].
  cbn [app TraceProofs.blocks length] in *. rewrite IH, <- !app_assoc. by replace (n + Z.of_nat (S (length gs))) with (n + 1 + Z.of_nat (length gs)) by lia.
Qed.

Lemma wpl_write b s o k F x (Q : unit → tracer → list event → Prop) :
  curr_file s = Some k → files s = <[k := x]> F →
  (∀ s', s' = s <| files := <[k := x ++ b]> F |> → Q tt s' o) → wrote (write b) s o Q.
Proof.
  intros Hk HF HQ. unfold write. log_steps. rewrite Hk. apply HQ.
  assert (alter (λ f, f ++ b) k (files s) = <[k := x ++ b]> F) as <- by (by rewrite HF, alter_insert_eq). done.
Qed.

Lemma wpl_write_group k its F gs l s o (Q : unit → tracer → list event → Prop) :
  instrs s = l → slice_count s = Z.of_nat (length gs) → offset s = Z.of_nat (length (blocks 1 gs)) →
  curr_file s = Some k → files s = <[k := blocks 1 gs]> F → slice_index_iter s = its →
  Z.of_nat (length (blocks 1 (gs ++ [l]))) < 2 ^ 64 →
  (∀ s', num_instrs s' = num_instrs s → curr_index s' = curr_index s → slice_index_iter s' = its →
     tracing s' = tracing s → instrs s' = l → slice_count s' = Z.of_nat (length (gs ++ [l])) →
     offset s' = Z.of_nat (length (blocks 1 (gs ++ [l]))) → curr_file s' = Some k →
     files s' = <[k := blocks 1 (gs ++ [l])]> F → Q tt s' o) →
  wrote (write_group RawCompress) s o Q.
Proof.
  intros Hl Hc Ho Hk HF Hit Hlen HQ. unfold write_group. log_steps.
  pose proof (length_blocks RawCompress 1 (gs ++ [l])) as Hb. rewrite !length_app in Hb. cbn [length] in Hb.
  change (instrs (set slice_count _ s)) with (instrs s). rewrite Hl. set (c := RawCompress (instrs_bytes l)).
  change (slice_count (set slice_count _ s)) with (slice_count s ⊕ 1).
  assert (slice_count s ⊕ 1 = 1 + Z.of_nat (length gs)) as Hc1 by (rewrite Hc; unfold u64; rewrite Z.mod_small; lia).
  assert (blocks 1 (gs ++ [l]) = blocks 1 gs ++ le_split 8 (1 + Z.of_nat (length gs)) ++ le_split 8 (Z.of_nat (length c)) ++ c)
    as Hblk by (by rewrite blocks_app; cbn [TraceProofs.blocks]; rewrite app_nil_r).
  rewrite Hblk in Hlen, HQ. rewrite !length_app, !length_le_split in Hlen.
  rewrite Hc1. eapply wpl_write; [exact Hk|exact HF|]. intros s1 ->. log_steps.
  eapply wpl_write; [exact Hk|reflexivity|]. intros s2 ->. log_steps. eapply wpl_write; [exact Hk|reflexivity|]. intros s3 ->. log_steps.
  apply HQ; try done; cbn; rewrite ?Hl, ?Hc, ?Ho, ?length_app; cbn [length].
  - rewrite Hc in Hc1. rewrite Hc1. lia.
  - rewrite !length_le_split. cbn [length]. unfold u64. rewrite !Z.mod_small by (rewrite ?Z.mod_small; lia). lia.
  - by rewrite <- !app_assoc.
Qed.

(** Enough for everything that is counted: the instructions, and the bytes of a file. *)
Definition fits (n : Z) (l : list PTSInstrTrace) : Prop :=
  n < 2 ^ 64 ∧ ∀ gs, Forall (λ g, length g = G) gs → concat gs `prefix_of` l → Z.of_nat (length (blocks 1 gs)) < 2 ^ 64.

(** How a traced slice ends: the file holds its instructions. *)
Definition slice_done (k : Z) (its : list Z) (F : gmap Z (list byte)) (l : list PTSInstrTrace) (f : flow unit) (s : tracer) : Prop :=
  f = match its with [] => Leaves | _ => Returns tt end ∧ at_slice (k + 1) its s ∧
  ∃ gs, concat gs = l ∧ Forall (λ g, length g = G) gs ∧ files s = <[k := trace_file gs]> F.

Lemma wpl_end_slice k its F gs s o :
  num_instrs s = (k + 1) * slice_size → curr_index s = k + 1 → slice_index_iter s = its → length (instrs s) = G →
  slice_count s = Z.of_nat (length gs) → offset s = Z.of_nat (length (blocks 1 gs)) → curr_file s = Some k →
  files s = <[k := blocks 1 gs]> F → Forall (λ g, length g = G) gs →
  wrote (end_slice G pad) s o (λ f s' _, slice_done k its F (concat gs) f s').
Proof.
  intros Hn Hi Hit Ha Hc Ho Hk HF Hgs. unfold end_slice. log_steps. eapply wpl_write; [exact Hk|exact HF|].
  intros s1 ->. log_steps. split; [|split; [by split|]].
  - change (match slice_index_iter s with [] => Leaves | _ => Returns tt end = match its with [] => Leaves | _ => Returns tt end).
    by rewrite Hit.
  - exists gs. split_and!; [done|done|]. cbn. rewrite Hc, Ho. done.
Qed.

Lemma wpl_trace_instr k its F gs cur i s o :
  in_slice k its F gs cur s → Z.of_nat (length gs * G + length cur) < slice_size → 0 ≤ k →
  fits ((k + 1) * slice_size) (concat gs ++ cur ++ [i]) →
  wrote (trace_instr i) s o (λ f s' _,
    (Z.of_nat (length gs * G + length cur) + 1 < slice_size ∧ f = Returns tt ∧
      ∃ gs' cur', concat gs' ++ cur' = concat gs ++ cur ++ [i] ∧ in_slice k its F gs' cur' s') ∨
    (Z.of_nat (length gs * G + length cur) + 1 = slice_size ∧ slice_done k its F (concat gs ++ cur ++ [i]) f s')).
Proof.
  intros [Hn Hi Hit Ht Ha Hcur Hs Hgs Hc Ho Hk HF] Hp Hk0 [Hfit Hblocks]. unfold TraceGen.trace_instr. log_steps.
  set (p := Z.of_nat (length gs * G + length cur)) in *. assert (p = Z.of_nat (length gs * G + length cur)) as Hpe by done. clearbody p.
  change (num_instrs (set _ _ _)) with (num_instrs s ⊕ 1).
  assert (num_instrs s ⊕ 1 = k * slice_size + (p + 1)) as Hn1 by (rewrite Hn; unfold u64; rewrite Z.mod_small; nia).
  assert (num_instrs s `mod` Z.of_nat G = Z.of_nat (length cur)) as Hidx by (rewrite Hn, Hpe; by apply num_mod_group).
  rewrite Hn1, Hidx, Nat2Z.id.
  set (s1 := set _ _ _). assert (length (instrs s1) = G) as Ha1 by (cbn; by rewrite length_insert).
  assert (take (length (cur ++ [i])) (instrs s1) = cur ++ [i]) as Hcur1.
  { cbn. rewrite length_app. cbn [length]. rewrite Nat.add_1_r. rewrite (take_S_r _ _ i) by (apply list_lookup_insert_eq; lia).
    by rewrite take_insert_ge, Hcur by lia. }
  eapply (wpl_mono _ _ _ _ (λ _ s2 _, ∃ gs' cur', concat gs' ++ cur' = concat gs ++ cur ++ [i] ∧
    Z.of_nat (length gs' * G + length cur') = p + 1 ∧ in_slice k its F gs' cur' s2)).
  { assert (num_instrs s1 = k * slice_size + (p + 1)) as Hn2 by (cbn; rewrite Hn1; done).
    destruct (decide (S (length cur) = G)) as [Hfull|Hnot].
    - replace (k * slice_size + (p + 1)) with (k * slice_size + Z.of_nat (length (gs ++ [cur ++ [i]]) * G + O))
        by (rewrite length_app; cbn [length]; lia). rewrite num_mod_group by done.
      rewrite length_app in Hcur1. cbn [length] in Hcur1. rewrite Nat.add_1_r, take_ge in Hcur1 by lia.
      cbn [Z.of_nat Z.eqb when]. eapply (wpl_write_group k its F gs (cur ++ [i])); [exact Hcur1|exact Hc|exact Ho|exact Hk|exact HF|exact Hit| |].
      { apply Hblocks; [|by rewrite concat_app; cbn [concat]; rewrite app_nil_r].
        apply Forall_app. split; [done|]. constructor; [rewrite length_app; cbn; lia|done]. }
      intros s2 E1 E2 E3 E4 E5 E6 E7 E8 E9. exists (gs ++ [cur ++ [i]]), []. split_and!.
      + by rewrite concat_app; cbn [concat]; rewrite !app_nil_r.
      + rewrite length_app. cbn [length]. lia.
      + split; try done; rewrite ?E1, ?E2, ?E4, ?E5; try done.
        * rewrite Hn2, length_app. cbn [length]. lia.
        * rewrite length_app. cbn [length]. lia.
        * apply Forall_app. split; [done|]. constructor; [rewrite length_app; cbn; lia|done].
    - replace (k * slice_size + (p + 1)) with (k * slice_size + Z.of_nat (length gs * G + S (length cur))) by lia.
      rewrite num_mod_group by lia. rewrite (proj2 (Z.eqb_neq _ 0)) by lia. cbn [when]. log_steps.
      exists gs, (cur ++ [i]). split_and!; [done|rewrite length_app; cbn [length]; lia|].
      split; try done; rewrite ?Hn2; rewrite ?length_app; cbn [length]; lia. }
  intros [] s2 o2 (gs' & cur' & Hcat & Hp2 & Hin). cbv beta. unfold at_boundary.
  assert (slice_size ≠ 0) as Hss by (unfold slice_size; lia).
  rewrite (proj2 (Z.eqb_neq slice_size 0)) by done. log_steps. pose proof Hin as [Hn' Hi' Hit' Ht' Ha' Hcur' Hs' Hgs' Hc' Ho' Hk' HF'].
  assert (p + 1 ≤ slice_size) as [Hlt|Heq]%Z.le_lteq by lia.
  - rewrite (Z.add_comm (k * slice_size)), Z.mod_add by lia. rewrite (Z.mod_small (p + 1)) by lia.
    rewrite (proj2 (Z.eqb_neq (p + 1) 0)) by lia. log_steps. left. eauto 10.
  - rewrite Heq. replace (k * slice_size + slice_size) with ((k + 1) * slice_size) by lia. rewrite Z.mod_mul by done. cbn [Z.eqb].
    assert (cur' = []) as ->.
    { apply nil_length_inv, Nat2Z.inj. rewrite <- (mod_group (Z.of_nat (length gs')) (Z.of_nat (length cur'))) by lia.
      replace (Z.of_nat (length gs') * Z.of_nat G + Z.of_nat (length cur')) with (m * Z.of_nat G) by (fold slice_size; lia).
      apply Z.mod_mul. lia. }
    rewrite app_nil_r in Hcat. rewrite <- Hcat. eapply wpl_mono.
    + eapply wpl_end_slice; [|exact Hi'|exact Hit'|exact Ha'|exact Hc'|exact Ho'|exact Hk'|exact HF'|exact Hgs'].
      rewrite Hn', Hp2. lia.
    + intros f s3 o3 H3. right. done.
Qed.

Lemma slice_size_pos : 0 < slice_size.
Proof. unfold slice_size. lia. Qed.

(** [n % slice_size] in slice [k]. *)
Lemma num_mod_slice k p : 0 ≤ p < slice_size → (k * slice_size + p) mod slice_size = p.
Proof. intros Hp. rewrite Z.add_comm, Z.mod_add by lia. by apply Z.mod_small. Qed.

Lemma wpl_inside i s o k p (Q : flow unit → tracer → list event → Prop) :
  num_instrs s = k * slice_size + p → 0 < p < slice_size → tracing s = true →
  wrote (trace_instr i) s o Q → wrote (ProcessMemIns i) s o Q.
Proof.
  intros Hn Hp Ht HQ. unfold TraceGen.ProcessMemIns, at_boundary. log_steps.
  rewrite (proj2 (Z.eqb_neq slice_size 0)), Hn, num_mod_slice, (proj2 (Z.eqb_neq p 0)) by lia. log_steps. by rewrite Ht.
Qed.

Lemma wpl_trace_rest k its F l : ∀ gs cur s o,
  in_slice k its F gs cur s → l ≠ [] → 0 < Z.of_nat (length gs * G + length cur) → 0 ≤ k →
  Z.of_nat (length gs * G + length cur) + Z.of_nat (length l) = slice_size →
  fits ((k + 1) * slice_size) (concat gs ++ cur ++ l) →
  wrote (trace l) s o (λ f s' _, slice_done k its F (concat gs ++ cur ++ l) f s').
Proof.
  induction l as [|i l IH]; intros gs cur s o Hin Hl Hp Hk Hlen Hfit; [done|]. cbn [TraceGen.trace length] in *. log_step.
  eapply wpl_inside; [apply Hin|lia|apply Hin|]. eapply wpl_mono.
  { eapply wpl_trace_instr; [exact Hin|lia|done|]. destruct Hfit as [Hf Hb]. split; [done|].
    intros gs' Hgs' Hpre. apply Hb; [done|]. etrans; [exact Hpre|]. rewrite !app_assoc. change (i :: l) with ([i] ++ l).
    rewrite (app_assoc _ [i] l). by apply prefix_app_r. }
  intros f s1 o1 [(Hlt & -> & gs' & cur' & Hcat & Hin')|(Heq & Hdone)].
  - assert (Z.of_nat (length gs' * G + length cur') = Z.of_nat (length gs * G + length cur) + 1) as Hp'.
    { pose proof (is_groups _ _ _ _ _ _ Hin') as Hg'. pose proof (is_groups _ _ _ _ _ _ Hin) as Hg.
      apply (f_equal length) in Hcat. rewrite !length_app, !(length_concat_groups G) in Hcat by done. cbn [length] in Hcat. lia. }
    assert (concat gs ++ cur ++ i :: l = concat gs' ++ cur' ++ l) as Heql.
    { rewrite (app_assoc (concat gs')), Hcat. by rewrite <- !app_assoc. }
    rewrite Heql in *. apply IH; try done; try lia. destruct l; [cbn [length] in Hlen; lia|done].
  - destruct l as [|j l]; [|cbn [length] in Hlen; lia]. destruct Hdone as (-> & Hat & Hfile).
    destruct its; cbn [TraceGen.trace]; log_steps; (split; [done|by split]).
Qed.

(** A slice that is wanted is written; one that is not leaves the files alone. *)
Lemma wpl_trace_wanted k its l s o :
  at_slice k (k :: its) s → Z.of_nat (length l) = slice_size → 0 ≤ k → fits ((k + 1) * slice_size) l →
  wrote (trace l) s o (λ f s' _, slice_done k its (files s) l f s').
Proof.
  intros [Hn Hi Hit Ht Ha Hc Ho] Hl Hk Hfit. pose proof slice_size_pos as Hss. destruct l as [|i l]; [cbn in Hl; lia|].
  cbn [TraceGen.trace length] in *. log_step.
  assert (k + 1 < 2 ^ 64) as Hk1 by (destruct Hfit; unfold slice_size in *; nia).
  unfold TraceGen.ProcessMemIns, at_boundary. log_steps. rewrite (proj2 (Z.eqb_neq slice_size 0)) by lia. log_steps.
  replace (num_instrs s) with (k * slice_size + 0) by lia. rewrite num_mod_slice, Z.eqb_refl by lia.
  unfold begin_slice. log_steps. rewrite Hit. eapply wpl_lift_ok; [done|]. cbv beta. log_steps. rewrite Hi, Z.eqb_refl. log_steps.
  set (s1 := set curr_index _ _). assert (in_slice k its (files s) [] [] s1) as Hin.
  { split; try done; cbn; [lia|].
    change (curr_index s ⊕ 1 = k + 1). rewrite Hi. unfold u64. apply Z.mod_small. lia. }
  change (tracing s1) with true. cbv iota. eapply wpl_mono.
  { eapply (wpl_trace_instr k its (files s) [] [] i); [exact Hin|cbn; lia|done|]. cbn [concat app]. destruct Hfit as [Hf Hb].
    split; [done|]. intros gs' Hgs' Hpre. apply Hb; [done|]. etrans; [exact Hpre|]. exists l. done. }
  intros f s2 o2. cbn [length concat app Nat.mul Nat.add Z.of_nat]. intros [(Hlt & -> & gs' & cur' & Hcat & Hin')|(Heq & Hdone)].
  - assert (Z.of_nat (length gs' * G + length cur') = 1) as Hp'.
    { pose proof (is_groups _ _ _ _ _ _ Hin') as Hg'. apply (f_equal length) in Hcat.
      rewrite length_app, (length_concat_groups G) in Hcat by done. cbn [length] in Hcat. lia. }
    change (i :: l) with ([i] ++ l) in *. rewrite <- Hcat in *. rewrite <- app_assoc in *.
    eapply (wpl_trace_rest k its (files s) l gs' cur'); [exact Hin'| |lia|done|lia|exact Hfit]. destruct l; [cbn [length] in Hl; lia|done].
  - destruct l as [|j l]; [|cbn [length] in Hl; lia]. destruct Hdone as (-> & Hat & Hfile).
    destruct its; cbn [TraceGen.trace]; log_steps; (split; [done|by split]).
Qed.

(** Inside a slice that is not traced. *)
Lemma wpl_skip_rest k its F l : ∀ p s o,
  num_instrs s = k * slice_size + p → 0 < p → p + Z.of_nat (length l) = slice_size → (k + 1) * slice_size < 2 ^ 64 → 0 ≤ k →
  at_slice (k + 1) its (s <| num_instrs := (k + 1) * slice_size |>) → files s = F →
  wrote (trace l) s o (λ f s' _, f = Returns tt ∧ at_slice (k + 1) its s' ∧ files s' = F).
Proof.
  induction l as [|i l IH]; intros p s o Hn Hp Hl Hb Hk Hat HF; cbn [TraceGen.trace length] in *; log_steps.
  - split_and!; [done| |done]. replace s with (s <| num_instrs := (k + 1) * slice_size |>); [done|].
    replace ((k + 1) * slice_size) with (num_instrs s) by lia. by destruct s.
  - unfold TraceGen.ProcessMemIns, at_boundary. log_steps.
    rewrite (proj2 (Z.eqb_neq slice_size 0)), Hn, num_mod_slice, (proj2 (Z.eqb_neq p 0)) by lia. log_steps.
    pose proof (as_tracing _ _ _ Hat) as Ht. cbn in Ht. rewrite Ht. log_steps.
    eapply (IH (p + 1)); try done; try lia.
    change (num_instrs s ⊕ 1 = k * slice_size + (p + 1)). rewrite Hn. unfold u64. rewrite Z.mod_small; nia.
Qed.

Lemma wpl_trace_unwanted k x its l s o :
  at_slice k (x :: its) s → x ≠ k → Z.of_nat (length l) = slice_size → 0 ≤ k → (k + 1) * slice_size < 2 ^ 64 →
  wrote (trace l) s o (λ f s' _, f = Returns tt ∧ at_slice (k + 1) (x :: its) s' ∧ files s' = files s).
Proof.
  intros [Hn Hi Hit Ht Ha Hc Ho] Hx Hl Hk Hb. pose proof slice_size_pos as Hss. destruct l as [|i l]; [cbn in Hl; lia|].
  cbn [TraceGen.trace length] in *. log_step. assert (k + 1 < 2 ^ 64) as Hk1 by (unfold slice_size in *; nia).
  unfold TraceGen.ProcessMemIns, at_boundary. log_steps. rewrite (proj2 (Z.eqb_neq slice_size 0)) by lia. log_steps.
  replace (num_instrs s) with (k * slice_size + 0) by lia. rewrite num_mod_slice, Z.eqb_refl by lia.
  unfold begin_slice. log_steps. rewrite Hit. eapply wpl_lift_ok; [done|]. cbv beta. log_steps.
  rewrite Hi, (proj2 (Z.eqb_neq k x)) by done. log_steps. change (tracing (set curr_index _ s)) with (tracing s). rewrite Ht. log_steps.
  assert (curr_index s ⊕ 1 = k + 1) as Hi1 by (rewrite Hi; unfold u64; apply Z.mod_small; lia).
  assert (num_instrs s ⊕ 1 = k * slice_size + 1) as Hn1 by (rewrite Hn; unfold u64; apply Z.mod_small; nia).
  eapply (wpl_skip_rest k _ _ _ 1); try done; lia.
Qed.

Lemma trace_app l1 l2 s :
  trace (l1 ++ l2) s = (f ← trace l1; match f with Leaves => mret Leaves | Returns _ => trace l2 end) s.
Proof.
  revert s. induction l1 as [|i l1 IH]; intros s; cbn [app TraceGen.trace]; [by rewrite proc_bind_ret|].
  rewrite proc_bind_assoc. apply proc_bind_ext. intros [[]|] s1; [apply IH|by rewrite proc_bind_ret].
Qed.

(** The slices [ls], from slice [k] on: every slice that is wanted is in a file of its own. *)
Definition slice_written (l : list PTSInstrTrace) (b : option (list byte)) : Prop :=
  ∃ gs, concat gs = l ∧ Forall (λ g, length g = G) gs ∧ b = Some (trace_file gs).

Lemma wpl_trace_slices ls : ∀ k its s o,
  at_slice k its s → its ≠ [] → StronglySorted Z.lt its → Forall (λ x, k ≤ x) its →
  Forall (λ l, Z.of_nat (length l) = slice_size) ls → 0 ≤ k →
  (∀ j l, ls !! j = Some l → fits ((k + Z.of_nat j + 1) * slice_size) l) →
  wrote (trace (concat ls)) s o (λ _ s' _,
    (∀ j l, ls !! j = Some l → k + Z.of_nat j ∈ its → slice_written l (files s' !! (k + Z.of_nat j))) ∧
    ∀ i, i < k → files s' !! i = files s !! i).
Proof.
  induction ls as [|l ls IH]; intros k its s o Hat Hne Hsort Hge Hls Hk Hfit; cbn [concat].
  { cbn [TraceGen.trace]. log_steps. done. }
  inv Hls. destruct its as [|x its]; [done|]. inv Hsort. inv Hge.
  assert (fits ((k + 1) * slice_size) l) as Hf0 by (specialize (Hfit O l eq_refl); by rewrite Z.add_0_r in Hfit).
  assert (∀ j l', ls !! j = Some l' → fits ((k + 1 + Z.of_nat j + 1) * slice_size) l') as Hfit'.
  { intros j l' Hj. specialize (Hfit (S j) l' Hj). by replace (k + Z.of_nat (S j)) with (k + 1 + Z.of_nat j) in Hfit by lia. }
  unfold wpl, wp. rewrite trace_app. change (wrote (f ← trace l; match f with Leaves => mret Leaves | Returns _ => trace (concat ls) end) s o
    (λ _ s' _, (∀ j l', (l :: ls) !! j = Some l' → k + Z.of_nat j ∈ x :: its → slice_written l' (files s' !! (k + Z.of_nat j))) ∧
    ∀ i, i < k → files s' !! i = files s !! i)).
  log_step. destruct (decide (x = k)) as [->|Hx].
  - eapply wpl_mono; [by eapply (wpl_trace_wanted k its)|]. intros f s1 o1 (-> & Hat1 & gs & Hcat & Hgs & HF).
    assert (slice_written l (files s1 !! k)) as Hw by (exists gs; split_and!; [done|done|by rewrite HF, lookup_insert_eq]).
    assert (∀ i, i < k → files s1 !! i = files s !! i) as Hold by (intros i Hi; rewrite HF, lookup_insert_ne by lia; done).
    destruct its as [|y its].
    + log_steps. split; [|done]. intros j l' Hj Hin. apply list_elem_of_singleton in Hin.
      destruct j as [|j]; [|lia]. injection Hj as <-. by rewrite Z.add_0_r.
    + eapply wpl_mono.
      * eapply (IH (k + 1) (y :: its)); try done; [|lia]. eapply Forall_impl; [exact H4|]. intros z Hz. cbv beta in Hz. lia.
      * intros f s2 o2 [Hnew Hpast]. split; [|intros i Hi; rewrite Hpast by lia; by apply Hold].
        intros [|j] l' Hj Hin.
        -- injection Hj as <-. rewrite Z.add_0_r, Hpast by lia. done.
        -- replace (k + Z.of_nat (S j)) with (k + 1 + Z.of_nat j) in * by lia. apply Hnew; [done|].
           apply elem_of_cons in Hin as [Heq|Hin]; [lia|done].
  - eapply wpl_mono; [eapply (wpl_trace_unwanted k x its); try done; apply Hf0|]. intros f s1 o1 (-> & Hat1 & HF).
    eapply wpl_mono.
    + eapply (IH (k + 1) (x :: its)); try done; [by constructor| |lia]. constructor; [lia|].
      eapply Forall_impl; [exact H4|]. intros z Hz. cbv beta in Hz. lia.
    + intros f s2 o2 [Hnew Hpast]. split; [|intros i Hi; rewrite Hpast, HF by lia; done].
      intros [|j] l' Hj Hin.
      * exfalso. rewrite Z.add_0_r in Hin. apply elem_of_cons in Hin as [Heq|Hin]; [done|].
        rewrite Forall_forall in H4. apply H4 in Hin. lia.
      * replace (k + Z.of_nat (S j)) with (k + 1 + Z.of_nat j) in * by lia. by apply Hnew.
Qed.

End Write.

(** ** The round trip *)

Lemma in_set_order_spec l :
  StronglySorted Z.lt (in_set_order l) ∧ ∀ x, x ∈ in_set_order l ↔ x ∈ l.
Proof.
  unfold in_set_order. assert (StronglySorted Z.le (merge_sort Z.le (remove_dups l))) as Hs by apply (StronglySorted_merge_sort Z.le).
  assert (NoDup (merge_sort Z.le (remove_dups l))) as Hn.
  { rewrite merge_sort_Permutation. apply NoDup_remove_dups. }
  split.
  - revert Hs Hn. generalize (merge_sort Z.le (remove_dups l)). induction l0 as [|x k IH]; intros Hs Hn; [constructor|].
    inv Hs. apply NoDup_cons in Hn as [Hx Hn]. constructor; [by apply IH|].
    rewrite Forall_forall in *. intros y Hy. assert (x ≠ y) by (intros ->; done). specialize (H2 y Hy). lia.
  - intros x. by rewrite merge_sort_Permutation, elem_of_remove_dups.
Qed.

(** A file is as long as its groups allow. *)
Lemma blocks_bound G M RC RU n gs : snappy_laws G M RC RU → Forall (λ g : list PTSInstrTrace, length g = G) gs →
  Z.of_nat (length (blocks RC n gs)) ≤ Z.of_nat (length gs) * (16 + M).
Proof.
  intros HL Hgs. revert n. induction Hgs as [|g gs Hg Hgs IH]; intros n; [cbn; lia|]. cbn [blocks length].
  rewrite !length_app, !length_le_split. specialize (IH (n + 1)).
  assert (Z.of_nat (length (RC (instrs_bytes g))) ≤ M) by (apply (compressed_fits _ _ _ _ HL); by rewrite length_instrs_bytes, Hg). lia.
Qed.

Lemma prefix_groups G gs (l : list PTSInstrTrace) : Forall (λ g, length g = G) gs → concat gs `prefix_of` l →
  (length gs * G ≤ length l)%nat.
Proof. intros Hgs H. apply prefix_length in H. by rewrite (length_concat_groups G gs Hgs) in H. Qed.

Section RoundTrip.
Context {B : Type} {BE : Backend B} {PIN : Pin}.

(** What [trace_replayed] says. *)
Lemma trace_plays G m pad RC RU M index ls s0 :
  (0 < G)%nat → in_u32 (Z.of_nat G) → 0 < m → snappy_laws G M RC RU → m * (16 + M) + 32 < 2 ^ 64 →
  Forall (λ l, Z.of_nat (length l) = m * Z.of_nat G ∧ Forall instr_ok l) ls → Z.of_nat (length (concat ls)) < 2 ^ 64 →
  Init G index = Some s0 → Forall (λ x, 0 ≤ x) index →
  ∃ f s' o, trace G (m * Z.of_nat G) (λ _, true) pad RC (concat ls) s0 = Ok (f, s', o) ∧
    ∀ j l, ls !! j = Some l → Z.of_nat j ∈ index → ∃ file, files s' !! Z.of_nat j = Some file ∧
      ∀ fuel skip compressed buffer (s : scheduler B), (Z.to_nat m ≤ fuel)%nat →
        play_file G M RU fuel skip 0 compressed buffer file s =
        (f ← play_all (drop (Z.to_nat skip) l);
         mret (match f with Leaves => Leaves | Returns _ => Returns (PlayedAll (m * Z.of_nat G)) end)) s.
Proof.
  intros HG HGr Hm HL HM Hls Htot Hinit Hidx. unfold Init in Hinit.
  destruct (in_set_order_spec index) as [Hsort Hin]. destruct (in_set_order index) as [|x its] eqn:E; [done|].
  injection Hinit as <-. set (s0 := {| num_instrs := 0 |}) in *.
  assert (∀ j l, ls !! j = Some l → (Z.of_nat j + 1) * (m * Z.of_nat G) < 2 ^ 64) as Hfit.
  { intros j l Hj. eapply Z.le_lt_trans; [|exact Htot]. pose proof (lookup_lt_Some _ _ _ Hj) as Hlt.
    rewrite <- (take_drop (S j) ls), concat_app, length_app.
    assert (Z.of_nat (length (concat (take (S j) ls))) = (Z.of_nat j + 1) * (m * Z.of_nat G)); [|lia].
    assert (Forall (λ g, length g = Z.to_nat (m * Z.of_nat G)) (take (S j) ls)) as Hall.
    { apply Forall_take. eapply Forall_impl; [exact Hls|]. intros l' [Hl' _]. cbv beta. lia. }
    rewrite (length_concat_groups _ _ Hall), length_take, Nat.min_l, Nat2Z.inj_mul, Z2Nat.id by lia. lia. }
  assert (wpl no_failure (trace G (m * Z.of_nat G) (λ _, true) pad RC (concat ls)) s0 [] (λ _ s' _,
    (∀ j l, ls !! j = Some l → 0 + Z.of_nat j ∈ x :: its → slice_written G pad RC l (files s' !! (0 + Z.of_nat j))) ∧
    ∀ i, i < 0 → files s' !! i = files s0 !! i)) as Hwp.
  { apply (wpl_trace_slices G m pad RC HG Hm ls 0 (x :: its) s0 []); try done.
    - split; try done. cbn. by rewrite length_replicate.
    - apply Forall_forall. intros y Hy. apply Hin in Hy. rewrite Forall_forall in Hidx. by apply Hidx.
    - eapply Forall_impl; [exact Hls|]. by intros l' [Hl' _].
    - intros j l Hj. split; [by apply (Hfit j l)|]. intros gs Hgs Hpre.
      pose proof (prefix_groups _ _ _ Hgs Hpre) as Hle. rewrite Forall_forall in Hls.
      destruct (Hls l) as [Hl _]; [by eapply list_elem_of_lookup_2|]. pose proof (blocks_bound _ _ _ _ 1 gs HL Hgs).
      pose proof (max_in_range _ _ _ _ HL) as Hmax. unfold in_u64 in Hmax. assert (Z.of_nat (length gs) ≤ m) by (apply (Z.mul_le_mono_pos_r _ _ (Z.of_nat G)); lia).
      eapply Z.le_lt_trans; [done|]. eapply Z.le_lt_trans; [apply (Z.mul_le_mono_nonneg_r _ m)|]; lia. }
  destruct (wp_total _ _ _ Hwp) as (f & s' & o & Hrun & Hw & _). exists f, s', o. split; [exact Hrun|].
  intros j l Hj Hji. destruct (Hw j l Hj) as (gs & Hcat & Hgs & Hfile); [by apply Hin|].
  exists (trace_file G RC pad gs). split; [done|]. intros fuel skip compressed buffer s Hf.
  rewrite Forall_forall in Hls. destruct (Hls l) as [Hl Hok]; [by eapply list_elem_of_lookup_2|].
  assert (Z.of_nat (length gs) = m) as Hlen.
  { apply (f_equal length) in Hcat. rewrite (length_concat_groups G) in Hcat by done.
    apply (Z.mul_cancel_r _ _ (Z.of_nat G)); lia. }
  pose proof (blocks_bound _ _ _ _ 1 gs HL Hgs) as Hbb. subst l.
  rewrite (play_file_ok G M RC RU); try done; [by rewrite Hl|intros ->; cbn in Hlen; lia|..].
  - apply Forall_forall. intros g Hg. rewrite Forall_forall in Hgs. split; [by apply Hgs|].
    apply Forall_forall. intros i Hi. rewrite Forall_forall in Hok. apply Hok. apply list_elem_of_In, in_concat. exists g. by rewrite <- !list_elem_of_In.
  - lia.
  - unfold trace_file. rewrite length_app, length_footer. unfold sizeof_footer. lia.
  - specialize (Hfit j _ Hj). rewrite Hl. unfold in_u64 in *. nia.
Qed.

(** C20: Tracing and playing are inverse.  When the size of a slice is a multiple of the size
    of a group, the trace generator never fails on a program of whole slices, and the file
    it writes for every slice asked for makes the front end process exactly the
    instructions of that slice, with every field, in their order and without the first
    [skip] of them, as if the program itself had been run; the player accepts the footer,
    stays within its buffers and ends. *)
Theorem trace_replayed G m pad RC RU M index ls s0 :
  (0 < G)%nat → in_u32 (Z.of_nat G) → 0 < m → snappy_laws G M RC RU → m * (16 + M) + 32 < 2 ^ 64 →
  Forall (λ l, Z.of_nat (length l) = m * Z.of_nat G ∧ Forall instr_ok l) ls → Z.of_nat (length (concat ls)) < 2 ^ 64 →
  Init G index = Some s0 → Forall (λ x, 0 ≤ x) index →
  ∃ f s' o, trace G (m * Z.of_nat G) (λ _, true) pad RC (concat ls) s0 = Ok (f, s', o) ∧
    ∀ j l, ls !! j = Some l → Z.of_nat j ∈ index → ∃ file, files s' !! Z.of_nat j = Some file ∧
      ∀ fuel skip compressed buffer (s : scheduler B), (Z.to_nat m ≤ fuel)%nat →
        play_file G M RU fuel skip 0 compressed buffer file s =
        (f ← play_all (drop (Z.to_nat skip) l);
         mret (match f with Leaves => Leaves | Returns _ => Returns (PlayedAll (m * Z.of_nat G)) end)) s.
Proof. apply trace_plays. Qed.
End RoundTrip.

(** *** An example *)

Definition traced_instr (a : Z) : PTSInstrTrace :=
  {| t_waddr := 0; t_wlen := 0; t_raddr := a; t_raddr2 := 0; t_rlen := 8; t_ip := 4096 + a; t_category := 1;
     t_isbranch := true; t_isbranchtaken := false; t_rr0 := 3; t_rr1 := 0; t_rr2 := 0; t_rr3 := 0;
     t_rw0 := 4; t_rw1 := 0; t_rw2 := 0; t_rw3 := 0 |}.

(** Two slices of two groups of two, of which the second is traced; "compression" leaves
    everything as it is. *)
Definition two_slices : list (list PTSInstrTrace) :=
  [traced_instr <$> [0; 8; 16; 24]; traced_instr <$> [32; 40; 48; 56]].
Definition plain : list byte → list byte := λ b, b.
Definition first_state : tracer :=
  {| num_instrs := 0; num_ins_mem_rd := 0; num_ins_mem_wr := 0; num_ins_2nd_mem_rd := 0; slice_index_iter := [1];
     curr_file := None; files := ∅; curr_index := 0; tracing := false; instrs := [no_instr; no_instr];
     slice_count := 0; offset := 0 |}.

Lemma plain_laws : snappy_laws 2 176 plain Some.
Proof. split; [done|unfold plain; intros b ->; unfold sizeof_instr; lia|unfold in_u64; lia]. Qed.

Lemma traced_instr_ok a : 0 ≤ a < 2 ^ 32 → instr_ok (traced_instr a).
Proof. intros Ha. split; unfold in_u64, in_u32; cbn; lia. Qed.

#[local] Instance idle_pin : Pin :=
  {| PIN_GetContextReg _ _ := 0; PIN_SetContextReg c _ _ := c; PIN_GetContextFPState _ := 0;
     PIN_SetContextFPState c _ := c; StartThreadFunc := 0 |}.

Lemma trace_replayed_witness :
  ∃ f s' o, trace 2 (2 * Z.of_nat 2) (λ _, true) 7 plain (concat two_slices) first_state = Ok (f, s', o) ∧
    ∀ j l, two_slices !! j = Some l → Z.of_nat j ∈ [1] → ∃ file, files s' !! Z.of_nat j = Some file ∧
      ∀ fuel skip compressed buffer (s : scheduler unit), (Z.to_nat 2 ≤ fuel)%nat →
        play_file (BE := PTS.roomy) 2 176 Some fuel skip 0 compressed buffer file s =
        (f ← play_all (BE := PTS.roomy) (drop (Z.to_nat skip) l);
         mret (match f with Leaves => Leaves | Returns _ => Returns (PlayedAll (2 * Z.of_nat 2)) end)) s.
Proof.
  apply (trace_replayed (BE := PTS.roomy) 2 2 7 plain Some 176 [1]); try done; [lia|exact plain_laws| |by repeat constructor].
  repeat constructor; unfold in_u64, in_u32; cbn; lia.
Defined.

(** When a slice is not made of whole groups, its last instructions are lost: here one of
    three, with groups of two. *)
Lemma partial_group_lost :
  ∃ s' o, trace 2 3 (λ _, true) 7 plain (traced_instr <$> [0; 8; 16]) (first_state <| slice_index_iter := [0] |>) =
    Ok (Leaves, s', o) ∧ files s' !! 0 = Some (trace_file 2 plain 7 [traced_instr <$> [0; 8]]).
Proof. eexists _, _. split; vm_compute; reflexivity. Qed.

End TraceProofs.
