(* ===== verification/PthreadSim.v ===== *)
(** * The thread library of the front end (EEPthreadSim.cpp)

    Pin replaces the thread functions of the simulated program by the calls below: each
    consults the managers, blocks and unblocks threads with the scheduler, and may leave
    the calling thread for another.  After a switch back the replaced function runs
    again from its start; the flag [executed] of the thread makes this second run do
    nothing. *)

From S2P Require Import Prelude PthreadAttr PthreadSync Frontend PthreadThreads PthreadScheduler Trace.
Import PTSInterface TracePlay.
Import PthreadAttr(EINVAL).

Definition ESRCH : Z := 3.

Record sim {B : Type} := {
  new_thread_id : Z;
  sched : scheduler B;
  joinmanager : joins;
  cancelmanager : cancels;
  cleanupmanager : cleanups;
  condmanager : conds;
  mutexmanager : mutexes;
  tlsmanager : tls_table;
  barriermanager : barrier_table;
  mallocmanager : malloc_state }.
Arguments sim : clear implicits.

Module PthreadSim.
Section Sim.
Context {B : Type} {BE : Backend B} {PIN : Pin}.

Notation handler := (proc event (sim B)).

(** ** The parts *)

Definition on_sched {A} (m : proc event (scheduler B) A) : handler A := zoom sched (λ f s, s <| sched ::= f |>) m.
Definition on_joins {A} (m : proc event joins A) : handler A := zoom joinmanager (λ f s, s <| joinmanager ::= f |>) m.
Definition on_cancels {A} (m : proc event cancels A) : handler A := zoom cancelmanager (λ f s, s <| cancelmanager ::= f |>) m.
Definition on_cleanups {A} (m : proc event cleanups A) : handler A := zoom cleanupmanager (λ f s, s <| cleanupmanager ::= f |>) m.
Definition on_conds {A} (m : proc event conds A) : handler A := zoom condmanager (λ f s, s <| condmanager ::= f |>) m.
Definition on_mutexes {A} (m : proc event mutexes A) : handler A := zoom mutexmanager (λ f s, s <| mutexmanager ::= f |>) m.
Definition on_tls {A} (m : proc event tls_table A) : handler A := zoom tlsmanager (λ f s, s <| tlsmanager ::= f |>) m.
Definition on_barriers {A} (m : proc event barrier_table A) : handler A := zoom barriermanager (λ f s, s <| barriermanager ::= f |>) m.
Definition on_malloc {A} (m : proc event malloc_state A) : handler A := zoom mallocmanager (λ f s, s <| mallocmanager ::= f |>) m.

Definition GetCurrentThread : handler Z := on_sched PthreadScheduler.GetCurrentThread.

(** [if (current->second->executed == false) { executed = true; return r; }] before [m]. *)
Definition unless_rerun {A} (r : A) (m : handler (flow A)) : handler (flow A) :=
  '(_, p) ← on_sched PthreadScheduler.current_entry;
  if executed p then m
  else
    _ ← on_sched (PthreadScheduler.update_current (λ p, p <| executed := true |>));
    mret (Returns r).

Definition returns {A} (m : handler A) : handler (flow A) := a ← m; mret (Returns a).

(** ** Mutexes *)

Definition pthread_mutex_lock (mutex ctxt : Z) : handler (flow Z) :=
  unless_rerun 0 (
    _ ← on_sched (PthreadScheduler.update_current (λ p, p <| num_mutex_lock ::= λ n, n ⊕ 1 |>));
    current ← GetCurrentThread;
    _ ← on_sched (PthreadScheduler.add_synch_instruction current true false 0 0);
    blocked ← on_mutexes (PthreadMutexManager.Lock current mutex false);
    if negb (blocked =? 0) then
      f ← on_sched (PthreadScheduler.BlockThread current ctxt 0 0);
      mret (match f with Leaves => Leaves | Returns _ => Returns 0 end)
    else mret (Returns 0)).

Definition pthread_mutex_trylock (mutex : Z) : handler (flow Z) :=
  unless_rerun 0 (
    _ ← on_sched (PthreadScheduler.update_current (λ p, p <| num_mutex_trylock ::= λ n, n ⊕ 1 |>));
    current ← GetCurrentThread;
    returns (on_mutexes (PthreadMutexManager.Lock current mutex true))).

Definition pthread_mutex_unlock (mutex : Z) : handler (flow Z) :=
  unless_rerun 0 (
    current ← GetCurrentThread;
    _ ← on_sched (PthreadScheduler.add_synch_instruction current false true 0 0);
    '(unblocked, error) ← on_mutexes (PthreadMutexManager.Unlock current mutex);
    _ ← match unblocked with
        | Some t => on_sched (PthreadScheduler.UnblockThread t)
        | None => mret tt
        end;
    mret (Returns error)).

(** ** Condition variables *)

(** The next waiter of [cond] locks its mutex again, or queues up for it. *)
Definition release_waiter (cond : Z) : handler unit :=
  '(waiting_thread, mutex) ← on_conds (PthreadCondManager.RemoveWaiter cond);
  blocked ← on_mutexes (PthreadMutexManager.Lock waiting_thread mutex false);
  when (blocked =? 0) (on_sched (PthreadScheduler.UnblockThread waiting_thread)).

(** [while (condmanager->HasMoreWaiters(cond)) ...]; every round removes a waiter, so
    their number is enough fuel. *)
Fixpoint release_waiters (fuel : nat) (cond : Z) : handler unit :=
  match fuel with
  | O => mret tt
  | S fuel =>
      more ← on_conds (PthreadCondManager.HasMoreWaiters cond);
      if more : bool then
        _ ← release_waiter cond;
        release_waiters fuel cond
      else mret tt
  end.

Definition num_waiters (cond : Z) : handler nat :=
  reads (λ s, length (default [] (cond_waiters (condmanager s) !! cond))).

Definition pthread_cond_broadcast (cond : Z) : handler (flow Z) :=
  unless_rerun 0 (
    _ ← on_sched (modify (set num_cond_broadcast (λ n, n ⊕ 1)));
    fuel ← num_waiters cond;
    _ ← release_waiters fuel cond;
    mret (Returns 0)).

Definition pthread_cond_destroy (cond : Z) : handler (flow Z) :=
  unless_rerun 0 (
    more ← on_conds (PthreadCondManager.HasMoreWaiters cond);
    mret (Returns (if more : bool then EBUSY else 0))).

Definition pthread_cond_signal (cond : Z) : handler (flow Z) :=
  unless_rerun 0 (
    _ ← on_sched (modify (set num_cond_signal (λ n, n ⊕ 1)));
    more ← on_conds (PthreadCondManager.HasMoreWaiters cond);
    _ ← when more (release_waiter cond);
    mret (Returns 0)).

Definition pthread_cond_wait (cond mutex ctxt : Z) : handler (flow unit) :=
  unless_rerun tt (
    _ ← on_sched (modify (set num_cond_wait (λ n, n ⊕ 1)));
    current ← GetCurrentThread;
    _ ← pthread_mutex_unlock mutex;
    _ ← on_conds (PthreadCondManager.AddWaiter cond current mutex);
    on_sched (PthreadScheduler.BlockThread current ctxt 0 0)).

(** [tv_sec] of the deadline: only deadlines far away are supported, and then ignored. *)
Definition pthread_cond_timedwait (cond mutex tv_sec ctxt : Z) : handler (flow unit) :=
  unless_rerun tt (
    _ ← ASSERTX (3600 * 10 <? tv_sec);
    pthread_cond_wait cond mutex ctxt).

(** ** Barriers *)

Definition pthread_barrier_init (barrier num : Z) : handler (flow Z) :=
  unless_rerun 0 (
    _ ← on_barriers (PthreadBarrierManager.InitWaiters barrier num);
    mret (Returns 0)).

Definition pthread_barrier_destroy (barrier : Z) : handler (flow Z) :=
  unless_rerun 0 (
    _ ← on_barriers (PthreadBarrierManager.DestroyWaiters barrier);
    mret (Returns 0)).

(** [while (barriermanager->HasMoreWaiters(barrier)) ...]; every round removes a waiter. *)
Fixpoint open_barrier (fuel : nat) (barrier current : Z) : handler unit :=
  match fuel with
  | O => mret tt
  | S fuel =>
      more ← on_barriers (PthreadBarrierManager.HasMoreWaiters barrier);
      if more : bool then
        waiting_thread ← on_barriers (PthreadBarrierManager.RemoveWaiter barrier);
        _ ← when (negb (current =? waiting_thread)) (on_sched (PthreadScheduler.UnblockThread waiting_thread));
        open_barrier fuel barrier current
      else mret tt
  end.

Definition num_at_barrier (barrier : Z) : handler nat :=
  reads (λ s, match barriers (barriermanager s) !! barrier with
              | Some b => length (barrier_waiters b)
              | None => O
              end).

Definition pthread_barrier_wait (barrier ctxt : Z) : handler (flow Z) :=
  unless_rerun 0 (
    _ ← on_sched (modify (set num_barrier_wait (λ n, n ⊕ 1)));
    current ← GetCurrentThread;
    num_participants ← on_barriers (PthreadBarrierManager.NumParticipants barrier);
    last ← on_barriers (PthreadBarrierManager.AddWaiter barrier current);
    if last : bool then
      _ ← on_sched (PthreadScheduler.add_synch_instruction current false false barrier num_participants);
      fuel ← num_at_barrier barrier;
      _ ← open_barrier fuel barrier current;
      mret (Returns 0)
    else
      f ← on_sched (PthreadScheduler.BlockThread current ctxt barrier num_participants);
      mret (match f with Leaves => Leaves | Returns _ => Returns 0 end)).

(** ** Threads *)

(** [thread] is where the new id is stored, or null; [garbage] is what the local
    attribute variable holds, and [new_stack] what [mmap] returns. *)
Definition pthread_create (thread : Z) (attr : option PthreadAttr.pthread_attr) (startctxt : option Z)
    (func arg new_stack : Z) (garbage : PthreadAttr.pthread_attr) : handler (flow unit) :=
  id ← reads new_thread_id;
  let attr := match attr with Some a => a | None => PthreadAttr.PTHREAD_ATTR_DEFAULT garbage end in
  _ ← on_sched (PthreadScheduler.AddThread id startctxt func arg new_stack);
  _ ← on_joins (PthreadJoinManager.AddThread id attr);
  _ ← on_cancels (PthreadCancelManager.AddThread id);
  _ ← on_tls (PthreadTLSManager.AddThread id);
  _ ← when (negb (thread =? 0)) (emit (Store thread id));
  _ ← modify (set new_thread_id (λ n, n ⊕ 1));
  mret (Returns tt).

(** The thread leaves every table; whoever joins it goes on. *)
Definition retire (thread retval : Z) : handler unit :=
  j ← on_joins (PthreadJoinManager.KillThread thread retval);
  _ ← match j with
      | Some joining_thread => on_sched (PthreadScheduler.UnblockThread joining_thread)
      | None => mret tt
      end;
  _ ← on_cancels (PthreadCancelManager.KillThread thread);
  _ ← on_tls (PthreadTLSManager.KillThread thread);
  on_sched (PthreadScheduler.KillThread thread).

Definition pthread_cancel (thread : Z) : handler (flow Z) :=
  unless_rerun 0 (
    valid ← on_sched (PthreadScheduler.IsThreadValid thread);
    if negb valid then mret (Returns ESRCH)
    else
      now ← on_cancels (PthreadCancelManager.Cancel thread);
      _ ← (if now : bool then
             c ← GetCurrentThread;
             _ ← ASSERTX (negb (thread =? c));
             retire thread PTHREAD_CANCELED
           else mret tt);
      mret (Returns 0)).

Definition pthread_kill (thread signo : Z) : handler (flow Z) :=
  unless_rerun 0 (
    valid ← on_sched (PthreadScheduler.IsThreadValid thread);
    if valid && negb (signo =? 0) then
      _ ← on_cancels (PthreadCancelManager.SetState thread PTHREAD_CANCEL_ENABLE 0);
      _ ← on_cancels (PthreadCancelManager.SetType thread PTHREAD_CANCEL_ASYNCHRONOUS 0);
      _ ← pthread_cancel thread;
      mret (Returns 0)
    else mret (Returns ESRCH)).

Definition pthread_cleanup_pop (execute ctxt : Z) : handler (flow unit) :=
  current ← GetCurrentThread;
  on_cleanups (PthreadCleanupManager.PopHandler current execute ctxt).

Definition pthread_cleanup_push (routine arg : Z) : handler (flow unit) :=
  current ← GetCurrentThread;
  returns (on_cleanups (PthreadCleanupManager.PushHandler current routine arg)).

Definition pthread_exit (retval ctxt : Z) : handler (flow unit) :=
  unless_rerun tt (
    current ← GetCurrentThread;
    f ← pthread_cleanup_pop 1 ctxt;
    match f with
    | Leaves => mret Leaves
    | Returns _ =>
        _ ← retire current retval;
        on_sched (PthreadScheduler.resume_simulation true true)
    end).

Definition pthread_testcancel (ctxt : Z) : handler (flow unit) :=
  unless_rerun tt (
    current ← GetCurrentThread;
    canceled ← on_cancels (PthreadCancelManager.IsCanceled current);
    if canceled : bool then pthread_exit PTHREAD_CANCELED ctxt else mret (Returns tt)).

Definition pthread_join (th thread_return ctxt : Z) : handler (flow unit) :=
  unless_rerun tt (
    current ← GetCurrentThread;
    f ← pthread_testcancel ctxt;
    match f with
    | Leaves => mret Leaves
    | Returns _ =>
        blocked ← on_joins (PthreadJoinManager.JoinThreads current th thread_return);
        if blocked : bool then on_sched (PthreadScheduler.BlockThread current ctxt 0 0)
        else mret (Returns tt)
    end).

Definition pthread_detach (thread : Z) : handler (flow Z) :=
  unless_rerun 0 (
    valid ← on_sched (PthreadScheduler.IsThreadValid thread);
    if negb valid then mret (Returns ESRCH)
    else returns (on_joins (PthreadJoinManager.DetachThread thread))).

Definition pthread_equal (thread1 thread2 : Z) : handler (flow Z) :=
  mret (Returns (if thread1 =? thread2 then 1 else 0)).

(** The attribute is computed in a local variable, and lost with it. *)
Definition pthread_getattr (th : Z) (garbage : PthreadAttr.pthread_attr) : handler (flow Z) :=
  a ← on_sched (PthreadScheduler.GetAttr th (PthreadAttr.PTHREAD_ATTR_DEFAULT garbage));
  _ ← on_joins (PthreadJoinManager.GetAttr th a);
  mret (Returns 0).

Definition pthread_self : handler (flow Z) := returns GetCurrentThread.

Definition pthread_setcancelstate (newstate oldstate : Z) : handler (flow Z) :=
  c ← GetCurrentThread;
  returns (on_cancels (PthreadCancelManager.SetState c newstate oldstate)).

Definition pthread_setcanceltype (newtype oldtype : Z) : handler (flow Z) :=
  c ← GetCurrentThread;
  returns (on_cancels (PthreadCancelManager.SetType c newtype oldtype)).

(** ** Thread-specific data *)

Definition pthread_key_create (key func : Z) : handler (flow Z) :=
  unless_rerun 0 (
    _ ← ASSERTX (negb (key =? 0));
    '(k, error) ← on_tls (PthreadTLSManager.AddKey func);
    _ ← emit (Store key k);
    mret (Returns error)).

Definition pthread_key_delete (key : Z) : handler (flow Z) :=
  unless_rerun 0 (returns (on_tls (PthreadTLSManager.RemoveKey key))).

Definition pthread_getspecific (key : Z) : handler (flow Z) :=
  c ← GetCurrentThread;
  returns (on_tls (PthreadTLSManager.GetData c key)).

Definition pthread_setspecific (key data : Z) : handler (flow Z) :=
  c ← GetCurrentThread;
  returns (on_tls (PthreadTLSManager.SetData c key data)).

(** ** The rest of the tool's calls *)

Definition inmtmode : handler (flow bool) :=
  n ← on_sched PthreadScheduler.GetNumActiveThreads;
  mret (Returns (1 <? n)).

Definition docontextswitch (ctxt : Z) : handler (flow unit) :=
  can ← on_malloc PthreadMalloc.CanSwitchThreads;
  if can : bool then
    c ← GetCurrentThread;
    on_sched (PthreadScheduler.BlockThread c ctxt 0 0)
  else mret (Returns tt).

Definition process_ins (context : option Z) (i : PTSInstrTrace) : handler (flow unit) :=
  can ← on_malloc PthreadMalloc.CanSwitchThreads;
  if can : bool then on_sched (PthreadScheduler.process_ins context i)
  else
    _ ← on_sched (modify (λ s, s
      <| total_discarded_instrs ::= λ n, n ⊕ 1 |>
      <| total_discarded_mem_rd ::= PthreadScheduler.count_if (negb (t_raddr i =? 0)) |>
      <| total_discarded_mem_wr ::= PthreadScheduler.count_if (negb (t_waddr i =? 0)) |>
      <| total_discarded_2nd_mem_rd ::= PthreadScheduler.count_if (negb (t_raddr2 i =? 0)) |>));
    mret (Returns tt).

Definition mcsim_skip_instrs_begin : handler (flow unit) :=
  unless_rerun tt (returns (on_sched PthreadScheduler.mcsim_skip_instrs_begin)).
Definition mcsim_skip_instrs_end : handler (flow unit) :=
  unless_rerun tt (returns (on_sched PthreadScheduler.mcsim_skip_instrs_end)).
Definition mcsim_spinning_begin : handler (flow unit) :=
  unless_rerun tt (returns (on_sched PthreadScheduler.mcsim_spinning_begin)).
Definition mcsim_spinning_end : handler (flow unit) :=
  unless_rerun tt (returns (on_sched PthreadScheduler.mcsim_spinning_end)).

Definition set_stack (ctxt : Z) : handler (flow unit) := returns (on_sched (PthreadScheduler.set_stack ctxt)).

Definition threadsafemalloc (iscall istailcall : bool) (rtn_name : string) : handler (flow unit) :=
  c ← GetCurrentThread;
  returns (on_malloc (PthreadMalloc.Analyze c iscall istailcall rtn_name)).

(** ** Construction: the managers, and the initial thread with id 0 *)

Definition no_threads (b : B) : sim B :=
  {| new_thread_id := 0; sched := PthreadScheduler.init b;
     joinmanager := {| joinables := ∅; joinings := ∅ |};
     cancelmanager := {| cancel_pthreads := ∅ |};
     cleanupmanager := {| cleanup_handlers := ∅ |};
     condmanager := {| cond_waiters := ∅ |};
     mutexmanager := {| objs := ∅; PthreadSync.spinning := ∅ |};
     tlsmanager := no_tls;
     barriermanager := {| barriers := ∅ |};
     mallocmanager := PthreadMalloc.init |}.

(** How the construction ends: the program goes on; a trace was played instead of it and
    [exit(1)] was called; Pin took the thread elsewhere; or the trace is still playing when
    the fuel of the player is used up. *)
Inductive initiated : Set := Ready | Exited | Elsewhere | Playing.

Definition initiate (P : player) (ctxt : Z) (garbage : PthreadAttr.pthread_attr) : handler initiated :=
  _ ← on_sched PthreadScheduler.make;
  _ ← pthread_create 0 None None 0 0 0 garbage;
  _ ← set_stack ctxt;
  if (0 <? String.length (trace_name P))%nat then
    f ← on_sched (play P);
    match f with
    | Leaves => mret Elsewhere
    | Returns Unfinished => mret Playing
    | Returns _ =>
        d ← on_sched PthreadScheduler.destroy;
        mret (match d with Leaves => Elsewhere | Returns _ => Exited end)
    end
  else mret Ready.

End Sim.
End PthreadSim.
