(* ===== verification/PthreadInv.v ===== *)
(** * The invariant of the thread library

    Who runs, who waits and for what, and what the simulator believes about it: an
    invariant of the scheduler and the managers together, kept by the calls of the
    simulated program. *)

From S2P Require Import Prelude Containers PthreadAttr PthreadSync Frontend PthreadThreads PthreadScheduler PthreadSim.
Import PTSInterface.

(** ** What the scheduler relies on of the simulator *)

(** What the front end keeps to: the instructions of a batch carry the time at which the
    simulator resumed the thread, and thread numbers are 32-bit words. *)
Definition fits (time : Z) (msg : PTSMessage) : Prop :=
  match msg with
  | pts_add_instruction l => Forall (λ i, curr_time_ i = time) l
  | pts_set_active h _ => in_u32 h
  | _ => True
  end.

(** The simulator keeps which hardware threads are active, as it is told, and goes on
    with an active one when there is any; its time goes on when it resumes only, and it
    tells the time then.  [backend_ok] are the states in which it does so. *)
Class BackendLaws {B} (BE : Backend B) := {
  thread_active : B → Z → bool;
  backend_ok : B → Prop;
  backend_time : B → Z;
  serve_ok msg b : backend_ok b → fits (backend_time b) msg → backend_ok (snd (serve msg b));
  serve_set_active h a b h' : backend_ok b → in_u32 h →
    thread_active (snd (serve (pts_set_active h a) b)) h' = if decide (h' = h) then a else thread_active b h';
  serve_other msg b h' : backend_ok b → fits (backend_time b) msg →
    (∀ h a, msg ≠ pts_set_active h a) → thread_active (snd (serve msg b)) h' = thread_active b h';
  serve_resume must_switch killed b : backend_ok b →
    (∃ h, thread_active b h = true) →
    thread_active b (uint32_t_val (fst (serve (pts_resume_simulation must_switch killed) b))) = true;
  serve_resume_time must_switch killed b : backend_ok b →
    (∃ h, thread_active b h = true) →
    backend_time (snd (serve (pts_resume_simulation must_switch killed) b)) =
    uint64_t_val (fst (serve (pts_resume_simulation must_switch killed) b));
  serve_same_time msg b : backend_ok b → fits (backend_time b) msg →
    match msg with pts_resume_simulation _ _ | pts_destructor => True
    | _ => backend_time (snd (serve msg b)) = backend_time b end }.

Section Proxy.
Context {B : Type} {BE : Backend B} {BL : BackendLaws BE}.
Implicit Types (s : PTS.pts B) (V : Z → bool).

(** The proxy, when [n] hardware threads exist, thread [t] may have instructions piled up,
    the simulator takes the threads of [V] for active, and its time is [time]. *)
Record link (n : Z) (t : option Z) (V : Z → bool) (time : Z) (s : PTS.pts B) : Prop := {
  link_pile : PTS.pile_ok n t s;
  link_n : PTS.num_hthreads s = n;
  link_active h : thread_active (PTS.mcsim s) h = V h;
  link_ok : backend_ok (PTS.mcsim s);
  link_time : backend_time (PTS.mcsim s) = time;
  link_instr : Forall (λ i, curr_time_ i = time) (PTS.instr s) }.

Lemma pile_weaken n t s : PTS.pile_ok n None s → PTS.pile_ok n t s.
Proof.
  intros [Hn Ht Hb Hty]. split; [done| |done|done]. eapply Forall_weaken; [exact Ht|]. by intros x [_ ?].
Qed.

Lemma link_weaken n t V time s : link n None V time s → link n t V time s.
Proof. intros [Hp Hn Ha]. split; [by apply pile_weaken|done..]. Qed.

Lemma link_ext n t V V' time s : (∀ h, V h = V' h) → link n t V time s → link n t V' time s.
Proof. intros HV [Hp Hn Ha]. split; [done|done| |done..]. intros h. by rewrite <- HV. Qed.

(** What a message changes of the threads that are active. *)
Definition told (msg : PTSMessage) (V : Z → bool) (h : Z) : bool :=
  match msg with pts_set_active h0 a => if decide (h = h0) then a else V h | _ => V h end.

(** The time after a message that was answered by [r]. *)
Definition time_after (msg : PTSMessage) (r : reply) (time : Z) : Z :=
  match msg with pts_resume_simulation _ _ => uint64_t_val r | _ => time end.

(** What serving instructions leaves as it is. *)
Definition same_threads (b b' : B) : Prop :=
  backend_ok b → backend_ok b' ∧ backend_time b' = backend_time b ∧ ∀ h, thread_active b' h = thread_active b h.

Lemma same_threads_batch l b :
  Forall (λ i, curr_time_ i = backend_time b) l → same_threads b (snd (serve (pts_add_instruction l) b)).
Proof.
  intros Hl Hb. split_and!; [by apply serve_ok|by apply (serve_same_time (pts_add_instruction l))|].
  intros h. by apply serve_other.
Qed.

Lemma wpl_link_request n t V time msg s o T (Q : reply → PTS.pts B → list event → Prop) :
  PTS.is_batch msg = false → msg ≠ pts_destructor → fits time msg → link n t V time s → PTS.issued T s o →
  (∀ a k, msg = pts_resume_simulation a k → ∃ h, V h = true) →
  (∀ r s' o', link n None (told msg V) (time_after msg r time) s' → PTS.issued (T ++ [inr msg]) s' o' →
     (∀ a k, msg = pts_resume_simulation a k → V (uint32_t_val r) = true) → Q r s' o') →
  wpl no_failure (PTS.request msg) s o Q.
Proof.
  intros Hm Hd Hfit [Hp Hn Ha Hok Ht Hl] HT Hsome HQ. subst time.
  eapply (PTS.wpl_request same_threads); [by intros b|done|exact Hp|exact HT|by apply same_threads_batch|].
  intros r s' o' Hp' Hempty HT' Hn' (b & Hb & Hs). destruct (Hb Hok) as (Hok' & Ht & Hb'). rewrite <- Ht in Hfit.
  assert (PTS.mcsim s' = snd (serve msg b)) as Hs' by by rewrite Hs.
  assert (∀ a k, msg = pts_resume_simulation a k → ∃ h, thread_active b h = true) as Hsome'.
  { intros a k ->. destruct (Hsome a k eq_refl) as [h Hh]. exists h. by rewrite Hb', Ha. }
  apply HQ; [|done|].
  - split; [done|by rewrite Hn'| |rewrite Hs'; by apply serve_ok| |by rewrite Hempty]; rewrite Hs'.
    + intros h. destruct msg; first
        [ rewrite serve_set_active by done; cbn; case_decide; [done|by rewrite Hb', Ha]
        | rewrite serve_other by done; by rewrite Hb', Ha ].
    + pose proof (serve_same_time msg b Hok' Hfit) as Htm. destruct msg as [|a k| | | | | | |]; try done; try (by rewrite Htm).
      rewrite serve_resume_time by eauto. cbn. by rewrite Hs.
  - intros a k ->. pose proof (serve_resume a k b Hok' (Hsome' a k eq_refl)) as Hr. rewrite Hs in Hr. cbn in Hr.
    by rewrite <- Ha, <- (Hb' (uint32_t_val r)).
Qed.

Lemma wpl_link_add n t V time i (p : bool) s o T (Q : bool → PTS.pts B → list event → Prop) :
  t = None ∨ t = Some (hthreadid_ i) → 0 ≤ hthreadid_ i < n → curr_time_ i = time → link n t V time s →
  PTS.issued T s o →
  (∀ r s' o', link n (if p then Some (hthreadid_ i) else None) V time s' → PTS.issued (T ++ [inl i]) s' o' → Q r s' o') →
  wpl no_failure (PTS.add_instruction i p) s o Q.
Proof.
  intros Ht Hi Htime [Hp Hn Ha Hok Htm Hl] HT HQ.
  assert (Forall (λ j, curr_time_ j = backend_time (PTS.mcsim s)) (PTS.instr s ++ [i])) as Hall.
  { rewrite Htm. apply Forall_app. split; [done|by constructor]. }
  eapply (PTS.wpl_add_instruction same_threads); [by intros b|done|done|exact Hp|exact HT|by apply same_threads_batch|].
  intros r s' o' Hp' HT' Hn' Hb Hin. destruct (Hb Hok) as (Hok' & Htm' & Hb'). apply HQ; [|done].
  split; [done|by rewrite Hn'| |done|by rewrite Htm'|].
  - intros h. by rewrite Hb'.
  - rewrite <- Htm, Forall_forall in *. intros j Hj. by apply Hall, Hin.
Qed.

Lemma safe_request n t V time msg s (Q : reply → PTS.pts B → Prop) :
  PTS.is_batch msg = false → msg ≠ pts_destructor → fits time msg → link n t V time s →
  (∀ a k, msg = pts_resume_simulation a k → ∃ h, V h = true) →
  (∀ r s', link n None (told msg V) (time_after msg r time) s' →
     (∀ a k, msg = pts_resume_simulation a k → V (uint32_t_val r) = true) → Q r s') →
  safe (PTS.request msg) s Q.
Proof.
  intros Hm Hd Hfit Hl Hsome HQ. apply (safe_of_wpl _ _ []). eapply wpl_link_request; [done..|by split|done|].
  intros r s' o' Hl' _. by apply HQ.
Qed.

Lemma safe_add_instruction n t V time i (p : bool) s (Q : bool → PTS.pts B → Prop) :
  t = None ∨ t = Some (hthreadid_ i) → 0 ≤ hthreadid_ i < n → curr_time_ i = time → link n t V time s →
  (∀ r s', link n (if p then Some (hthreadid_ i) else None) V time s' → Q r s') →
  safe (PTS.add_instruction i p) s Q.
Proof.
  intros Ht Hi Htime Hl HQ. apply (safe_of_wpl _ _ []). eapply wpl_link_add; [done..|by split|].
  intros r s' o' Hl' _. by apply HQ.
Qed.
End Proxy.

(** ** Counting the active threads *)

(** The threads with their state: [true] when active. *)
Definition is_on (V : gmap Z bool) (h : Z) : bool := default false (V !! h).
Definition cnt (V : gmap Z bool) : Z := Z.of_nat (size (filter (λ kv, kv.2 = true) V)).

Lemma cnt_on V t : V !! t ≠ Some true → cnt (<[t := true]> V) = cnt V + 1.
Proof.
  intros Ht. unfold cnt. rewrite map_filter_insert_True by done. rewrite map_size_insert_None; [lia|].
  apply map_lookup_filter_None. right. intros b Hb. cbn. congruence.
Qed.

Lemma cnt_delete V t : V !! t = Some true → cnt (delete t V) = cnt V - 1.
Proof.
  intros Ht. unfold cnt. rewrite map_filter_delete.
  assert (filter (λ kv : Z * bool, kv.2 = true) V !! t = Some true) as Hf by by apply map_lookup_filter_Some.
  assert (size (filter (λ kv : Z * bool, kv.2 = true) V) ≠ 0%nat) as H0
    by (intros E%map_size_empty_iff; by rewrite E in Hf).
  rewrite map_size_delete_Some by eauto. lia.
Qed.

Lemma cnt_off V t : V !! t = Some true → cnt (<[t := false]> V) = cnt V - 1.
Proof.
  intros Ht. rewrite <- (cnt_delete V t) by done. unfold cnt. rewrite map_filter_insert_False by done.
  by rewrite map_filter_delete.
Qed.

Lemma cnt_bound V n : 0 ≤ n → (∀ t b, V !! t = Some b → 0 ≤ t < n) → 0 ≤ cnt V ≤ n.
Proof.
  intros Hn HV. unfold cnt. split; [lia|].
  assert (size (filter (λ kv : Z * bool, kv.2 = true) V) ≤ size (list_to_set (seqZ 0 n) : gset Z))%nat as H.
  { rewrite <- size_dom. apply subseteq_size. intros t Ht. apply elem_of_dom in Ht as [b Hb].
    apply map_lookup_filter_Some in Hb as [Hb _]. apply elem_of_list_to_set, elem_of_seqZ. apply HV in Hb. lia. }
  rewrite size_list_to_set in H by apply NoDup_seqZ. rewrite length_seqZ in H. lia.
Qed.

Lemma cnt_pos V : 0 < cnt V ↔ ∃ h, is_on V h = true.
Proof.
  unfold cnt, is_on. split.
  - intros H. destruct (map_choose (filter (λ kv : Z * bool, kv.2 = true) V)) as (h & b & Hh).
    { intros E. rewrite E, map_size_empty in H. lia. }
    apply map_lookup_filter_Some in Hh as [Hh Hb]. cbn in Hb. subst. exists h. by rewrite Hh.
  - intros [h Hh]. destruct (V !! h) as [[]|] eqn:E; [|done..].
    assert (size (filter (λ kv : Z * bool, kv.2 = true) V) ≠ 0%nat); [|lia].
    intros H%map_size_empty_iff.
    assert (filter (λ kv : Z * bool, kv.2 = true) V !! h = Some true) as Hf by by apply map_lookup_filter_Some.
    by rewrite H in Hf.
Qed.

(** ** The scheduler *)

Section Scheduler.
Context {B : Type} {BE : Backend B} {BL : BackendLaws BE} {PIN : Pin}.
Implicit Types (s : scheduler B).

Definition sview s : gmap Z bool := active <$> pthreads s.

(** Thread ids are the numbers of the hardware threads; the active threads are counted
    ([d] is what the count is off inside an operation) and the simulator knows them; only
    the current thread has instructions piled up. *)
Record sched_ok (n : Z) (c : option Z) (d : Z) s : Prop := {
  so_bound : 0 < n < 2 ^ 31;
  so_len : n ≤ Z.of_nat (length (hth_to_pth s));
  so_threads t p : pthreads s !! t = Some p →
    0 ≤ t < n ∧ pth_to_hth s !! t = Some t ∧ hth_to_pth s !! Z.to_nat t = Some (Some t);
  so_count : nactive s = cnt (sview s) + d;
  so_current : current s = c;
  so_link : link n c (is_on (sview s)) (curr_time s) (pts s) }.

Lemma sview_lookup s t : sview s !! t = active <$> pthreads s !! t.
Proof. apply lookup_fmap. Qed.

Lemma sview_Some s t b : sview s !! t = Some b → ∃ p, pthreads s !! t = Some p ∧ active p = b.
Proof. rewrite sview_lookup. intros (p & -> & ->)%fmap_Some. by exists p. Qed.

Lemma so_range n c d s t b : sched_ok n c d s → sview s !! t = Some b → 0 ≤ t < n.
Proof. intros Hs (p & Hp & _)%sview_Some. by apply (so_threads _ _ _ _ Hs) in Hp as [? _]. Qed.

Lemma so_cnt n c d s : sched_ok n c d s → 0 ≤ cnt (sview s) ≤ n.
Proof. intros Hs. apply cnt_bound; [destruct (so_bound _ _ _ _ Hs); lia|]. intros t b Hb. by eapply so_range. Qed.

(** Updates that concern neither the threads nor the proxy. *)
Lemma sched_ok_frame n c d s s' :
  sched_ok n c d s → pthreads s' = pthreads s → pth_to_hth s' = pth_to_hth s → hth_to_pth s' = hth_to_pth s →
  nactive s' = nactive s → current s' = current s → curr_time s' = curr_time s → pts s' = pts s → sched_ok n c d s'.
Proof.
  intros [Hb Hlen Ht Hc Hcur Hl] E1 E2 E3 E4 E5 E6 E7. unfold sview in *.
  split; unfold sview; rewrite ?E1, ?E2, ?E3, ?E4, ?E5, ?E6, ?E7; done.
Qed.

Lemma sched_ok_pts n c d s p : sched_ok n c d s → link n c (is_on (sview s)) (curr_time s) p →
  sched_ok n c d (s <| pts := p |>).
Proof. intros [Hb Hlen Ht Hc Hcur Hl] Hp. by split. Qed.

(** A thread is updated; its place in the tables stays. *)
Lemma sview_alter s t f : (∀ p, active (f p) = active p) → sview (s <| pthreads ::= alter f t |>) = sview s.
Proof.
  intros Hf. apply map_eq. intros t'. rewrite !sview_lookup. cbn. destruct (decide (t' = t)) as [->|Hne].
  - rewrite lookup_alter_eq. destruct (pthreads s !! t); cbn; [by rewrite Hf|done].
  - by rewrite lookup_alter_ne.
Qed.

Lemma sched_ok_alter n c d s t f : (∀ p, active (f p) = active p) → sched_ok n c d s →
  sched_ok n c d (s <| pthreads ::= alter f t |>).
Proof.
  intros Hf [Hb Ht Hc Hcur Hl]. pose proof (sview_alter s t f Hf) as Hv. split; rewrite ?Hv; try done.
  intros t' p. cbn. intros [(-> & p' & Hp' & _)|[_ Hp]]%lookup_alter_Some; eauto.
Qed.

Lemma safe_current_entry n c d s (Q : Z * Pthread → scheduler B → Prop) :
  sched_ok n (Some c) d s → is_Some (sview s !! c) →
  (∀ p, pthreads s !! c = Some p → Q (c, p) s) → safe PthreadScheduler.current_entry s Q.
Proof.
  intros Hs [b (p & Hp & _)%sview_Some] HQ. unfold PthreadScheduler.current_entry. safe_steps.
  rewrite (so_current _ _ _ _ Hs). eapply safe_lift_ok; [done|]. cbv beta. safe_steps.
  rewrite Hp. eapply safe_lift_ok; [done|]. cbv beta. safe_steps. by apply HQ.
Qed.

Lemma safe_GetCurrentThread n c d s (Q : Z → scheduler B → Prop) :
  sched_ok n (Some c) d s → is_Some (sview s !! c) → Q c s → safe PthreadScheduler.GetCurrentThread s Q.
Proof.
  intros Hs Hc HQ. unfold PthreadScheduler.GetCurrentThread. safe_steps.
  eapply safe_current_entry; [done..|]. intros p Hp. by safe_steps.
Qed.

Lemma safe_update_current n c d s f (Q : unit → scheduler B → Prop) :
  (∀ p, active (f p) = active p) → sched_ok n (Some c) d s → is_Some (sview s !! c) →
  (∀ s', sched_ok n (Some c) d s' → sview s' = sview s → Q tt s') →
  safe (PthreadScheduler.update_current f) s Q.
Proof.
  intros Hf Hs Hc HQ. unfold PthreadScheduler.update_current. safe_steps.
  eapply safe_current_entry; [done..|]. intros p Hp. unfold PthreadScheduler.update_thread. safe_steps.
  apply HQ; [by apply sched_ok_alter|by apply sview_alter].
Qed.

Lemma safe_GetThread s t (Q : Pthread → scheduler B → Prop) :
  (∀ p, pthreads s !! t = Some p → Q p s) → safe (PthreadScheduler.GetThread t) s Q.
Proof.
  intros HQ. unfold PthreadScheduler.GetThread. safe_steps.
  destruct (pthreads s !! t) as [p|] eqn:E; [by apply HQ|done].
Qed.

(** Messages that do not change who is active. *)
Definition quiet (msg : PTSMessage) : Prop :=
  PTS.is_batch msg = false ∧ msg ≠ pts_destructor ∧ ∀ h a, msg ≠ pts_set_active h a.

Lemma told_quiet msg V h : quiet msg → told msg V h = V h.
Proof. intros (_ & _ & Hq). destruct msg; try done. by destruct (Hq uint32_t_val0 bool_val0). Qed.

Lemma fits_quiet time msg : quiet msg → fits time msg.
Proof. intros (Hb & _ & Hq). destruct msg; try done. by destruct (Hq uint32_t_val0 bool_val0). Qed.

Lemma safe_quiet {A} n c d s msg (k : reply → A) (Q : A → scheduler B → Prop) :
  quiet msg → sched_ok n c d s → (∀ a b, msg = pts_resume_simulation a b → 0 < cnt (sview s)) →
  (∀ r p, link n None (is_on (sview s)) (time_after msg r (curr_time s)) p →
     (∀ a b, msg = pts_resume_simulation a b → is_on (sview s) (uint32_t_val r) = true) →
     Q (k r) (s <| pts := p |>)) →
  safe (PthreadScheduler.on_pts (r ← PTS.request msg; mret (k r))) s Q.
Proof.
  intros Hq Hs Hc HQ. unfold PthreadScheduler.on_pts. safe_steps.
  eapply safe_request; [apply Hq|apply Hq|by apply fits_quiet|apply (so_link _ _ _ _ Hs)|
    intros a b E; by apply cnt_pos, (Hc a b)|]. intros r p Hp Hres. safe_steps.
  apply HQ; [|exact Hres]. eapply link_ext; [|exact Hp]. intros h. by apply told_quiet.
Qed.

(** [set_active] of a thread in the tables. *)
Lemma u32_thread n t : 0 < n < 2 ^ 31 → 0 ≤ t < n → u32 (i32 t) = t.
Proof. intros Hn Ht. unfold u32, i32. rewrite (Z.mod_small (t + 2 ^ 31)) by lia. rewrite Z.mod_small; lia. Qed.

Lemma safe_SetActiveState n c d s t b b0 (Q : unit → scheduler B → Prop) :
  sched_ok n c d s → sview s !! t = Some b0 →
  (∀ s', sched_ok n c (d + cnt (sview s) - cnt (<[t := b]> (sview s))) s' →
     link n None (is_on (sview s')) (curr_time s') (pts s') → sview s' = <[t := b]> (sview s) → Q tt s') →
  safe (PthreadScheduler.SetActiveState t b) s Q.
Proof.
  intros Hs Ht HQ. unfold PthreadScheduler.SetActiveState. safe_steps. apply safe_GetThread. intros p Hp.
  unfold PthreadScheduler.update_thread. safe_steps. unfold PTS.set_active, PthreadScheduler.on_pts. safe_steps.
  pose proof (so_range _ _ _ _ _ _ Hs Ht) as Hr. destruct Hs as [Hb Hlen Hth Hc Hcur Hl].
  eapply safe_request; [done|done|apply u32_range|exact Hl|done|]. intros r p' Hp' _. safe_steps.
  set (s' := set pts _ _). assert (sview s' = <[t := b]> (sview s)) as Hv.
  { apply map_eq. intros t'. rewrite sview_lookup. unfold s'. cbn. destruct (decide (t' = t)) as [->|Hne].
    - by rewrite lookup_alter_eq, Hp, lookup_insert_eq.
    - by rewrite lookup_alter_ne, lookup_insert_ne, sview_lookup by done. }
  assert (link n None (is_on (sview s')) (curr_time s') (pts s')) as Hl'.
  { rewrite Hv. eapply link_ext; [|exact Hp']. intros h. cbn. unfold is_on.
    rewrite (u32_thread n t) by done. case_decide as Hh.
    - subst. by rewrite lookup_insert_eq.
    - by rewrite lookup_insert_ne. }
  apply HQ; [|done..]. split; [done|done| | |done|by apply link_weaken].
  - intros t' q. unfold s'. cbn. intros [(-> & q' & Hq' & _)|[_ Hq]]%lookup_alter_Some; eauto.
  - rewrite Hv. unfold s'. cbn. rewrite Hc. lia.
Qed.

(** An instruction for thread [t] that must not be piled up. *)
Lemma safe_send_synch n c d s t waddr wlen l u b (Q : unit → scheduler B → Prop) :
  sched_ok n c d s → is_Some (sview s !! t) → c = Some t ∨ link n None (is_on (sview s)) (curr_time s) (pts s) →
  (∀ s', sched_ok n c d s' → sview s' = sview s → link n None (is_on (sview s')) (curr_time s') (pts s') → Q tt s') →
  safe (PthreadScheduler.send_synch t waddr wlen l u b) s Q.
Proof.
  intros Hs [b0 Ht] Hc HQ. unfold PthreadScheduler.send_synch. safe_steps. apply safe_GetThread. intros p Hp.
  unfold PthreadScheduler.hth_of, PthreadScheduler.on_pts. safe_steps.
  destruct (so_threads _ _ _ _ Hs _ _ Hp) as (Hr & Hh & _). rewrite Hp, Hh. cbn [default].
  assert (∃ t', link n t' (is_on (sview s)) (curr_time s) (pts s) ∧ (t' = None ∨ t' = Some t)) as (t' & Hl & Ht').
  { destruct Hc as [-> |Hc]; eauto. exists (Some t). split; [apply (so_link _ _ _ _ Hs)|by right]. }
  eapply safe_add_instruction; [exact Ht'|exact Hr|done|exact Hl|]. intros r s' Hs'. safe_steps.
  apply HQ; [by apply sched_ok_pts; [|apply link_weaken]|done|exact Hs'].
Qed.

Lemma safe_add_synch n c s l u bar np (Q : unit → scheduler B → Prop) :
  sched_ok n (Some c) 0 s → is_Some (sview s !! c) →
  (∀ s', sched_ok n (Some c) 0 s' → sview s' = sview s → Q tt s') →
  safe (PthreadScheduler.add_synch_instruction c l u bar np) s Q.
Proof.
  intros Hs Hc HQ. unfold PthreadScheduler.add_synch_instruction. safe_steps.
  eapply safe_current_entry; [done..|]. intros p Hp. cbv beta iota. unfold PthreadScheduler.skipping. safe_steps.
  destruct (_ && _ && _); [safe_steps; by apply HQ|].
  destruct (negb (bar =? 0)); (eapply safe_send_synch; [done|done|by left|]); intros s' H1 H2 _; by apply HQ.
Qed.

Lemma safe_UnblockThread n c s t (Q : unit → scheduler B → Prop) :
  sched_ok n c 0 s → 
  (∀ s', sched_ok n c 0 s' → sview s !! t = Some false → sview s' = <[t := true]> (sview s) → Q tt s') →
  safe (PthreadScheduler.UnblockThread t) s Q.
Proof.
  intros Hs HQ. unfold PthreadScheduler.UnblockThread, PthreadScheduler.IsActive. safe_steps.
  apply safe_GetThread. intros p Hp. safe_steps. rename H into Ha. apply negb_true_iff in Ha.
  assert (sview s !! t = Some false) as Ht by (by rewrite sview_lookup, Hp; cbn; rewrite Ha).
  eapply safe_SetActiveState; [exact Hs|exact Ht|]. intros s1 Hs1 Hl1 Hv1.
  rewrite cnt_on in Hs1 by (by rewrite Ht). safe_steps.
  eapply safe_send_synch; [exact Hs1|by rewrite Hv1, lookup_insert_eq|by right|].
  intros s2 Hs2 Hv2 _. safe_steps. rewrite Hv1 in Hv2.
  apply HQ; [|done|exact Hv2]. pose proof (so_cnt _ _ _ _ Hs) as Hb. pose proof (so_bound _ _ _ _ Hs) as Hn.
  pose proof (so_cnt _ _ _ _ Hs2) as Hb2. destruct Hs2 as [Hn2 Hlen Hth Hc Hcur Hl]. split; try done.
  change (nactive s2 ⊕₃₂ 1 = cnt (sview s2) + 0). rewrite Hc. rewrite Hv2 in *.
  rewrite cnt_on by (by rewrite Ht). unfold u32. rewrite cnt_on in Hb2 by (by rewrite Ht).
  rewrite Z.mod_small; lia.
Qed.

(** Whoever the simulator resumes is active; when it must switch, the thread that calls
    returns only if it is the one resumed. *)
Lemma safe_resume n c s m k (Q : flow unit → scheduler B → Prop) :
  sched_ok n c 0 s → 0 < cnt (sview s) →
  (∀ f s' c', sched_ok n (Some c') 0 s' → sview s' = sview s → sview s !! c' = Some true →
     (m = true → f = Returns tt → c = Some c') → Q f s') →
  safe (PthreadScheduler.resume_simulation m k) s Q.
Proof.
  intros Hs Hcnt HQ. unfold PthreadScheduler.resume_simulation. safe_steps. unfold PTS.resume_simulation.
  eapply safe_quiet; [done|exact Hs|done|]. intros r p Hp Hon. cbv beta iota. safe_steps.
  specialize (Hon m k eq_refl). set (h := uint32_t_val r) in *.
  assert (sview s !! h = Some true) as Hh.
  { unfold is_on in Hon. by destruct (sview s !! h) as [[]|]. }
  pose proof Hh as (q & Hq & _)%sview_Some. destruct (so_threads _ _ _ _ Hs _ _ Hq) as (Hr & _ & Hit).
  change (hth_to_pth (set curr_time _ _)) with (hth_to_pth s). rewrite Hit. safe_steps.
  (* the state in which the new current thread is set *)
  assert (∀ s1, pthreads s1 = pthreads s → pth_to_hth s1 = pth_to_hth s → hth_to_pth s1 = hth_to_pth s →
    nactive s1 = nactive s → current s1 = Some h → curr_time s1 = uint64_t_val r → pts s1 = p → sched_ok n (Some h) 0 s1 ∧ sview s1 = sview s) as Hset.
  { intros s1 E1 E2 E3 E4 E5 E6 E7. unfold sview. rewrite E1. split; [|done]. destruct Hs as [Hb Hlen Hth Hc _ _].
    split; unfold sview; rewrite ?E1, ?E2, ?E3, ?E4, ?E5, ?E6, ?E7; try done. by apply link_weaken. }
  set (s1 := set curr_time _ _).
  assert (∀ b : bool, (m = true → b = true) → safe (if b then
      _ ← PthreadScheduler.update_current (λ p, p <| started := true |>);
      '(_, p) ← PthreadScheduler.current_entry;
      _ ← emit (ExecuteAt (PIN_SetContextFPState (startctxt p) (fpstate p))); mret Leaves
    else mret (Returns tt)) (set current (λ _, Some h) s1) Q) as Hswitch.
  { intros b Hb. destruct (Hset (set current (λ _, Some h) s1)) as [Hs2 Hv2]; try done.
    destruct b; [|safe_steps; eapply HQ; [exact Hs2|done|done|by intros ?%Hb]]. safe_steps.
    eapply safe_update_current; [|exact Hs2|by rewrite Hv2, Hh|]; [done|].
    intros s3 Hs3 Hv3. safe_steps. eapply safe_current_entry; [exact Hs3|by rewrite Hv3, Hv2, Hh|].
    intros q2 _. cbv beta iota. safe_steps. eapply HQ; [exact Hs3|by rewrite Hv3|done|done]. }
  case_bool_decide as Hc.
  - destruct (Hset s1) as [Hs1 Hv1]; try done. safe_steps.
    eapply safe_current_entry; [exact Hs1|by rewrite Hv1, Hh|]. intros q' Hq'. cbv beta iota. safe_steps.
    destruct (started q'); safe_steps; [|apply Hswitch; intros ->; apply orb_true_r].
    eapply safe_update_current; [|exact Hs1|by rewrite Hv1, Hh|]; [done|].
    intros s2 Hs2 Hv2. safe_steps. eapply HQ; [exact Hs2|by rewrite Hv2|done|]. intros _ _. by rewrite <- (so_current _ _ _ _ Hs).
  - safe_steps. apply Hswitch. intros ->. apply orb_true_r.
Qed.

(** The current thread blocks, and an active one goes on. *)
Lemma safe_BlockThread n c s ctxt bar np (Q : flow unit → scheduler B → Prop) :
  sched_ok n (Some c) 0 s → sview s !! c = Some true →
  (∀ f s' c', sched_ok n (Some c') 0 s' → sview s' = <[c := false]> (sview s) →
     sview s' !! c' = Some true → Q f s') →
  safe (PthreadScheduler.BlockThread c ctxt bar np) s Q.
Proof.
  intros Hs Hc HQ. unfold PthreadScheduler.BlockThread. safe_steps.
  eapply (safe_mono _ _ (λ _ s1, sched_ok n (Some c) 0 s1 ∧ sview s1 = sview s)).
  { apply safe_when; [|by intros _]. intros _. eapply safe_send_synch; [done|by rewrite Hc|by left|]. by intros s1 ? ? _. }
  intros [] s1 [Hs1 Hv1]. rewrite <- Hv1 in Hc, HQ. clear s Hs Hv1. unfold PthreadScheduler.IsActive. safe_steps.
  apply safe_GetThread. intros p Hp. safe_steps. eapply safe_SetActiveState; [exact Hs1|exact Hc|].
  intros s2 Hs2 _ Hv2. rewrite cnt_off in Hs2 by done. safe_steps.
  set (s3 := set nactive (λ k, k ⊖₃₂ 1) s2).
  pose proof (so_cnt _ _ _ _ Hs1) as Hb1. pose proof (so_cnt _ _ _ _ Hs2) as Hb2. pose proof (so_bound _ _ _ _ Hs1) as Hn.
  rewrite Hv2, cnt_off in Hb2 by done.
  assert (nactive s2 ⊖₃₂ 1 = cnt (sview s3)) as Hcnt.
  { rewrite (so_count _ _ _ _ Hs2). change (sview s3) with (sview s2). rewrite Hv2, cnt_off by done.
    unfold u32. rewrite Z.mod_small; lia. }
  assert (sched_ok n (Some c) 0 s3) as Hs3.
  { destruct Hs2. split; try done. change (nactive s3) with (nactive s2 ⊖₃₂ 1). lia. }
  rename H0 into Hpos. apply Z.ltb_lt in Hpos. change (0 < nactive s2 ⊖₃₂ 1) in Hpos.
  unfold PthreadScheduler.save_context.
  change (sview s2) with (sview s3) in Hv2.
  eapply safe_update_current; [|exact Hs3|by rewrite Hv2, lookup_insert_eq|]; [done|]. intros s4 Hs4 Hv4.
  eapply safe_resume; [exact Hs4|rewrite Hv4; lia|]. intros f s5 c' Hs5 Hv5 Hc' _.
  rewrite Hv4, Hv2 in Hv5. apply (HQ f s5 c'); [done|done|by rewrite Hv5, <- Hv2, <- Hv4].
Qed.

(** A thread that is active leaves; when it is the current one, [current] dangles. *)
Lemma safe_KillThread n c s t (Q : unit → scheduler B → Prop) :
  sched_ok n (Some c) 0 s → is_Some (sview s !! c) → sview s !! t = Some true →
  (∀ s', sched_ok n (Some c) 0 s' → sview s' = delete t (sview s) → Q tt s') →
  safe (PthreadScheduler.KillThread t) s Q.
Proof.
  intros Hs Hc Ht HQ. unfold PthreadScheduler.KillThread. safe_steps.
  eapply safe_GetCurrentThread; [done..|]. safe_steps.
  eapply (safe_mono _ _ (λ _ s1, s1 = s)).
  { destruct (t =? c); [|by safe_steps]. unfold PthreadScheduler.IsActive. safe_steps.
    apply safe_GetThread. intros p _. by safe_steps. }
  intros [] s1 ->. unfold PthreadScheduler.hth_of. safe_steps.
  pose proof Ht as (p & Hp & _)%sview_Some. rewrite Hp. destruct (so_threads _ _ _ _ Hs _ _ Hp) as (Hr & -> & _).
  cbn [default]. unfold PTS.set_stack_n_size, PTS.get_curr_time.
  eapply safe_quiet; [done|exact Hs|done|]. intros r1 p1 Hp1 _. unfold PthreadScheduler.on_pts, PTS.set_active. safe_steps.
  eapply safe_request; [done|done|apply u32_range|exact Hp1|done|]. intros r2 p2 Hp2 _. safe_steps.
  eapply safe_request; [done|done|done|exact Hp2|done|]. intros r3 p3 Hp3 _. safe_steps.
  set (s' := set nactive _ _). assert (sview s' = delete t (sview s)) as Hv by apply fmap_delete.
  apply HQ; [|exact Hv]. pose proof (so_cnt _ _ _ _ Hs) as Hb. destruct Hs as [Hn Hlen Hth Hcnt Hcur Hl].
  pose proof (cnt_delete _ _ Ht) as Hd. pose proof (cnt_bound (delete t (sview s)) n) as Hb'.
  split; [done|done| | |done|].
  - intros t' q. unfold s'. cbn. intros [_ Hq]%lookup_delete_Some. exact (Hth _ _ Hq).
  - rewrite Hv, Hd. change (nactive s') with (nactive s ⊖₃₂ 1). rewrite Hcnt. unfold u32.
    assert (0 ≤ cnt (delete t (sview s))) by (unfold cnt; lia). rewrite Z.mod_small; lia.
  - rewrite Hv. apply link_weaken. eapply link_ext; [|exact Hp3]. intros h. cbn. rewrite (u32_thread n t) by done.
    unfold is_on. case_decide as Hh; [subst; by rewrite lookup_delete_eq|by rewrite lookup_delete_ne].
Qed.

(** The thread [id], the next in the order of creation. *)
Lemma safe_new_Pthread n c s ctxt func arg time st (Q : Pthread → scheduler B → Prop) :
  sched_ok n c 0 s →
  (∀ p s', sched_ok n c 0 s' → pthreads s' = pthreads s → active p = true → Q p s') →
  safe (PthreadScheduler.new_Pthread ctxt func arg time st) s Q.
Proof.
  intros Hs HQ. unfold PthreadScheduler.new_Pthread. destruct ctxt as [ctxt|]; [|safe_steps; by apply HQ].
  safe_steps. unfold PTS.get_param_uint64. eapply safe_quiet; [done|exact Hs|done|]. intros r p Hp _. safe_steps.
  apply HQ; [by apply sched_ok_pts; [|apply link_weaken]|done|done].
Qed.

Lemma insert_at_lookup {A} n (x : A) l : 0 ≤ n ≤ Z.of_nat (length l) →
  ∃ l', PthreadScheduler.insert_at n x l = Ok l' ∧ length l' = S (length l) ∧
    l' !! Z.to_nat n = Some x ∧ ∀ i, 0 ≤ i < n → l' !! Z.to_nat i = l !! Z.to_nat i.
Proof.
  intros Hn. unfold PthreadScheduler.insert_at.
  rewrite (proj2 (Z.leb_le 0 n)), (proj2 (Z.leb_le n _)) by lia. eexists. split; [done|].
  assert (length (take (Z.to_nat n) l) = Z.to_nat n) as Ht by (rewrite length_take; lia).
  split_and!.
  - rewrite length_app, Ht. cbn. rewrite length_drop. lia.
  - rewrite lookup_app_r by lia. by rewrite Ht, Nat.sub_diag.
  - intros i Hi. rewrite lookup_app_l by lia. apply lookup_take_lt. lia.
Qed.

Lemma safe_AddThread n c s id ctxt func arg st (Q : unit → scheduler B → Prop) :
  sched_ok n c 0 s → id = Z.of_nat (size (pthreads s)) → (∀ t b, sview s !! t = Some b → t < id) →
  (∀ s', sched_ok n (if id =? 0 then Some id else c) 0 s' → sview s' = <[id := true]> (sview s) → Q tt s') →
  safe (PthreadScheduler.AddThread id ctxt func arg st) s Q.
Proof.
  intros Hs Hid Hlt HQ. unfold PthreadScheduler.AddThread. safe_steps.
  assert (pthreads s !! id = None) as Hnew by (by destruct (pthreads s !! id)).
  eapply safe_new_Pthread; [exact Hs|]. intros p s1 Hs1 Hp1 Hact. safe_steps.
  assert (Z.of_nat (size (pthreads (set pthreads <[id := p]> s1))) = id + 1) as Hsize.
  { cbn. rewrite Hp1, map_size_insert_None by done. lia. }
  rewrite Hsize. replace (id + 1 - 1) with id by lia.
  replace (id + 1 =? 1) with (id =? 0) by (destruct (Z.eqb_spec id 0), (Z.eqb_spec (id + 1) 1); lia).
  destruct Hs1 as [Hn Hlen Hth Hcnt Hcur Hl]. unfold sview in Hcnt, Hl. rewrite Hp1 in Hcnt, Hl, Hth.
  fold (sview s) in Hcnt, Hl.
  (* the thread fits in the tables, or the program stops *)
  set (s2 := set pthreads <[id := p]> s1).
  eapply (safe_mono _ _ (λ _ s3, id < n ∧ s3 = s2 <| current := if id =? 0 then Some id else c |>)).
  { destruct (Z.eqb_spec id 0) as [E|E]; safe_steps; [split; [lia|done]|].
    rename H0 into Hfit. apply negb_true_iff, Z.ltb_ge in Hfit.
    change (PTS.num_hthreads (pts s2)) with (PTS.num_hthreads (pts s1)) in Hfit. rewrite (link_n _ _ _ _ _ Hl) in Hfit.
    split; [lia|]. rewrite <- Hcur. by destruct s1. }
  intros [] s3 [Hidn ->]. safe_steps.
  destruct (insert_at_lookup id (Some id) (hth_to_pth s1)) as (h & Hh & Hhl & Hhid & Hhlt); [lia|].
  eapply safe_lift_ok; [exact Hh|]. cbv beta. unfold PthreadScheduler.on_pts. safe_steps.
  unfold PTS.set_stack_n_size. safe_steps. eapply safe_request; [done|done|done|exact Hl|done|]. intros r1 p1 Hl1 _. safe_steps.
  unfold PTS.set_active. safe_steps. eapply safe_request; [done|done|apply u32_range|exact Hl1|done|]. intros r2 p2 Hl2 _. safe_steps.
  unfold PTS.get_curr_time. safe_steps. eapply safe_request; [done|done|done|exact Hl2|done|]. intros r3 p3 Hl3 _. safe_steps.
  assert (link n None (is_on (<[id := true]> (sview s))) (curr_time s1) p3) as Hl4.
  { eapply link_ext; [|exact Hl3]. intros k. cbn. rewrite (u32_thread n id), Hact by lia. unfold is_on.
    case_decide; [subst; by rewrite lookup_insert_eq|by rewrite lookup_insert_ne]. }
  assert (∀ s', pthreads s' = <[id := p]> (pthreads s) → pth_to_hth s' = <[id := id]> (pth_to_hth s1) →
    hth_to_pth s' = h → nactive s' = nactive s1 ⊕₃₂ 1 → current s' = (if id =? 0 then Some id else c) →
    link n None (is_on (<[id := true]> (sview s))) (curr_time s') (pts s') → Q tt s') as Hend.
  { intros s' E1 E2 E3 E4 E5 E6. assert (sview s' = <[id := true]> (sview s)) as Hv
      by (unfold sview; by rewrite E1, fmap_insert, Hact).
    assert (sview s !! id ≠ Some true) as Hoff by (by rewrite sview_lookup, Hnew).
    pose proof (so_cnt _ _ _ _ Hs) as Hb. apply HQ; [|exact Hv]. split; [done|rewrite E3, Hhl; lia| | |done|].
    - intros t q. rewrite E1, E2, E3. intros [[<- <-]|[Hne Hq]]%lookup_insert_Some.
      + split; [lia|]. by rewrite lookup_insert_eq, Hhid.
      + assert (t < id) by (eapply (Hlt t (active q)); by rewrite sview_lookup, Hq).
        destruct (Hth _ _ Hq) as (? & ? & Hi). split; [lia|]. rewrite lookup_insert_ne, Hhlt by lia. done.
    - rewrite Hv, cnt_on, E4, Hcnt by done. unfold u32. rewrite Z.mod_small; lia.
    - rewrite Hv. by apply link_weaken. }
  assert (u32 id = id) as Hu by (unfold u32; apply Z.mod_small; lia).
  destruct (negb (id =? 0)); safe_steps.
  - eapply (safe_add_instruction n None); [by left|change (0 ≤ u32 id < n); rewrite Hu; lia|done|exact Hl4|]. intros r4 p4 Hl5. safe_steps.
    apply Hend; cbn; rewrite ?Hp1, ?Hu; done.
  - apply Hend; cbn; rewrite ?Hp1, ?Hu; done.
Qed.

Lemma safe_process_ins n c s ctxt i (Q : flow unit → scheduler B → Prop) :
  sched_ok n (Some c) 0 s → sview s !! c = Some true →
  (∀ f s' c', sched_ok n (Some c') 0 s' → sview s' = sview s → sview s !! c' = Some true → Q f s') →
  safe (PthreadScheduler.process_ins (Some ctxt) i) s Q.
Proof.
  intros Hs Hc HQ. unfold PthreadScheduler.process_ins. safe_steps.
  eapply safe_current_entry; [exact Hs|by rewrite Hc|]. intros p Hp. cbv beta iota.
  assert (∀ f, (∀ p, active (f p) = active p) → sched_ok n (Some c) 0 (s <| pthreads ::= alter f c |>) ∧
    sview (s <| pthreads ::= alter f c |>) = sview s) as Hupd
    by (intros f Hf; split; [by apply sched_ok_alter|by apply sview_alter]).
  unfold PthreadScheduler.update_thread. destruct (_ && _).
  { safe_steps. destruct (Hupd (λ p, p <| executed := true |>)) as [H1 H2]; [done|]. eapply HQ; [exact H1|done|done]. }
  unfold PthreadScheduler.skipping. safe_steps. destruct (_ && _ && _); [safe_steps; by eapply HQ|].
  safe_steps. match goal with |- context [alter ?f c] => destruct (Hupd f) as [Hs1 Hv1]; [done|]; pose (g := f) end.
  fold g in Hs1, Hv1 |- *. set (s1 := set pthreads (alter g c) s) in *. unfold PthreadScheduler.hth_of. safe_steps.
  set (s2 := set total_instrs _ s1).
  assert (sched_ok n (Some c) 0 s2) as Hs2 by (eapply sched_ok_frame; [exact Hs1|done..]).
  assert (sview s2 = sview s) as Hv2 by done.
  pose proof Hc as Hc2. rewrite <- Hv2 in Hc2. apply sview_Some in Hc2 as (q & Hq & Hqa).
  destruct (so_threads _ _ _ _ Hs2 _ _ Hq) as (Hr & Hh & _). rewrite Hq, Hh. cbn [default].
  unfold PthreadScheduler.on_pts. safe_steps.
  eapply safe_add_instruction; [|exact Hr|done|apply (so_link _ _ _ _ Hs2)|]; [by right|]. intros r p' Hl. cbn [PthreadScheduler.instr_of hthreadid_] in Hl.
  set (s3 := set pts _ s2). assert (sched_ok n (Some c) 0 s3) as Hs3 by by apply sched_ok_pts.
  destruct r; [|safe_steps; eapply HQ; [exact Hs3|done|done]]. safe_steps.
  eapply (safe_mono _ _ (λ _ s4, sched_ok n (Some c) 0 s4 ∧ sview s4 = sview s)).
  { apply safe_when; [|done]. intros _. unfold PthreadScheduler.save_context.
    eapply safe_update_current; [|exact Hs3|by change (sview s3) with (sview s2); rewrite Hv2, Hc|]; [done|].
    intros s4 Hs4 Hv4. split; [done|]. by rewrite Hv4. }
  intros [] s4 [Hs4 Hv4]. eapply safe_resume; [exact Hs4| |].
  - rewrite Hv4. apply cnt_pos. exists c. unfold is_on. by rewrite Hc.
  - intros f s5 c' Hs5 Hv5 Hc' _. rewrite Hv4 in *. by eapply HQ.
Qed.

Lemma safe_set_stack n c s ctxt (Q : unit → scheduler B → Prop) :
  sched_ok n (Some c) 0 s → is_Some (sview s !! c) →
  (∀ s', sched_ok n (Some c) 0 s' → sview s' = sview s → Q tt s') →
  safe (PthreadScheduler.set_stack ctxt) s Q.
Proof.
  intros Hs Hc HQ. unfold PthreadScheduler.set_stack. safe_steps. eapply safe_current_entry; [done..|].
  intros p Hp. cbv beta iota. destruct (stack p =? 0); [|safe_steps; by apply HQ]. safe_steps.
  unfold PTS.get_param_uint64. eapply safe_quiet; [done|exact Hs|done|]. intros r p1 Hp1 _.
  unfold PthreadScheduler.update_thread, PthreadScheduler.on_pts, PTS.set_stack_n_size. safe_steps.
  eapply safe_request; [done|done|done|exact Hp1|done|]. intros r2 p2 Hp2 _. safe_steps.
  match goal with |- context [alter ?f c] => pose (g := f) end.
  set (s1 := s <| pthreads ::= alter g c |>).
  assert (sview s1 = sview s) as Hv1 by by apply sview_alter.
  assert (sched_ok n (Some c) 0 s1) as Hs1 by by apply sched_ok_alter.
  apply HQ; [|exact Hv1]. apply (sched_ok_pts _ _ _ s1 p2 Hs1). rewrite Hv1. by apply link_weaken.
Qed.

Lemma safe_GetAttr s t a (Q : PthreadAttr.pthread_attr → scheduler B → Prop) :
  is_Some (sview s !! t) → (∀ a, Q a s) → safe (PthreadScheduler.GetAttr t a) s Q.
Proof.
  intros [b (p & Hp & _)%sview_Some] HQ. unfold PthreadScheduler.GetAttr. safe_steps. rewrite Hp.
  eapply safe_lift_ok; [done|]. cbv beta. destruct (stack p =? 0); safe_steps; apply HQ.
Qed.

End Scheduler.
