(* ===== verification/PthreadReach.v ===== *)
(** * What the calls of the thread library keep

    Every thread is active, or waits in exactly one queue: of a mutex, of a condition
    variable, of a barrier, or for a thread to join.  The calls of the simulated program
    keep this, together with the invariant of the scheduler. *)

From S2P Require Import Prelude Containers PthreadAttr PthreadSync Frontend PthreadThreads PthreadScheduler PthreadSim PthreadInv.
Import PTSInterface.

#[local] Arguments sview : simpl never.

(** ** Places to wait *)

Inductive place : Set :=
| InMutex (p : Z)
| InCond (c : Z)
| AtBarrier (b : Z)
| Joining (t : Z).

#[export] Instance place_eq_dec : EqDecision place.
Proof. solve_decision. Defined.

(** Who waits where, in order; whoever joins waits at a place of its own. *)
Definition queue_of (m : mutexes) (c : conds) (b : barrier_table) (j : joins) (w : place) : list Z :=
  match w with
  | InMutex p => default [] (PthreadSync.spinning m !! p)
  | InCond p => (default [] (cond_waiters c !! p)).*1
  | AtBarrier p => match barriers b !! p with Some e => barrier_waiters e | None => [] end
  | Joining t => match joinings j !! t with Some _ => [t] | None => [] end
  end.

(** [V] says which threads exist and which of them are active: a thread is not active
    exactly when it waits, and it waits in one place only. *)
Record wait_ok (V : gmap Z bool) (Q : place → list Z) : Prop := {
  wo_nodup w : NoDup (Q w);
  wo_unique t w1 w2 : t ∈ Q w1 → t ∈ Q w2 → w1 = w2;
  wo_waits t : V !! t = Some false ↔ ∃ w, t ∈ Q w }.

Section Places.
Implicit Types (V : gmap Z bool) (Q : place → list Z).

Lemma wait_ok_ext V Q Q' : (∀ w, Q' w = Q w) → wait_ok V Q → wait_ok V Q'.
Proof.
  intros HQ [Hn Hu Hw]. split.
  - intros w. by rewrite HQ.
  - intros t w1 w2. rewrite !HQ. apply Hu.
  - intros t. rewrite Hw. split; intros [w Hin]; exists w; by rewrite ?HQ in *.
Qed.

Lemma active_not_waiting V Q t w : wait_ok V Q → V !! t = Some true → t ∉ Q w.
Proof. intros Hw Ht Hin. assert (V !! t = Some false) by (apply Hw; eauto). congruence. Qed.

(** An active thread queues up and becomes inactive. *)
Lemma wait_ok_enqueue V Q Q' t w : wait_ok V Q → V !! t = Some true → Q' w = Q w ++ [t] →
  (∀ w', w' ≠ w → Q' w' = Q w') → wait_ok (<[t := false]> V) Q'.
Proof.
  intros HVQ Ht Hw Hrest. pose proof (λ w, active_not_waiting _ _ _ w HVQ Ht) as Hno. destruct HVQ as [Hn Hu Hwt].
  assert (∀ w' x, x ∈ Q' w' ↔ x ∈ Q w' ∨ (w' = w ∧ x = t)) as Hin.
  { intros w' x. destruct (decide (w' = w)) as [->|Hne].
    - rewrite Hw, elem_of_app, list_elem_of_singleton. naive_solver.
    - rewrite Hrest by done. naive_solver. }
  split.
  - intros w'. destruct (decide (w' = w)) as [->|Hne]; [|by rewrite Hrest].
    rewrite Hw. apply NoDup_app. split_and!; [done| |apply NoDup_singleton]. intros x Hx Hx'%list_elem_of_singleton. subst. by apply (Hno w).
  - intros x w1 w2. rewrite !Hin. intros [H1|[E1 F1]] [H2|[E2 F2]]; subst; [by eapply Hu| | |done]; by exfalso; eapply Hno.
  - intros x. destruct (decide (x = t)) as [->|Hne].
    + rewrite lookup_insert_eq. split; [|done]. intros _. exists w. apply Hin. by right.
    + rewrite lookup_insert_ne, Hwt by done. split; intros [w' H]; exists w'; [apply Hin; by left|].
      apply Hin in H as [H|[_ ->]]; done.
Qed.

(** The first of a queue leaves it and becomes active. *)
Lemma wait_ok_dequeue V Q Q' t q w : wait_ok V Q → Q w = t :: q → Q' w = q →
  (∀ w', w' ≠ w → Q' w' = Q w') → wait_ok (<[t := true]> V) Q'.
Proof.
  intros [Hn Hu Hwt] Hw Hw' Hrest. pose proof (Hn w) as Hnd. rewrite Hw in Hnd. apply NoDup_cons in Hnd as [Hnt Hnq].
  assert (∀ w' x, x ∈ Q' w' ↔ x ∈ Q w' ∧ x ≠ t) as Hin.
  { intros w' x. destruct (decide (w' = w)) as [->|Hne].
    - rewrite Hw', Hw, elem_of_cons. naive_solver.
    - rewrite Hrest by done. split; [|naive_solver]. intros Hx. split; [done|]. intros ->.
      apply Hne. apply (Hu t); [done|]. rewrite Hw. left. }
  split.
  - intros w'. destruct (decide (w' = w)) as [->|Hne]; [by rewrite Hw'|by rewrite Hrest].
  - intros x w1 w2. rewrite !Hin. intros [? _] [? _]. by eapply Hu.
  - intros x. destruct (decide (x = t)) as [->|Hne].
    + rewrite lookup_insert_eq. split; [done|]. intros [w' [_ ?]%Hin]. done.
    + rewrite lookup_insert_ne, Hwt by done. split; intros [w' H]; exists w'; [by apply Hin|]. by apply Hin in H as [? _].
Qed.

(** The first of a queue moves to the end of another. *)
Lemma wait_ok_move V Q Q' t q w w2 : wait_ok V Q → w ≠ w2 → Q w = t :: q → Q' w = q →
  Q' w2 = Q w2 ++ [t] → (∀ w', w' ≠ w → w' ≠ w2 → Q' w' = Q w') → wait_ok V Q'.
Proof.
  intros HVQ Hne Hw Hw' Hw2 Hrest.
  set (Q1 := λ w', if decide (w' = w) then q else Q w').
  assert (wait_ok (<[t := true]> V) Q1) as H1.
  { eapply wait_ok_dequeue; [exact HVQ|exact Hw|..]; unfold Q1; [by rewrite decide_True|].
    intros w' Hw0. by rewrite decide_False. }
  assert (V !! t = Some false) as Ht by (apply HVQ; exists w; rewrite Hw; left).
  rewrite <- (insert_id V t false) by done. rewrite <- (insert_insert_eq V t false true).
  eapply wait_ok_enqueue; [exact H1|by rewrite lookup_insert_eq| |]; unfold Q1.
  - by rewrite decide_False.
  - intros w' Hw0. case_decide; [by subst|by apply Hrest].
Qed.

(** Active threads come and go. *)
Lemma wait_ok_delete V Q t : wait_ok V Q → V !! t = Some true → wait_ok (delete t V) Q.
Proof.
  intros HVQ Ht. pose proof (λ w, active_not_waiting _ _ _ w HVQ Ht) as Hno. destruct HVQ as [Hn Hu Hwt].
  split; [done|done|]. intros x. destruct (decide (x = t)) as [->|Hne].
  - rewrite lookup_delete_eq. split; [done|]. intros [w Hx]. by destruct (Hno w).
  - by rewrite lookup_delete_ne.
Qed.

Lemma wait_ok_create V Q t : wait_ok V Q → V !! t = None → wait_ok (<[t := true]> V) Q.
Proof.
  intros [Hn Hu Hwt] Ht. split; [done|done|]. intros x. destruct (decide (x = t)) as [->|Hne].
  - rewrite lookup_insert_eq. split; [done|]. intros Hx%Hwt. congruence.
  - by rewrite lookup_insert_ne.
Qed.
End Places.

(** ** The managers, on their queues *)

Section Managers.

Implicit Types (m : mutexes) (p t : Z).

(** Locking leaves the queues alone, or puts the thread at the end of one. *)
Lemma safe_Lock t p b m (Q : Z → mutexes → Prop) :
  (∀ e m', e = 0 ∨ b = true → PthreadSync.spinning m' = PthreadSync.spinning m → Q e m') →
  (∀ e m', b = false → e ≠ 0 → PthreadSync.spinning m' =
     <[p := default [] (PthreadSync.spinning m !! p) ++ [t]]> (PthreadSync.spinning m) → Q e m') →
  safe (PthreadMutexManager.Lock (W:=event) t p b) m Q.
Proof.
  intros H0 H1. unfold PthreadMutexManager.Lock, PthreadMutex.IsLocked. safe_steps.
  assert (∀ e, e ≠ 0 → safe (_ ← when (negb b) (PthreadMutexManager.BlockThread (W:=event) t p); mret e) m Q) as Hblock.
  { intros e He. safe_steps. apply safe_when.
    - intros Hb%negb_true_iff. unfold PthreadMutexManager.BlockThread. safe_steps.
      destruct (PthreadSync.spinning m !! p) as [q|] eqn:E; safe_steps; apply H1; try done; cbn; by rewrite E.
    - intros Hb%negb_false_iff. safe_steps. apply H0; [by right|done]. }
  destruct (negb (0 <? _)).
  { unfold PthreadMutex.Lock. safe_steps. apply H0; [by left|done]. }
  unfold PthreadMutex.GetOwner. safe_steps. destruct (_ =? t); [|by apply Hblock].
  unfold PthreadMutex.GetKind. safe_steps.
  eapply (safe_mono _ _ (λ _ m', m' = m)); [destruct (_ =? PthreadAttr.PTHREAD_MUTEX_DEFAULT); by safe_steps|].
  intros k m' ->. destruct (_ || _); [by apply Hblock|]. destruct (k =? _); [|done].
  unfold PthreadMutex.LockAgain. safe_steps. apply H0; [by left|done].
Qed.

Lemma safe_GetKind p m (Q : Z → mutexes → Prop) : (∀ k, Q k m) → safe (PthreadMutex.GetKind (W:=event) p) m Q.
Proof.
  intros HQ. unfold PthreadMutex.GetKind. safe_steps. destruct (_ =? PthreadAttr.PTHREAD_MUTEX_DEFAULT); safe_steps; apply HQ.
Qed.

(** The lock of a free mutex is handed to the first in its queue. *)
Lemma safe_hand_over p m (Q : option Z → mutexes → Prop) :
  count (obj p m) = 0 →
  (∀ m', PthreadSync.spinning m' = PthreadSync.spinning m → Q None m') →
  (∀ t q m', PthreadSync.spinning m !! p = Some (t :: q) →
     PthreadSync.spinning m' = match q with [] => delete p | _ => <[p := q]> end (PthreadSync.spinning m) →
     Q (Some t) m') →
  safe (PthreadMutexManager.UnblockThread (W:=event) p) m Q.
Proof.
  intros Hc H0 H1. unfold PthreadMutexManager.UnblockThread. safe_steps.
  destruct (PthreadSync.spinning m !! p) as [[|t q]|] eqn:E; [done| |safe_steps; by apply H0].
  safe_steps. unfold PthreadMutexManager.PopThread. safe_steps.
  unfold PthreadMutexManager.Lock, PthreadMutex.IsLocked. safe_steps.
  assert (∀ m', objs m' = objs m → count (obj p m') = 0) as Hc' by (intros m' E'; unfold obj; by rewrite E').
  rewrite Hc' by done. cbn [Z.ltb Z.compare negb].
  unfold PthreadMutex.Lock. safe_steps. by apply (H1 t q).
Qed.

Lemma safe_Unlock t p m (Q : option Z * Z → mutexes → Prop) :
  (∀ e m', PthreadSync.spinning m' = PthreadSync.spinning m → Q (None, e) m') →
  (∀ u q e m', PthreadSync.spinning m !! p = Some (u :: q) →
     PthreadSync.spinning m' = match q with [] => delete p | _ => <[p := q]> end (PthreadSync.spinning m) →
     Q (Some u, e) m') →
  safe (PthreadMutexManager.Unlock (W:=event) t p) m Q.
Proof.
  intros H0 H1. unfold PthreadMutexManager.Unlock. safe_steps. apply safe_GetKind. intros k. safe_step.
  eapply (safe_mono _ _ (λ _ m', m' = m)).
  { destruct (k =? _); [|by safe_steps]. unfold PthreadMutex.IsLocked, PthreadMutex.GetOwner. safe_steps.
    destruct (negb (0 <? _)); by safe_steps. }
  intros refused m' ->. destruct refused; [safe_steps; by apply H0|]. safe_steps. apply safe_GetKind. intros k'. safe_step.
  eapply (safe_mono _ _ (λ still m', PthreadSync.spinning m' = PthreadSync.spinning m ∧
    (still = false → count (obj p m') = 0))).
  { destruct (k' =? _).
    - unfold PthreadMutex.UnlockAgain, PthreadMutex.IsLocked. safe_steps. split; [done|].
      intros Hl%Z.ltb_ge. repeat match goal with H : (_ <=? _) = true |- _ => apply Z.leb_le in H end. lia.
    - unfold PthreadMutex.Unlock. safe_steps. split; [done|]. intros _. by rewrite obj_set, decide_True. }
  intros still m1 [Hsp Hc]. destruct still; [safe_steps; by apply H0|]. safe_steps.
  apply safe_hand_over; [by apply Hc|..]; rewrite Hsp.
  - intros m2 H2. safe_steps. by apply H0.
  - intros u q m2 Hq H2. safe_steps. by eapply H1.
Qed.


(** A dying thread frees whoever joins it. *)
Lemma safe_join_kill t v j (Q : option Z → joins → Prop) :
  (∀ j', joinings j' = joinings j → (∀ e, joinables j !! t = Some e → joined e = false) → Q None j') →
  (∀ u j', is_Some (joinings j !! u) → joinings j' = delete u (joinings j) → Q (Some u) j') →
  safe (PthreadJoinManager.KillThread t v) j Q.
Proof.
  intros H0 H1. unfold PthreadJoinManager.KillThread, PthreadJoinManager.IsJoinable. safe_steps.
  case_bool_decide as Hj; [|safe_steps; apply H0; [done|by intros e He; destruct Hj]].
  destruct Hj as [e He].
  unfold PthreadJoinManager.IsJoined, PthreadJoinManager.GetJoiner, PthreadJoinManager.SetRetval,
    PthreadJoinManager.GetJoinee, PthreadJoinManager.GetRetvalptr, PthreadJoinManager.EraseJoiner,
    PthreadJoinManager.EraseJoinee, PthreadJoinManager.GetJoinee_entry, PthreadJoinManager.GetJoiner_entry.
  safe_steps. rewrite He. safe_steps. destruct (joined e) eqn:Hjd.
  - safe_steps. rewrite He. safe_steps. destruct (joinings j !! joinee_joiner e) as [r|] eqn:Hr; [|done]. safe_steps.
    rewrite Hr. safe_steps. eapply (safe_mono _ _ (λ _ j', j' = j)); [apply safe_when; by safe_steps|].
    intros [] j' ->. safe_steps. rewrite Hr. safe_steps. cbn. rewrite He. safe_steps. by apply H1.
  - safe_steps. rewrite He. safe_steps. apply H0; [done|]. intros e' He'. congruence.
Qed.

(** Who joins a thread that is not done yet has to wait. *)
Lemma safe_join_threads c t ptr j (Q : bool → joins → Prop) :
  (∀ j', joinings j' = joinings j → Q false j') →
  (∀ j' r, joinings j !! c = None → joinings j' = <[c := r]> (joinings j) → Q true j') →
  safe (PthreadJoinManager.JoinThreads c t ptr) j Q.
Proof.
  intros H0 H1. unfold PthreadJoinManager.JoinThreads, PthreadJoinManager.IsJoinable. safe_steps.
  unfold PthreadJoinManager.IsJoined, PthreadJoinManager.IsDone, PthreadJoinManager.GetRetval,
    PthreadJoinManager.EraseJoinee, PthreadJoinManager.SetJoiner, PthreadJoinManager.InsertJoiner,
    PthreadJoinManager.GetJoinee_entry.
  safe_steps. destruct (joinables j !! t) as [e|] eqn:He; [|done]. safe_steps. rewrite He. safe_steps.
  destruct (done e).
  - apply safe_bind. eapply (safe_mono _ _ (λ _ j', j' = j)).
    { destruct (negb (ptr =? 0)); safe_steps; [|done]. rewrite He. by safe_steps. }
    intros [] j' ->. safe_steps. rewrite He. safe_steps. by apply H0.
  - safe_steps. rewrite He. safe_steps.
    match goal with H : context [joinings _ !! c] |- _ => rename H into Hc end.
    change (joinings (set joinables _ j)) with (joinings j) in Hc.
    destruct (joinings j !! c) eqn:E; [done|]. by eapply H1.
Qed.

Lemma safe_on_thread {A} t d (m : proc event (gmap Z Z) A) k (Q : A → tls_table → Prop) :
  safe m d (λ a d', Q a (k <| tls ::= <[t := d']> |>)) → safe (PthreadTLSManager.on_thread t d m) k Q.
Proof. unfold safe, wp, PthreadTLSManager.on_thread. by destruct (m d) as [[[a d'] o]|]. Qed.

End Managers.

(** ** The whole library *)

Section Sim.
Context {B : Type} {BE : Backend B} {BL : BackendLaws BE} {PIN : Pin}.
Implicit Types (s : sim B) (Q : place → list Z).

Definition queue s : place → list Z :=
  queue_of (mutexmanager s) (condmanager s) (barriermanager s) (joinmanager s).
Definition view s : gmap Z bool := sview (sched s).

(** The invariant, when [Q] are the queues; thread [c] is the current one, as far as it
    still exists. *)
Record sim_base (n c : Z) Q s : Prop := {
  sb_sched : sched_ok n (Some c) 0 (sched s);
  sb_wait : wait_ok (view s) Q;
  sb_ids t b : view s !! t = Some b → t < new_thread_id s;
  sb_size : Z.of_nat (size (pthreads (sched s))) ≤ new_thread_id s ≤ n;
  sb_cancels t : is_Some (view s !! t) → is_Some (cancel_pthreads (cancelmanager s) !! t) }.

Record sim_ok (n c : Z) Q s : Prop := {
  so_base : sim_base n c Q s;
  so_live : view s !! c = Some true }.

Lemma so_sched n c Q s : sim_ok n c Q s → sched_ok n (Some c) 0 (sched s).
Proof. apply so_base. Qed.
Lemma so_alive n c Q s : sim_ok n c Q s → is_Some (sview (sched s) !! c).
Proof. intros Hs. exists true. apply (so_live _ _ _ _ Hs). Qed.

(** What every call is to establish. *)
Definition kept (n : Z) s : Prop := ∃ c, sim_ok n c (queue s) s.

Lemma sim_ok_ext n c Q Q' s : (∀ w, Q' w = Q w) → sim_ok n c Q s → sim_ok n c Q' s.
Proof. intros HQ [[? ? ? ? ?] ?]. split; [split; try done|done]. by eapply wait_ok_ext. Qed.

Lemma view_sched s t : view (s <| sched := t |>) = sview t.
Proof. done. Qed.

(** A step of the scheduler that leaves the threads as they are. *)
Lemma sim_ok_sched n c c' Q s t : sim_ok n c Q s → sched_ok n (Some c') 0 t → sview t = view s →
  view s !! c' = Some true → sim_ok n c' Q (s <| sched := t |>).
Proof.
  intros [[Hs Hw Hi Hz Hc] Hl] Ht Hv Hc'.
  assert (size (pthreads t) = size (pthreads (sched s))) as Hsz.
  { assert (dom (sview t) = dom (view s)) as Hd by by rewrite Hv.
    unfold view, sview in Hd. rewrite !dom_fmap_L in Hd. by rewrite <- !size_dom, Hd. }
  split; [|by rewrite view_sched, Hv]. split; rewrite ?view_sched, ?Hv; cbn; rewrite ?Hsz; done.
Qed.

(** A step of a manager. *)
Lemma sim_ok_managers n c Q s s' : sim_ok n c Q s → sched s' = sched s → new_thread_id s' = new_thread_id s →
  (∀ t, is_Some (cancel_pthreads (cancelmanager s) !! t) → is_Some (cancel_pthreads (cancelmanager s') !! t)) →
  sim_ok n c Q s'.
Proof.
  intros [[Hs Hw Hi Hz Hc] Hl] E1 E2 E3.
  split; [|by unfold view; rewrite E1]. unfold view in *. split; unfold view; rewrite ?E1, ?E2; try done. auto.
Qed.

Lemma safe_on_sched {A} (m : proc event (scheduler B) A) s (P : A → sim B → Prop) :
  safe m (sched s) (λ a t, P a (s <| sched := t |>)) → safe (PthreadSim.on_sched m) s P.
Proof. apply safe_zoom. Qed.
Lemma safe_on_mutexes {A} (m : proc event mutexes A) s (P : A → sim B → Prop) :
  safe m (mutexmanager s) (λ a t, P a (s <| mutexmanager := t |>)) → safe (PthreadSim.on_mutexes m) s P.
Proof. apply safe_zoom. Qed.

Lemma safe_on_conds {A} (m : proc event conds A) s (P : A → sim B → Prop) :
  safe m (condmanager s) (λ a t, P a (s <| condmanager := t |>)) → safe (PthreadSim.on_conds m) s P.
Proof. apply safe_zoom. Qed.
Lemma safe_on_barriers {A} (m : proc event barrier_table A) s (P : A → sim B → Prop) :
  safe m (barriermanager s) (λ a t, P a (s <| barriermanager := t |>)) → safe (PthreadSim.on_barriers m) s P.
Proof. apply safe_zoom. Qed.
Lemma safe_on_joins {A} (m : proc event joins A) s (P : A → sim B → Prop) :
  safe m (joinmanager s) (λ a t, P a (s <| joinmanager := t |>)) → safe (PthreadSim.on_joins m) s P.
Proof. apply safe_zoom. Qed.
Lemma safe_on_cancels {A} (m : proc event cancels A) s (P : A → sim B → Prop) :
  safe m (cancelmanager s) (λ a t, P a (s <| cancelmanager := t |>)) → safe (PthreadSim.on_cancels m) s P.
Proof. apply safe_zoom. Qed.
Lemma safe_on_cleanups {A} (m : proc event cleanups A) s (P : A → sim B → Prop) :
  safe m (cleanupmanager s) (λ a t, P a (s <| cleanupmanager := t |>)) → safe (PthreadSim.on_cleanups m) s P.
Proof. apply safe_zoom. Qed.
Lemma safe_on_tls {A} (m : proc event tls_table A) s (P : A → sim B → Prop) :
  safe m (tlsmanager s) (λ a t, P a (s <| tlsmanager := t |>)) → safe (PthreadSim.on_tls m) s P.
Proof. apply safe_zoom. Qed.
Lemma safe_on_malloc {A} (m : proc event malloc_state A) s (P : A → sim B → Prop) :
  safe m (mallocmanager s) (λ a t, P a (s <| mallocmanager := t |>)) → safe (PthreadSim.on_malloc m) s P.
Proof. apply safe_zoom. Qed.

Lemma safe_current n c Q s (P : Z → sim B → Prop) :
  sim_ok n c Q s → P c s → safe PthreadSim.GetCurrentThread s P.
Proof.
  intros [[Hs _ _ _ _] Hl] HP. apply safe_on_sched. eapply safe_GetCurrentThread; [exact Hs|by exists true|].
  by destruct s.
Qed.

(** A step of the scheduler for the current thread. *)
Lemma safe_sched_same n c Q s (m : proc event (scheduler B) unit) (P : unit → sim B → Prop) :
  sim_ok n c Q s →
  (∀ K : unit → scheduler B → Prop, (∀ t, sched_ok n (Some c) 0 t → sview t = view s → K tt t) →
     safe m (sched s) K) →
  (∀ t, sim_ok n c Q (s <| sched := t |>) → P tt (s <| sched := t |>)) →
  safe (PthreadSim.on_sched m) s P.
Proof.
  intros Hs Hm HP. apply safe_on_sched. apply Hm. intros t Ht Hv. apply HP.
  eapply sim_ok_sched; [exact Hs|done|done|apply Hs].
Qed.

Lemma safe_update n c Q s f (P : unit → sim B → Prop) :
  sim_ok n c Q s → (∀ p, active (f p) = active p) →
  (∀ t, sim_ok n c Q (s <| sched := t |>) → P tt (s <| sched := t |>)) →
  safe (PthreadSim.on_sched (PthreadScheduler.update_current f)) s P.
Proof.
  intros Hs Hf HP. eapply safe_sched_same; [exact Hs| |exact HP]. intros K HK.
  eapply safe_update_current; [exact Hf|by eapply so_sched|by eapply so_alive|]. intros t H1 H2. by apply HK.
Qed.

Lemma safe_synch n c Q s l u b np (P : unit → sim B → Prop) :
  sim_ok n c Q s →
  (∀ t, sim_ok n c Q (s <| sched := t |>) → P tt (s <| sched := t |>)) →
  safe (PthreadSim.on_sched (PthreadScheduler.add_synch_instruction c l u b np)) s P.
Proof.
  intros Hs HP. eapply safe_sched_same; [exact Hs| |exact HP]. intros K HK.
  eapply safe_add_synch; [by eapply so_sched|by eapply so_alive|]. intros t H1 H2. by apply HK.
Qed.

(** A counter of the scheduler. *)
Lemma safe_counter n c Q s f (P : unit → sim B → Prop) :
  sim_ok n c Q s → 
  (∀ t, pthreads (f t) = pthreads t ∧ pth_to_hth (f t) = pth_to_hth t ∧ hth_to_pth (f t) = hth_to_pth t ∧
    nactive (f t) = nactive t ∧ current (f t) = current t ∧ curr_time (f t) = curr_time t ∧ pts (f t) = pts t) →
  (∀ t, sim_ok n c Q (s <| sched := t |>) → P tt (s <| sched := t |>)) →
  safe (PthreadSim.on_sched (modify f)) s P.
Proof.
  intros Hs Hf HP. eapply safe_sched_same; [exact Hs| |exact HP]. intros K HK. apply safe_modify.
  destruct (Hf (sched s)) as (E1 & E2 & E3 & E4 & E5 & E6 & E7). apply HK.
  - by eapply sched_ok_frame; [by eapply so_sched|..].
  - unfold sview, view. by rewrite E1.
Qed.

Lemma safe_unless_rerun {A} n c s (r : A) (m : proc event (sim B) (flow A)) (P : flow A → sim B → Prop) :
  sim_ok n c (queue s) s → (∀ s', sim_ok n c (queue s') s' → P (Returns r) s') → safe m s P →
  safe (PthreadSim.unless_rerun r m) s P.
Proof.
  intros Hs HP Hm. unfold PthreadSim.unless_rerun. safe_step. apply safe_on_sched.
  eapply safe_current_entry; [by eapply so_sched|by eapply so_alive|]. intros p Hp. cbv beta iota.
  assert (s <| sched := sched s |> = s) as -> by by destruct s.
  destruct (executed p); [exact Hm|]. safe_step. eapply safe_update; [exact Hs|done|]. intros t Ht. safe_steps.
  by apply HP.
Qed.

(** The current thread, which has queued up at [w], blocks. *)
Lemma safe_block n c Q s w ctxt bar np :
  sim_ok n c Q s → queue s w = Q w ++ [c] → (∀ w', w' ≠ w → queue s w' = Q w') →
  safe (PthreadSim.on_sched (PthreadScheduler.BlockThread c ctxt bar np)) s (λ _, kept n).
Proof.
  intros [[Hs Hw Hi Hz Hc] Hl] Hqw Hq. apply safe_on_sched. eapply safe_BlockThread; [exact Hs|exact Hl|].
  intros f t c' Ht Hv Hc'. exists c'. fold (view s) in Hv.
  assert (∀ x, is_Some (sview t !! x) → is_Some (view s !! x)) as Hdom.
  { intros x. rewrite Hv. destruct (decide (x = c)) as [->|Hne]; [by rewrite Hl|by rewrite lookup_insert_ne]. }
  assert (size (pthreads t) = size (pthreads (sched s))) as Hsz.
  { assert (dom (sview t) = dom (view s)) as Hd.
    { rewrite Hv, dom_insert_L. apply subseteq_union_1_L. apply singleton_subseteq_l, elem_of_dom. by rewrite Hl. }
    unfold view, sview in Hd. rewrite !dom_fmap_L in Hd. by rewrite <- !size_dom, Hd. }
  split; [|exact Hc']. split; cbn; [exact Ht| | |by rewrite Hsz|].
  - rewrite view_sched, Hv. eapply wait_ok_enqueue; [exact Hw|exact Hl|exact Hqw|exact Hq].
  - intros x b Hx. destruct (Hdom x) as [b' Hb']; [by exists b|]. by eapply Hi.
  - intros x Hx. apply Hc, Hdom, Hx.
Qed.

(** The first of the queue at [w], which has left it, goes on. *)
Lemma safe_unblock n c Q Q' s w u q (P : unit → sim B → Prop) :
  sim_ok n c Q s → Q w = u :: q → Q' w = q → (∀ w', w' ≠ w → Q' w' = Q w') →
  (∀ t, sim_ok n c Q' (s <| sched := t |>) → sview t = <[u := true]> (view s) → P tt (s <| sched := t |>)) →
  safe (PthreadSim.on_sched (PthreadScheduler.UnblockThread u)) s P.
Proof.
  intros [[Hs Hw Hi Hz Hc] Hl] HQw Hqw Hq HP. apply safe_on_sched. eapply safe_UnblockThread; [exact Hs|].
  intros t Ht Hu Hv. fold (view s) in Hu, Hv. apply HP; [|exact Hv].
  assert (∀ x, is_Some (sview t !! x) → is_Some (view s !! x)) as Hdom.
  { intros x. rewrite Hv. destruct (decide (x = u)) as [->|Hne]; [by rewrite Hu|by rewrite lookup_insert_ne]. }
  assert (size (pthreads t) = size (pthreads (sched s))) as Hsz.
  { assert (dom (sview t) = dom (view s)) as Hd.
    { rewrite Hv, dom_insert_L. apply subseteq_union_1_L. apply singleton_subseteq_l, elem_of_dom. by rewrite Hu. }
    unfold view, sview in Hd. rewrite !dom_fmap_L in Hd. by rewrite <- !size_dom, Hd. }
  split.
  - split; cbn; [exact Ht| | |by rewrite Hsz|].
    + rewrite view_sched, Hv. eapply wait_ok_dequeue; [exact Hw|exact HQw|exact Hqw|exact Hq].
    + intros x b Hx. destruct (Hdom x) as [b' Hb']; [by exists b|]. by eapply Hi.
    + intros x Hx. apply Hc, Hdom, Hx.
  - rewrite view_sched, Hv. assert (u ≠ c) as Hne by congruence. by rewrite lookup_insert_ne.
Qed.

(** ** Mutexes *)

Lemma kept_intro n c s : sim_ok n c (queue s) s → kept n s.
Proof. by exists c. Qed.

Lemma sim_ok_mutexes n c Q s m : sim_ok n c Q s → sim_ok n c Q (s <| mutexmanager := m |>).
Proof. intros Hs. by eapply sim_ok_managers. Qed.

(** The queues, when one manager changes. *)
Lemma queue_mutexes s m w :
  queue (s <| mutexmanager := m |>) w =
  match w with InMutex p => default [] (PthreadSync.spinning m !! p) | _ => queue s w end.
Proof. by destruct w. Qed.
Lemma queue_conds s m w :
  queue (s <| condmanager := m |>) w =
  match w with InCond p => (default [] (cond_waiters m !! p)).*1 | _ => queue s w end.
Proof. by destruct w. Qed.
Lemma queue_barriers s m w :
  queue (s <| barriermanager := m |>) w =
  match w with
  | AtBarrier p => match barriers m !! p with Some e => barrier_waiters e | None => [] end
  | _ => queue s w
  end.
Proof. by destruct w. Qed.
Lemma queue_joins s m w :
  queue (s <| joinmanager := m |>) w =
  match w with Joining t => match joinings m !! t with Some _ => [t] | None => [] end | _ => queue s w end.
Proof. by destruct w. Qed.

(** The mutexes with the same queues. *)
Lemma sim_ok_same_mutexes n c s m :
  sim_ok n c (queue s) s → PthreadSync.spinning m = PthreadSync.spinning (mutexmanager s) →
  sim_ok n c (queue (s <| mutexmanager := m |>)) (s <| mutexmanager := m |>).
Proof.
  intros Hs Hm. eapply sim_ok_ext; [|by apply sim_ok_mutexes]. intros w. rewrite queue_mutexes. destruct w; try done.
  by rewrite Hm.
Qed.

Lemma kept_mutex_lock n c s p ctxt :
  sim_ok n c (queue s) s → safe (PthreadSim.pthread_mutex_lock p ctxt) s (λ _, kept n).
Proof.
  intros Hs. eapply safe_unless_rerun; [done|by intros; eapply kept_intro|]. safe_step.
  eapply safe_update; [exact Hs|done|]. intros t1 H1. safe_step. eapply safe_current; [exact H1|]. safe_step.
  eapply safe_synch; [exact H1|]. intros t2 H2. safe_step. apply safe_on_mutexes. apply safe_Lock.
  - intros e m [->|[=]] Hm. cbn [Z.eqb negb]. safe_steps. apply (kept_intro _ c). by apply sim_ok_same_mutexes.
  - intros e m _ He Hm. rewrite (proj2 (Z.eqb_neq e 0)) by done. cbn [negb]. safe_step.
    eapply safe_mono; [eapply (safe_block _ _ _ _ (InMutex p)); [by apply sim_ok_mutexes|..]|].
    + rewrite queue_mutexes, Hm, lookup_insert_eq. done.
    + intros w Hw. rewrite queue_mutexes. destruct w; try done. rewrite Hm, lookup_insert_ne; [done|congruence].
    + intros f s' Hs'. by safe_steps.
Qed.

Lemma kept_mutex_trylock n c s p :
  sim_ok n c (queue s) s → safe (PthreadSim.pthread_mutex_trylock p) s (λ _, kept n).
Proof.
  intros Hs. eapply safe_unless_rerun; [done|by intros; eapply kept_intro|]. safe_step.
  eapply safe_update; [exact Hs|done|]. intros t1 H1. safe_step. eapply safe_current; [exact H1|].
  unfold PthreadSim.returns. safe_step. apply safe_on_mutexes. apply safe_Lock; [|done].
  intros e m _ Hm. safe_steps. apply (kept_intro _ c). by apply sim_ok_same_mutexes.
Qed.

Lemma safe_mutex_unlock n c s p :
  sim_ok n c (queue s) s → safe (PthreadSim.pthread_mutex_unlock p) s (λ _ s', sim_ok n c (queue s') s').
Proof.
  intros Hs. eapply safe_unless_rerun; [done|done|]. safe_step.
  eapply safe_current; [exact Hs|]. safe_step. eapply safe_synch; [exact Hs|]. intros t1 H1. safe_step.
  apply safe_on_mutexes. apply safe_Unlock.
  - intros e m Hm. cbv beta iota. safe_steps. by apply sim_ok_same_mutexes.
  - intros u q e m Hq Hm. cbv beta iota. safe_step.
    eapply (safe_unblock _ _ _ (queue _) _ (InMutex p) u q); [by apply sim_ok_mutexes|..].
    + change (PthreadSync.spinning (mutexmanager s) !! p = Some (u :: q)) in Hq. cbn. by rewrite Hq.
    + rewrite queue_mutexes, Hm. by destruct q; rewrite ?lookup_delete_eq, ?lookup_insert_eq.
    + intros w Hw. rewrite queue_mutexes. destruct w as [p'|p'|p'|p']; try done. rewrite Hm.
      by destruct q; rewrite ?lookup_delete_ne, ?lookup_insert_ne by congruence.
    + intros t Ht _. safe_steps. exact Ht.
Qed.

(** ** Condition variables *)

Lemma safe_release_waiter n c s cond :
  sim_ok n c (queue s) s → safe (PthreadSim.release_waiter cond) s (λ _ s', sim_ok n c (queue s') s').
Proof.
  intros Hs. unfold PthreadSim.release_waiter, PthreadSim.on_conds, PthreadCondManager.RemoveWaiter. safe_steps.
  destruct (cond_waiters (condmanager s) !! cond) as [[|[u p] q]|] eqn:Hq; [done| |done]. safe_steps.
  set (s1 := set condmanager _ s).
  assert (sim_ok n c (queue s) s1) as H1 by by eapply sim_ok_managers.
  assert (queue s (InCond cond) = u :: q.*1) as Hhead by (cbn; by rewrite Hq).
  assert (∀ w, queue s1 w = if decide (w = InCond cond) then q.*1 else queue s w) as Hq1.
  { intros w. unfold s1. cbn. case_decide as Hw; [subst|destruct w as [p'|p'|p'|p']; try done]; cbn;
      destruct q; rewrite ?lookup_delete_eq, ?lookup_insert_eq, ?lookup_delete_ne, ?lookup_insert_ne by congruence; done. }
  apply safe_on_mutexes. apply safe_Lock.
  - intros e m [->|[=]] Hm. cbn [Z.eqb when].
    eapply (safe_unblock _ _ _ (queue (s1 <| mutexmanager := m |>)) _ (InCond cond) u q.*1);
      [by apply sim_ok_mutexes|exact Hhead|..].
    + rewrite queue_mutexes, Hq1. by rewrite decide_True.
    + intros w Hw. rewrite queue_mutexes. destruct w; [cbn; by rewrite Hm|..]; rewrite Hq1, decide_False by done; done.
    + intros t Ht _. exact Ht.
  - intros e m _ He Hm. rewrite (proj2 (Z.eqb_neq e 0)) by done. cbn [when]. safe_steps.
    assert (sim_ok n c (queue s) (s1 <| mutexmanager := m |>)) as H2 by by apply sim_ok_mutexes.
    destruct H2 as [[Hsc Hw Hi Hz Hc] Hl]. split; [|exact Hl]. split; try done.
    eapply (wait_ok_move _ _ _ u q.*1 (InCond cond) (InMutex p)); [exact Hw|done|exact Hhead|..].
    + rewrite queue_mutexes, Hq1. by rewrite decide_True.
    + rewrite queue_mutexes, Hm, lookup_insert_eq. done.
    + intros w Hw1 Hw2. rewrite queue_mutexes. destruct w as [p'|p'|p'|p']; try (rewrite Hq1, decide_False by done; done).
      rewrite Hm, lookup_insert_ne by congruence. done.
Qed.

Lemma safe_release_waiters n c fuel s cond :
  sim_ok n c (queue s) s → safe (PthreadSim.release_waiters fuel cond) s (λ _ s', sim_ok n c (queue s') s').
Proof.
  revert s. induction fuel as [|fuel IH]; intros s Hs; cbn [PthreadSim.release_waiters]; [exact Hs|].
  unfold PthreadSim.on_conds, PthreadCondManager.HasMoreWaiters. safe_steps.
  set (s1 := set condmanager _ _). assert (s1 = s) as -> by by destruct s.
  destruct (bool_decide _); [|exact Hs]. safe_steps. eapply safe_mono; [by apply safe_release_waiter|].
  intros [] s' Hs'. by apply IH.
Qed.

Lemma kept_cond_broadcast n c s cond :
  sim_ok n c (queue s) s → safe (PthreadSim.pthread_cond_broadcast cond) s (λ _, kept n).
Proof.
  intros Hs. eapply safe_unless_rerun; [done|by intros; eapply kept_intro|]. safe_step.
  eapply safe_counter; [exact Hs|done|]. intros t1 H1. unfold PthreadSim.num_waiters. safe_steps.
  eapply safe_mono; [by apply (safe_release_waiters n c)|]. intros [] s' Hs'. safe_steps. by apply (kept_intro _ c).
Qed.

Lemma kept_cond_signal n c s cond :
  sim_ok n c (queue s) s → safe (PthreadSim.pthread_cond_signal cond) s (λ _, kept n).
Proof.
  intros Hs. eapply safe_unless_rerun; [done|by intros; eapply kept_intro|]. safe_step.
  eapply safe_counter; [exact Hs|done|]. intros t1 H1.
  unfold PthreadSim.on_conds, PthreadCondManager.HasMoreWaiters. safe_steps.
  set (s1 := set condmanager _ _). assert (sim_ok n c (queue s1) s1) as Hs1 by by destruct s.
  apply safe_when; [|intros _; safe_steps; by apply (kept_intro _ c)]. intros _.
  eapply safe_mono; [by apply safe_release_waiter|]. intros [] s' Hs'. safe_steps. by apply (kept_intro _ c).
Qed.

Lemma kept_cond_destroy n c s cond :
  sim_ok n c (queue s) s → safe (PthreadSim.pthread_cond_destroy cond) s (λ _, kept n).
Proof.
  intros Hs. eapply safe_unless_rerun; [done|by intros; eapply kept_intro|].
  unfold PthreadSim.on_conds, PthreadCondManager.HasMoreWaiters. safe_steps. apply (kept_intro _ c). by destruct s.
Qed.

Lemma kept_cond_wait n c s cond p ctxt :
  sim_ok n c (queue s) s → safe (PthreadSim.pthread_cond_wait cond p ctxt) s (λ _, kept n).
Proof.
  intros Hs. eapply safe_unless_rerun; [done|by intros; eapply kept_intro|]. safe_step.
  eapply safe_counter; [exact Hs|done|]. intros t1 H1. safe_step. eapply safe_current; [exact H1|]. safe_step.
  eapply safe_mono; [by apply (safe_mutex_unlock n c)|]. intros f s1 Hs1. safe_step.
  apply safe_on_conds. unfold PthreadCondManager.AddWaiter. safe_steps.
  apply (safe_mono _ _ (λ _ m, cond_waiters m =
    <[cond := default [] (cond_waiters (condmanager s1) !! cond) ++ [(c, p)]]> (cond_waiters (condmanager s1)))).
  { destruct (cond_waiters (condmanager s1) !! cond) as [q|] eqn:Hq; safe_steps; done. }
  intros [] m Hm. eapply (safe_block _ _ _ _ (InCond cond)); [eapply (sim_ok_managers _ _ _ s1); [exact Hs1|done..]|..].
  - rewrite queue_conds, Hm, lookup_insert_eq. cbn. by rewrite fmap_app.
  - intros w Hw. rewrite queue_conds. destruct w; try done. rewrite Hm, lookup_insert_ne; [done|congruence].
Qed.

Lemma kept_cond_timedwait n c s cond p sec ctxt :
  sim_ok n c (queue s) s → safe (PthreadSim.pthread_cond_timedwait cond p sec ctxt) s (λ _, kept n).
Proof.
  intros Hs. eapply safe_unless_rerun; [done|by intros; eapply kept_intro|]. safe_steps. by eapply kept_cond_wait.
Qed.

(** ** Barriers *)

(** Only active threads and nobody at the barrier: it may be set up or torn down. *)
Definition nobody_at s (b : Z) : Prop := queue s (AtBarrier b) = [].

Lemma sim_ok_barriers n c Q s m : sim_ok n c Q s → sim_ok n c Q (s <| barriermanager := m |>).
Proof. intros Hs. by eapply sim_ok_managers. Qed.

Lemma safe_find b m (P : barrier → barrier_table → Prop) :
  (∀ e, barriers m !! b = Some e → P e m) → safe (PthreadBarrierManager.find (W:=event) b) m P.
Proof.
  intros HP. unfold PthreadBarrierManager.find. safe_steps.
  destruct (barriers m !! b) as [e|] eqn:E; [by apply HP|done].
Qed.

Lemma kept_barrier_init n c s b num :
  sim_ok n c (queue s) s → nobody_at s b → safe (PthreadSim.pthread_barrier_init b num) s (λ _, kept n).
Proof.
  intros Hs Hb. eapply safe_unless_rerun; [done|by intros; eapply kept_intro|]. safe_step. apply safe_on_barriers.
  unfold PthreadBarrierManager.InitWaiters. safe_steps. apply (kept_intro _ c).
  eapply sim_ok_ext; [|by apply sim_ok_barriers]. intros w. rewrite queue_barriers. destruct w as [p|p|p|p]; try done.
  cbn. destruct (decide (p = b)) as [->|Hne]; [by rewrite lookup_insert_eq, Hb|by rewrite lookup_insert_ne].
Qed.

Lemma kept_barrier_destroy n c s b :
  sim_ok n c (queue s) s → nobody_at s b → safe (PthreadSim.pthread_barrier_destroy b) s (λ _, kept n).
Proof.
  intros Hs Hb. eapply safe_unless_rerun; [done|by intros; eapply kept_intro|]. safe_step. apply safe_on_barriers.
  unfold PthreadBarrierManager.DestroyWaiters. safe_step. apply safe_find. intros e He. safe_steps. apply (kept_intro _ c).
  eapply sim_ok_ext; [|by apply sim_ok_barriers]. intros w. rewrite queue_barriers. destruct w as [p|p|p|p]; try done.
  cbn. destruct (decide (p = b)) as [->|Hne]; [by rewrite lookup_delete_eq, Hb|by rewrite lookup_delete_ne].
Qed.

(** The last to arrive, [c], opens the barrier for the others in front of it. *)
Lemma safe_open_barrier n c b q s Q :
  sim_ok n c Q s → Q (AtBarrier b) = q → queue s (AtBarrier b) = q ++ [c] →
  (∀ w, w ≠ AtBarrier b → queue s w = Q w) →
  safe (PthreadSim.open_barrier (length (q ++ [c])) b c) s (λ _ s', sim_ok n c (queue s') s').
Proof.
  rewrite length_app, Nat.add_1_r. revert s Q. induction q as [|u q IH]; intros s Q Hs HQ Hqs Hrest;
    cbn [PthreadSim.open_barrier length]; safe_step; apply safe_on_barriers;
    unfold PthreadBarrierManager.HasMoreWaiters; safe_step; apply safe_find; intros e He; safe_steps;
    (set (s1 := set barriermanager _ _); assert (s1 = s) as -> by by destruct s);
    (assert (barrier_waiters e = queue s (AtBarrier b)) as Hw by (cbn; by rewrite He)); rewrite Hw, Hqs; cbn [app];
    safe_step; apply safe_on_barriers; unfold PthreadBarrierManager.RemoveWaiter; safe_step; apply safe_find;
    intros e' He'; (assert (e' = e) as -> by congruence); rewrite Hw, Hqs; cbn [app]; safe_steps.
  - rewrite Z.eqb_refl. cbn [negb when]. safe_steps. eapply sim_ok_ext; [|by apply sim_ok_barriers, Hs].
    intros w. rewrite queue_barriers. destruct w as [p|p|p|p]; try (by apply Hrest). cbn.
    destruct (decide (p = b)) as [->|Hne]; [by rewrite lookup_insert_eq, HQ|].
    rewrite lookup_insert_ne by done. rewrite <- Hrest by congruence. done.
  - assert (u ≠ c) as Huc.
    { intros ->. apply (active_not_waiting _ _ c (AtBarrier b) (sb_wait _ _ _ _ (so_base _ _ _ _ Hs))); [apply Hs|].
      rewrite HQ. left. }
    rewrite (proj2 (Z.eqb_neq c u)) by done. cbn [negb when].
    eapply (safe_unblock _ _ _ (λ w, if decide (w = AtBarrier b) then q else Q w) _ (AtBarrier b) u q);
      [by apply sim_ok_barriers, Hs|exact HQ|by rewrite decide_True|intros w Hw'; by rewrite decide_False|].
    intros t Ht _. apply (IH _ (λ w, if decide (w = AtBarrier b) then q else Q w)); [exact Ht|by rewrite decide_True|..].
    + change (queue (s <| barriermanager := set barriers <[b := set barrier_waiters (RecordSettersUsingExistingGetters.const (q ++ [c])) e]> (barriermanager s) |>) (AtBarrier b) = q ++ [c]).
      rewrite queue_barriers. cbn. by rewrite lookup_insert_eq.
    + intros w Hne. rewrite decide_False by done. rewrite <- Hrest by done. destruct w as [p|p|p|p]; try done. cbn.
      rewrite lookup_insert_ne by congruence. done.
Qed.

Lemma kept_barrier_wait n c s b ctxt :
  sim_ok n c (queue s) s → safe (PthreadSim.pthread_barrier_wait b ctxt) s (λ _, kept n).
Proof.
  intros Hs. eapply safe_unless_rerun; [done|by intros; eapply kept_intro|]. safe_step.
  eapply safe_counter; [exact Hs|done|]. intros t1 H1. safe_step. eapply safe_current; [exact H1|]. safe_step.
  apply safe_on_barriers. unfold PthreadBarrierManager.NumParticipants. safe_step. apply safe_find. intros e He. safe_steps.
  apply safe_on_barriers. unfold PthreadBarrierManager.AddWaiter. safe_step. apply safe_find. intros e' He'. safe_steps.
  set (e2 := set barrier_waiters _ e') in *. set (s2 := set barriermanager _ (set barriermanager _ _)).
  assert (sim_ok n c (queue s) s2) as H2 by (by apply sim_ok_barriers, sim_ok_barriers).
  assert (∀ w, queue s2 w = if decide (w = AtBarrier b) then queue s w ++ [c] else queue s w) as Hq.
  { intros w. unfold s2. destruct w as [p|p|p|p]; cbn; try (by rewrite decide_False). case_decide as Hp.
    - injection Hp as ->. rewrite lookup_insert_eq. unfold e2. cbn. cbn in He'. by rewrite He'.
    - by rewrite lookup_insert_ne by congruence. }
  destruct (_ =? num_participants e2).
  - safe_step. eapply safe_synch; [exact H2|]. intros t3 H3. unfold PthreadSim.num_at_barrier. safe_steps.
    assert (match barriers (barriermanager (s2 <| sched := t3 |>)) !! b with Some b => length (barrier_waiters b) | None => O end
      = length (queue s (AtBarrier b) ++ [c])) as Hlen.
    { specialize (Hq (AtBarrier b)). rewrite decide_True in Hq by done. rewrite <- Hq. cbn. by rewrite lookup_insert_eq. }
    rewrite Hlen. eapply safe_mono; [eapply (safe_open_barrier _ _ _ _ _ (queue s)); [exact H3|done|..]|].
    + change (queue s2 (AtBarrier b) = queue s (AtBarrier b) ++ [c]). by rewrite Hq, decide_True.
    + intros w Hw. change (queue s2 w = queue s w). by rewrite Hq, decide_False.
    + intros [] s' Hs'. safe_steps. by apply (kept_intro _ c).
  - safe_step. eapply safe_mono; [eapply (safe_block _ _ _ _ (AtBarrier b)); [exact H2|..]|].
    + by rewrite Hq, decide_True.
    + intros w Hw. by rewrite Hq, decide_False.
    + intros f s' Hs'. by safe_steps.
Qed.

(** ** What has no queues *)

Lemma safe_on_cleanups_any {A} n c s (m : proc event cleanups A) :
  sim_ok n c (queue s) s → safe m (cleanupmanager s) (λ _ _, True) →
  safe (PthreadSim.on_cleanups m) s (λ _ s', sim_ok n c (queue s') s').
Proof. intros Hs Hm. apply safe_on_cleanups. eapply safe_mono; [exact Hm|]. intros a t _. by eapply sim_ok_managers. Qed.

Lemma safe_on_tls_any {A} n c s (m : proc event tls_table A) :
  sim_ok n c (queue s) s → safe m (tlsmanager s) (λ _ _, True) →
  safe (PthreadSim.on_tls m) s (λ _ s', sim_ok n c (queue s') s').
Proof. intros Hs Hm. apply safe_on_tls. eapply safe_mono; [exact Hm|]. intros a t _. by eapply sim_ok_managers. Qed.

Lemma safe_on_malloc_any {A} n c s (m : proc event malloc_state A) :
  sim_ok n c (queue s) s → safe m (mallocmanager s) (λ _ _, True) →
  safe (PthreadSim.on_malloc m) s (λ _ s', sim_ok n c (queue s') s').
Proof. intros Hs Hm. apply safe_on_malloc. eapply safe_mono; [exact Hm|]. intros a t _. by eapply sim_ok_managers. Qed.

(** A step on the cancellation table that keeps who is in it. *)
Lemma safe_on_cancels_any {A} n c s (m : proc event cancels A) (Q : A → Prop) :
  sim_ok n c (queue s) s →
  safe m (cancelmanager s) (λ a t, Q a ∧ ∀ x, is_Some (cancel_pthreads (cancelmanager s) !! x) → is_Some (cancel_pthreads t !! x)) →
  safe (PthreadSim.on_cancels m) s (λ a s', Q a ∧ sim_ok n c (queue s') s').
Proof.
  intros Hs Hm. apply safe_on_cancels. eapply safe_mono; [exact Hm|]. intros a t [Ha Ht]. split; [done|].
  by eapply sim_ok_managers.
Qed.

Lemma is_Some_insert_cancel (x t : Z) (e : PthreadCancel) (m : gmap Z PthreadCancel) :
  is_Some (m !! x) → is_Some (<[t := e]> m !! x).
Proof. rewrite lookup_insert_is_Some'. by right. Qed.

(** Setting the state or the type of a thread that is in the table. *)
Lemma safe_SetState t v o k : is_Some (cancel_pthreads k !! t) →
  safe (PthreadCancelManager.SetState t v o) k
    (λ _ k', ∀ x, is_Some (cancel_pthreads k !! x) → is_Some (cancel_pthreads k' !! x)).
Proof.
  intros [e He]. unfold PthreadCancelManager.SetState, PthreadCancelManager.GetThreadCancelState.
  destruct (_ && _); [by safe_steps|]. safe_steps. rewrite He. eapply safe_lift_ok; [done|]. safe_steps.
  eapply (safe_mono _ _ (λ _ k', k' = k)); [apply safe_when; by safe_steps|]. intros [] k' ->. safe_steps.
  intros x. apply is_Some_insert_cancel.
Qed.

Lemma safe_SetType t v o k : is_Some (cancel_pthreads k !! t) →
  safe (PthreadCancelManager.SetType t v o) k
    (λ _ k', ∀ x, is_Some (cancel_pthreads k !! x) → is_Some (cancel_pthreads k' !! x)).
Proof.
  intros [e He]. unfold PthreadCancelManager.SetType, PthreadCancelManager.GetThreadCancelState.
  destruct (_ && _); [by safe_steps|]. safe_steps. rewrite He. eapply safe_lift_ok; [done|]. safe_steps.
  eapply (safe_mono _ _ (λ _ k', k' = k)); [apply safe_when; by safe_steps|]. intros [] k' ->. safe_steps.
  intros x. apply is_Some_insert_cancel.
Qed.

(** A request to cancel takes effect now on a thread that lets it. *)
Lemma safe_Cancel t k : is_Some (cancel_pthreads k !! t) →
  safe (PthreadCancelManager.Cancel t) k
    (λ now k', (now = true → ∃ e, cancel_pthreads k !! t = Some e ∧ cancelstate e = PTHREAD_CANCEL_ENABLE ∧
                  canceltype e = PTHREAD_CANCEL_ASYNCHRONOUS) ∧
       ∀ x, is_Some (cancel_pthreads k !! x) → is_Some (cancel_pthreads k' !! x)).
Proof.
  intros [e He]. unfold PthreadCancelManager.Cancel, PthreadCancelManager.GetThreadCancelState.
  safe_steps. rewrite He. eapply safe_lift_ok; [done|]. cbv beta.
  destruct (Z.eqb_spec (cancelstate e) PTHREAD_CANCEL_ENABLE); [|by safe_steps].
  destruct (Z.eqb_spec (canceltype e) PTHREAD_CANCEL_ASYNCHRONOUS); [safe_steps; eauto|]. safe_steps.
  split; [done|]. intros x. apply is_Some_insert_cancel.
Qed.

(** The tables of thread-specific data stop on a thread they do not know. *)
Lemma safe_tls_KillThread t k : safe (PthreadTLSManager.KillThread t) k (λ _ _, True).
Proof.
  unfold PthreadTLSManager.KillThread, PthreadTLSManager.GetTLS. safe_steps.
  destruct (tls k !! t); [|done]. safe_steps.
  eapply (safe_mono _ _ (λ _ _, True)); [|intros [] k' _; by safe_steps].
  apply safe_when; [|done]. intros _. apply (safe_for_each (λ _, True)); [|done]. intros [key f] k' _ _.
  apply safe_when; by safe_steps.
Qed.

Lemma safe_tls_add_key (key : Z) (d : gmap Z Z) : safe (W:=event) (PthreadTLS.AddKey key) d (λ _ _, True).
Proof. unfold PthreadTLS.AddKey. safe_steps. destruct (d !! key); by safe_steps. Qed.

Lemma safe_tls_AddThread t k : safe (PthreadTLSManager.AddThread t) k (λ _ _, True).
Proof.
  unfold PthreadTLSManager.AddThread. safe_steps. apply safe_on_thread.
  eapply safe_mono; [|done]. apply (safe_for_each (λ _, True)); [|done]. intros key d _ _. apply safe_tls_add_key.
Qed.

Lemma safe_tls_AddKey f k : safe (PthreadTLSManager.AddKey f) k (λ _ _, True).
Proof.
  unfold PthreadTLSManager.AddKey. safe_steps. destruct (_ <=? _); [by safe_steps|]. safe_steps.
  eapply (safe_mono _ _ (λ _ _, True)); [|intros [] k' _; by safe_steps].
  apply (safe_for_each (λ _, True)); [|done]. intros [t d] k' _ _. apply safe_on_thread.
  eapply safe_mono; [apply safe_tls_add_key|done].
Qed.

(** ** Threads come and go *)

(** No thread has left yet: the next one gets a hardware thread of its own. *)
Definition all_here s : Prop := Z.of_nat (size (pthreads (sched s))) = new_thread_id s.

Lemma safe_create n c0 c s th attr ctxt func arg st g :
  sched_ok n c0 0 (sched s) → wait_ok (view s) (queue s) → (∀ t b, view s !! t = Some b → t < new_thread_id s) →
  (∀ t, is_Some (view s !! t) → is_Some (cancel_pthreads (cancelmanager s) !! t)) → all_here s →
  (if new_thread_id s =? 0 then Some 0 else c0) = Some c → (new_thread_id s ≠ 0 → view s !! c = Some true) →
  safe (PthreadSim.pthread_create th attr ctxt func arg st g) s (λ _ s', sim_ok n c (queue s') s').
Proof.
  intros Hs Hw Hi Hc Hall Hcur Hl. unfold PthreadSim.pthread_create. safe_steps. apply safe_on_sched.
  pose proof (so_bound _ _ _ _ Hs) as Hn. set (id := new_thread_id s) in *.
  assert (view s !! id = None) as Hnew.
  { destruct (view s !! id) as [b|] eqn:E; [|done]. pose proof (Hi _ _ E) as Hlt. lia. }
  eapply safe_AddThread; [exact Hs|done|exact Hi|].
  replace (if id =? 0 then Some id else c0) with (Some c) by (rewrite <- Hcur; by destruct (Z.eqb_spec id 0) as [->|]).
  intros t Ht Hv. safe_steps.
  assert (0 ≤ id < n) as Hidn by (eapply (so_range _ _ _ _ _ true); [exact Ht|by rewrite Hv, lookup_insert_eq]).
  assert (size (pthreads t) = S (size (pthreads (sched s)))) as Hsz.
  { rewrite <- (map_size_fmap active), <- (map_size_fmap active (pthreads (sched s))).
    change (size (sview t) = S (size (view s))). rewrite Hv. by apply map_size_insert_None. }
  apply safe_on_joins. unfold PthreadJoinManager.AddThread.
  apply (safe_mono _ _ (λ _ j, joinings j = joinings (joinmanager s))).
  { apply safe_when; [|done]. intros _. unfold PthreadJoinManager.InsertJoinee. by safe_steps. }
  intros [] j Hj. safe_steps. apply safe_on_cancels. unfold PthreadCancelManager.AddThread. safe_steps.
  apply safe_on_tls. eapply safe_mono; [apply safe_tls_AddThread|]. intros [] k _. safe_steps.
  match goal with |- safe _ ?s1 _ => set (s4 := s1) end.
  eapply (safe_mono _ _ (λ _ s', s' = s4)); [apply safe_when; by safe_steps|]. intros [] s5 ->. safe_steps.
  change (sview t = <[id := true]> (view s)) in Hv. split.
  2:{ unfold view. cbn. rewrite Hv. destruct (Z.eqb_spec id 0) as [E|E].
      - injection Hcur as <-. by rewrite E, lookup_insert_eq.
      - specialize (Hl E). rewrite lookup_insert_ne; [done|congruence]. }
  assert (id ⊕ 1 = id + 1) as Hid1 by (unfold u64; apply Z.mod_small; lia).
  split; unfold view; cbn; fold id; rewrite ?Hv, ?Hid1, ?Hsz.
  - exact Ht.
  - eapply (wait_ok_ext _ (queue s)); [|by apply wait_ok_create]. intros [p|p|p|p]; cbn; by rewrite ?Hj.
  - intros x b [[<- _]|[_ Hx]]%lookup_insert_Some; [lia|]. specialize (Hi _ _ Hx). lia.
  - unfold all_here in Hall. fold id in Hall. lia.
  - intros x. rewrite !lookup_insert_is_Some'. intros [->|Hx]; [by left|right; by apply Hc].
Qed.

Lemma kept_create n c s th attr ctxt func arg st g :
  sim_ok n c (queue s) s → all_here s → safe (PthreadSim.pthread_create th attr ctxt func arg st g) s (λ _, kept n).
Proof.
  intros [[Hs Hw Hi Hz Hc] Hl] Hall. eapply safe_mono; [eapply (safe_create n (Some c) c); try done|by intros f s'; exists c].
  pose proof (Hi _ _ Hl) as Hlt. pose proof (so_range _ _ _ _ _ _ Hs Hl). rewrite (proj2 (Z.eqb_neq _ 0)); [done|lia].
Qed.

(** Thread [t], which is active, leaves; if a thread was joining it, that one is active now. *)
Definition retired n c t s s' : Prop :=
  sim_base n c (queue s') s' ∧ (∀ x, x ≠ t → view s !! x = Some true → view s' !! x = Some true) ∧
  (∀ e, joinables (joinmanager s) !! t = Some e → joined e = true → ∃ u, view s' !! u = Some true) ∧
  view s' !! t = None.

(** The tables forget an active thread. *)
Lemma safe_forget n c t s (P : sim B → Prop) :
  sim_ok n c (queue s) s → view s !! t = Some true →
  (∀ s', sim_base n c (queue s') s' → view s' = delete t (view s) → P s') →
  safe (_ ← PthreadSim.on_cancels (PthreadCancelManager.KillThread t);
        _ ← PthreadSim.on_tls (PthreadTLSManager.KillThread t);
        PthreadSim.on_sched (PthreadScheduler.KillThread t)) s (λ _, P).
Proof.
  intros [[Hs Hw Hi Hz Hc] Hl] Ht HP. safe_steps. apply safe_on_cancels. unfold PthreadCancelManager.KillThread. safe_steps.
  apply safe_on_tls. eapply safe_mono; [apply safe_tls_KillThread|]. intros [] k _. safe_steps. apply safe_on_sched.
  eapply safe_KillThread; [exact Hs|by exists true|exact Ht|]. intros t' Ht' Hv. change (sview t' = delete t (view s)) in Hv.
  assert (size (pthreads (sched s)) = S (size (pthreads t'))) as Hsz.
  { rewrite <- (map_size_fmap active (pthreads t')), <- (map_size_fmap active (pthreads (sched s))).
    change (size (view s) = S (size (sview t'))). rewrite Hv, map_size_delete_Some by eauto.
    assert (size (view s) ≠ O); [|lia]. intros E%map_size_empty_iff. by rewrite E in Ht. }
  apply HP; [|exact Hv]. split; unfold view; cbn; rewrite ?Hv.
  - exact Ht'.
  - eapply (wait_ok_ext _ (queue s)); [|by apply wait_ok_delete]. by intros [].
  - intros x b [_ Hx]%lookup_delete_Some. by eapply Hi.
  - lia.
  - intros x [b [Hne Hx]%lookup_delete_Some]. rewrite lookup_delete_ne by done. apply Hc. by exists b.
Qed.

Lemma safe_retire n c t v s :
  sim_ok n c (queue s) s → view s !! t = Some true → safe (PthreadSim.retire t v) s (λ _ s', retired n c t s s').
Proof.
  intros Hs Ht. unfold PthreadSim.retire. safe_step. apply safe_on_joins. apply safe_join_kill.
  - intros j Hj Hno. cbv beta iota. safe_step. apply safe_ret. set (s1 := set joinmanager _ s).
    assert (sim_ok n c (queue s1) s1) as Hs1.
    { eapply sim_ok_ext; [|by eapply (sim_ok_managers _ _ _ s)]. intros [p|p|p|p]; cbn; by rewrite ?Hj. }
    eapply (safe_mono _ _ (λ _, retired n c t s)); [|done]. eapply safe_forget; [exact Hs1|exact Ht|].
    intros s' Hs' Hv. change (view s1) with (view s) in Hv. split_and!; [done|..]; rewrite ?Hv.
    + intros x Hne Hx. by rewrite lookup_delete_ne.
    + intros e He Hj'. rewrite Hno in Hj' by done. done.
    + by rewrite lookup_delete_eq.
  - intros u j [r Hr] Hj. cbv beta iota. safe_step. set (s1 := set joinmanager _ s).
    eapply (safe_unblock n c (queue s) (queue s1) _ (Joining u) u []).
    + by eapply (sim_ok_managers _ _ _ s).
    + cbn. by rewrite Hr.
    + cbn. by rewrite Hj, lookup_delete_eq.
    + intros w Hw. destruct w as [p|p|p|p]; try done. cbn. rewrite Hj, lookup_delete_ne by congruence. done.
    + intros t' Hs2 Hv2. change (view s1) with (view s) in Hv2. set (s2 := s1 <| sched := t' |>) in *.
      assert (u ≠ t) as Hut.
      { intros ->. eapply (active_not_waiting _ _ _ (Joining t)); [apply Hs|exact Ht|]. cbn. rewrite Hr. left. }
      eapply (safe_forget n c t s2 (retired n c t s)); [exact Hs2| |].
      { change (sview t' !! t = Some true). by rewrite Hv2, lookup_insert_ne. }
      intros s' Hs' Hv. change (view s2) with (sview t') in Hv. rewrite Hv2 in Hv. split_and!; [done|..]; rewrite ?Hv.
      * intros x Hne Hx. rewrite lookup_delete_ne by done. destruct (decide (x = u)) as [->|?];
          [by rewrite lookup_insert_eq|by rewrite lookup_insert_ne].
      * intros e _ _. exists u. rewrite lookup_delete_ne by done. by rewrite lookup_insert_eq.
      * by rewrite lookup_delete_eq.
Qed.

(** ** Cancellation, leaving, joining *)

(** Where a call ends: thread [c] goes on in it, or another one runs. *)
Definition ends {A} n c (f : flow A) s : Prop :=
  match f with Returns _ => sim_ok n c (queue s) s | Leaves => kept n s end.

Lemma ends_kept {A} n c (f : flow A) s : ends n c f s → kept n s.
Proof. destruct f; [by exists c|done]. Qed.

(** The thread is not both waiting for something and open to being cancelled at once. *)
Definition cancel_at_rest s (t : Z) : Prop :=
  view s !! t = Some false →
  ∀ e, cancel_pthreads (cancelmanager s) !! t = Some e → cancelstate e = PTHREAD_CANCEL_ENABLE →
       canceltype e = PTHREAD_CANCEL_ASYNCHRONOUS → False.

Lemma sim_ok_retired n c t s s' : sim_ok n c (queue s) s → retired n c t s s' → t ≠ c → sim_ok n c (queue s') s'.
Proof. intros Hs (Hb & Hx & _ & _) Hne. split; [done|]. apply Hx; [done|apply Hs]. Qed.

Lemma safe_valid s t (P : bool → sim B → Prop) :
  P (bool_decide (is_Some (view s !! t))) s →
  safe (PthreadSim.on_sched (PthreadScheduler.IsThreadValid t)) s P.
Proof.
  intros HP. apply safe_on_sched. unfold PthreadScheduler.IsThreadValid. safe_steps.
  assert (s <| sched := sched s |> = s) as -> by by destruct s.
  replace (bool_decide (is_Some (pthreads (sched s) !! t))) with (bool_decide (is_Some (view s !! t))); [done|].
  apply bool_decide_ext. unfold view. by rewrite sview_lookup, fmap_is_Some.
Qed.

Lemma safe_cancel n c s t :
  sim_ok n c (queue s) s → cancel_at_rest s t → safe (PthreadSim.pthread_cancel t) s (λ _ s', sim_ok n c (queue s') s').
Proof.
  intros Hs Hrest. eapply safe_unless_rerun; [done|done|]. safe_step. apply safe_valid.
  case_bool_decide as Hv; [|by safe_steps]. cbn [negb]. safe_step.
  pose proof (sb_cancels _ _ _ _ (so_base _ _ _ _ Hs) _ Hv) as Hc.
  apply safe_on_cancels. eapply safe_mono; [by apply safe_Cancel|]. intros now k [Hnow Hk]. cbv beta.
  set (s1 := set cancelmanager _ s). assert (sim_ok n c (queue s1) s1) as Hs1 by by eapply (sim_ok_managers _ _ _ s).
  destruct now; [|by safe_steps]. safe_steps. eapply safe_current; [exact Hs1|]. safe_steps.
  match goal with H : negb (t =? c) = true |- _ => apply negb_true_iff, Z.eqb_neq in H end.
  destruct (Hnow eq_refl) as (e & He & H1 & H2).
  assert (view s1 !! t = Some true) as Ht.
  { change (view s !! t = Some true). destruct Hv as [[] Hb]; [done|]. destruct (Hrest Hb e); done. }
  eapply safe_mono; [by eapply (safe_retire n c)|]. intros [] s' Hr. safe_steps. by eapply sim_ok_retired.
Qed.

Lemma kept_cancel n c s t :
  sim_ok n c (queue s) s → cancel_at_rest s t → safe (PthreadSim.pthread_cancel t) s (λ _, kept n).
Proof. intros Hs Ht. eapply safe_mono; [by eapply safe_cancel|]. intros f s' Hs'. by exists c. Qed.

Lemma kept_kill n c s t signo :
  sim_ok n c (queue s) s → view s !! t ≠ Some false → safe (PthreadSim.pthread_kill t signo) s (λ _, kept n).
Proof.
  intros Hs Hrest. eapply safe_unless_rerun; [done|by intros; eapply kept_intro|]. safe_step. apply safe_valid.
  case_bool_decide as Hv; [|safe_steps; by apply (kept_intro _ c)]. destruct (negb (signo =? 0)); cbn [andb];
    [|safe_steps; by apply (kept_intro _ c)]. safe_step.
  pose proof (sb_cancels _ _ _ _ (so_base _ _ _ _ Hs) _ Hv) as Hc.
  apply safe_on_cancels. eapply safe_mono; [by apply safe_SetState|]. intros r1 k1 Hk1. safe_steps.
  apply safe_on_cancels. eapply safe_mono; [by apply safe_SetType, Hk1|]. intros r2 k2 Hk2. safe_steps.
  match goal with |- safe _ ?s0 _ => set (s1 := s0) end.
  assert (sim_ok n c (queue s1) s1) as Hs1 by (by eapply (sim_ok_managers _ _ _ s); [..|by auto]).
  eapply safe_mono; [eapply (safe_cancel n c); [done|intros Ht; by destruct Hrest]|]. intros f s' Hs'. safe_steps. by exists c.
Qed.

(** When the current thread leaves, one is to go on: another active one, or the one that
    joins it. *)
Definition may_exit s c : Prop :=
  (∃ u, u ≠ c ∧ view s !! u = Some true) ∨
  ∃ e, joinables (joinmanager s) !! c = Some e ∧ joined e = true.

Lemma safe_cleanup_pop n c s x ctxt :
  sim_ok n c (queue s) s →
  safe (PthreadSim.pthread_cleanup_pop x ctxt) s (λ _ s', sim_ok n c (queue s') s' ∧
    view s' = view s ∧ joinmanager s' = joinmanager s).
Proof.
  intros Hs. unfold PthreadSim.pthread_cleanup_pop. safe_step. eapply safe_current; [exact Hs|].
  apply safe_on_cleanups. eapply (safe_mono _ _ (λ _ _, True)); [|intros f k _; split; [by eapply sim_ok_managers|done]].
  unfold PthreadCleanupManager.PopHandler. safe_steps. destruct (cleanup_handlers _ !! c) as [l|] eqn:E; [|by safe_steps].
  unfold PthreadCleanupManager.GetHandlerLIFO. safe_steps. rewrite E. safe_steps. destruct (last l) as [[fn arg]|]; [|by safe_steps].
  safe_steps. destruct (negb (x =? 0)); by safe_steps.
Qed.

Lemma safe_exit n c s v ctxt :
  sim_ok n c (queue s) s → may_exit s c → safe (PthreadSim.pthread_exit v ctxt) s (λ f, ends n c f).
Proof.
  intros Hs Hex. eapply safe_unless_rerun; [done|done|]. safe_step. eapply safe_current; [exact Hs|]. safe_step.
  eapply safe_mono; [by eapply safe_cleanup_pop|]. intros f s1 (Hs1 & Hv1 & Hj1). destruct f; [|safe_steps; by exists c]. safe_step.
  eapply safe_mono; [eapply safe_retire; [exact Hs1|apply Hs1]|]. intros [] s2 (Hb & Hothers & Hjoin & Hgone).
  assert (∃ u, view s2 !! u = Some true) as Hex2.
  { destruct Hex as [(u & Hne & Hu)|(e & He & Hj)]; [exists u; apply Hothers; [done|by rewrite Hv1]|].
    apply (Hjoin e); [by rewrite Hj1|done]. }
  apply safe_on_sched. eapply safe_resume; [apply Hb| |].
  { apply cnt_pos. destruct Hex2 as [u Hu]. exists u. unfold is_on, view in *. by rewrite Hu. }
  intros f s3 c' Hs3 Hv3 Hc' Hm.
  assert (sim_ok n c' (queue (s2 <| sched := s3 |>)) (s2 <| sched := s3 |>)) as Hok.
  { eapply sim_ok_ext; [by intros []|]. destruct Hb as [_ Hw Hi Hz Hc].
    assert (size (pthreads s3) = size (pthreads (sched s2))) as Hsz.
    { rewrite <- (map_size_fmap active (pthreads s3)), <- (map_size_fmap active (pthreads (sched s2))).
      change (size (sview s3) = size (sview (sched s2))). by rewrite Hv3. }
    split; [|unfold view in *; cbn; by rewrite Hv3]. unfold view in *.
    split; unfold view; cbn; rewrite ?Hv3, ?Hsz; done. }
  destruct f as [[]|]; [|by exists c']. specialize (Hm eq_refl eq_refl) as [= <-].
  change (view s2 !! c = Some true) in Hc'. by rewrite Hgone in Hc'.
Qed.

Lemma safe_testcancel n c s ctxt :
  sim_ok n c (queue s) s →
  (∀ e, cancel_pthreads (cancelmanager s) !! c = Some e → canceled e = true → may_exit s c) →
  safe (PthreadSim.pthread_testcancel ctxt) s (λ f, ends n c f).
Proof.
  intros Hs Hex. eapply safe_unless_rerun; [done|done|]. safe_step. eapply safe_current; [exact Hs|]. safe_step.
  destruct (sb_cancels _ _ _ _ (so_base _ _ _ _ Hs) c) as [e He]; [exists true; apply Hs|].
  apply safe_on_cancels. unfold PthreadCancelManager.IsCanceled, PthreadCancelManager.GetThreadCancelState. safe_steps.
  rewrite He. eapply safe_lift_ok; [done|]. safe_steps. set (s1 := set cancelmanager _ s).
  assert (s1 = s) as -> by by destruct s. destruct (canceled e) eqn:Hc; [|by safe_steps]. by eapply safe_exit; [|eapply Hex].
Qed.

Lemma kept_join n c s t ptr ctxt :
  sim_ok n c (queue s) s →
  (∀ e, cancel_pthreads (cancelmanager s) !! c = Some e → canceled e = true → may_exit s c) →
  safe (PthreadSim.pthread_join t ptr ctxt) s (λ _, kept n).
Proof.
  intros Hs Hex. eapply safe_unless_rerun; [done|by intros; eapply kept_intro|]. safe_step. eapply safe_current; [exact Hs|].
  safe_step. eapply safe_mono; [by eapply safe_testcancel|]. intros f s1 Hs1. destruct f; [|by safe_steps]. cbn in Hs1.
  safe_step. apply safe_on_joins. apply safe_join_threads.
  - intros j Hj. safe_steps. apply (kept_intro _ c).
    eapply sim_ok_ext; [|by eapply (sim_ok_managers _ _ _ s1)]. intros [p|p|p|p]; cbn; by rewrite ?Hj.
  - intros j r Hno Hj. eapply (safe_block _ _ _ _ (Joining c)); [by eapply (sim_ok_managers _ _ _ s1)|..].
    + cbn. by rewrite Hj, lookup_insert_eq, Hno.
    + intros w Hw. destruct w as [p|p|p|p]; try done. cbn. rewrite Hj, lookup_insert_ne by congruence. done.
Qed.

Lemma kept_detach n c s t : sim_ok n c (queue s) s → safe (PthreadSim.pthread_detach t) s (λ _, kept n).
Proof.
  intros Hs. eapply safe_unless_rerun; [done|by intros; eapply kept_intro|]. safe_step. apply safe_valid.
  case_bool_decide; [|safe_steps; by apply (kept_intro _ c)]. cbn [negb]. unfold PthreadSim.returns. safe_step. apply safe_on_joins.
  apply (safe_mono _ _ (λ _ j, joinings j = joinings (joinmanager s))).
  { unfold PthreadJoinManager.DetachThread, PthreadJoinManager.IsJoinable. safe_steps. case_bool_decide as Hj; [|by safe_steps].
    unfold PthreadJoinManager.IsJoined, PthreadJoinManager.GetJoinee_entry. cbn [negb]. safe_steps. destruct Hj as [e ->].
    safe_steps.
    apply (safe_mono _ _ (λ _ j, joinings j = joinings (joinmanager s))); [apply safe_when; by safe_steps|].
    intros [] j Hjs. by safe_steps. }
  intros r j Hj. safe_steps. apply (kept_intro _ c). eapply sim_ok_ext; [|by eapply (sim_ok_managers _ _ _ s)].
  intros [p|p|p|p]; cbn; by rewrite ?Hj.
Qed.

Lemma kept_getattr n c s t g :
  sim_ok n c (queue s) s → is_Some (view s !! t) → safe (PthreadSim.pthread_getattr t g) s (λ _, kept n).
Proof.
  intros Hs Ht. unfold PthreadSim.pthread_getattr. safe_step. apply safe_on_sched. apply safe_GetAttr; [done|]. intros a.
  assert (s <| sched := sched s |> = s) as -> by by destruct s. safe_step. apply safe_on_joins.
  unfold PthreadJoinManager.GetAttr, PthreadJoinManager.IsJoinable. safe_steps. apply (kept_intro _ c). by destruct s.
Qed.

Lemma kept_cleanup_pop n c s x ctxt : sim_ok n c (queue s) s → safe (PthreadSim.pthread_cleanup_pop x ctxt) s (λ _, kept n).
Proof. intros Hs. eapply safe_mono; [by eapply safe_cleanup_pop|]. intros f s' (H & _). by exists c. Qed.

Lemma kept_cleanup_push n c s r a : sim_ok n c (queue s) s → safe (PthreadSim.pthread_cleanup_push r a) s (λ _, kept n).
Proof.
  intros Hs. unfold PthreadSim.pthread_cleanup_push. safe_step. eapply safe_current; [exact Hs|]. unfold PthreadSim.returns.
  safe_step. eapply safe_mono; [apply (safe_on_cleanups_any n c); [done|]|].
  - unfold PthreadCleanupManager.PushHandler, PthreadCleanupManager.GetHandlerLIFO. safe_steps.
    destruct (cleanup_handlers _ !! c); by safe_steps.
  - intros [] s' Hs'. safe_steps. by exists c.
Qed.

Lemma kept_setcancel n c s (m : Z → proc event cancels Z) :
  sim_ok n c (queue s) s →
  (∀ k, is_Some (cancel_pthreads k !! c) → safe (m c) k
     (λ _ k', ∀ x, is_Some (cancel_pthreads k !! x) → is_Some (cancel_pthreads k' !! x))) →
  safe (c ← PthreadSim.GetCurrentThread; PthreadSim.returns (PthreadSim.on_cancels (m c))) s (λ _, kept n).
Proof.
  intros Hs Hm. safe_step. eapply safe_current; [exact Hs|]. unfold PthreadSim.returns. safe_step.
  eapply safe_mono; [apply (safe_on_cancels_any n c s _ (λ _, True)); [done|]|].
  - eapply safe_mono; [apply Hm; apply (sb_cancels _ _ _ _ (so_base _ _ _ _ Hs)); exists true; apply Hs|]. done.
  - intros r s' [_ Hs']. safe_steps. by exists c.
Qed.

(** ** Data of threads, markers, instructions *)

Lemma kept_key_create n c s key f : sim_ok n c (queue s) s → safe (PthreadSim.pthread_key_create key f) s (λ _, kept n).
Proof.
  intros Hs. eapply safe_unless_rerun; [done|by intros; eapply kept_intro|]. safe_steps.
  eapply safe_mono; [apply (safe_on_tls_any n c); [done|apply safe_tls_AddKey]|]. intros [k e] s' Hs'. cbv beta iota.
  safe_steps. by exists c.
Qed.

Lemma kept_key_delete n c s key : sim_ok n c (queue s) s → safe (PthreadSim.pthread_key_delete key) s (λ _, kept n).
Proof.
  intros Hs. eapply safe_unless_rerun; [done|by intros; eapply kept_intro|]. unfold PthreadSim.returns. safe_step.
  eapply safe_mono; [apply (safe_on_tls_any n c); [done|]|intros r s' Hs'; safe_steps; by exists c].
  unfold PthreadTLSManager.RemoveKey. safe_steps. destruct (_ && _); by safe_steps.
Qed.

Lemma kept_getspecific n c s key : sim_ok n c (queue s) s → safe (PthreadSim.pthread_getspecific key) s (λ _, kept n).
Proof.
  intros Hs. unfold PthreadSim.pthread_getspecific. safe_step. eapply safe_current; [exact Hs|]. unfold PthreadSim.returns.
  safe_step. eapply safe_mono; [apply (safe_on_tls_any n c); [done|]|intros r s' Hs'; safe_steps; by exists c].
  unfold PthreadTLSManager.GetData, PthreadTLSManager.GetTLS. safe_steps. destruct (tls _ !! c); by safe_steps.
Qed.

Lemma kept_setspecific n c s key d : sim_ok n c (queue s) s → safe (PthreadSim.pthread_setspecific key d) s (λ _, kept n).
Proof.
  intros Hs. unfold PthreadSim.pthread_setspecific. safe_step. eapply safe_current; [exact Hs|]. unfold PthreadSim.returns.
  safe_step. eapply safe_mono; [apply (safe_on_tls_any n c); [done|]|intros r s' Hs'; safe_steps; by exists c].
  unfold PthreadTLSManager.SetData, PthreadTLSManager.GetTLS. safe_steps. destruct (tls _ !! c); [|done]. safe_steps.
  destruct (PthreadTLS.SetData _ _ _). by safe_steps.
Qed.

Lemma kept_marker n c s f :
  sim_ok n c (queue s) s → (∀ p, active (f p) = active p) →
  safe (PthreadSim.unless_rerun tt (PthreadSim.returns (PthreadSim.on_sched (PthreadScheduler.update_current f)))) s (λ _, kept n).
Proof.
  intros Hs Hf. eapply safe_unless_rerun; [done|by intros; eapply kept_intro|]. unfold PthreadSim.returns. safe_step.
  eapply safe_update; [exact Hs|done|]. intros t Ht. safe_steps. by exists c.
Qed.

Lemma kept_process_ins n c s ctxt i :
  sim_ok n c (queue s) s → safe (PthreadSim.process_ins (Some ctxt) i) s (λ _, kept n).
Proof.
  intros Hs. unfold PthreadSim.process_ins, PthreadSim.on_malloc, PthreadMalloc.CanSwitchThreads. safe_steps.
  set (s1 := set mallocmanager _ _). assert (s1 = s) as -> by by destruct s. destruct (enablecontextswitch _).
  - apply safe_on_sched. eapply safe_process_ins; [by eapply so_sched|apply Hs|]. intros f t c' Ht Hv Hc'.
    exists c'. by eapply sim_ok_sched.
  - safe_steps. eapply safe_counter; [exact Hs|by intros []|]. intros t Ht. safe_steps. by exists c.
Qed.

Lemma kept_set_stack n c s ctxt : sim_ok n c (queue s) s → safe (PthreadSim.set_stack ctxt) s (λ _, kept n).
Proof.
  intros Hs. unfold PthreadSim.set_stack, PthreadSim.returns. safe_step. eapply safe_sched_same; [exact Hs| |].
  - intros K HK. eapply safe_set_stack; [by eapply so_sched|by eapply so_alive|]. intros t H1 H2. by apply HK.
  - intros t Ht. safe_steps. by exists c.
Qed.

Lemma kept_malloc n c s a b r : sim_ok n c (queue s) s → safe (PthreadSim.threadsafemalloc a b r) s (λ _, kept n).
Proof.
  intros Hs. unfold PthreadSim.threadsafemalloc. safe_step. eapply safe_current; [exact Hs|]. unfold PthreadSim.returns.
  safe_step. eapply safe_mono; [apply (safe_on_malloc_any n c); [done|]|intros ? s' Hs'; safe_steps; by exists c].
  unfold PthreadMalloc.Analyze. safe_steps. destruct (enablecontextswitch _).
  - safe_steps. apply safe_when; by safe_steps.
  - destruct (_ || _); [|by safe_steps]. safe_steps. destruct (_ && _); [by safe_steps|].
    destruct (_ || _); [|by safe_steps]. safe_steps. apply safe_when; by safe_steps.
Qed.

Lemma kept_reads {A} n c s (m : proc event (scheduler B) A) :
  sim_ok n c (queue s) s → (∀ K : A → scheduler B → Prop, (∀ a, K a (sched s)) → safe m (sched s) K) →
  safe (PthreadSim.returns (PthreadSim.on_sched m)) s (λ _, kept n).
Proof.
  intros Hs Hm. unfold PthreadSim.returns. safe_step. apply safe_on_sched. apply Hm. intros a.
  assert (s <| sched := sched s |> = s) as -> by by destruct s. safe_steps. by exists c.
Qed.

End Sim.
