(* ===== verification/PthreadCalls.v ===== *)
(** * The thread library, call by call

    The calls a program makes, in any order, from the initial state the tool sets up: no
    call meets undefined behaviour, and the invariant of PthreadReach holds throughout.
    Then what happens where the library does not keep its promises: the calls that the
    guards below exclude. *)

From S2P Require Import Prelude Containers PthreadAttr PthreadSync Frontend PthreadThreads PthreadScheduler Trace PthreadSim PthreadInv PthreadReach.
Import PTSInterface.

(** ** The calls *)

(** [ctxt] is the context of the thread that calls, [garbage] an uninitialised attribute. *)
Inductive api : Type :=
| MutexLock (mutex ctxt : Z)
| MutexTrylock (mutex : Z)
| MutexUnlock (mutex : Z)
| CondBroadcast (cond : Z)
| CondSignal (cond : Z)
| CondDestroy (cond : Z)
| CondWait (cond mutex ctxt : Z)
| CondTimedwait (cond mutex tv_sec ctxt : Z)
| BarrierInit (barrier num : Z)
| BarrierDestroy (barrier : Z)
| BarrierWait (barrier ctxt : Z)
| Create (thread : Z) (attr : option PthreadAttr.pthread_attr) (startctxt : option Z) (func arg new_stack : Z)
    (garbage : PthreadAttr.pthread_attr)
| Cancel (thread : Z)
| Kill (thread signo : Z)
| Exit (retval ctxt : Z)
| Testcancel (ctxt : Z)
| Join (thread thread_return ctxt : Z)
| Detach (thread : Z)
| Getattr (thread : Z) (garbage : PthreadAttr.pthread_attr)
| Self
| Inmtmode
| CleanupPop (execute ctxt : Z)
| CleanupPush (routine arg : Z)
| Setcancelstate (newstate oldstate : Z)
| Setcanceltype (newtype oldtype : Z)
| KeyCreate (key func : Z)
| KeyDelete (key : Z)
| Getspecific (key : Z)
| Setspecific (key data : Z)
| Instruction (ctxt : Z) (i : PTSInstrTrace)
| SkipBegin | SkipEnd | SpinBegin | SpinEnd
| SetStack (ctxt : Z)
| Routine (iscall istailcall : bool) (rtn_name : string).

Section Calls.
Context {B : Type} {BE : Backend B} {PIN : Pin}.
Implicit Types (s : sim B).

Definition forget {A} (m : proc event (sim B) A) : proc event (sim B) unit := _ ← m; mret tt.

Definition perform (a : api) : proc event (sim B) unit :=
  match a with
  | MutexLock m x => forget (PthreadSim.pthread_mutex_lock m x)
  | MutexTrylock m => forget (PthreadSim.pthread_mutex_trylock m)
  | MutexUnlock m => forget (PthreadSim.pthread_mutex_unlock m)
  | CondBroadcast c => forget (PthreadSim.pthread_cond_broadcast c)
  | CondSignal c => forget (PthreadSim.pthread_cond_signal c)
  | CondDestroy c => forget (PthreadSim.pthread_cond_destroy c)
  | CondWait c m x => forget (PthreadSim.pthread_cond_wait c m x)
  | CondTimedwait c m t x => forget (PthreadSim.pthread_cond_timedwait c m t x)
  | BarrierInit b n => forget (PthreadSim.pthread_barrier_init b n)
  | BarrierDestroy b => forget (PthreadSim.pthread_barrier_destroy b)
  | BarrierWait b x => forget (PthreadSim.pthread_barrier_wait b x)
  | Create t a x f arg st g => forget (PthreadSim.pthread_create t a x f arg st g)
  | Cancel t => forget (PthreadSim.pthread_cancel t)
  | Kill t k => forget (PthreadSim.pthread_kill t k)
  | Exit v x => forget (PthreadSim.pthread_exit v x)
  | Testcancel x => forget (PthreadSim.pthread_testcancel x)
  | Join t r x => forget (PthreadSim.pthread_join t r x)
  | Detach t => forget (PthreadSim.pthread_detach t)
  | Getattr t g => forget (PthreadSim.pthread_getattr t g)
  | Self => forget PthreadSim.pthread_self
  | Inmtmode => forget PthreadSim.inmtmode
  | CleanupPop e x => forget (PthreadSim.pthread_cleanup_pop e x)
  | CleanupPush r a => forget (PthreadSim.pthread_cleanup_push r a)
  | Setcancelstate n o => forget (PthreadSim.pthread_setcancelstate n o)
  | Setcanceltype n o => forget (PthreadSim.pthread_setcanceltype n o)
  | KeyCreate k f => forget (PthreadSim.pthread_key_create k f)
  | KeyDelete k => forget (PthreadSim.pthread_key_delete k)
  | Getspecific k => forget (PthreadSim.pthread_getspecific k)
  | Setspecific k d => forget (PthreadSim.pthread_setspecific k d)
  | Instruction x i => forget (PthreadSim.process_ins (Some x) i)
  | SkipBegin => forget PthreadSim.mcsim_skip_instrs_begin
  | SkipEnd => forget PthreadSim.mcsim_skip_instrs_end
  | SpinBegin => forget PthreadSim.mcsim_spinning_begin
  | SpinEnd => forget PthreadSim.mcsim_spinning_end
  | SetStack x => forget (PthreadSim.set_stack x)
  | Routine c t n => forget (PthreadSim.threadsafemalloc c t n)
  end.

(** What the program must not do: set up or tear down a barrier at which threads wait;
    create a thread after one has left; cancel a waiting thread at once, or signal it;
    let the last active thread leave when nobody joins it; ask for the attributes of a
    thread that does not exist. *)
Definition guard (a : api) s : Prop :=
  match a with
  | BarrierInit b _ | BarrierDestroy b => nobody_at s b
  | Create _ _ _ _ _ _ _ => all_here s
  | Cancel t => cancel_at_rest s t
  | Kill t _ => view s !! t ≠ Some false
  | Exit _ _ => ∀ c, current (sched s) = Some c → may_exit s c
  | Testcancel _ | Join _ _ _ => ∀ c e, current (sched s) = Some c →
      cancel_pthreads (cancelmanager s) !! c = Some e → canceled e = true → may_exit s c
  | Getattr t _ => is_Some (view s !! t)
  | _ => True
  end.

(** The states that guarded calls bring the library to, in any order, when the front end
    does not play a trace.  Calls outside the guards lead to others: [create_after_exit],
    [cancel_while_waiting]. *)
Inductive reachable (b : B) : sim B → Prop :=
| reach_initiate P ctxt g r s o :
    TracePlay.trace_name P = ""%string →
    PthreadSim.initiate P ctxt g (PthreadSim.no_threads b) = Ok (r, s, o) → reachable b s
| reach_call a s s' o :
    reachable b s → guard a s → perform a s = Ok (tt, s', o) → reachable b s'.

(** ** Every call keeps the invariant *)

Context {BL : BackendLaws BE}.

Lemma safe_forget_result {A} (m : proc event (sim B) A) s (P : sim B → Prop) :
  safe m s (λ _, P) → safe (forget m) s (λ _, P).
Proof. intros H. unfold forget. safe_step. eapply safe_mono; [exact H|]. intros a s' Hs'. by safe_steps. Qed.

Lemma kept_perform n a s : kept n s → guard a s → safe (perform a) s (λ _, kept n).
Proof.
  intros [c Hs] Hg. assert (current (sched s) = Some c) as Hcur by apply Hs.
  destruct a; apply safe_forget_result; cbn in Hg.
  - by eapply kept_mutex_lock.
  - by eapply kept_mutex_trylock.
  - eapply safe_mono; [by eapply safe_mutex_unlock|]. intros f s' Hs'. by exists c.
  - by eapply kept_cond_broadcast.
  - by eapply kept_cond_signal.
  - by eapply kept_cond_destroy.
  - by eapply kept_cond_wait.
  - by eapply kept_cond_timedwait.
  - by eapply kept_barrier_init.
  - by eapply kept_barrier_destroy.
  - by eapply kept_barrier_wait.
  - by eapply kept_create.
  - by eapply kept_cancel.
  - by eapply kept_kill.
  - eapply safe_mono; [eapply safe_exit; [done|by apply Hg]|]. intros f s'. apply ends_kept.
  - eapply safe_mono; [eapply safe_testcancel; [done|by intros; eapply Hg]|]. intros f s'. apply ends_kept.
  - eapply kept_join; [done|by intros; eapply Hg].
  - by eapply kept_detach.
  - by eapply kept_getattr.
  - eapply kept_reads; [done|]. intros K HK. eapply safe_GetCurrentThread; [by eapply so_sched|by eapply so_alive|done].
  - unfold PthreadSim.inmtmode, PthreadScheduler.GetNumActiveThreads. safe_step. apply safe_on_sched. safe_steps. exists c. by destruct s.
  - by eapply kept_cleanup_pop.
  - by eapply kept_cleanup_push.
  - eapply (kept_setcancel n c s (λ c, PthreadCancelManager.SetState c newstate oldstate)); [done|]. intros k Hk. by apply safe_SetState.
  - eapply (kept_setcancel n c s (λ c, PthreadCancelManager.SetType c newtype oldtype)); [done|]. intros k Hk. by apply safe_SetType.
  - by eapply kept_key_create.
  - by eapply kept_key_delete.
  - by eapply kept_getspecific.
  - by eapply kept_setspecific.
  - by eapply kept_process_ins.
  - by eapply kept_marker.
  - by eapply kept_marker.
  - by eapply kept_marker.
  - by eapply kept_marker.
  - by eapply kept_set_stack.
  - by eapply kept_malloc.
Qed.

(** ** The initial state *)

(** The simulator has [n] hardware threads, all of them idle. *)
Record boots (n : Z) (b : B) : Prop := {
  boots_bound : 0 < n < 2 ^ 31;
  boots_n : uint32_t_val (fst (serve pts_get_num_hthreads b)) = n;
  boots_idle h : thread_active b h = false;
  boots_ok : backend_ok b;
  boots_time : backend_time b = 0 }.

Lemma safe_make n b : boots n b →
  safe PthreadScheduler.make (PthreadScheduler.init b) (λ _ t, sched_ok n None 0 t ∧ pthreads t = ∅).
Proof.
  intros [Hn Hnum Hidle Hbok Htime]. unfold PthreadScheduler.make, PTS.make, PTS.get_num_hthreads, PTS.request, PTS.flush,
    PTS.sync_with_mcsim, PthreadScheduler.on_pts. safe_steps. apply safe_when; [done|intros _]. safe_steps.
  change (PTS.mcsim (set PTS.type_is_add (λ _, false) (pts (PthreadScheduler.init b)))) with b.
  destruct (serve pts_get_num_hthreads b) as [r b1] eqn:Hb. cbn in Hnum. safe_steps. rewrite Hnum.
  match goal with |- safe _ ?s0 _ => set (s1 := s0) end.
  assert (b1 = snd (serve pts_get_num_hthreads b)) as Hb1 by by rewrite Hb.
  assert (link n None (is_on ∅) 0 s1) as Hl.
  { split; [split; cbn; [rewrite length_replicate; lia|done|done|done]|done| | | |done];
      change (PTS.mcsim s1) with b1; rewrite Hb1.
    - intros h. unfold is_on. rewrite lookup_empty. cbn. rewrite <- (Hidle h). by apply serve_other.
    - by apply serve_ok.
    - by rewrite (serve_same_time pts_get_num_hthreads). }
  assert (∀ s2 : scheduler B, pthreads s2 = ∅ → nactive s2 = 0 → current s2 = None → link n None (is_on ∅) (curr_time s2) (pts s2) →
    n ≤ Z.of_nat (length (hth_to_pth s2)) → sched_ok n None 0 s2) as Hok.
  { intros s2 E1 E2 E3 Hl2 Hlen. split; try done; unfold sview; rewrite ?E1, ?fmap_empty; try done. }
  unfold PTS.get_param_bool. safe_steps.
  eapply safe_request; [done|done|done|exact Hl|done|]. intros r2 p2 Hl2 _. safe_steps.
  eapply safe_request; [done|done|done|exact Hl2|done|].
  intros r3 p3 Hl3 _. safe_steps. split; [|done]. apply Hok; [done..|exact Hl3|cbn; rewrite length_replicate; lia].
Qed.

Lemma kept_initiate n b P ctxt g :
  boots n b → TracePlay.trace_name P = ""%string → safe (PthreadSim.initiate P ctxt g) (PthreadSim.no_threads b) (λ _, kept n).
Proof.
  intros Hb Hname. unfold PthreadSim.initiate. rewrite Hname. safe_step. apply safe_on_sched.
  eapply safe_mono; [by apply (safe_make n)|]. intros [] t [Ht Hp]. safe_step.
  set (s := (PthreadSim.no_threads b) <| sched := t |>).
  assert (view s = ∅) as Hv by (unfold view, sview; cbn; by rewrite Hp, fmap_empty).
  eapply safe_mono; [apply (safe_create n None 0)|].
  - exact Ht.
  - rewrite Hv. split.
    + intros []; cbn; rewrite ?lookup_empty; constructor.
    + intros x w1 w2 H. destruct w1; cbn in H; rewrite lookup_empty in H; inv H.
    + intros x. rewrite lookup_empty. split; [done|]. intros [w H]. destruct w; cbn in H; rewrite lookup_empty in H; inv H.
  - rewrite Hv. intros x c Hx. by rewrite lookup_empty in Hx.
  - rewrite Hv. intros x [c Hx]. by rewrite lookup_empty in Hx.
  - unfold all_here. change (pthreads (sched s)) with (pthreads t). by rewrite Hp, map_size_empty.
  - done.
  - done.
  - intros f s' Hs'. safe_step. eapply safe_mono; [apply (kept_set_stack n 0); exact Hs'|].
    intros r s2 Hs2. by safe_steps.
Qed.

Lemma kept_reachable n b s : boots n b → reachable b s → kept n s.
Proof.
  intros Hb. induction 1 as [P ctxt g r s o Hname Hrun|a s s' o _ IH Hg Hrun].
  - eapply (safe_run _ _ _ _ _ _ (kept_initiate n b P ctxt g Hb Hname)), Hrun.
  - eapply (safe_run _ _ _ _ _ _ (kept_perform n a s IH Hg)), Hrun.
Qed.


(** ** Runs *)

Definition run_apis (l : list api) : proc event (sim B) unit := for_each l perform.

(** Calls whose guard can be looked up. *)
Definition checked (a : api) s : bool :=
  match a with
  | Create _ _ _ _ _ _ _ => Z.of_nat (size (pthreads (sched s))) =? new_thread_id s
  | BarrierInit b _ | BarrierDestroy b => match queue s (AtBarrier b) with [] => true | _ => false end
  | Cancel _ | Kill _ _ | Exit _ _ | Testcancel _ | Join _ _ _ | Getattr _ _ => false
  | _ => true
  end.

Fixpoint run_checked (l : list api) s : option (sim B) :=
  match l with
  | [] => Some s
  | a :: l => if checked a s then match perform a s with Ok (_, s', _) => run_checked l s' | Err _ => None end else None
  end.

Lemma reachable_checked b l s s' : reachable b s → run_checked l s = Some s' → reachable b s'.
Proof.
  revert s. induction l as [|a l IH]; intros s Hs; cbn; [by intros [= <-]|].
  destruct (checked a s) eqn:Hc; [|done]. destruct (perform a s) as [[[[] s1] o]|] eqn:Hp; [|done].
  apply IH. eapply reach_call; [exact Hs| |exact Hp]. destruct a; cbn [checked guard] in Hc |- *; try done;
    solve [by apply Z.eqb_eq|unfold nobody_at; by destruct (queue s _)].
Qed.

End Calls.

(** ** A small simulator

    It keeps the active hardware threads, most recently activated first, and resumes the
    first of them; every parameter has its default. *)
Definition answer (u w : Z) (v : bool) : reply := {| uint32_t_val := u; uint64_t_val := w; bool_val := v |}.

#[export] Instance small : Backend (list Z) := λ msg b,
  match msg with
  | pts_set_active h a => (answer 0 0 false, if a then h :: b else filter (λ x, x ≠ h) b)
  | pts_resume_simulation _ _ => (answer (default 0 (head b)) 0 false, b)
  | pts_get_num_hthreads => (answer 4 0 false, b)
  | pts_get_param_uint64 _ d => (answer 0 d false, b)
  | pts_get_param_bool _ d => (answer 0 0 d, b)
  | _ => (answer 0 0 false, b)
  end.

#[export] Instance small_laws : BackendLaws small.
Proof.
  refine {| thread_active := λ b h, bool_decide (h ∈ b); backend_ok := λ _, True; backend_time := λ _, 0 |}.
  - done.
  - intros h a b h' _ _. destruct a; cbn.
    + destruct (decide (h' = h)) as [->|Hne]; [apply bool_decide_eq_true; left|].
      apply bool_decide_ext. rewrite elem_of_cons. naive_solver.
    + destruct (decide (h' = h)) as [->|Hne]; [apply bool_decide_eq_false|apply bool_decide_ext];
        rewrite list_elem_of_filter; naive_solver.
  - intros msg b h' _ _ Hm. destruct msg as [| | | |h a| | | |]; try done. by destruct (Hm h a).
  - intros m k b _ [h Hh%bool_decide_eq_true]. apply bool_decide_eq_true.
    destruct b as [|x b]; [by apply not_elem_of_nil in Hh|]. left.
  - done.
  - by intros [] b.
Defined.

(** Contexts without contents. *)
#[export] Instance bare : Pin.
Proof. constructor; intros; exact 0. Defined.

Definition no_attr : PthreadAttr.pthread_attr :=
  {| PthreadAttr.schedpolicy := 0; PthreadAttr.flags := 0; PthreadAttr.stackaddr := 0; PthreadAttr.stacksize := 0 |}.

(** The initial state, and the state some calls later. *)
Definition started_up : option (sim (list Z)) :=
  match PthreadSim.initiate TracePlay.no_player 0 no_attr (PthreadSim.no_threads []) with Ok (_, s, _) => Some s | Err _ => None end.
Definition after (l : list api) : option (sim (list Z)) := s ← started_up; run_checked l s.

Definition new_thread : api := Create 0 None (Some 0) 0 0 (2 ^ 32) no_attr.

Lemma reachable_after l s : after l = Some s → reachable [] s.
Proof.
  unfold after, started_up. destruct (PthreadSim.initiate _ _ _ _) as [[[f s0] o]|] eqn:E; [|done]. cbn.
  apply reachable_checked. by eapply (reach_initiate _ TracePlay.no_player).
Qed.

(** Thread 0 waits for condition 200 with mutex 100, thread 2 takes the mutex and waits at
    barrier 300, and thread 1 signals the condition: 0 moves over to the mutex. *)
Definition some_apis : list api :=
  [new_thread; new_thread; BarrierInit 300 2; MutexLock 100 0; CondWait 200 100 0;
   MutexLock 100 0; BarrierWait 300 0; CondSignal 200].

Definition some_state : sim (list Z) := default (PthreadSim.no_threads []) (after some_apis).

Lemma small_boots : boots 4 (BL := small_laws) [].
Proof. by split. Qed.


(** ** Outside the guards

    [run_apis] does not look at the guards. *)
Definition unguarded (l : list api) : option (sim (list Z)) :=
  s ← started_up; match run_apis l s with Ok (_, s', _) => Some s' | Err _ => None end.

(** A thread created after one has left gets the hardware thread of a live one: here
    thread 0 leaves, and threads 2 and 3 share hardware thread 2. *)
Lemma create_after_exit :
  (s ← unguarded [new_thread; new_thread; Exit 0 0; new_thread];
   Some (map_to_list (view s), pth_to_hth (sched s) !! 2, pth_to_hth (sched s) !! 3)) =
  Some ([(3, true); (2, true); (1, true)], Some 2, Some 2).
Proof. vm_compute. reflexivity. Qed.

(** A waiting thread that is cancelled at once stays in its queue, and is subtracted
    from the active threads although it was not counted: here threads 1 and 2 are active,
    and the count is 1. *)
Lemma cancel_while_waiting :
  (s ← unguarded [new_thread; new_thread; Setcanceltype PTHREAD_CANCEL_ASYNCHRONOUS 0; MutexLock 100 0;
                  CondWait 200 100 0; Cancel 0];
   Some (map_to_list (view s), nactive (sched s), queue s (InCond 200))) =
  Some ([(2, true); (1, true)], 1, [0]).
Proof. vm_compute. reflexivity. Qed.

(** A thread that gives way to another is blocked, but waits nowhere, so that nothing
    ever unblocks it. *)
Definition switched : option (sim (list Z)) :=
  s ← unguarded [new_thread];
  match PthreadSim.docontextswitch 0 s with Ok (_, s', _) => Some s' | Err _ => None end.

Lemma switched_and_lost :
  (s ← switched; Some (view s !! 0, map_to_list (PthreadSync.spinning (mutexmanager s)),
     map_to_list (cond_waiters (condmanager s)), map_to_list (barriers (barriermanager s)),
     map_to_list (joinings (joinmanager s)))) =
  Some (Some false, [], [], [], []).
Proof. vm_compute. reflexivity. Qed.
