(* ===== verification/Instrument.v ===== *)
(** * What the tools insert into the program (mypthreadtool.cpp, tracegen.cpp, mypthread.cpp)

    Pin shows the tool the routines and the instructions of the program; the tool answers
    with the functions to call instead or before, and what to pass them.  The tables below
    are those answers; the hooks hand what they are passed to the thread library. *)

From S2P Require Import Prelude Containers PthreadAttr PthreadSync Frontend PthreadThreads PthreadScheduler PthreadSim Trace PthreadInv PthreadReach PthreadCalls.
Import PTSInterface TracePlay.

Module Instrument.

(** ** Routines of the program that are replaced *)

(** What a hook can be passed: the registers, and an argument of the routine; the result
    may go to the register [REG_GAX]. *)
Inductive iarg : Set := IARG_CONTEXT | IARG_FUNCARG_ENTRYPOINT_VALUE (n : nat) | IARG_RETURN_REGS.

#[export] Instance iarg_eq_dec : EqDecision iarg.
Proof. solve_decision. Defined.
Notation arg := IARG_FUNCARG_ENTRYPOINT_VALUE.

Inductive hook : Set :=
| CallPthreadSelf | DummyFunc | CallMcSimSkipInstrsBegin | CallMcSimSkipInstrsEnd | CallMcSimSpinningBegin
| CallMcSimSpinningEnd
| CallPthreadAttrDestroy | CallPthreadAttrGetdetachstate | CallPthreadAttrGetstackaddr | CallPthreadAttrGetstacksize
| CallPthreadAttrGetstack | CallPthreadAttrInit | CallPthreadAttrSetdetachstate | CallPthreadAttrSetstackaddr
| CallPthreadAttrSetstacksize | CallPthreadAttrSetstack
| CallPthreadCancel | CallPthreadCleanupPop | CallPthreadCleanupPush
| CallPthreadCondattrDestroy | CallPthreadCondattrInit | CallPthreadCondBroadcast | CallPthreadCondDestroy
| CallPthreadCondInit | CallPthreadCondSignal | CallPthreadCondTimedwait | CallPthreadCondWait
| CallPthreadCreate | CallPthreadDetach | CallPthreadEqual | CallPthreadExit | CallPthreadGetattr | CallPthreadGetspecific
| CallPthreadJoin | CallPthreadKeyCreate | CallPthreadKeyDelete | CallPthreadKill
| CallPthreadMutexattrDestroy | CallPthreadMutexattrGetkind | CallPthreadMutexattrInit | CallPthreadMutexattrSetkind
| CallPthreadMutexDestroy | CallPthreadMutexInit | CallPthreadMutexLock | CallPthreadMutexTrylock | CallPthreadMutexUnlock
| CallPthreadOnce | CallPthreadSetcancelstate | CallPthreadSetcanceltype | CallPthreadSetspecific | CallPthreadTestcancel
| CallPthreadBarrierInit | CallPthreadBarrierDestroy | CallPthreadBarrierWait | CallPthreadBarrierattrInit
| CallPthreadBarrierattrDestory | CallPthreadBarrierattrGetpshared | CallPthreadBarrierattrSetpshared.

(** [RTN_Replace] passes on all arguments and the result; [RTN_ReplaceSignature] what the
    list says. *)
Inductive replacement : Set := Replace (f : hook) | ReplaceSignature (f : hook) (l : list iarg).

Notation RETURN := IARG_RETURN_REGS.
Notation CONTEXT := IARG_CONTEXT.
#[local] Open Scope string_scope.

Definition marker_routines : list (string * replacement) := [
  ("__kmp_get_global_thread_id", Replace CallPthreadSelf);
  ("__kmp_check_stack_overlap", Replace DummyFunc);
  ("mcsim_skip_instrs_begin", Replace CallMcSimSkipInstrsBegin);
  ("mcsim_skip_instrs_end", Replace CallMcSimSkipInstrsEnd);
  ("mcsim_spinning_begin", Replace CallMcSimSpinningBegin);
  ("mcsim_spinning_end", Replace CallMcSimSpinningEnd);
  ("__parsec_bench_begin", Replace CallMcSimSkipInstrsBegin);
  ("__parsec_roi_begin", Replace CallMcSimSkipInstrsEnd);
  ("__parsec_roi_end", Replace CallMcSimSkipInstrsBegin);
  ("__parsec_bench_end", Replace CallMcSimSkipInstrsBegin)].

Definition attr_routines : list (string * replacement) := [
  ("pthread_attr_destroy", ReplaceSignature CallPthreadAttrDestroy [arg 0; RETURN]);
  ("pthread_attr_getdetachstate", ReplaceSignature CallPthreadAttrGetdetachstate [arg 0; arg 1; RETURN]);
  ("pthread_attr_getstackaddr", ReplaceSignature CallPthreadAttrGetstackaddr [arg 0; arg 1; RETURN]);
  ("pthread_attr_getstacksize", ReplaceSignature CallPthreadAttrGetstacksize [arg 0; arg 1; RETURN]);
  ("pthread_attr_getstack", ReplaceSignature CallPthreadAttrGetstack [arg 0; arg 1; arg 2; RETURN]);
  ("pthread_attr_init", ReplaceSignature CallPthreadAttrInit [arg 0; RETURN]);
  ("pthread_attr_setdetachstate", ReplaceSignature CallPthreadAttrSetdetachstate [arg 0; arg 1; RETURN]);
  ("pthread_attr_setstackaddr", ReplaceSignature CallPthreadAttrSetstackaddr [arg 0; arg 1; arg 2; RETURN]);
  ("pthread_attr_setstacksize", ReplaceSignature CallPthreadAttrSetstacksize [arg 0; arg 1; RETURN]);
  ("pthread_attr_setstack", ReplaceSignature CallPthreadAttrSetstack [arg 0; arg 1; arg 2; RETURN])].

Definition cond_routines : list (string * replacement) := [
  ("pthread_cancel", ReplaceSignature CallPthreadCancel [arg 0; RETURN]);
  ("pthread_cleanup_pop", ReplaceSignature CallPthreadCleanupPop [CONTEXT; arg 0]);
  ("pthread_cleanup_push", ReplaceSignature CallPthreadCleanupPush [arg 0; arg 1]);
  ("pthread_condattr_destroy", ReplaceSignature CallPthreadCondattrDestroy [arg 0; RETURN]);
  ("pthread_condattr_init", ReplaceSignature CallPthreadCondattrInit [arg 0; arg 1; RETURN]);
  ("pthread_cond_broadcast", ReplaceSignature CallPthreadCondBroadcast [arg 0; RETURN]);
  ("pthread_cond_destroy", ReplaceSignature CallPthreadCondDestroy [arg 0; RETURN]);
  ("pthread_cond_init", ReplaceSignature CallPthreadCondInit [arg 0; arg 1; RETURN]);
  ("pthread_cond_signal", ReplaceSignature CallPthreadCondSignal [arg 0; RETURN]);
  ("pthread_cond_timedwait", ReplaceSignature CallPthreadCondTimedwait [CONTEXT; arg 0; arg 1; arg 2; RETURN]);
  ("pthread_cond_wait", ReplaceSignature CallPthreadCondWait [CONTEXT; arg 0; arg 1; RETURN])].

Definition thread_routines : list (string * replacement) := [
  ("pthread_create", ReplaceSignature CallPthreadCreate [CONTEXT; arg 0; arg 1; arg 2; arg 3]);
  ("pthread_detach", ReplaceSignature CallPthreadDetach [arg 0; RETURN]);
  ("pthread_equal", ReplaceSignature CallPthreadEqual [arg 0; arg 1; RETURN]);
  ("mock_pthread_exit", ReplaceSignature CallPthreadExit [CONTEXT; arg 0]);
  ("pthread_getattr", ReplaceSignature CallPthreadGetattr [arg 0; arg 1; RETURN]);
  ("pthread_getspecific", ReplaceSignature CallPthreadGetspecific [arg 0; RETURN]);
  ("pthread_join", ReplaceSignature CallPthreadJoin [CONTEXT; arg 0; arg 1]);
  ("pthread_key_create", ReplaceSignature CallPthreadKeyCreate [arg 0; arg 1; RETURN]);
  ("pthread_key_delete", ReplaceSignature CallPthreadKeyDelete [arg 0; RETURN]);
  ("pthread_kill", ReplaceSignature CallPthreadKill [arg 0; arg 1; RETURN])].

Definition mutex_routines : list (string * replacement) := [
  ("pthread_mutexattr_destroy", ReplaceSignature CallPthreadMutexattrDestroy [arg 0; RETURN]);
  ("pthread_mutexattr_gettype", ReplaceSignature CallPthreadMutexattrGetkind [arg 0; arg 1; RETURN]);
  ("pthread_mutexattr_getkind", ReplaceSignature CallPthreadMutexattrGetkind [arg 0; arg 1; RETURN]);
  ("pthread_mutexattr_init", ReplaceSignature CallPthreadMutexattrInit [arg 0; RETURN]);
  ("pthread_mutexattr_settype", ReplaceSignature CallPthreadMutexattrSetkind [arg 0; arg 1; RETURN]);
  ("pthread_mutexattr_setkind", ReplaceSignature CallPthreadMutexattrSetkind [arg 0; arg 1; RETURN]);
  ("pthread_mutex_destroy", ReplaceSignature CallPthreadMutexDestroy [arg 0; RETURN]);
  ("pthread_mutex_init", ReplaceSignature CallPthreadMutexInit [arg 0; arg 1; RETURN]);
  ("pthread_mutex_lock", ReplaceSignature CallPthreadMutexLock [CONTEXT; arg 0; RETURN]);
  ("pthread_mutex_trylock", ReplaceSignature CallPthreadMutexTrylock [arg 0; RETURN]);
  ("pthread_mutex_unlock", ReplaceSignature CallPthreadMutexUnlock [arg 0; RETURN])].

Definition other_routines : list (string * replacement) := [
  ("pthread_once", ReplaceSignature CallPthreadOnce [CONTEXT; arg 0; arg 1]);
  ("pthread_self", ReplaceSignature CallPthreadSelf [RETURN]);
  ("pthread_setcancelstate", ReplaceSignature CallPthreadSetcancelstate [arg 0; arg 1; RETURN]);
  ("pthread_setcanceltype", ReplaceSignature CallPthreadSetcanceltype [arg 0; arg 1; RETURN]);
  ("pthread_setspecific", ReplaceSignature CallPthreadSetspecific [arg 0; arg 1; RETURN]);
  ("libc_tsd_set", ReplaceSignature CallPthreadSetspecific [arg 0; arg 1; RETURN]);
  ("pthread_testcancel", ReplaceSignature CallPthreadTestcancel [CONTEXT]);
  ("pthread_barrier_init", ReplaceSignature CallPthreadBarrierInit [arg 0; arg 1; arg 2; RETURN]);
  ("pthread_barrier_destroy", ReplaceSignature CallPthreadBarrierDestroy [arg 0; RETURN]);
  ("pthread_barrier_wait", ReplaceSignature CallPthreadBarrierWait [CONTEXT; arg 0; RETURN]);
  ("pthread_barrierattr_init", ReplaceSignature CallPthreadBarrierattrInit [arg 0; RETURN]);
  ("pthread_barrierattr_destroy", ReplaceSignature CallPthreadBarrierattrDestory [arg 0; RETURN]);
  ("pthread_barrierattr_getpshared", ReplaceSignature CallPthreadBarrierattrGetpshared [arg 0; arg 1; RETURN]);
  ("pthread_barrierattr_setpshared", ReplaceSignature CallPthreadBarrierattrSetpshared [arg 0; arg 1; RETURN])].

Definition replaced_routines : list (string * replacement) :=
  marker_routines ++ attr_routines ++ cond_routines ++ thread_routines ++ mutex_routines ++ other_routines.

(** [FlagImg]: the routines of an image that are replaced. *)
Definition FlagImg (has_routine : string → bool) : list (string * replacement) :=
  filter (λ e, has_routine e.1 = true) replaced_routines.

(** ** The hooks *)

#[local] Open Scope Z_scope.

(** Whether a hook takes the registers, how many other arguments, and whether it has a
    result. *)
Definition signature (f : hook) : bool * nat * bool :=
  match f with
  | CallPthreadAttrDestroy => (false, 1, true)
  | CallPthreadAttrGetdetachstate => (false, 2, true)
  | CallPthreadAttrGetstack => (false, 3, true)
  | CallPthreadAttrGetstackaddr => (false, 2, true)
  | CallPthreadAttrGetstacksize => (false, 2, true)
  | CallPthreadAttrInit => (false, 1, true)
  | CallPthreadAttrSetdetachstate => (false, 2, true)
  | CallPthreadAttrSetstack => (false, 3, true)
  | CallPthreadAttrSetstackaddr => (false, 2, true)
  | CallPthreadAttrSetstacksize => (false, 2, true)
  | CallPthreadCancel => (false, 1, true)
  | CallPthreadCleanupPop => (true, 1, false)
  | CallPthreadCleanupPush => (false, 2, false)
  | CallPthreadCondattrDestroy => (false, 1, true)
  | CallPthreadCondattrInit => (false, 1, true)
  | CallPthreadCondBroadcast => (false, 1, true)
  | CallPthreadCondDestroy => (false, 1, true)
  | CallPthreadCondInit => (false, 2, true)
  | CallPthreadCondSignal => (false, 1, true)
  | CallPthreadCondTimedwait => (true, 3, false)
  | CallPthreadCondWait => (true, 2, false)
  | CallPthreadCreate => (true, 4, false)
  | CallPthreadDetach => (false, 1, true)
  | CallPthreadEqual => (false, 2, true)
  | CallPthreadExit => (true, 1, false)
  | CallPthreadGetattr => (false, 2, true)
  | CallPthreadGetspecific => (false, 1, true)
  | CallPthreadJoin => (true, 2, false)
  | CallPthreadKeyCreate => (false, 2, true)
  | CallPthreadKeyDelete => (false, 1, true)
  | CallPthreadKill => (false, 2, true)
  | CallPthreadMutexattrDestroy => (false, 1, true)
  | CallPthreadMutexattrGetkind => (false, 2, true)
  | CallPthreadMutexattrInit => (false, 1, true)
  | CallPthreadMutexattrSetkind => (false, 2, true)
  | CallPthreadMutexDestroy => (false, 1, true)
  | CallPthreadMutexInit => (false, 2, true)
  | CallPthreadMutexLock => (true, 1, false)
  | CallPthreadMutexTrylock => (false, 1, true)
  | CallPthreadMutexUnlock => (false, 1, true)
  | CallPthreadOnce => (true, 2, false)
  | CallPthreadSelf => (false, 0, true)
  | CallPthreadSetcancelstate => (false, 2, true)
  | CallPthreadSetcanceltype => (false, 2, true)
  | CallPthreadSetspecific => (false, 2, true)
  | CallPthreadBarrierInit => (false, 3, true)
  | CallPthreadBarrierDestroy => (false, 1, true)
  | CallPthreadBarrierWait => (true, 1, true)
  | CallPthreadBarrierattrInit => (false, 1, true)
  | CallPthreadBarrierattrDestory => (false, 1, true)
  | CallPthreadBarrierattrGetpshared => (false, 2, true)
  | CallPthreadBarrierattrSetpshared => (false, 2, true)
  | CallPthreadTestcancel => (true, 0, false)
  | CallMcSimSkipInstrsBegin | CallMcSimSkipInstrsEnd | CallMcSimSpinningBegin | CallMcSimSpinningEnd => (false, 0, false)
  | DummyFunc => (false, 1, false)
  end%nat.

(** What the program's memory holds, and what the tool is given where its own code does
    not say. *)
Record surroundings := {
  attr_at : Z → PthreadAttr.pthread_attr;
  tv_sec_at : Z → Z;
  new_stack : Z;
  garbage : PthreadAttr.pthread_attr }.

(** What a hook does: a call of the thread library, of one of the functions that have no
    state, or nothing. *)
Inductive reaction : Type :=
| Library (a : api)
| Equal (thread1 thread2 : Z)
| Once (once_control init_routine ctxt : Z)
| Static (function : string) (l : list Z)
| Nothing.

Definition attr_hook (f : hook) (v : list Z) : option reaction :=
  match f, v with
  | CallPthreadAttrDestroy, attr :: _ => Some (Static "_pthread_attr_destroy" [attr])
  | CallPthreadAttrGetdetachstate, attr :: p :: _ => Some (Static "_pthread_attr_getdetachstate" [attr; p])
  | CallPthreadAttrGetstack, attr :: p :: q :: _ => Some (Static "_pthread_attr_getstack" [attr; p; q])
  | CallPthreadAttrGetstackaddr, attr :: p :: _ => Some (Static "_pthread_attr_getstackaddr" [attr; p])
  | CallPthreadAttrGetstacksize, attr :: p :: _ => Some (Static "_pthread_attr_getstacksize" [attr; p])
  | CallPthreadAttrInit, attr :: _ => Some (Static "_pthread_attr_init" [attr])
  | CallPthreadAttrSetdetachstate, attr :: x :: _ => Some (Static "_pthread_attr_setdetachstate" [attr; i32 x])
  | CallPthreadAttrSetstack, attr :: x :: y :: _ => Some (Static "_pthread_attr_setstack" [attr; x; y])
  | CallPthreadAttrSetstackaddr, attr :: x :: _ => Some (Static "_pthread_attr_setstackaddr" [attr; x])
  | CallPthreadAttrSetstacksize, attr :: x :: _ => Some (Static "_pthread_attr_setstacksize" [attr; x])
  | _, _ => None
  end.

Definition cond_hook (E : surroundings) (f : hook) (v : list Z) : option reaction :=
  match f, v with
  | CallPthreadCancel, t :: _ => Some (Library (Cancel t))
  | CallPthreadCleanupPop, ctxt :: x :: _ => Some (Library (CleanupPop (i32 x) ctxt))
  | CallPthreadCleanupPush, r :: x :: _ => Some (Library (CleanupPush r x))
  | CallPthreadCondattrDestroy, _ | CallPthreadCondattrInit, _ => Some Nothing
  | CallPthreadCondBroadcast, c :: _ => Some (Library (CondBroadcast c))
  | CallPthreadCondDestroy, c :: _ => Some (Library (CondDestroy c))
  | CallPthreadCondInit, c :: a :: _ => Some (Static "pthread_cond_init" [c; a])
  | CallPthreadCondSignal, c :: _ => Some (Library (CondSignal c))
  | CallPthreadCondTimedwait, ctxt :: c :: m :: p :: _ => Some (Library (CondTimedwait c m (tv_sec_at E p) ctxt))
  | CallPthreadCondWait, ctxt :: c :: m :: _ => Some (Library (CondWait c m ctxt))
  | _, _ => None
  end.

(** [pthread_key_t] is an [unsigned int]. *)
Definition thread_hook (E : surroundings) (f : hook) (v : list Z) : option reaction :=
  match f, v with
  | CallPthreadCreate, ctxt :: t :: a :: func :: x :: _ =>
      Some (Library (Create t (if a =? 0 then None else Some (attr_at E a)) (Some ctxt) func x (new_stack E) (garbage E)))
  | CallPthreadDetach, t :: _ => Some (Library (Detach t))
  | CallPthreadEqual, t :: u :: _ => Some (Equal t u)
  | CallPthreadExit, ctxt :: r :: _ => Some (Library (Exit r ctxt))
  | CallPthreadGetattr, t :: _ :: _ => Some (Library (Getattr t (garbage E)))
  | CallPthreadGetspecific, k :: _ => Some (Library (Getspecific (u32 k)))
  | CallPthreadJoin, ctxt :: t :: r :: _ => Some (Library (Join t r ctxt))
  | CallPthreadKeyCreate, k :: func :: _ => Some (Library (KeyCreate k func))
  | CallPthreadKeyDelete, k :: _ => Some (Library (KeyDelete (u32 k)))
  | CallPthreadKill, t :: x :: _ => Some (Library (Kill t (i32 x)))
  | _, _ => None
  end.

Definition mutex_hook (f : hook) (v : list Z) : option reaction :=
  match f, v with
  | CallPthreadMutexattrDestroy, a :: _ => Some (Static "_pthread_mutexattr_destroy" [a])
  | CallPthreadMutexattrGetkind, a :: p :: _ => Some (Static "_pthread_mutexattr_getkind" [a; p])
  | CallPthreadMutexattrInit, a :: _ => Some (Static "_pthread_mutexattr_init" [a])
  | CallPthreadMutexattrSetkind, a :: x :: _ => Some (Static "_pthread_mutexattr_setkind" [a; i32 x])
  | CallPthreadMutexDestroy, m :: _ => Some (Static "_pthread_mutex_destroy" [m])
  | CallPthreadMutexInit, m :: a :: _ => Some (Static "_pthread_mutex_init" [m; a])
  | CallPthreadMutexLock, ctxt :: m :: _ => Some (Library (MutexLock m ctxt))
  | CallPthreadMutexTrylock, m :: _ => Some (Library (MutexTrylock m))
  | CallPthreadMutexUnlock, m :: _ => Some (Library (MutexUnlock m))
  | CallPthreadOnce, ctxt :: p :: r :: _ => Some (Once p r ctxt)
  | CallPthreadSelf, _ => Some (Library Self)
  | _, _ => None
  end.

Definition other_hook (f : hook) (v : list Z) : option reaction :=
  match f, v with
  | CallPthreadSetcancelstate, x :: p :: _ => Some (Library (Setcancelstate (i32 x) p))
  | CallPthreadSetcanceltype, x :: p :: _ => Some (Library (Setcanceltype (i32 x) p))
  | CallPthreadSetspecific, k :: d :: _ => Some (Library (Setspecific (u32 k) d))
  | CallPthreadBarrierInit, b :: _ :: n :: _ => Some (Library (BarrierInit b (u32 n)))
  | CallPthreadBarrierDestroy, b :: _ => Some (Library (BarrierDestroy b))
  | CallPthreadBarrierWait, ctxt :: b :: _ => Some (Library (BarrierWait b ctxt))
  | CallPthreadBarrierattrInit, _ | CallPthreadBarrierattrDestory, _ | CallPthreadBarrierattrGetpshared, _
  | CallPthreadBarrierattrSetpshared, _ => Some Nothing
  | CallPthreadTestcancel, ctxt :: _ => Some (Library (Testcancel ctxt))
  | CallMcSimSkipInstrsBegin, _ => Some (Library SkipBegin)
  | CallMcSimSkipInstrsEnd, _ => Some (Library SkipEnd)
  | CallMcSimSpinningBegin, _ => Some (Library SpinBegin)
  | CallMcSimSpinningEnd, _ => Some (Library SpinEnd)
  | DummyFunc, _ => Some Nothing
  | _, _ => None
  end.

(** A hook that is passed [v]; none when it is passed too little. *)
Definition hook_reaction (E : surroundings) (f : hook) (v : list Z) : option reaction :=
  match attr_hook f v, cond_hook E f v, thread_hook E f v, mutex_hook f v, other_hook f v with
  | Some r, _, _, _, _ | _, Some r, _, _, _ | _, _, Some r, _, _ | _, _, _, Some r, _ | _, _, _, _, Some r => Some r
  | _, _, _, _, _ => None
  end.

(** What a hook is passed when the routine is called with [args]. *)
Definition passed (l : list iarg) (ctxt : Z) (args : nat → Z) : list Z :=
  omap (λ i, match i with CONTEXT => Some ctxt | arg n => Some (args n) | RETURN => None end) l.

(** The call of a routine of the program with [args]. *)
Definition intercepted (E : surroundings) (r : replacement) (ctxt : Z) (args : nat → Z) : option reaction :=
  match r with
  | Replace f => hook_reaction E f (args <$> seq 0 (signature f).1.2)
  | ReplaceSignature f l => hook_reaction E f (passed l ctxt args)
  end.

(** ** The library the program is linked with (mypthread.cpp)

    Its functions do nothing, those of the first list return 0. *)

Definition stubs_with_result : list string := [
  "pthread_atfork"; "pthread_attr_destroy"; "pthread_attr_getdetachstate"; "pthread_attr_getstack";
  "pthread_attr_getstackaddr"; "pthread_attr_getstacksize"; "pthread_attr_init";
  "pthread_attr_setdetachstate"; "pthread_attr_setstack"; "pthread_attr_setstackaddr";
  "pthread_attr_setstacksize"; "pthread_cancel"; "pthread_condattr_destroy"; "pthread_condattr_init";
  "pthread_cond_broadcast"; "pthread_cond_destroy"; "pthread_cond_init"; "pthread_cond_signal";
  "pthread_cond_timedwait"; "pthread_cond_wait"; "pthread_create"; "pthread_detach"; "pthread_equal";
  "pthread_getattr_np"; "pthread_getspecific"; "pthread_join"; "pthread_key_create"; "pthread_key_delete";
  "pthread_kill"; "pthread_mutexattr_destroy"; "pthread_mutexattr_getkind_np"; "pthread_mutexattr_gettype";
  "pthread_mutexattr_init"; "pthread_mutexattr_setkind_np"; "pthread_mutexattr_settype";
  "pthread_mutex_destroy"; "pthread_mutex_init"; "pthread_mutex_lock"; "pthread_mutex_trylock";
  "pthread_mutex_unlock"; "pthread_once"; "pthread_self"; "pthread_setcancelstate"; "pthread_setcanceltype";
  "pthread_setspecific"; "libc_tsd_get"; "pthread_sigmask"; "sigwait"; "pthread_attr_setschedparam";
  "pthread_attr_getschedparam"; "pthread_attr_setschedpolicy"; "pthread_attr_getschedpolicy";
  "pthread_attr_setinheritsched"; "pthread_attr_getinheritsched"; "pthread_attr_setscope";
  "pthread_attr_getscope"; "pthread_attr_setguardsize"; "pthread_attr_getguardsize"; "pthread_setschedparam";
  "pthread_getschedparam"; "pthread_getconcurrency"; "pthread_setconcurrency"; "pthread_yield";
  "pthread_mutex_timedlock"; "pthread_mutexattr_getpshared"; "pthread_mutexattr_setpshared";
  "pthread_condattr_getpshared"; "pthread_condattr_setpshared"; "pthread_barrier_init";
  "pthread_barrier_destroy"; "pthread_barrier_wait"; "pthread_barrierattr_init";
  "pthread_barrierattr_destroy"; "pthread_barrierattr_getpshared"; "pthread_barrierattr_setpshared"].
Definition stubs_without_result : list string := [
  "pthread_cleanup_pop"; "pthread_cleanup_push"; "pthread_exit"; "pthread_testcancel"; "libc_tsd_set";
  "pthread_cleanup_push_defer_np"; "pthread_cleanup_pop_restore_np"; "pthread_kill_other_threads_np"].
Definition libmypthread : list string := stubs_with_result ++ stubs_without_result.

Fixpoint assoc {A} (k : string) (l : list (string * A)) : option A :=
  match l with
  | [] => None
  | (k', x) :: l => if decide (k = k') then Some x else assoc k l
  end.

(** A call of a function of that library by the program: the hook, where there is one. *)
Definition program_call (E : surroundings) (name : string) (ctxt : Z) (args : nat → Z) : option reaction :=
  match assoc name replaced_routines with
  | Some r => intercepted E r ctxt args
  | None => if decide (name ∈ libmypthread) then Some Nothing else None
  end.

(** ** Routines before which the tool is called *)

Inductive routine_call : Set := NewPthreadSim | DoContextSwitch | WarnNYI.

(** [FlagRtn], by the name of the routine. *)
Definition FlagRtn (rtn_name : string) : option routine_call :=
  let has s := contains s rtn_name in
  if has "main" then Some NewPthreadSim
  else if (has "__kmp" && has "yield") || has "__sleep" || has "__kmp_wait_sleep" then Some DoContextSwitch
  else if has "pthread" || has "sigwait" || has "tsd" || (has "fork" && negb (has "__kmp")) then Some WarnNYI
  else None.

(** ** Instructions *)

(** What Pin says of an instruction.  A routine is a number and its name. *)
Record INS := {
  INS_Address : Z;
  INS_IsCall : bool;
  INS_IsDirectControlFlow : bool;
  INS_DirectControlFlowTargetAddress : Z;
  INS_IsRet : bool;
  INS_Rtn : option (Z * string);
  INS_IsMemoryWrite : bool;
  INS_IsMemoryRead : bool;
  INS_HasMemoryRead2 : bool;
  INS_IsControlFlow : bool;
  INS_Category : Z;
  INS_RegR : nat → Z;
  INS_RegW : nat → Z;
  INS_IsAddedForFunctionReplacement : bool }.

(** What the analysis of an instruction can be passed. *)
Inductive marg : Set :=
| IARG_INST_PTR | IARG_MEMORYREAD_EA | IARG_MEMORYREAD2_EA | IARG_MEMORYREAD_SIZE
| IARG_MEMORYWRITE_EA | IARG_MEMORYWRITE_SIZE | IARG_BRANCH_TAKEN
| IARG_ADDRINT (x : Z) | IARG_UINT32 (x : Z) | IARG_BOOL (b : bool).

(** The last arguments are the same for all instructions. *)
Definition other_args (ins : INS) : list marg :=
  [IARG_BOOL (INS_IsControlFlow ins); IARG_BRANCH_TAKEN; IARG_UINT32 (INS_Category ins);
   IARG_UINT32 (INS_RegR ins 0); IARG_UINT32 (INS_RegR ins 1); IARG_UINT32 (INS_RegR ins 2); IARG_UINT32 (INS_RegR ins 3);
   IARG_UINT32 (INS_RegW ins 0); IARG_UINT32 (INS_RegW ins 1); IARG_UINT32 (INS_RegW ins 2); IARG_UINT32 (INS_RegW ins 3)].

(** The arguments of [ProcessMemIns] after the registers. *)
Definition mem_args (ins : INS) : list marg :=
  let is_mem_wr := INS_IsMemoryWrite ins in
  let is_mem_rd := INS_IsMemoryRead ins in
  let has_mem_rd2 := INS_HasMemoryRead2 ins in
  (if is_mem_wr && is_mem_rd && has_mem_rd2 then
     [IARG_INST_PTR; IARG_MEMORYREAD_EA; IARG_MEMORYREAD2_EA; IARG_MEMORYREAD_SIZE;
      IARG_MEMORYWRITE_EA; IARG_MEMORYWRITE_SIZE]
   else if is_mem_wr && is_mem_rd && negb has_mem_rd2 then
     [IARG_INST_PTR; IARG_MEMORYREAD_EA; IARG_ADDRINT 0; IARG_MEMORYREAD_SIZE;
      IARG_MEMORYWRITE_EA; IARG_MEMORYWRITE_SIZE]
   else if is_mem_wr && negb is_mem_rd then
     [IARG_INST_PTR; IARG_ADDRINT 0; IARG_ADDRINT 0; IARG_UINT32 0; IARG_MEMORYWRITE_EA; IARG_MEMORYWRITE_SIZE]
   else if negb is_mem_wr && is_mem_rd && has_mem_rd2 then
     [IARG_INST_PTR; IARG_MEMORYREAD_EA; IARG_MEMORYREAD2_EA; IARG_MEMORYREAD_SIZE; IARG_ADDRINT 0; IARG_UINT32 0]
   else if negb is_mem_wr && is_mem_rd && negb has_mem_rd2 then
     [IARG_INST_PTR; IARG_MEMORYREAD_EA; IARG_ADDRINT 0; IARG_MEMORYREAD_SIZE; IARG_ADDRINT 0; IARG_UINT32 0]
   else
     [IARG_INST_PTR; IARG_ADDRINT 0; IARG_ADDRINT 0; IARG_UINT32 0; IARG_ADDRINT 0; IARG_UINT32 0])
  ++ other_args ins.

(** What is inserted before an instruction. *)
Inductive inserted : Type :=
| ProcessIndirectCall
| ProcessCall (target : Z) (tailcall : bool)
| ProcessReturn (rtn_name : string)
| ProcessMemIns_ (l : list marg).

Section Trace.
(** [RTN_FindByAddress], the address of [StartThreadFunc] and that of [mock_pthread_exit]. *)
Context (RTN_FindByAddress : Z → option (Z * string)) (StartThreadFunc mock_pthread_exit : Z).

Definition same_routine (r s : option (Z * string)) : bool := bool_decide (fst <$> r = fst <$> s).

(** The calls and returns between routines, which the allocator's guard watches. *)
Definition flag_flow (ins : INS) : list inserted :=
  if INS_IsCall ins && negb (INS_IsDirectControlFlow ins) then [ProcessIndirectCall]
  else if INS_IsDirectControlFlow ins then
    let target := INS_DirectControlFlowTargetAddress ins in
    if INS_IsCall ins || negb (same_routine (INS_Rtn ins) (RTN_FindByAddress target))
    then [ProcessCall target (negb (INS_IsCall ins))] else []
  else if INS_IsRet ins then
    match INS_Rtn ins with
    | Some (_, name) => if decide (name = "_dl_runtime_resolve"%string) then [] else [ProcessReturn name]
    | None => []
    end
  else [].

(** The instructions at the start of [StartThreadFunc] are the tool's own: the difference
    of two addresses is unsigned, so that the first test never holds. *)
Definition is_reported (ins : INS) : bool :=
  (INS_Address ins ⊖ StartThreadFunc <? 0) || (8 * 8 <? INS_Address ins ⊖ StartThreadFunc).

Definition flag_ins (ins : INS) : list inserted :=
  flag_flow ins ++ (if is_reported ins then [ProcessMemIns_ (mem_args ins)] else []).

(** What is inserted into a trace: a call of a hook at its start, or calls before each
    instruction. *)
Inductive flagged : Type := AtStart (f : hook) (l : list iarg) | AtInstructions (l : list (list inserted)).

(** [FlagTrace], for the blocks of a trace. *)
Definition FlagTrace (address : Z) (bbls : list (list INS)) : flagged :=
  if address =? mock_pthread_exit then AtStart CallPthreadExit [CONTEXT; arg 0]
  else AtInstructions
    match bbls with
    | (head :: _) :: _ => if INS_IsAddedForFunctionReplacement head then [] else flag_ins <$> concat bbls
    | _ => []
    end.
End Trace.

(** ** The trace generator's instrumentation (tracegen.cpp) *)

(** [Instruction]: the arguments of its [ProcessMemIns]. *)
Definition Instruction_args (ins : INS) : list marg :=
  let is_mem_wr := INS_IsMemoryWrite ins in
  let is_mem_rd := INS_IsMemoryRead ins in
  let has_mem_rd2 := INS_HasMemoryRead2 ins in
  (if is_mem_wr && is_mem_rd && has_mem_rd2 then
     [IARG_INST_PTR; IARG_MEMORYREAD_EA; IARG_MEMORYREAD2_EA; IARG_MEMORYREAD_SIZE;
      IARG_MEMORYWRITE_EA; IARG_MEMORYWRITE_SIZE]
   else if is_mem_wr && is_mem_rd && negb has_mem_rd2 then
     [IARG_INST_PTR; IARG_MEMORYREAD_EA; IARG_ADDRINT 0; IARG_MEMORYREAD_SIZE;
      IARG_MEMORYWRITE_EA; IARG_MEMORYWRITE_SIZE]
   else if is_mem_wr && negb is_mem_rd then
     [IARG_INST_PTR; IARG_ADDRINT 0; IARG_ADDRINT 0; IARG_UINT32 0; IARG_MEMORYWRITE_EA; IARG_MEMORYWRITE_SIZE]
   else if negb is_mem_wr && is_mem_rd && has_mem_rd2 then
     [IARG_INST_PTR; IARG_MEMORYREAD_EA; IARG_MEMORYREAD2_EA; IARG_MEMORYREAD_SIZE; IARG_ADDRINT 0; IARG_UINT32 0]
   else if negb is_mem_wr && is_mem_rd && negb has_mem_rd2 then
     [IARG_INST_PTR; IARG_MEMORYREAD_EA; IARG_ADDRINT 0; IARG_MEMORYREAD_SIZE; IARG_ADDRINT 0; IARG_UINT32 0]
   else
     [IARG_INST_PTR; IARG_ADDRINT 0; IARG_ADDRINT 0; IARG_UINT32 0; IARG_ADDRINT 0; IARG_UINT32 0])
  ++ other_args ins.

(** ** At run time *)

(** An execution of an instruction, as Pin reports it. *)
Record execution := {
  inst_ptr : Z;
  memoryread_ea : Z;
  memoryread2_ea : Z;
  memoryread_size : Z;
  memorywrite_ea : Z;
  memorywrite_size : Z;
  branch_taken : bool }.

Definition value_of (x : execution) (a : marg) : Z :=
  match a with
  | IARG_INST_PTR => inst_ptr x
  | IARG_MEMORYREAD_EA => memoryread_ea x
  | IARG_MEMORYREAD2_EA => memoryread2_ea x
  | IARG_MEMORYREAD_SIZE => memoryread_size x
  | IARG_MEMORYWRITE_EA => memorywrite_ea x
  | IARG_MEMORYWRITE_SIZE => memorywrite_size x
  | IARG_BRANCH_TAKEN => Z.b2z (branch_taken x)
  | IARG_ADDRINT v | IARG_UINT32 v => v
  | IARG_BOOL b => Z.b2z b
  end.

(** The parameters of [ProcessMemIns], in order. *)
Definition record_of (l : list Z) : option PTSInstrTrace :=
  match l with
  | [ip; raddr; raddr2; rlen; waddr; wlen; isbranch; isbranchtaken; category; rr0; rr1; rr2; rr3; rw0; rw1; rw2; rw3] =>
      Some {| t_waddr := waddr; t_wlen := wlen; t_raddr := raddr; t_raddr2 := raddr2; t_rlen := rlen; t_ip := ip;
              t_category := category; t_isbranch := negb (isbranch =? 0); t_isbranchtaken := negb (isbranchtaken =? 0);
              t_rr0 := rr0; t_rr1 := rr1; t_rr2 := rr2; t_rr3 := rr3; t_rw0 := rw0; t_rw1 := rw1; t_rw2 := rw2; t_rw3 := rw3 |}
  | _ => None
  end.

(** The tool: the thread library is built when enough instructions were skipped. *)
Record tool {B : Type} := {
  first_instrs : Z;
  skip_first : Z;
  backend : B;
  pthreadsim : option (sim B) }.
Arguments tool : clear implicits.

Section Tool.
Context {B : Type} {BE : Backend B} {PIN : Pin}.
Notation handler := (proc event (tool B)).

(** A call of the library before it is built: most are refused. *)
Definition unbuilt (a : api) : handler unit :=
  match a with SetStack _ | Routine _ _ _ => mret tt | _ => fails Fatal end.

Definition library (a : api) : handler unit :=
  t ← reads pthreadsim;
  match t with
  | None => unbuilt a
  | Some s => zoom (λ _, s) (λ f t, t <| pthreadsim := Some (f s) |>) (perform a)
  end.

(** [initiate]: the options say whether a trace is played. *)
Definition build (P : player) (ctxt : Z) (garbage : PthreadAttr.pthread_attr) : handler PthreadSim.initiated :=
  b ← reads backend;
  zoom (λ _, PthreadSim.no_threads b) (λ f t, t <| pthreadsim := Some (f (PthreadSim.no_threads b)) |>)
    (PthreadSim.initiate P ctxt garbage).

(** The program goes on with its next instruction when the result is [Ready]. *)
Definition ProcessMemIns (P : player) (ctxt : Z) (i : PTSInstrTrace) (garbage : PthreadAttr.pthread_attr)
    : handler PthreadSim.initiated :=
  t ← reads (λ t, t);
  if first_instrs t <? skip_first t then
    _ ← modify (set first_instrs (λ n, n ⊕ 1));
    mret PthreadSim.Ready
  else
    r ← (if first_instrs t =? skip_first t then
           _ ← modify (set first_instrs (λ n, n ⊕ 1));
           build P ctxt garbage
         else mret PthreadSim.Ready);
    match r with
    | PthreadSim.Ready => _ ← library (Instruction ctxt i); mret PthreadSim.Ready
    | _ => mret r
    end.

(** The hook at the start of [main]. *)
Definition NewPthreadSim_ (ctxt : Z) : handler unit := library (SetStack ctxt).

(** [ProcessCall] and [ProcessReturn] tell the allocator's guard. *)
Definition ProcessCall_ (rtn : option (Z * string)) (tailcall : bool) : handler unit :=
  match rtn with Some (_, name) => library (Routine true tailcall name) | None => mret tt end.
Definition ProcessReturn_ (name : string) : handler unit := library (Routine false false name).

(** [DoContextSwitch]. *)
Definition DoContextSwitch_ (ctxt : Z) : handler unit :=
  t ← reads pthreadsim;
  match t with
  | None => fails Fatal
  | Some s => zoom (λ _, s) (λ f t, t <| pthreadsim := Some (f s) |>) (forget (PthreadSim.docontextswitch ctxt))
  end.

(** The instructions of a program, one after the other, as long as it goes on. *)
Fixpoint ProcessAll (P : player) (garbage : PthreadAttr.pthread_attr) (l : list (Z * PTSInstrTrace))
    : handler PthreadSim.initiated :=
  match l with
  | [] => mret PthreadSim.Ready
  | e :: l =>
      r ← ProcessMemIns P e.1 e.2 garbage;
      match r with PthreadSim.Ready => ProcessAll P garbage l | _ => mret r end
  end.
End Tool.
End Instrument.

Module InstrumentProofs.
Import Instrument.

(** ** The tables *)

(** The types agree: the hook gets the registers if and only if it takes them, and as many
    arguments as it takes, the first ones of the routine in order. *)
Definition arguments_fit (r : replacement) : bool :=
  match r with
  | Replace f => negb (signature f).1.1
  | ReplaceSignature f l =>
      bool_decide (filter (λ i, i ≠ IARG_RETURN_REGS) l =
        (if (signature f).1.1 then [IARG_CONTEXT] else []) ++ (IARG_FUNCARG_ENTRYPOINT_VALUE <$> seq 0 (signature f).1.2))
  end.

(** A result register is named if and only if the hook has a result. *)
Definition result_fits (r : replacement) : bool :=
  match r with
  | Replace _ => true
  | ReplaceSignature f l => bool_decide (IARG_RETURN_REGS ∈ l ↔ (signature f).2 = true)
  end.

Definition surplus_argument : list string := ["pthread_attr_setstackaddr"; "pthread_condattr_init"]%string.
Definition result_of_nothing : list string := ["pthread_cond_timedwait"; "pthread_cond_wait"; "pthread_mutex_lock"]%string.

(** The hooks of the table are well typed.  Every routine is replaced once, and what
    its hook is passed agrees with the parameters of the hook, in number, kind and order,
    but for two routines that pass one argument too many; a result register is named
    exactly for the hooks with a result, but for three hooks of type [void], whose callers
    get a result that nobody computed. *)
Theorem hooks_well_typed :
  NoDup replaced_routines.*1 ∧
  ∀ name r, (name, r) ∈ replaced_routines →
    (arguments_fit r = true ↔ name ∉ surplus_argument) ∧ (result_fits r = true ↔ name ∉ result_of_nothing).
Proof.
  split; [by apply (bool_decide_unpack _); vm_compute|].
  assert (Forall (λ e : string * replacement,
    arguments_fit e.2 = bool_decide (e.1 ∉ surplus_argument) ∧ result_fits e.2 = bool_decide (e.1 ∉ result_of_nothing))
    replaced_routines) as Hall by (apply (bool_decide_unpack _); vm_compute; exact I).
  intros name r Hin. rewrite Forall_forall in Hall. destruct (Hall _ Hin) as [H1 H2]. cbn in H1, H2.
  by rewrite H1, H2, !bool_decide_eq_true.
Qed.

Lemma hooks_well_typed_witness :
  arguments_fit (ReplaceSignature CallPthreadJoin [CONTEXT; arg 0; arg 1]) = true ∧
  result_fits (ReplaceSignature CallPthreadMutexLock [CONTEXT; arg 0; RETURN]) ≠ true.
Proof.
  destruct hooks_well_typed as [_ H]. split.
  - apply (H "pthread_join"%string); [|set_solver]. apply (list_elem_of_lookup_2 _ 37). reflexivity.
  - rewrite (proj2 (H "pthread_mutex_lock"%string _ ltac:(apply (list_elem_of_lookup_2 _ 49); reflexivity))). set_solver.
Defined.

(** What the calls of the thread library mean, with the arguments [a] of a call. *)
Definition meanings (E : surroundings) (ctxt : Z) (args : nat → Z) : list (string * reaction) :=
  let a n := args (Z.to_nat n) in [
  ("pthread_attr_destroy", Static "_pthread_attr_destroy" [a 0]);
  ("pthread_attr_getdetachstate", Static "_pthread_attr_getdetachstate" [a 0; a 1]);
  ("pthread_attr_getstackaddr", Static "_pthread_attr_getstackaddr" [a 0; a 1]);
  ("pthread_attr_getstacksize", Static "_pthread_attr_getstacksize" [a 0; a 1]);
  ("pthread_attr_getstack", Static "_pthread_attr_getstack" [a 0; a 1; a 2]);
  ("pthread_attr_init", Static "_pthread_attr_init" [a 0]);
  ("pthread_attr_setdetachstate", Static "_pthread_attr_setdetachstate" [a 0; i32 (a 1)]);
  ("pthread_attr_setstackaddr", Static "_pthread_attr_setstackaddr" [a 0; a 1]);
  ("pthread_attr_setstacksize", Static "_pthread_attr_setstacksize" [a 0; a 1]);
  ("pthread_attr_setstack", Static "_pthread_attr_setstack" [a 0; a 1; a 2]);
  ("pthread_mutexattr_destroy", Static "_pthread_mutexattr_destroy" [a 0]);
  ("pthread_mutexattr_gettype", Static "_pthread_mutexattr_getkind" [a 0; a 1]);
  ("pthread_mutexattr_getkind", Static "_pthread_mutexattr_getkind" [a 0; a 1]);
  ("pthread_mutexattr_init", Static "_pthread_mutexattr_init" [a 0]);
  ("pthread_mutexattr_settype", Static "_pthread_mutexattr_setkind" [a 0; i32 (a 1)]);
  ("pthread_mutexattr_setkind", Static "_pthread_mutexattr_setkind" [a 0; i32 (a 1)]);
  ("pthread_mutex_destroy", Static "_pthread_mutex_destroy" [a 0]);
  ("pthread_mutex_init", Static "_pthread_mutex_init" [a 0; a 1]);
  ("pthread_cond_init", Static "pthread_cond_init" [a 0; a 1]);
  ("pthread_mutex_lock", Library (MutexLock (a 0) ctxt));
  ("pthread_mutex_trylock", Library (MutexTrylock (a 0)));
  ("pthread_mutex_unlock", Library (MutexUnlock (a 0)));
  ("pthread_cond_broadcast", Library (CondBroadcast (a 0)));
  ("pthread_cond_signal", Library (CondSignal (a 0)));
  ("pthread_cond_destroy", Library (CondDestroy (a 0)));
  ("pthread_cond_wait", Library (CondWait (a 0) (a 1) ctxt));
  ("pthread_cond_timedwait", Library (CondTimedwait (a 0) (a 1) (tv_sec_at E (a 2)) ctxt));
  ("pthread_barrier_init", Library (BarrierInit (a 0) (u32 (a 2))));
  ("pthread_barrier_destroy", Library (BarrierDestroy (a 0)));
  ("pthread_barrier_wait", Library (BarrierWait (a 0) ctxt));
  ("pthread_create", Library (Create (a 0) (if (a 1 =? 0)%Z then None else Some (attr_at E (a 1))) (Some ctxt) (a 2) (a 3)
      (new_stack E) (garbage E)));
  ("pthread_join", Library (Join (a 0) (a 1) ctxt));
  ("pthread_detach", Library (Detach (a 0)));
  ("pthread_equal", Equal (a 0) (a 1));
  ("pthread_self", Library Self);
  ("mock_pthread_exit", Library (Exit (a 0) ctxt));
  ("pthread_cancel", Library (Cancel (a 0)));
  ("pthread_kill", Library (Kill (a 0) (i32 (a 1))));
  ("pthread_testcancel", Library (Testcancel ctxt));
  ("pthread_setcancelstate", Library (Setcancelstate (i32 (a 0)) (a 1)));
  ("pthread_setcanceltype", Library (Setcanceltype (i32 (a 0)) (a 1)));
  ("pthread_cleanup_push", Library (CleanupPush (a 0) (a 1)));
  ("pthread_cleanup_pop", Library (CleanupPop (i32 (a 0)) ctxt));
  ("pthread_getattr", Library (Getattr (a 0) (garbage E)));
  ("pthread_key_create", Library (KeyCreate (a 0) (a 1)));
  ("pthread_key_delete", Library (KeyDelete (u32 (a 0))));
  ("pthread_getspecific", Library (Getspecific (u32 (a 0))));
  ("pthread_setspecific", Library (Setspecific (u32 (a 0)) (a 1)));
  ("libc_tsd_set", Library (Setspecific (u32 (a 0)) (a 1)));
  ("pthread_once", Once (a 0) (a 1) ctxt);
  ("__kmp_get_global_thread_id", Library Self);
  ("mcsim_skip_instrs_begin", Library SkipBegin);
  ("mcsim_skip_instrs_end", Library SkipEnd);
  ("mcsim_spinning_begin", Library SpinBegin);
  ("mcsim_spinning_end", Library SpinEnd);
  ("__parsec_bench_begin", Library SkipBegin);
  ("__parsec_roi_begin", Library SkipEnd);
  ("__parsec_roi_end", Library SkipBegin);
  ("__parsec_bench_end", Library SkipBegin)]%string.

(** A call that the program makes of a replaced routine performs the operation of the
    thread library of that name, with the arguments of the call in their places and the
    registers of the caller; the routines without one do nothing.  In particular no hook
    lacks an argument, and every operation is reached. *)
Theorem hooks_perform E ctxt args :
  (∀ name r, (name, r) ∈ replaced_routines →
     intercepted E r ctxt args = Some (default Nothing (assoc name (meanings E ctxt args)))) ∧
  (∀ name m, (name, m) ∈ meanings E ctxt args → ∃ r, (name, r) ∈ replaced_routines).
Proof.
  assert (Forall (λ e : string * replacement,
    intercepted E e.2 ctxt args = Some (default Nothing (assoc e.1 (meanings E ctxt args)))) replaced_routines) as H1.
  { repeat (apply Forall_cons; split; [reflexivity|]). apply Forall_nil. done. }
  assert (Forall (λ n, n ∈ replaced_routines.*1) (meanings E ctxt args).*1) as H2.
  { apply (bool_decide_unpack _). vm_compute. exact I. }
  rewrite Forall_forall in H1. rewrite Forall_forall in H2. split.
  - intros name r Hin. exact (H1 _ Hin).
  - intros name m Hin. assert (name ∈ replaced_routines.*1) as Hn.
    { apply H2, list_elem_of_fmap. by exists (name, m). }
    apply list_elem_of_fmap in Hn as ([name' r] & -> & Hn). by exists r.
Qed.

(** The functions of the library that nothing replaces: the program's calls of them do
    nothing, [pthread_exit] returns, and a mutex is not locked by [pthread_mutex_timedlock]. *)
Lemma stubs_left :
  filter (λ n, n ∉ replaced_routines.*1) libmypthread = [
  "pthread_atfork"; "pthread_getattr_np"; "pthread_mutexattr_getkind_np"; "pthread_mutexattr_setkind_np";
  "libc_tsd_get"; "pthread_sigmask"; "sigwait"; "pthread_attr_setschedparam"; "pthread_attr_getschedparam";
  "pthread_attr_setschedpolicy"; "pthread_attr_getschedpolicy"; "pthread_attr_setinheritsched";
  "pthread_attr_getinheritsched"; "pthread_attr_setscope"; "pthread_attr_getscope";
  "pthread_attr_setguardsize"; "pthread_attr_getguardsize"; "pthread_setschedparam"; "pthread_getschedparam";
  "pthread_getconcurrency"; "pthread_setconcurrency"; "pthread_yield"; "pthread_mutex_timedlock";
  "pthread_mutexattr_getpshared"; "pthread_mutexattr_setpshared"; "pthread_condattr_getpshared";
  "pthread_condattr_setpshared"; "pthread_exit"; "pthread_cleanup_push_defer_np";
  "pthread_cleanup_pop_restore_np"; "pthread_kill_other_threads_np"].
Proof. reflexivity. Qed.

(** Three hooks are for names that the library does not have: it calls those functions
    [.._np]. *)
Lemma hooks_without_routine :
  filter (λ n, n ∉ libmypthread ∧ n ∉ marker_routines.*1) replaced_routines.*1 =
    ["mock_pthread_exit"; "pthread_getattr"; "pthread_mutexattr_getkind"; "pthread_mutexattr_setkind"].
Proof. reflexivity. Qed.

Lemma assoc_elem {A} k (l : list (string * A)) x : assoc k l = Some x → (k, x) ∈ l.
Proof.
  induction l as [|[k' y] l IH]; cbn; [done|]. case_decide as Hk; [intros [= ->]; subst; left|intros H; right; by apply IH].
Qed.

Lemma assoc_none {A} k (l : list (string * A)) : assoc k l = None → k ∉ l.*1.
Proof.
  induction l as [|[k' y] l IH]; cbn; [by intros _ ?%not_elem_of_nil|]. case_decide; [done|]. intros Hn.
  apply not_elem_of_cons. split; [done|by apply IH].
Qed.

(** What the program's call of a function of the library does. *)
Lemma calls_perform E name ctxt args :
  name ∈ libmypthread → program_call E name ctxt args = Some (default Nothing (assoc name (meanings E ctxt args))).
Proof.
  intros Hin. destruct (hooks_perform E ctxt args) as [H1 H2]. unfold program_call.
  destruct (assoc name replaced_routines) as [r|] eqn:Hr; [by apply H1, assoc_elem|]. rewrite decide_True by done.
  destruct (assoc name (meanings E ctxt args)) as [m|] eqn:Hm; [|done].
  apply assoc_elem, H2 in Hm as [r Hm]. apply assoc_none in Hr as []. apply list_elem_of_fmap. by exists (name, r).
Qed.

(** ** Instructions *)

(** What an execution of an instruction is recorded as: an address or a size that the
    instruction does not have is 0. *)
Definition recorded (ins : INS) (x : execution) : PTSInstrTrace :=
  let when_ (b : bool) (v : Z) := if b then v else 0 in
  {| t_waddr := when_ (INS_IsMemoryWrite ins) (memorywrite_ea x);
     t_wlen := when_ (INS_IsMemoryWrite ins) (memorywrite_size x);
     t_raddr := when_ (INS_IsMemoryRead ins) (memoryread_ea x);
     t_raddr2 := when_ (INS_IsMemoryRead ins && INS_HasMemoryRead2 ins) (memoryread2_ea x);
     t_rlen := when_ (INS_IsMemoryRead ins) (memoryread_size x);
     t_ip := inst_ptr x; t_category := INS_Category ins;
     t_isbranch := INS_IsControlFlow ins; t_isbranchtaken := branch_taken x;
     t_rr0 := INS_RegR ins 0; t_rr1 := INS_RegR ins 1; t_rr2 := INS_RegR ins 2; t_rr3 := INS_RegR ins 3;
     t_rw0 := INS_RegW ins 0; t_rw1 := INS_RegW ins 1; t_rw2 := INS_RegW ins 2; t_rw3 := INS_RegW ins 3 |}.

(** The tool for the simulator and the trace generator record an execution alike, and
    whatever the instruction reads and writes, each field of the record is what the
    instruction has of it. *)
Theorem tools_record_alike ins x :
  record_of (value_of x <$> mem_args ins) = Some (recorded ins x) ∧
  record_of (value_of x <$> Instruction_args ins) = Some (recorded ins x).
Proof.
  assert (∀ b : bool, negb (Z.b2z b =? 0) = b) as Hb by (by intros []).
  unfold mem_args, Instruction_args, recorded.
  split; destruct (INS_IsMemoryWrite ins), (INS_IsMemoryRead ins), (INS_HasMemoryRead2 ins); cbn -[Z.b2z Z.eqb]; by rewrite !Hb.
Qed.

(** The unsigned difference: only the 64 bytes after the start of [StartThreadFunc], and
    the one at its end, are left out. *)
Lemma is_reported_spec start ins :
  in_u64 start → in_u64 (INS_Address ins) → start + 64 < 2 ^ 64 →
  is_reported start ins = false ↔ start ≤ INS_Address ins ≤ start + 64.
Proof.
  unfold is_reported, in_u64. intros Hs Ha Hroom. pose proof (Z.mod_pos_bound (INS_Address ins - start) (2 ^ 64) ltac:(lia)) as Hr.
  unfold u64. rewrite (proj2 (Z.ltb_ge _ 0)) by lia. cbn [orb]. rewrite Z.ltb_ge.
  destruct (decide (start ≤ INS_Address ins)).
  - rewrite Z.mod_small by lia. lia.
  - rewrite <- (Z.mod_add _ 1), Z.mod_small by lia. lia.
Qed.

(** ** The instructions that are skipped first *)

Section Skipping.
Context {B : Type} {BE : Backend B} {PIN : Pin}.
Implicit Types (t : tool B).

Lemma library_counts a t u t' o :
  library a t = Ok (u, t', o) → first_instrs t' = first_instrs t ∧ skip_first t' = skip_first t.
Proof.
  unfold library, mbind, proc_bind, reads. destruct (pthreadsim t) as [s|].
  - unfold zoom. destruct (perform a s) as [[[? ?] ?]|]; [|done]. by intros [= _ <- _].
  - destruct a; cbn; try done; by intros [= _ <- _].
Qed.

Lemma build_counts P c g t r t' o :
  build P c g t = Ok (r, t', o) → first_instrs t' = first_instrs t ∧ skip_first t' = skip_first t.
Proof.
  unfold build, mbind, proc_bind, reads, zoom. destruct (PthreadSim.initiate _ _ _ _) as [[[? ?] ?]|]; [|done]. by intros [= _ <- _].
Qed.

(** The construction leaves the thread to the program unless a trace is to be played. *)
Lemma initiate_ready P c g (s : sim B) r s' o :
  PthreadSim.initiate P c g s = Ok (r, s', o) → r = PthreadSim.Ready ↔ trace_name P = ""%string.
Proof.
  unfold PthreadSim.initiate. intros (? & ? & ? & ? & _ & H & _)%bind_run. apply bind_run in H as (? & ? & ? & ? & _ & H & _).
  apply bind_run in H as (? & ? & ? & ? & _ & H & _).
  destruct (trace_name P) as [|ch n]; cbn [String.length Nat.ltb Nat.leb] in H; [by injection H as <- _ _|].
  split; [intros ->|done]. apply bind_run in H as (f & ? & ? & ? & _ & H & _).
  destruct f as [[]|]; try (by injection H);
    apply bind_run in H as (d & ? & ? & ? & _ & H & _); by destruct d; injection H.
Qed.

Lemma build_ready P c g t r t' o :
  build P c g t = Ok (r, t', o) → r = PthreadSim.Ready ↔ trace_name P = ""%string.
Proof.
  unfold build, mbind, proc_bind, reads, zoom.
  destruct (PthreadSim.initiate _ _ _ _) as [[[? ?] ?]|] eqn:H; [|done]. intros [= <- _ _]. by eapply initiate_ready.
Qed.

Definition built_at t : Prop := skip_first t < first_instrs t.

(** The instructions go to the library. *)
Definition hand_over (l : list (Z * PTSInstrTrace)) : proc event (tool B) PthreadSim.initiated :=
  _ ← for_each l (λ e, library (Instruction e.1 e.2)); mret PthreadSim.Ready.

Lemma process_built P c i g t : built_at t → ProcessMemIns P c i g t = (_ ← library (Instruction c i); mret PthreadSim.Ready) t.
Proof.
  unfold built_at, ProcessMemIns. intros H. rewrite bind_unfold. unfold reads.
  rewrite (proj2 (Z.ltb_ge _ _)), (proj2 (Z.eqb_neq _ _)) by lia. rewrite (bind_unfold (mret _)). cbn [mret proc_ret].
  match goal with |- _ = ?x => by destruct x as [[[? ?] ?]|] end.
Qed.

Lemma reports P g l t : built_at t → ProcessAll P g l t = hand_over l t.
Proof.
  unfold hand_over. revert t. induction l as [|e l IH]; intros t Ht; [done|]. cbn [ProcessAll for_each].
  rewrite bind_unfold, (process_built _ _ _ _ _ Ht), bind_unfold. rewrite proc_bind_assoc, (bind_unfold (library _)).
  destruct (library (Instruction e.1 e.2) t) as [[[u t'] o]|] eqn:Hl; [|done]. cbn [mret proc_ret].
  destruct (library_counts _ _ _ _ _ Hl) as [H1 H2]. rewrite IH by (unfold built_at in *; by rewrite H1, H2).
  destruct ((for_each l _ ≫= _) t') as [[[? ?] ?]|]; [|done]. by rewrite app_nil_r.
Qed.

Lemma skips P g l l2 t :
  0 ≤ first_instrs t → first_instrs t + Z.of_nat (length l) ≤ skip_first t → skip_first t < 2 ^ 64 →
  ProcessAll P g (l ++ l2) t = ProcessAll P g l2 (t <| first_instrs := first_instrs t + Z.of_nat (length l) |>).
Proof.
  revert t. induction l as [|e l IH]; intros t H0 Hl Hs; cbn [app length] in *.
  - rewrite Z.add_0_r. by destruct t.
  - cbn [ProcessAll]. rewrite bind_unfold. unfold ProcessMemIns. rewrite bind_unfold. unfold reads.
    rewrite (proj2 (Z.ltb_lt _ _)), (bind_unfold (modify _)) by lia. cbn -[u64 ProcessAll]. rewrite IH; cbn; unfold u64; rewrite ?Z.mod_small by lia; [|lia..].
    replace (first_instrs t + 1 + Z.of_nat (length l)) with (first_instrs t + Z.of_nat (S (length l))) by lia.
    destruct t; cbn in *. by destruct (ProcessAll _ _ _ _) as [[[? ?] ?]|].
Qed.

(** The instruction at which the library is built. *)
Lemma process_first P c i g t :
  first_instrs t = skip_first t → 0 ≤ skip_first t < 2 ^ 64 - 1 →
  ProcessMemIns P c i g t = (r ← build P c g;
    match r with PthreadSim.Ready => _ ← library (Instruction c i); mret PthreadSim.Ready | _ => mret r end)
      (t <| first_instrs := skip_first t + 1 |>).
Proof.
  intros H Hs. unfold ProcessMemIns. rewrite bind_unfold. unfold reads.
  rewrite (proj2 (Z.ltb_ge _ _)), (proj2 (Z.eqb_eq _ _)) by lia. rewrite proc_bind_assoc, bind_unfold. unfold modify.
  assert (t <| first_instrs ::= λ n, n ⊕ 1 |> = t <| first_instrs := skip_first t + 1 |>) as ->.
  { destruct t; cbn in *. subst. unfold u64, set; cbn. by rewrite Z.mod_small by lia. }
  match goal with |- _ = ?x => by destruct x as [[[? ?] ?]|] end.
Qed.

(** C23: the tool skips exactly the first [skip_first] instructions, which leave no trace but
    the count; at the next one it builds the thread library.  A tool without a trace to
    play then hands this instruction and all later ones to the library, in order.  A tool
    with a trace plays it while the library is built, and hands over no instruction of the
    program: when the trace is played the process ends. *)
Theorem skips_then_reports P g l e l' t :
  0 ≤ first_instrs t → first_instrs t + Z.of_nat (length l) = skip_first t → skip_first t < 2 ^ 64 - 1 →
  let t' := t <| first_instrs := skip_first t + 1 |> in
  (trace_name P = ""%string →
   ProcessAll P g (l ++ e :: l') t = (_ ← build P e.1 g; hand_over (e :: l')) t') ∧
  (trace_name P ≠ ""%string →
   ProcessAll P g (l ++ e :: l') t = build P e.1 g t' ∧ ∀ t'' o, build P e.1 g t' ≠ Ok (PthreadSim.Ready, t'', o)).
Proof.
  intros H0 Hl Hs t'. assert (ProcessAll P g (l ++ e :: l') t = (r ← build P e.1 g;
    match r with PthreadSim.Ready => hand_over (e :: l') | _ => mret r end) t') as Hrun.
  { rewrite skips by lia. rewrite Hl. set (t0 := t <| first_instrs := skip_first t |>). cbn [ProcessAll].
    rewrite bind_unfold, (process_first P e.1 e.2 g t0) by (done || (cbn; lia)).
    change (t0 <| first_instrs := skip_first t0 + 1 |>) with t'. rewrite !bind_unfold.
    destruct (build P e.1 g t') as [[[r t1] o]|] eqn:Hb; [|done]. apply build_counts in Hb as [Hb1 Hb2].
    destruct r; try (cbn; by rewrite !app_nil_r). unfold hand_over. cbn [for_each]. rewrite proc_bind_assoc, !bind_unfold.
    destruct (library (Instruction e.1 e.2) t1) as [[[u t2] o2]|] eqn:Hlib; [|done]. cbn [mret proc_ret].
    apply library_counts in Hlib as [Hl1 Hl2]. assert (built_at t2) as Hat by (unfold built_at, t' in *; cbn in *; lia).
    rewrite (reports P g l' t2 Hat). unfold hand_over. rewrite bind_unfold.
    destruct (for_each l' _ t2) as [[[? ?] ?]|]; [|done]. cbn [mret proc_ret]. by rewrite !app_nil_r, !app_assoc. }
  rewrite Hrun, bind_unfold. split; intros Hname.
  - rewrite bind_unfold. destruct (build P e.1 g t') as [[[r t1] o]|] eqn:Hb; [|done].
    by rewrite (proj2 (build_ready _ _ _ _ _ _ _ Hb) Hname).
  - assert (∀ t'' o, build P e.1 g t' ≠ Ok (PthreadSim.Ready, t'', o)) as Hne
      by (intros t'' o Hb; by apply Hname, (build_ready _ _ _ _ _ _ _ Hb)).
    split; [|done]. destruct (build P e.1 g t') as [[[r t1] o]|] eqn:Hb; [|done].
    destruct r; [by destruct (Hne t1 o)|..]; cbn; by rewrite app_nil_r.
Qed.
End Skipping.

(** Two instructions are skipped, the third is the first that is seen; or a trace that
    cannot be opened is to be played. *)
Definition toy_tool : tool (list Z) := {| first_instrs := 0; skip_first := 2; backend := []; pthreadsim := None |}.

Definition toy_instr : PTSInstrTrace :=
  {| t_waddr := 0; t_wlen := 0; t_raddr := 64; t_raddr2 := 0; t_rlen := 8; t_ip := 4096; t_category := 3;
     t_isbranch := false; t_isbranchtaken := false; t_rr0 := 1; t_rr1 := 2; t_rr2 := 0; t_rr3 := 0;
     t_rw0 := 1; t_rw1 := 0; t_rw2 := 0; t_rw3 := 0 |}.

Definition toy_player : player := no_player <| trace_name := "gcc.snappy"%string |> <| play_passes := 1%nat |>.

Lemma skips_then_reports_witness :
  let l := [(7, toy_instr); (7, toy_instr)] ++ (8, toy_instr) :: [(8, toy_instr)] in
  ProcessAll no_player no_attr l toy_tool =
    (_ ← build no_player 8 no_attr; hand_over [(8, toy_instr); (8, toy_instr)]) (toy_tool <| first_instrs := 3 |>) ∧
  ∃ t o, ProcessAll toy_player no_attr l toy_tool = Ok (PthreadSim.Exited, t, o).
Proof.
  split.
  - destruct (skips_then_reports no_player no_attr [(7, toy_instr); (7, toy_instr)] (8, toy_instr) [(8, toy_instr)] toy_tool)
      as [H _]; [done|reflexivity|done|]. exact (H eq_refl).
  - destruct (skips_then_reports toy_player no_attr [(7, toy_instr); (7, toy_instr)] (8, toy_instr) [(8, toy_instr)] toy_tool)
      as [_ H]; [done|reflexivity|done|]. assert (trace_name toy_player ≠ ""%string) as Hname by done.
    destruct (H Hname) as [Hrun _]. rewrite Hrun. eexists _, _. vm_compute. reflexivity.
Defined.
End InstrumentProofs.
