(* ===== verification/Schedules.v ===== *)
(** * When components schedule: the window of every handler

    Every call a component makes, woken at a tick or given a message for one, carries a
    tick between that one and a bound: the latencies are 32-bit numbers, and up to the
    middle of the range of ticks no sum of a tick and a few latencies wraps around.  The
    machine (Machine.v) needs it of every component.  When the latencies are at least one tick
    ([prompt]), what a woken component leads to lies strictly later, but for a core that asks
    for instructions ([core_wakes_later]): the event loop makes progress because of it. *)

From S2P Require Export TLB Crossbar MemoryController CacheL1 CacheL2 Directory O3Machine.

(** The ticks the machine may reach. *)
Definition horizon : Z := 2 ^ 63.

(** The call is for a tick at most [d] after [now]. *)
Definition within (now d : Z) (w : call) : Prop :=
  match call_time w with Some t => now ≤ t ≤ now + d | None => True end.

Lemma within_none now d w : call_time w = None → within now d w.
Proof. unfold within. by intros ->. Qed.

Lemma within_intro now d w t : call_time w = Some t → now ≤ t ≤ now + d → within now d w.
Proof. unfold within. by intros ->. Qed.

Lemma within_shift now t d e w : now ≤ t → t + e ≤ now + d → within t e w → within now d w.
Proof. unfold within. destruct (call_time w); lia. Qed.

Create HintDb schedule.

(** A tick that messages may be for: some latencies after the horizon. *)
Definition soon (t : Z) : Prop := 0 ≤ t < horizon + 2 ^ 40.

Lemma add_latency t lat : 0 ≤ t < 2 ^ 64 - 2 ^ 32 → in_u32 lat → t ⊕ lat = t + lat.
Proof. unfold in_u32. intros Ht Hl. apply u64_id. unfold in_u64. lia. Qed.

Lemma ceil_window t y r :
  soon t → in_u32 y → ceil_by_y t y = Ok r → t ≤ r < t + 2 ^ 32.
Proof.
  unfold soon, horizon, in_u32. intros Ht Hy Hr.
  destruct (decide (y = 0)) as [->|]; [done|].
  destruct (ceil_by_y_spec t y) as (r' & Hr' & ? & _); [lia..|]. rewrite Hr in Hr'. injection Hr' as <-. lia.
Qed.

Lemma align_window t y r :
  soon t → in_u32 y → align_up t y = Ok r → t ≤ r < t + 2 ^ 32.
Proof.
  unfold soon, horizon, in_u32. intros Ht Hy Hr.
  destruct (decide (y = 0)) as [->|]; [done|].
  destruct (align_up_spec t y) as (r' & Hr' & ? & _); [lia..|]. rewrite Hr in Hr'. injection Hr' as <-. lia.
Qed.

(** The tick of a call, with its sums taken apart from the inside. *)
Ltac solve_word := first [assumption|apply u32_range].
Ltac solve_soon := unfold soon, horizon, in_u32 in *; lia.
Ltac flatten_sums :=
  repeat match goal with
  | |- context [u64 (?a + ?b)] =>
      lazymatch a with context [u64 _] => fail | _ => idtac end;
      rewrite (add_latency a b) by first [solve_word|solve_soon]
  end.
Ltac solve_within :=
  first [apply within_none; reflexivity
        |eapply within_intro; [reflexivity|]; flatten_sums; solve_soon].

Ltac sched_step :=
  first [solve [eauto 3 with schedule nocore]
        |emits_step
        |apply emits_emit; repeat case_match; solve_within].
Ltac sched := repeat sched_step.

(** What a wake-up at tick [now] leads to happens [d] ticks later at least; with [d] = 1
    when every latency is at least one tick, as in all the sample configurations. *)
Ltac solve_prompt := intros []; unfold in_u32 in *; split_and!; first [apply u32_range|tauto|lia].

(** ** The TLBs *)

Module TLBSchedule.
Import TLBL1.
Record latencies_ok (cfg : config) : Prop := {
  lat_interval : in_u32 (process_interval cfg);
  lat_lsu : in_u32 (l1_to_lsu_t cfg);
  lat_miss : in_u32 (miss_penalty cfg) }.

Definition prompt (d : Z) (cfg : config) : Prop :=
  d ≤ process_interval cfg ∧
  d ≤ l1_to_lsu_t cfg.

#[export] Instance tlb_prompt_dec d cfg : Decision (prompt d cfg).
Proof. unfold prompt. apply _. Defined.

Lemma tlb_prompt_0 cfg : latencies_ok cfg → prompt 0 cfg.
Proof. solve_prompt. Qed.

Section Window.
Context (cfg : config) (OK : latencies_ok cfg) (now : Z) (Hnow : soon now).

Lemma tlb_emits_request l : emits (within now (2 ^ 34)) (add_req_event cfg now l).
Proof. destruct OK. unfold add_req_event. sched. Qed.

Context (d : Z) (Hd : 0 ≤ d ≤ 1) (PR : prompt d cfg).

Lemma tlb_emits_wake : emits (within (now + d) (2 ^ 34)) (process_event cfg now).
Proof.
  destruct OK; pose proof PR as Hlat; red in Hlat. unfold process_event. sched.
  induction (Z.to_nat (speedup cfg)) as [|n IH]; cbn [process_requests]; sched.
  unfold process_request, answer, evict_lru. sched.
Qed.
End Window.
End TLBSchedule.

(** ** The crossbar *)

Module XbarSchedule.
Import Crossbar.
Record latencies_ok (cfg : config) : Prop := {
  lat_interval : in_u32 (process_interval cfg);
  lat_dir : in_u32 (xbar_to_dir_t cfg) }.

Definition prompt (d : Z) (cfg : config) : Prop :=
  d ≤ process_interval cfg ∧
  d ≤ xbar_to_dir_t cfg.

#[export] Instance xbar_prompt_dec d cfg : Decision (prompt d cfg).
Proof. unfold prompt. apply _. Defined.

Lemma xbar_prompt_0 cfg : latencies_ok cfg → prompt 0 cfg.
Proof. solve_prompt. Qed.

Section Window.
Context (cfg : config) (OK : latencies_ok cfg) (now : Z) (Hnow : soon now).

Lemma xbar_emits_aligned {A} (k : Z → proc call state A) :
  (∀ t, now ≤ t < now + 2 ^ 32 → emits (within now (2 ^ 34)) (k t)) →
  emits (within now (2 ^ 34)) (t ← lift (align_up now (process_interval cfg)); k t).
Proof.
  intros Hk s. apply wp_bind, wp_lift; [|done]. intros t Ht. apply Hk.
  eapply align_window; [done| |exact Ht]. apply OK.
Qed.

Lemma xbar_emits_request l src : emits (within now (2 ^ 34)) (add_req_event cfg now l src).
Proof. unfold add_req_event. emits_step; [sched|]. apply xbar_emits_aligned. intros t Ht. sched. Qed.
Lemma emits_coherence l src : emits (within now (2 ^ 34)) (add_crq_event cfg now l src).
Proof. unfold add_crq_event. emits_step; [sched|]. apply xbar_emits_aligned. intros t Ht. sched. Qed.
Lemma xbar_emits_reply l src : emits (within now (2 ^ 34)) (add_rep_event cfg now l src).
Proof. unfold add_rep_event. emits_step; [sched|]. apply xbar_emits_aligned. intros t Ht. sched. Qed.
#[local] Hint Resolve emits_coherence xbar_emits_reply : schedule.

Lemma emits_coherence_flits l n src : emits (within now (2 ^ 34)) (add_crq_flits cfg now l n src).
Proof. unfold add_crq_flits. sched. Qed.
Lemma emits_reply_flits l n src : emits (within now (2 ^ 34)) (add_rep_flits cfg now l n src).
Proof. unfold add_rep_flits. sched. Qed.

Context (d : Z) (Hd : 0 ≤ d ≤ 1) (PR : prompt d cfg).

Lemma emits_send idx pos : emits (within (now + d) (2 ^ 34)) (send_at cfg now idx pos).
Proof. destruct OK; pose proof PR as Hlat; red in Hlat. unfold send_at. sched. Qed.
#[local] Hint Resolve emits_send : schedule.

Lemma xbar_emits_wake : emits (within (now + d) (2 ^ 34)) (process_event cfg now).
Proof.
  destruct OK; pose proof PR as Hlat; red in Hlat. unfold process_event, receive, route_rep, route_crq, route_req, enqueue, serve_port. sched.
Qed.
End Window.
End XbarSchedule.

(** ** The memory controllers *)

Module MCSchedule.
Import MemoryController.
(** The mode of fixed bandwidth answers after the requests before, however far ahead. *)
Record latencies_ok (cfg : config) : Prop := {
  lat_interval : in_u32 (process_interval cfg);
  lat_dir : in_u32 (mc_to_dir_t cfg);
  lat_mode : is_fixed_bw_n_latency cfg = false }.

Definition prompt (d : Z) (cfg : config) : Prop :=
  d ≤ process_interval cfg ∧
  d ≤ mc_to_dir_t cfg.

#[export] Instance mc_prompt_dec d cfg : Decision (prompt d cfg).
Proof. unfold prompt. apply _. Defined.

Lemma mc_prompt_0 cfg : latencies_ok cfg → prompt 0 cfg.
Proof. solve_prompt. Qed.

Section Window.
Context (cfg : config) (OK : latencies_ok cfg) (now : Z) (Hnow : soon now).

Lemma mc_emits_request l : emits (within now (2 ^ 34)) (add_req_event cfg now l).
Proof.
  destruct OK. unfold add_req_event. intros s. apply wp_bind, wp_lift; [|done]. intros t Ht.
  apply ceil_window in Ht; [|done..]. revert s. change (emits (within now (2 ^ 34)) (
    _ ← (if is_fixed_latency cfg then
         if is_writeback (type l) then _ ← emit (free_lqe l); fails Undef
         else emit (Component.add_rep_event (directory cfg) (t ⊕ mc_to_dir_t cfg) l None)
       else if is_fixed_bw_n_latency cfg then
         _ ← modify (λ s, s <| last_process_time ::= λ last,
               if (t =? 0) || (last <? t) then t else last ⊕ process_interval cfg |>);
         if is_writeback (type l) then
           _ ← modify (λ s, s <| num_write ::= λ n, n ⊕ 1 |>);
           _ ← emit (free_lqe l); fails Undef
         else
           _ ← modify (λ s, s <| num_read ::= λ n, n ⊕ 1 |>);
           last ← reads last_process_time;
           emit (Component.add_rep_event (directory cfg) (last ⊕ mc_to_dir_t cfg) l None)
       else
         _ ← emit (geq_add_event t (this cfg));
         modify (λ s, s <| queues ::= insert_req t l |>));
    count_page cfg (address l))).
  rewrite lat_mode0. unfold count_page. sched.
Qed.

Context (d : Z) (Hd : 0 ≤ d ≤ 1) (PR : prompt d cfg).

(** The scan makes no call at all. *)
Lemma emits_scan l i c : emits (within (now + d) (2 ^ 34)) (scan cfg now l i c).
Proof.
  revert i c. induction l as [|r l IH]; intros i c; cbn [scan]; sched.
  unfold consider, consider_open, consider_hit, prefer_activate. sched.
Qed.

Lemma emits_serve i rank bank page b l : emits (within (now + d) (2 ^ 34)) (serve cfg now i rank bank page b l).
Proof. destruct OK; pose proof PR as Hlat; red in Hlat. unfold serve, transfer_read, transfer_write, close_row. sched. Qed.
#[local] Hint Resolve emits_scan emits_serve : schedule.

Lemma mc_emits_wake : emits (within (now + d) (2 ^ 34)) (process_event cfg now).
Proof. destruct OK; pose proof PR as Hlat; red in Hlat. unfold process_event, pre_processing, accept, issue. sched. Qed.
End Window.
End MCSchedule.

(** ** The L1 caches *)

Module L1Schedule.
Import CacheL1.
Definition prompt (d : Z) (cfg : config) : Prop :=
  d ≤ process_interval cfg ∧
  d ≤ l1_to_lsu_t cfg ∧
  d ≤ l1_to_l2_t cfg.

#[export] Instance l1_prompt_dec d cfg : Decision (prompt d cfg).
Proof. unfold prompt. apply _. Defined.

Lemma l1_prompt_0 cfg : latencies_ok cfg → prompt 0 cfg.
Proof. solve_prompt. Qed.

Section Window.
Context (cfg : config) (OK : latencies_ok cfg) (now : Z) (Hnow : soon now).

Lemma l1_emits_request l : emits (within now (2 ^ 34)) (add_req_event cfg now l).
Proof. unfold add_req_event. sched. Qed.
Lemma l1_emits_reply l : emits (within now (2 ^ 34)) (add_rep_event cfg now l).
Proof. unfold add_rep_event. sched. Qed.

Context (d : Z) (Hd : 0 ≤ d ≤ 1) (PR : prompt d cfg).

Lemma emits_to_lsu l : emits (within (now + d) (2 ^ 34)) (add_event_to_lsu cfg now l).
Proof. destruct OK; pose proof PR as Hlat; red in Hlat. unfold add_event_to_lsu. sched. Qed.
Lemma l1_emits_to_l2 r : emits (within (now + d) (2 ^ 34)) (return_to_l2 cfg now r).
Proof. destruct OK; pose proof PR as Hlat; red in Hlat. unfold return_to_l2. sched. Qed.
Lemma emits_prefetch a th : emits (within (now + d) (2 ^ 34)) (prefetch cfg now a th).
Proof. destruct OK; pose proof PR as Hlat; red in Hlat. unfold prefetch. sched. Qed.
#[local] Hint Resolve emits_to_lsu l1_emits_to_l2 emits_prefetch : schedule.

Lemma emits_round i r : emits (within (now + d) (2 ^ 34)) (reply_round cfg now i r).
Proof. destruct OK; pose proof PR as Hlat; red in Hlat. unfold reply_round, on_bypass, on_evict, on_downgrade, on_dir_rd, on_fill. sched. Qed.

Lemma emits_rounds js r : emits (within (now + d) (2 ^ 34)) (reply_rounds cfg now js r).
Proof. pose proof emits_round. revert r. induction js as [|i js IH]; intros r; cbn [reply_rounds]; sched. Qed.
#[local] Hint Resolve emits_rounds : schedule.

Lemma l1_emits_wake : emits (within (now + d) (2 ^ 34)) (process_event cfg now).
Proof.
  destruct OK; pose proof PR as Hlat; red in Hlat. unfold process_event, process_reply, process_bank, process_request, lookup_read, lookup_write,
    do_prefetch, mark_history, line_present. sched.
Qed.
End Window.
End L1Schedule.

(** ** The L2 caches *)

Module L2Schedule.
Import CacheL2.
Record latencies_ok (cfg : config) : Prop := {
  lat_interval : in_u32 (process_interval cfg);
  lat_l1 : in_u32 (l2_to_l1_t cfg);
  lat_dir : in_u32 (l2_to_dir_t cfg);
  lat_xbar : in_u32 (l2_to_xbar_t cfg) }.

Definition prompt (d : Z) (cfg : config) : Prop :=
  d ≤ process_interval cfg ∧
  d ≤ l2_to_l1_t cfg ∧
  d ≤ l2_to_dir_t cfg ∧
  d ≤ l2_to_xbar_t cfg.

#[export] Instance l2_prompt_dec d cfg : Decision (prompt d cfg).
Proof. unfold prompt. apply _. Defined.

Lemma l2_prompt_0 cfg : latencies_ok cfg → prompt 0 cfg.
Proof. solve_prompt. Qed.

Section Window.
Context {AD : Addresses} (cfg : config) (OK : latencies_ok cfg) (now : Z) (Hnow : soon now).

Lemma l2_emits_ceil {A} (k : Z → proc call state A) :
  (∀ t, now ≤ t < now + 2 ^ 32 → emits (within now (2 ^ 34)) (k t)) →
  emits (within now (2 ^ 34)) (t ← lift (ceil_by_y now (process_interval cfg)); k t).
Proof.
  intros Hk s. apply wp_bind, wp_lift; [|done]. intros t Ht. apply Hk.
  eapply ceil_window; [done| |exact Ht]. apply OK.
Qed.

Lemma l2_emits_request l : emits (within now (2 ^ 34)) (add_req_event cfg now l).
Proof. unfold add_req_event. apply l2_emits_ceil. intros t Ht. sched. Qed.
Lemma l2_emits_reply l : emits (within now (2 ^ 34)) (add_rep_event cfg now l).
Proof. unfold add_rep_event. apply l2_emits_ceil. intros t Ht. sched. Qed.

Context (d : Z) (Hd : 0 ≤ d ≤ 1) (PR : prompt d cfg).

Lemma emits_to_l1 l : emits (within (now + d) (2 ^ 34)) (to_l1 cfg now l).
Proof. destruct OK; pose proof PR as Hlat; red in Hlat. unfold to_l1. sched. Qed.
Lemma emits_to_LL l top data : emits (within (now + d) (2 ^ 34)) (add_event_to_LL cfg now l top data).
Proof. destruct OK; pose proof PR as Hlat; red in Hlat. unfold add_event_to_LL. sched. Qed.
Lemma emits_l1_evict e a l always : emits (within (now + d) (2 ^ 34)) (req_L1_evict cfg now e a l always).
Proof. destruct OK; pose proof PR as Hlat; red in Hlat. unfold req_L1_evict, evict_one, evict_call. sched. Qed.
#[local] Hint Resolve emits_to_l1 emits_to_LL emits_l1_evict : schedule.

Lemma emits_ask_owner set idx e t c c12 l : emits (within (now + d) (2 ^ 34)) (ask_owner cfg now set idx e t c c12 l).
Proof. destruct OK; pose proof PR as Hlat; red in Hlat. unfold ask_owner. sched. Qed.
#[local] Hint Resolve emits_ask_owner : schedule.

Lemma l2_emits_fill set t f l : emits (within (now + d) (2 ^ 34)) (on_fill cfg now set t f l).
Proof. destruct OK; pose proof PR as Hlat; red in Hlat. unfold on_fill, fill_way, make_room. sched. Qed.
Lemma emits_owner_reply set f l : emits (within (now + d) (2 ^ 34)) (on_owner_reply cfg now set f l).
Proof. destruct OK; pose proof PR as Hlat; red in Hlat. unfold on_owner_reply, finish_invalidation, finish_transfer, fatal_at_top. sched. Qed.
Lemma emits_invalidate set f l : emits (within (now + d) (2 ^ 34)) (on_invalidate cfg now set f l).
Proof. destruct OK; pose proof PR as Hlat; red in Hlat. unfold on_invalidate. sched. Qed.
Lemma emits_dir_rd set f l : emits (within (now + d) (2 ^ 34)) (on_dir_rd cfg now set f l).
Proof. destruct OK; pose proof PR as Hlat; red in Hlat. unfold on_dir_rd, fatal_at_top. sched. Qed.
#[local] Hint Resolve l2_emits_fill emits_owner_reply emits_invalidate emits_dir_rd : schedule.

Lemma l2_emits_process_reply l : emits (within (now + d) (2 ^ 34)) (process_reply cfg now l).
Proof. destruct OK; pose proof PR as Hlat; red in Hlat. unfold process_reply, on_write_nd, on_evict, on_nack, on_share. sched. Qed.

Lemma emits_share_line e l : emits (within (now + d) (2 ^ 34)) (share_line cfg now e l).
Proof. destruct OK; pose proof PR as Hlat; red in Hlat. unfold share_line, hand_over. sched. Qed.
Lemma emits_write_line set idx e l : emits (within (now + d) (2 ^ 34)) (write_line cfg now set idx e l).
Proof. destruct OK; pose proof PR as Hlat; red in Hlat. unfold write_line, own_line, hand_over, evict_call. sched. Qed.
#[local] Hint Resolve l2_emits_process_reply emits_share_line emits_write_line : schedule.

Lemma emits_process_request l : emits (within (now + d) (2 ^ 34)) (process_request cfg now l).
Proof.
  destruct OK; pose proof PR as Hlat; red in Hlat. unfold process_request, read_access, write_access, upgrade, conclude, forward. sched.
Qed.
#[local] Hint Resolve emits_process_request : schedule.

Lemma l2_emits_wake : emits (within (now + d) (2 ^ 34)) (process_event cfg now).
Proof. destruct OK; pose proof PR as Hlat; red in Hlat. unfold process_event, process_bank. sched. Qed.
End Window.
End L2Schedule.

(** ** The directories *)

Module DirSchedule.
Import Directory.
Record latencies_ok (cfg : config) : Prop := {
  lat_interval : in_u32 (process_interval cfg);
  lat_mc : in_u32 (dir_to_mc_t cfg);
  lat_l2 : in_u32 (dir_to_l2_t cfg);
  lat_xbar : in_u32 (dir_to_xbar_t cfg) }.

(** The directory postpones a reply by up to 100 intervals, in 32 bits. *)
Definition prompt (d : Z) (cfg : config) : Prop :=
  d ≤ process_interval cfg ∧
  d ≤ 2 ⊗₃₂ process_interval cfg ∧
  d ≤ 100 ⊗₃₂ process_interval cfg ∧
  d ≤ dir_to_mc_t cfg ∧
  d ≤ dir_to_l2_t cfg ∧
  d ≤ dir_to_xbar_t cfg.

#[export] Instance dir_prompt_dec d cfg : Decision (prompt d cfg).
Proof. unfold prompt. apply _. Defined.

Lemma dir_prompt_0 cfg : latencies_ok cfg → prompt 0 cfg.
Proof. solve_prompt. Qed.

Section Window.
Context {AD : Addresses} (cfg : config) (OK : latencies_ok cfg).

Lemma dir_emits_ceil {A} now d (k : Z → proc call state A) :
  soon now → 2 ^ 32 ≤ d → (∀ t, now ≤ t < now + 2 ^ 32 → emits (within now d) (k t)) →
  emits (within now d) (t ← lift (ceil_by_y now (process_interval cfg)); k t).
Proof.
  intros Hnow Hd Hk s. apply wp_bind, wp_lift; [|done]. intros t Ht. apply Hk.
  eapply ceil_window; [done| |exact Ht]. apply OK.
Qed.

Lemma dir_emits_request now l : soon now → emits (within now (2 ^ 34)) (add_req_event cfg now l).
Proof. intros H. unfold add_req_event. apply dir_emits_ceil; [done|lia|]. intros t Ht. sched. Qed.
Lemma dir_emits_reply now l : soon now → emits (within now (2 ^ 34)) (add_rep_event cfg now l).
Proof. intros H. unfold add_rep_event. apply dir_emits_ceil; [done|lia|]. intros t Ht. sched. Qed.

Context (now : Z) (Hnow : 0 ≤ now < horizon) (d : Z) (Hd : 0 ≤ d ≤ 1) (PR : prompt d cfg).

(** A message the directory puts back into its own queue. *)
Lemma emits_again n l : d ≤ n ⊗₃₂ process_interval cfg → emits (within (now + d) (2 ^ 34)) (add_rep_event cfg (now ⊕ (n ⊗₃₂ process_interval cfg)) l).
Proof.
  intros Hn. pose proof (u32_range (n * process_interval cfg)) as Hr. rewrite add_latency; [|solve_soon|done].
  intros s. eapply wp_mono; [apply (dir_emits_ceil _ (2 ^ 32)); [solve_soon|lia|intros t Ht; sched]|].
  intros [] s' o Ho. cbv beta in *. eapply Forall_weaken; [exact Ho|]. intros w.
  apply within_shift; solve_soon.
Qed.

Lemma emits_again_2 l : emits (within (now + d) (2 ^ 34)) (add_rep_event cfg (now ⊕ (2 ⊗₃₂ process_interval cfg)) l).
Proof. apply emits_again, PR. Qed.
Lemma emits_again_100 l : emits (within (now + d) (2 ^ 34)) (add_rep_event cfg (now ⊕ (100 ⊗₃₂ process_interval cfg)) l).
Proof. apply emits_again, PR. Qed.

Lemma emits_to_mc l : emits (within (now + d) (2 ^ 34)) (to_mc cfg now l).
Proof. destruct OK; pose proof PR as Hlat; red in Hlat. unfold to_mc. sched. Qed.
Lemma dir_emits_to_l2 l : emits (within (now + d) (2 ^ 34)) (to_l2 cfg now l).
Proof. destruct OK; pose proof PR as Hlat; red in Hlat. unfold to_l2. sched. Qed.
#[local] Hint Resolve emits_again_2 emits_again_100 emits_to_mc dir_emits_to_l2 : schedule.

Lemma within_crq l data : within (now + d) (2 ^ 34) (crq_call cfg now l data).
Proof. destruct OK; pose proof PR as Hlat; red in Hlat. unfold crq_call. destruct data; solve_within. Qed.
#[local] Hint Resolve within_crq emits_emit : schedule.

Lemma emits_UL l data : emits (within (now + d) (2 ^ 34)) (add_event_to_UL cfg now l data).
Proof. unfold add_event_to_UL. sched. Qed.
Lemma emits_UL_at c l : emits (within (now + d) (2 ^ 34)) (add_event_to_UL_at cfg now c l).
Proof. unfold add_event_to_UL_at. sched. Qed.
Lemma emits_ULpp l data : emits (within (now + d) (2 ^ 34)) (add_event_to_ULpp cfg now l data).
Proof. destruct OK; pose proof PR as Hlat; red in Hlat. unfold add_event_to_ULpp. sched. Qed.
Lemma emits_nack l : emits (within (now + d) (2 ^ 34)) (nack cfg now l).
Proof. pose proof emits_ULpp. unfold nack. sched. Qed.
Lemma emits_dir_at k : emits (within (now + d) (2 ^ 34)) (dir_at k).
Proof. unfold dir_at. sched. Qed.
Lemma emits_forget set k e : emits (within (now + d) (2 ^ 34)) (forget cfg set k e).
Proof. unfold forget, remove_directory_cache_entry. sched. Qed.
Lemma emits_victim l : emits (within (now + d) (2 ^ 34)) (find_victim l).
Proof. pose proof emits_dir_at. induction l as [|k l IH]; cbn [find_victim]; sched. Qed.
#[local] Hint Resolve emits_UL emits_UL_at emits_ULpp emits_nack emits_dir_at emits_forget emits_victim : schedule.

Lemma emits_room set k a t : emits (within (now + d) (2 ^ 34)) (make_room cfg now set k a t).
Proof. unfold make_room. sched. Qed.
Lemma emits_cached set k : emits (within (now + d) (2 ^ 34)) (cached set k).
Proof. unfold cached. sched. Qed.
#[local] Hint Resolve emits_room emits_cached : schedule.

Lemma emits_cache_reply set k l : emits (within (now + d) (2 ^ 34)) (cache_reply cfg now set k l).
Proof. unfold cache_reply. sched. Qed.
Lemma emits_cache_request set k l : emits (within (now + d) (2 ^ 34)) (cache_request cfg now set k l).
Proof. unfold cache_request. sched. Qed.
#[local] Hint Resolve emits_cache_reply emits_cache_request : schedule.

Lemma dir_emits_process_reply l : emits (within (now + d) (2 ^ 34)) (process_reply cfg now l).
Proof.
  unfold process_reply, on_evict, evict_line, on_upgraded, on_ack, last_ack, on_no_data, on_data, on_memory. sched.
Qed.

Lemma emits_access k l a : emits (within (now + d) (2 ^ 34)) (access_line cfg now k l a).
Proof.
  unfold access_line, read_line, write_line, write_shared, hold_and_ask, invalidate. sched.
Qed.
#[local] Hint Resolve dir_emits_process_reply emits_access : schedule.

Lemma dir_emits_wake : emits (within (now + d) (2 ^ 34)) (process_event cfg now).
Proof. destruct OK; pose proof PR as Hlat; red in Hlat. unfold process_event, process_request, first_access. sched. Qed.
End Window.
End DirSchedule.

(** ** The cores *)

Module CoreSchedule.
Import O3Core O3Pipeline.
Definition prompt (d : Z) (cfg : config) : Prop :=
  d ≤ process_interval cfg ∧
  d ≤ lsu_to_l1i_t cfg ∧
  d ≤ lsu_to_l1d_t cfg ∧
  d ≤ barrier_t cfg ∧
  d ≤ lock_t cfg ∧
  d ≤ unlock_t cfg ∧
  d ≤ sse_t cfg ∧
  d ≤ branch_miss_penalty cfg ⊕₃₂ process_interval cfg.

#[export] Instance core_prompt_dec d cfg : Decision (prompt d cfg).
Proof. unfold prompt. apply _. Defined.

Lemma core_prompt_0 cfg : cfg_ok cfg → prompt 0 cfg.
Proof. solve_prompt. Qed.

Section Window.
Context (cfg : config) (OK : cfg_ok cfg) (now : Z) (Hnow : soon now).

Lemma interval_word : in_u32 (process_interval cfg).
Proof. destruct OK. unfold in_u32. lia. Qed.

Lemma emits_wake_at t : now ≤ t ≤ now + 2 ^ 34 → emits (within now (2 ^ 34)) (wake_at cfg t).
Proof. intros Ht. unfold wake_at. sched. Qed.

(** What a cycle leads to happens [d] ticks later at least. *)
Section Later.
Context (d : Z) (Hd : 0 ≤ d ≤ 1) (PR : prompt d cfg).

(** A wake-up after a latency of the core. *)
Lemma emits_wake_in lat : in_u32 lat → d ≤ lat → emits (within (now + d) (2 ^ 34)) (wake_at cfg (now ⊕ lat)).
Proof. intros Hl Hlat. unfold wake_at. apply emits_emit. solve_within. Qed.

Lemma emits_wake_next : emits (within (now + d) (2 ^ 34)) (wake_at cfg (now ⊕ process_interval cfg)).
Proof. apply emits_wake_in; [apply interval_word|apply PR]. Qed.

Lemma emits_complete idx lat : in_u32 lat → d ≤ lat → emits (within (now + d) (2 ^ 34)) (complete cfg idx (now ⊕ lat)).
Proof. intros Hl Hlat. pose proof (emits_wake_in lat Hl Hlat). unfold complete. sched. Qed.

Lemma latency_word e : in_u32 (latency cfg e).
Proof. pose proof interval_word. destruct OK. unfold latency. repeat case_match; solve_word. Qed.
Lemma latency_prompt e : d ≤ latency cfg e.
Proof. pose proof PR as Hlat; red in Hlat. unfold latency. repeat case_match; tauto. Qed.

Lemma emits_load a ks : emits (within (now + d) (2 ^ 34)) (load_loop cfg now a ks).
Proof.
  pose proof (ok_to_l1i cfg OK). pose proof PR as Hlat; red in Hlat. revert a. induction ks as [|k ks IH]; intros a; cbn [load_loop]; sched.
  unfold load_one. sched.
Qed.

Lemma core_emits_fill q inf acc ks : emits (within (now + d) (2 ^ 34)) (fill_loop cfg now q inf acc ks).
Proof.
  revert acc. induction ks as [|k ks IH]; intros acc; cbn [fill_loop]; sched. unfold fill_one. sched.
Qed.
#[local] Hint Resolve emits_load core_emits_fill emits_wake_next : schedule.

Lemma emits_issue width : emits (within (now + d) (2 ^ 34)) (issue_loop cfg now width).
Proof.
  induction width as [|n IH]; cbn [issue_loop]; sched. unfold issue_one, predict. sched.
Qed.

Lemma emits_exec ks c : emits (within (now + d) (2 ^ 34)) (exec_loop cfg now ks c).
Proof.
  pose proof (λ idx, emits_complete idx _ (ok_barrier cfg OK) ltac:(apply PR)).
  pose proof (λ idx, emits_complete idx _ interval_word ltac:(apply PR)).
  pose proof (λ idx e, emits_complete idx _ (latency_word e) (latency_prompt e)).
  pose proof (ok_to_l1d cfg OK). assert (d ≤ lsu_to_l1d_t cfg) by apply PR.
  revert c. induction ks as [|k ks IH]; intros c; cbn [exec_loop]; sched.
  unfold exec_one, stall, send_access. sched.
Qed.

Lemma emits_commit width : emits (within (now + d) (2 ^ 34)) (commit_loop cfg now width).
Proof. induction width as [|n IH]; cbn [commit_loop]; sched. Qed.
#[local] Hint Resolve emits_issue emits_exec emits_commit : schedule.

Lemma core_emits_cycle : emits (within (now + d) (2 ^ 34)) (cycle cfg now).
Proof. unfold cycle, wake_one, wake_next, commit_more. sched. Qed.

(** A core that does not ask for instructions runs a cycle. *)
Lemma core_wakes_later s :
  wp any_failure (process_event cfg now) s
    (λ r _ o, r = c_num (this cfg) ∨ Forall (within (now + d) (2 ^ 34)) o).
Proof.
  unfold process_event. wp_step. eapply (wp_mono _ _ _ (λ _ _ o, o = [])).
  { apply wp_when; intros _; [by wp_step|done]. }
  intros [] s1 o1 ->. do 2 wp_step. case_match.
  - unfold wake_at. wp_steps. by left.
  - wp_step. eapply wp_mono; [apply core_emits_cycle|]. intros [] s2 o2 Ho. wp_step. right. by rewrite app_nil_r.
Qed.
End Later.

Lemma core_emits_wake : emits (within now (2 ^ 34)) (process_event cfg now).
Proof.
  pose proof (emits_wake_at now ltac:(lia)). pose proof (core_emits_cycle 0 ltac:(lia) (core_prompt_0 cfg OK)) as Hc.
  rewrite Z.add_0_r in Hc. unfold process_event. sched.
Qed.

Lemma core_emits_aligned {A} (k : Z → proc call state A) :
  (∀ t, now ≤ t < now + 2 ^ 32 → emits (within now (2 ^ 34)) (k t)) →
  emits (within now (2 ^ 34)) (t ← lift (ceil_by_y now (process_interval cfg)); k t).
Proof.
  intros Hk s. apply wp_bind, wp_lift; [|done]. intros t Ht. apply Hk.
  eapply ceil_window; [done|apply interval_word|exact Ht].
Qed.

Lemma core_emits_request l : emits (within now (2 ^ 34)) (add_req_event cfg now l).
Proof.
  pose proof (ok_to_l1i cfg OK). pose proof (u32_range (spinning_slowdown cfg * process_interval cfg)).
  unfold add_req_event, count_nack, check_nacks, retry_time, loaded_one. destruct (type l).
  26, 21: sched.
  all: apply core_emits_aligned; intros t Ht; pose proof (emits_wake_at t ltac:(lia)); sched.
Qed.

Lemma core_emits_reply l : emits (within now (2 ^ 34)) (add_rep_event cfg now l).
Proof.
  pose proof (ok_to_l1d cfg OK). pose proof (ok_penalty cfg OK).
  pose proof (u32_range (spinning_slowdown cfg * process_interval cfg)).
  unfold add_rep_event, count_nack, check_nacks, retry_time, access_type, complete. destruct (type l).
  26, 21: sched.
  all: apply core_emits_aligned; intros t Ht; pose proof (emits_wake_at t ltac:(lia)).
  all: assert (∀ e : O3ROB, emits (within now (2 ^ 34))
         (wake_at cfg (t ⊕ (if branch_miss e then branch_miss_penalty cfg else 0)))) as Hend
    by (intros e; apply emits_wake_at; destruct (branch_miss e); rewrite add_latency;
        first [done|solve_soon|unfold in_u32; lia]).
  all: sched.
Qed.

Context {xed : XedCategories}.
Lemma emits_instruction i : emits (within now (2 ^ 34)) (add_instruction cfg now i).
Proof. pose proof (emits_wake_at now ltac:(lia)). unfold add_instruction. sched. Qed.
End Window.
End CoreSchedule.
