(* ===== verification/Machine.v ===== *)
(** * The simulated machine: all components behind the event queue (McSim.h, McSim.cc)

    The components of the other files, connected.  The calls a handler makes are delivered
    in order, each with the calls of its receiver, before the next one. *)

From S2P Require Export EventQueue Schedules.

Module Machine.
Import GlobalEventQueue.

(** What is fixed once the machine is connected. *)
Record wiring := {
  cfg_cores : list O3Core.config;
  cfg_l1is : list CacheL1.config;
  cfg_l1ds : list CacheL1.config;
  cfg_tlbl1is : list TLBL1.config;
  cfg_tlbl1ds : list TLBL1.config;
  cfg_l2s : list CacheL2.config;
  cfg_dirs : list Directory.config;
  cfg_mcs : list MemoryController.config;
  cfg_noc : Crossbar.config;
  display_os_page_usage : bool;
  page_sz_base_bit : Z }.

(** The components.  [is_migrate_ready] is shared by the cores. *)
Record world := {
  o3cores : list O3Core.state;
  l1is : list CacheL1.state;
  l1ds : list CacheL1.state;
  tlbl1is : list TLBL1.state;
  tlbl1ds : list TLBL1.state;
  l2s : list CacheL2.state;
  dirs : list Directory.state;
  mcs : list MemoryController.state;
  noc : Crossbar.state;
  is_migrate_ready : list bool;
  os_page_req_dist : gmap Z Z }.

Section Components.
Context {AD : Addresses} (W : wiring).

(** The handler [h] of component [i] of a kind; a number beyond the last component is a
    dangling pointer. *)
Definition on {C T A} (cfgs : list C) (get : world → list T) (put : (list T → list T) → world → world)
    (i : Z) (h : C → proc call T A) : proc call world A :=
  cfg ← lift (vec_get cfgs i);
  ts ← reads get;
  t ← lift (vec_get ts i);
  zoom (λ _, t) (λ f w, put (vec_set i (f t)) w) (h cfg).

Definition on_core {A} (i : Z) (h : O3Core.config → proc call O3Core.state A) : proc call world A :=
  m ← reads is_migrate_ready;
  '(a, m) ← on (cfg_cores W) o3cores (set o3cores) i (λ cfg,
    _ ← modify (set O3Core.is_migrate_ready (λ _, m));
    a ← h cfg;
    m ← reads O3Core.is_migrate_ready;
    mret (a, m));
  _ ← modify (set is_migrate_ready (λ _, m));
  mret a.

Definition on_noc {A} (i : Z) (h : Crossbar.config → proc call Crossbar.state A) : proc call world A :=
  if i =? 0 then zoom noc (set noc) (h (cfg_noc W)) else fails Undef.

Notation on_l1i := (on (cfg_l1is W) l1is (set l1is)).
Notation on_l1d := (on (cfg_l1ds W) l1ds (set l1ds)).
Notation on_tlbi := (on (cfg_tlbl1is W) tlbl1is (set tlbl1is)).
Notation on_tlbd := (on (cfg_tlbl1ds W) tlbl1ds (set tlbl1ds)).
Notation on_l2 := (on (cfg_l2s W) l2s (set l2s)).
Notation on_dir := (on (cfg_dirs W) dirs (set dirs)).
Notation on_mc := (on (cfg_mcs W) mcs (set mcs)).

(** [p_comp->process_event(curr_time)]. *)
Definition process_event (c : Comp) (t : Z) : proc call world Z :=
  match c_type c with
  | ct_o3core => on_core (c_num c) (λ cfg, O3Core.process_event cfg t)
  | ct_cachel1i => on_l1i (c_num c) (λ cfg, CacheL1.process_event cfg t)
  | ct_cachel1d => on_l1d (c_num c) (λ cfg, CacheL1.process_event cfg t)
  | ct_tlbl1i => on_tlbi (c_num c) (λ cfg, TLBL1.process_event cfg t)
  | ct_tlbl1d => on_tlbd (c_num c) (λ cfg, TLBL1.process_event cfg t)
  | ct_cachel2 => on_l2 (c_num c) (λ cfg, CacheL2.process_event cfg t)
  | ct_directory => on_dir (c_num c) (λ cfg, Directory.process_event cfg t)
  | ct_memory_controller => on_mc (c_num c) (λ cfg, MemoryController.process_event cfg t)
  | ct_crossbar => on_noc (c_num c) (λ cfg, Crossbar.process_event cfg t)
  | ct_core | ct_tlbl2 => fails Undef
  end.

(** [McSim::update_os_page_req_dist]; the page size is a shift of an [int]. *)
Definition update_os_page_req_dist (addr : Z) : proc call world unit :=
  ms ← reads mcs;
  _ ← lift (vec_get ms 0);
  when (display_os_page_usage W)
    (_ ← when (31 <=? page_sz_base_bit W) (fails Undef);
     let page_num := addr / 2 ^ page_sz_base_bit W in
     modify (λ w, w <| os_page_req_dist ::= λ m,
       <[page_num := match m !! page_num with Some n => n ⊕ 1 | None => 1 end]> m |>)).

(** What a call does to its receiver; the base class refuses a reply to a TLB. *)
Definition receive (w : call) : proc call world unit :=
  match w with
  | geq_add_event _ _ | free_lqe _ => mret tt
  | Component.update_os_page_req_dist addr => update_os_page_req_dist addr
  | add_req_event dst t l src =>
      match c_type dst with
      | ct_o3core => on_core (c_num dst) (λ cfg, O3Core.add_req_event cfg t l)
      | ct_cachel1i => on_l1i (c_num dst) (λ cfg, CacheL1.add_req_event cfg t l)
      | ct_cachel1d => on_l1d (c_num dst) (λ cfg, CacheL1.add_req_event cfg t l)
      | ct_tlbl1i => on_tlbi (c_num dst) (λ cfg, TLBL1.add_req_event cfg t l)
      | ct_tlbl1d => on_tlbd (c_num dst) (λ cfg, TLBL1.add_req_event cfg t l)
      | ct_cachel2 => on_l2 (c_num dst) (λ cfg, CacheL2.add_req_event cfg t l)
      | ct_directory => on_dir (c_num dst) (λ cfg, Directory.add_req_event cfg t l)
      | ct_memory_controller => on_mc (c_num dst) (λ cfg, MemoryController.add_req_event cfg t l)
      | ct_crossbar => on_noc (c_num dst) (λ cfg, Crossbar.add_req_event cfg t l src)
      | ct_core | ct_tlbl2 => fails Undef
      end
  | add_rep_event dst t l src =>
      match c_type dst with
      | ct_o3core => on_core (c_num dst) (λ cfg, O3Core.add_rep_event cfg t l)
      | ct_cachel1i => on_l1i (c_num dst) (λ cfg, CacheL1.add_rep_event cfg t l)
      | ct_cachel1d => on_l1d (c_num dst) (λ cfg, CacheL1.add_rep_event cfg t l)
      | ct_cachel2 => on_l2 (c_num dst) (λ cfg, CacheL2.add_rep_event cfg t l)
      | ct_directory => on_dir (c_num dst) (λ cfg, Directory.add_rep_event cfg t l)
      | ct_memory_controller => on_mc (c_num dst) (λ cfg, MemoryController.add_rep_event cfg t l)
      | ct_crossbar => on_noc (c_num dst) (λ cfg, Crossbar.add_rep_event cfg t l src)
      | ct_tlbl1i | ct_tlbl1d => fails Fatal
      | ct_core | ct_tlbl2 => fails Undef
      end
  | add_crq_event dst t l src => on_noc (c_num dst) (λ cfg, Crossbar.add_crq_event cfg t l src)
  | add_rep_flits dst t l n src => on_noc (c_num dst) (λ cfg, Crossbar.add_rep_flits cfg t l n src)
  | add_crq_flits dst t l n src => on_noc (c_num dst) (λ cfg, Crossbar.add_crq_flits cfg t l n src)
  end.

(** A handler, and what [d] does with the calls it made: their pairs for the event queue
    are what is left of them. *)
Definition followed {A} (d : call → proc (Z * Comp) world unit) (h : proc call world A)
    : proc (Z * Comp) world A := λ w,
  match h w with
  | Ok (a, w, o) =>
      match for_each o d w with
      | Ok (_, w, evs) => Ok (a, w, evs)
      | Err f => Err f
      end
  | Err f => Err f
  end.

(** A call delivered, with all the calls it leads to.  No call goes deeper than
    [max_depth] below (lemma [deliver_depth]). *)
Fixpoint deliver (depth : nat) (c : call) : proc (Z * Comp) world unit :=
  match depth with
  | O => fails Undef
  | S depth =>
      match c with
      | geq_add_event t p => emit (t, p)
      | _ => followed (deliver depth) (receive c)
      end
  end.

(** How deep the calls of a call go: a core passes messages on to its L1, and a memory
    controller of fixed latency answers its directory at once. *)
Definition depth_of (c : call) : nat :=
  match c with
  | geq_add_event _ _ | free_lqe _ | Component.update_os_page_req_dist _ => 1
  | add_req_event dst _ _ _ | add_rep_event dst _ _ _ =>
      match c_type dst with ct_o3core | ct_memory_controller => 3 | _ => 2 end
  | add_crq_event _ _ _ _ | add_rep_flits _ _ _ _ _ | add_crq_flits _ _ _ _ _ => 2
  end.

Definition max_depth : nat := 3.

(** A handler with all that follows from it. *)
Definition settled {A} (h : proc call world A) : proc (Z * Comp) world A := followed (deliver max_depth) h.

#[export] Instance machine : Machine world :=
  {| run_component c t w := settled (process_event c t) w |}.
End Components.
End Machine.

(** ** What holds of every machine *)

Module MachineProofs.
Import OrdMap PtrSet GlobalEventQueue Machine.

Section Laws.
Context {AD : Addresses} (W : wiring).

(** A machine that is connected as the components expect. *)
Record wiring_ok : Prop := {
  ok_cores : Forall (λ c, O3Pipeline.cfg_ok c ∧ c_type (O3Core.cachel1i c) = ct_cachel1i ∧
                          c_type (O3Core.cachel1d c) = ct_cachel1d) (cfg_cores W);
  ok_l1is : Forall CacheL1.latencies_ok (cfg_l1is W);
  ok_l1ds : Forall CacheL1.latencies_ok (cfg_l1ds W);
  ok_tlbl1is : Forall TLBSchedule.latencies_ok (cfg_tlbl1is W);
  ok_tlbl1ds : Forall TLBSchedule.latencies_ok (cfg_tlbl1ds W);
  ok_l2s : Forall L2Schedule.latencies_ok (cfg_l2s W);
  ok_dirs : Forall DirSchedule.latencies_ok (cfg_dirs W);
  ok_mcs : Forall (λ c, MCSchedule.latencies_ok c ∧ c_type (MemoryController.directory c) = ct_directory) (cfg_mcs W);
  ok_noc : XbarSchedule.latencies_ok (cfg_noc W);
  ok_numbers i cfg : vec_get (cfg_cores W) i = Ok cfg →
    c_num (O3Core.this cfg) = i ∧ O3Core.num_hthreads cfg = Z.of_nat (length (cfg_cores W)) }.

(** Every latency is at least [d] ticks. *)
Definition prompt (d : Z) : Prop :=
  Forall (CoreSchedule.prompt d) (cfg_cores W) ∧
  Forall (L1Schedule.prompt d) (cfg_l1is W) ∧ Forall (L1Schedule.prompt d) (cfg_l1ds W) ∧
  Forall (TLBSchedule.prompt d) (cfg_tlbl1is W) ∧ Forall (TLBSchedule.prompt d) (cfg_tlbl1ds W) ∧
  Forall (L2Schedule.prompt d) (cfg_l2s W) ∧ Forall (DirSchedule.prompt d) (cfg_dirs W) ∧
  Forall (MCSchedule.prompt d) (cfg_mcs W) ∧ XbarSchedule.prompt d (cfg_noc W).

#[export] Instance machine_prompt_dec d : Decision (prompt d).
Proof. unfold prompt. apply _. Defined.

Lemma machine_prompt_0 : wiring_ok → prompt 0.
Proof.
  intros OK. split_and!.
  - eapply Forall_impl; [apply OK|]. intros c (? & _). by apply CoreSchedule.core_prompt_0.
  - eapply Forall_impl; [apply OK|]. apply L1Schedule.l1_prompt_0.
  - eapply Forall_impl; [apply OK|]. apply L1Schedule.l1_prompt_0.
  - eapply Forall_impl; [apply OK|]. apply TLBSchedule.tlb_prompt_0.
  - eapply Forall_impl; [apply OK|]. apply TLBSchedule.tlb_prompt_0.
  - eapply Forall_impl; [apply OK|]. apply L2Schedule.l2_prompt_0.
  - eapply Forall_impl; [apply OK|]. apply DirSchedule.dir_prompt_0.
  - eapply Forall_impl; [apply OK|]. intros c [? _]. by apply MCSchedule.mc_prompt_0.
  - apply XbarSchedule.xbar_prompt_0, OK.
Qed.

Lemma emits_zoom {S T A} (P : call → Prop) (get : S → T) put (m : proc call T A) :
  emits P m → emits P (zoom get put m).
Proof. intros Hm s. specialize (Hm (get s)). unfold wp, zoom in *. by destruct (m (get s)) as [[[a t] o]|]. Qed.

Lemma emits_conj {S A} (P Q : call → Prop) (m : proc call S A) :
  emits P m → emits Q m → emits (λ c, P c ∧ Q c) m.
Proof.
  intros HP HQ s. eapply wp_mono; [apply wp_conj; [apply HP|apply HQ]|].
  intros a s' o [??]. by apply Forall_and.
Qed.

Lemma emits_on {C T A} (P : call → Prop) (ok : C → Prop) (cfgs : list C) get put i (h : C → proc call T A) :
  Forall ok cfgs → (∀ cfg, ok cfg → emits P (h cfg)) → emits P (on cfgs get put i h).
Proof.
  intros Hok Hh s. unfold on. apply wp_bind, wp_lift; [|done]. intros cfg Hcfg.
  revert s. change (emits P (ts ← reads get; t ← lift (vec_get ts i); zoom (λ _ : world, t) (λ f w, put (vec_set i (f t)) w) (h cfg))).
  repeat emits_step. apply emits_zoom, Hh. by eapply Forall_vec_get.
Qed.

Lemma emits_on_core {A} (P : call → Prop) (ok : O3Core.config → Prop) i (h : O3Core.config → proc call O3Core.state A) :
  Forall ok (cfg_cores W) → (∀ cfg, ok cfg → emits P (h cfg)) → emits P (on_core W i h).
Proof.
  intros Hok Hh. unfold on_core. emits_step; [apply emits_reads|]. emits_step.
  - eapply emits_on; [done|]. intros cfg Hcfg. repeat emits_step. by apply Hh.
  - repeat emits_step.
Qed.

Lemma emits_on_noc {A} (P : call → Prop) i (h : Crossbar.config → proc call Crossbar.state A) :
  emits P (h (cfg_noc W)) → emits P (on_noc W i h).
Proof. intros Hh. unfold on_noc. emits_step; [by apply emits_zoom|apply emits_fails]. Qed.

Ltac each := first
  [eapply emits_on_core; [apply ok_cores; done|intros ? (? & ? & ?)]
  |eapply emits_on; [first [apply ok_l1is|apply ok_l1ds|apply ok_tlbl1is|apply ok_tlbl1ds|apply ok_l2s|apply ok_dirs]; done|intros ? ?]
  |eapply emits_on; [apply ok_mcs; done|intros ? [? ?]]
  |apply emits_on_noc].

Ltac shallow :=
  repeat emits_step; apply emits_emit; cbn [depth_of];
  repeat match goal with H : c_type ?c = _ |- context [c_type ?c] => rewrite H end; lia.

(** What a component other than a core does when woken. *)
Lemma emits_wake d c t :
  wiring_ok → 0 ≤ d ≤ 1 → prompt d → 0 ≤ t < horizon → is_core c = false →
  emits (within (t + d) (2 ^ 34)) (process_event W c t).
Proof.
  intros OK Hd PR Ht Hc. assert (soon t) by (unfold soon; lia).
  unfold is_core in Hc. unfold process_event. destruct (c_type c); try done; try apply emits_fails.
  all: first [apply emits_on_noc, XbarSchedule.xbar_emits_wake; [apply OK|done|done|apply PR]
             |eapply emits_on; [apply Forall_and; split; [apply OK|apply PR]|]; intros cfg [? ?]].
  all: first [by apply L1Schedule.l1_emits_wake|by apply L2Schedule.l2_emits_wake|by apply DirSchedule.dir_emits_wake
             |by apply TLBSchedule.tlb_emits_wake|apply MCSchedule.mc_emits_wake; tauto].
Qed.

Lemma emits_process_event c t :
  wiring_ok → 0 ≤ t < horizon → emits (within t (2 ^ 34)) (process_event W c t).
Proof.
  intros OK Ht. destruct (is_core c) eqn:Hc; cycle 1.
  { pose proof (emits_wake 0 c t OK ltac:(lia) (machine_prompt_0 OK) Ht Hc) as Hw. by rewrite Z.add_0_r in Hw. }
  unfold is_core in Hc. unfold process_event. destruct (c_type c); try done; try apply emits_fails; each.
  apply CoreSchedule.core_emits_wake; [done|unfold soon; lia].
Qed.

Lemma emits_receive c t :
  wiring_ok → call_time c = Some t → soon t → emits (within t (2 ^ 34)) (receive W c).
Proof.
  intros OK Hc Ht. pose proof (ok_noc OK). destruct c as [t' c|dst t' l src|dst t' l src|dst t' l src|dst t' l n src|dst t' l n src|l|a];
    cbn in Hc; injection Hc as <- || done; cbn [receive]; [apply emits_ret|..].
  - destruct (c_type dst); try apply emits_fails; each.
    + by apply CoreSchedule.core_emits_request.
    + by apply L1Schedule.l1_emits_request.
    + by apply L1Schedule.l1_emits_request.
    + by apply L2Schedule.l2_emits_request.
    + by apply DirSchedule.dir_emits_request.
    + by apply XbarSchedule.xbar_emits_request.
    + by apply MCSchedule.mc_emits_request.
    + by apply TLBSchedule.tlb_emits_request.
    + by apply TLBSchedule.tlb_emits_request.
  - destruct (c_type dst); try apply emits_fails; each.
    + by apply CoreSchedule.core_emits_reply.
    + by apply L1Schedule.l1_emits_reply.
    + by apply L1Schedule.l1_emits_reply.
    + by apply L2Schedule.l2_emits_reply.
    + by apply DirSchedule.dir_emits_reply.
    + by apply XbarSchedule.xbar_emits_reply.
    + by apply MCSchedule.mc_emits_request.
  - apply emits_on_noc. by apply XbarSchedule.emits_coherence.
  - apply emits_on_noc. by apply XbarSchedule.emits_reply_flits.
  - apply emits_on_noc. by apply XbarSchedule.emits_coherence_flits.
Qed.

(** *** Delivery ends *)

Lemma emits_shallower c : wiring_ok → emits (λ c', (depth_of c' < depth_of c)%nat) (receive W c).
Proof.
  intros OK. destruct c as [t c|dst t l src|dst t l src|dst t l src|dst t l n src|dst t l n src|l|a]; cbn [receive depth_of];
    [apply emits_ret|..].
  - destruct (c_type dst) eqn:Hd; try apply emits_fails; each; cbv beta.
    1: unfold O3Core.add_req_event, O3Core.count_nack, O3Core.check_nacks, O3Core.loaded_one, O3Core.wake_at.
    2-3: unfold CacheL1.add_req_event. 4: unfold CacheL2.add_req_event. 5: unfold Directory.add_req_event.
    6: unfold Crossbar.add_req_event. 7: unfold MemoryController.add_req_event, MemoryController.count_page.
    8-9: unfold TLBL1.add_req_event.
    all: shallow.
  - destruct (c_type dst) eqn:Hd; try apply emits_fails; each; cbv beta.
    1: unfold O3Core.add_rep_event, O3Core.count_nack, O3Core.check_nacks, O3Core.access_type, O3Core.complete, O3Core.wake_at.
    2-3: unfold CacheL1.add_rep_event. 4: unfold CacheL2.add_rep_event. 5: unfold Directory.add_rep_event.
    6: unfold Crossbar.add_rep_event. 7: unfold MemoryController.add_rep_event, MemoryController.add_req_event, MemoryController.count_page.
    all: shallow.
  - apply emits_on_noc. unfold Crossbar.add_crq_event. shallow.
  - apply emits_on_noc. unfold Crossbar.add_rep_flits, Crossbar.add_rep_event. shallow.
  - apply emits_on_noc. unfold Crossbar.add_crq_flits, Crossbar.add_crq_event. shallow.
  - apply emits_ret.
  - unfold update_os_page_req_dist. shallow.
Qed.

Lemma depth_pos c : (1 ≤ depth_of c ≤ max_depth)%nat.
Proof. unfold max_depth. destruct c as [| dst ? ? ?|dst ? ? ?| | | | |]; cbn; try lia; destruct (c_type dst); lia. Qed.

Lemma for_each_ext {A S U} (l : list A) (f g : A → proc U S unit) s :
  (∀ x s, x ∈ l → f x s = g x s) → for_each l f s = for_each l g s.
Proof.
  revert s. induction l as [|x l IH]; intros s Hfg; [done|]. cbn [for_each]. unfold mbind, proc_bind.
  rewrite (Hfg x s) by left. destruct (g x s) as [[[u s'] o]|]; [|done]. rewrite IH; [done|].
  intros y s'' Hy. apply Hfg. by right.
Qed.

Lemma followed_ext {A} (P : call → Prop) d d' (h : proc call world A) w :
  emits P h → (∀ c w, P c → d c w = d' c w) → followed d h w = followed d' h w.
Proof.
  intros Hh Hd. specialize (Hh w). unfold followed, wp in *. destruct (h w) as [[[a w'] o]|]; [|done].
  rewrite (for_each_ext o d d'); [done|]. intros c s Hc. apply Hd. by eapply (Forall_forall P o).
Qed.

(** One run of a handler, whose calls satisfy [P] unless its answer satisfies [X]. *)
Lemma wp_followed {A} (X : A → Prop) (P : call → Prop) (Q : Z * Comp → Prop) d (h : proc call world A) w :
  wp any_failure h w (λ a _ o, X a ∨ Forall P o) → (∀ c, P c → emits Q (d c)) →
  wp any_failure (followed d h) w (λ a _ evs, X a ∨ Forall Q evs).
Proof.
  intros Hh Hd. unfold followed, wp in *. destruct (h w) as [[[a w'] o]|]; [|done].
  destruct Hh as [Ha|Ho]; [by destruct (for_each o d w') as [[[u w2] evs]|]; [left|]|].
  assert (emits Q (for_each o d)) as Hall.
  { apply emits_for_each. intros c Hc. apply Hd. by eapply (Forall_forall P o). }
  specialize (Hall w'). unfold wp in Hall. destruct (for_each o d w') as [[[u w2] evs]|]; [by right|done].
Qed.

Lemma emits_followed {A} (P : call → Prop) (Q : Z * Comp → Prop) d (h : proc call world A) :
  emits P h → (∀ c, P c → emits Q (d c)) → emits Q (followed d h).
Proof.
  intros Hh Hd w. eapply wp_mono; [apply (wp_followed (λ _, False) P Q); [|done]|].
  - eapply wp_mono; [apply Hh|]. intros a s o Ho. by right.
  - by intros a s o [[]|Ho].
Qed.

(** The bound on the depth is never reached: a deeper delivery is the same. *)
Lemma deliver_depth n c w :
  wiring_ok → (depth_of c ≤ n)%nat → deliver W n c w = deliver W (depth_of c) c w.
Proof.
  intros OK. revert c w. induction (lt_wf n) as [n _ IH]. intros c w Hn. pose proof (depth_pos c) as [Hp _].
  destruct n as [|n]; [lia|]. destruct (depth_of c) as [|d] eqn:Hd; [lia|].
  assert (followed (deliver W n) (receive W c) w = followed (deliver W d) (receive W c) w) as Heq.
  { eapply followed_ext; [by apply emits_shallower|]. intros c' w' Hc'. rewrite Hd in Hc'. rewrite (IH n) by lia.
    destruct (decide (d = n)) as [->|]; [symmetry; apply IH; lia|symmetry; apply (IH d); lia]. }
  by destruct c.
Qed.

Lemma emits_timeless c : call_time c = None → emits (λ _, False) (receive W c).
Proof.
  intros Hc. destruct c; try done; cbn [receive]; [apply emits_ret|].
  unfold update_os_page_req_dist. shallow.
Qed.

(** Each level adds a few latencies at most. *)
Lemma deliver_window n k c now :
  wiring_ok → 0 ≤ now < horizon → (k + n ≤ 8)%nat → within now (Z.of_nat k * 2 ^ 34) c →
  emits (λ e, now ≤ e.1) (deliver W n c).
Proof.
  intros OK Hnow. revert k c. induction n as [|n IH]; intros k c Hk Hc; [apply emits_fails|].
  assert (emits (λ e, now ≤ e.1) (followed (deliver W n) (receive W c))) as Hgen.
  { unfold within in Hc. destruct (call_time c) as [t|] eqn:Ht.
    - eapply emits_followed; [apply (emits_receive c t OK Ht); unfold soon, horizon in *; lia|].
      intros c' Hc'. apply (IH (S k)); [lia|]. eapply within_shift; [| |exact Hc']; lia.
    - eapply emits_followed; [by apply emits_timeless|done]. }
  destruct c as [t c| | | | | | |]; try exact Hgen. apply emits_emit. cbn in *. lia.
Qed.

Lemma emits_settled {A} now (h : proc call world A) :
  wiring_ok → 0 ≤ now < horizon → emits (within now (2 ^ 34)) h → emits (λ e, now ≤ e.1) (settled W h).
Proof.
  intros OK Hnow Hh. eapply emits_followed; [exact Hh|]. intros c Hc.
  apply (deliver_window _ 1); [done|done|unfold max_depth; lia|]. by rewrite Z.mul_1_l.
Qed.
End Laws.

(** *** Runs that stop at a tick *)

(** The machine, except that the program is stopped when tick [H] is reached. *)
Definition bounded {World} (H : Z) (M : Machine World) : Machine World :=
  {| run_component c t w := if (0 <=? t) && (t <? H) then run_component c t w else Err Fatal |}.

Lemma bounded_one {AD : Addresses} {World} H (M : Machine World) g w r :
  process_one (Machine0 := bounded H M) g w = Ok r → process_one g w = Ok r.
Proof.
  unfold process_one. destruct (map_begin (event_queue g)) as [[t s]|]; [|done].
  destruct (set_begin s) as [c|]; [|done]. cbn [run_component bounded].
  by destruct ((0 <=? t) && (t <? H)), (c_type c).
Qed.

Lemma bounded_run {AD : Addresses} {World} H (M : Machine World) fuel g w r :
  GlobalEventQueue.process_event (Machine0 := bounded H M) fuel g w = Ok r → GlobalEventQueue.process_event fuel g w = Ok r.
Proof.
  revert g w. induction fuel as [|fuel IH]; intros g w; [done|]. cbn [GlobalEventQueue.process_event].
  destruct (process_one (Machine0 := bounded H M) g w) as [[[ret g'] w']|] eqn:H1; [|done].
  rewrite (bounded_one _ _ _ _ _ H1). cbn. destruct ret; [done|]. apply IH.
Qed.

Lemma bounded_laws {AD : Addresses} W H :
  wiring_ok W → H ≤ horizon → MachineLaws (Machine0 := bounded H (machine W)) world.
Proof.
  intros OK HH. split. intros c t w r w' evs. cbn [run_component bounded machine].
  destruct ((0 <=? t) && (t <? H)) eqn:Ht; [|done]. apply andb_true_iff in Ht as [H1 H2].
  intros Hrun. pose proof (emits_settled W t (process_event W c t) OK ltac:(lia) (emits_process_event W c t OK ltac:(lia)) w) as Hs.
  exact (wp_run _ _ _ _ _ _ _ Hs Hrun).
Qed.

Lemma machine_laws {AD : Addresses} W : wiring_ok W → MachineLaws (Machine0 := bounded horizon (machine W)) world.
Proof. intros OK. by apply bounded_laws. Qed.

(** *** The threads the simulator takes for active *)

Section Active.
Context {AD : Addresses} (W : wiring).

Definition actives (w : world) : list bool := O3Core.active <$> o3cores w.

Ltac keeps_auto := repeat first
  [solve [eauto 3 with nocore]|keeps_step|apply keeps_modify; by intros].

Section Core.
Import O3Core.
Context (cfg : O3Core.config) (b : bool).
Notation same := (λ s : O3Core.state, active s = b).

Lemma keeps_load now a ks : keeps same (load_loop cfg now a ks).
Proof. revert a. induction ks as [|k ks IH]; intros a; cbn [load_loop]; keeps_auto. unfold load_one. keeps_auto. Qed.
Lemma keeps_fill_loop now q inf acc ks : keeps same (fill_loop cfg now q inf acc ks).
Proof. revert acc. induction ks as [|k ks IH]; intros acc; cbn [fill_loop]; keeps_auto. unfold fill_one. keeps_auto. Qed.
Lemma keeps_issue now n : keeps same (issue_loop cfg now n).
Proof.
  pose proof keeps_fill_loop. induction n as [|n IH]; cbn [issue_loop]; keeps_auto.
  unfold issue_one, predict, wake_at. keeps_auto.
Qed.

Lemma keeps_exec now ks c : keeps same (exec_loop cfg now ks c).
Proof.
  revert c. induction ks as [|k ks IH]; intros c; cbn [exec_loop]; keeps_auto.
  unfold exec_one, stall, send_access, complete, wake_at. keeps_auto.
Qed.
Lemma keeps_commit now n : keeps same (commit_loop cfg now n).
Proof. induction n as [|n IH]; cbn [commit_loop]; keeps_auto. Qed.

Lemma keeps_core_request t l : keeps same (add_req_event cfg t l).
Proof. unfold add_req_event, count_nack, check_nacks, loaded_one, wake_at. keeps_auto. Qed.
Lemma keeps_core_reply t l : keeps same (add_rep_event cfg t l).
Proof. unfold add_rep_event, count_nack, check_nacks, access_type, complete, wake_at. keeps_auto; apply keeps_modify; intros s Hs; by destruct (isread _). Qed.

Lemma keeps_cycle now : keeps same (cycle cfg now).
Proof.
  pose proof keeps_load. pose proof keeps_issue. pose proof keeps_exec. pose proof keeps_commit.
  unfold cycle, wake_one, wake_next, commit_more, wake_at. keeps_auto.
Qed.

Lemma keeps_core_wake now : keeps same (process_event cfg now).
Proof. pose proof keeps_cycle. unfold process_event, wake_at. keeps_auto. Qed.

(** A core asks for instructions only while its thread is active. *)
Lemma core_returns now s :
  wp any_failure (process_event cfg now) s (λ r _ _, (r = c_num (this cfg) ∧ active s = true) ∨ r = num_hthreads cfg).
Proof.
  unfold process_event. wp_step. eapply (wp_mono _ _ _ (λ _ s1 _, active s1 = active s)).
  { apply wp_when; intros _; [by wp_step|done]. }
  intros [] s1 o1 H1. do 2 wp_step. case_match eqn:Hb.
  - unfold wake_at. wp_steps. left. split; [done|]. rewrite <- H1. by apply andb_true_iff in Hb as [_ ?].
  - wp_step. eapply wp_mono; [apply O3Pipeline.wp_true|]. intros ? ? ? _. wp_step. by right.
Qed.
End Core.


Lemma keeps_zoom {S T A} (I : S → Prop) (J : T → Prop) get put (m : proc call T A) :
  (∀ s, I s → J (get s)) → (∀ t s, I s → J t → I (put (λ _, t) s)) → keeps J m → keeps I (zoom get put m).
Proof.
  intros Hget Hput Hm s Hs. specialize (Hm (get s) (Hget s Hs)). unfold wp, zoom in *.
  destruct (m (get s)) as [[[a t] o]|]; [|done]. by apply Hput.
Qed.

(** A handler of a component, run on the whole. *)
Lemma on_run {C T A} (cfgs : list C) (get : world → list T) put i (h : C → proc call T A) w a w' o :
  on cfgs get put i h w = Ok (a, w', o) →
  ∃ cfg t t', vec_get cfgs i = Ok cfg ∧ vec_get (get w) i = Ok t ∧ h cfg t = Ok (a, t', o) ∧
    w' = put (λ l, vec_set i t' l) w.
Proof.
  unfold on, mbind, proc_bind, lift, reads, zoom. destruct (vec_get cfgs i) as [cfg|]; [|done].
  destruct (vec_get (get w) i) as [t|] eqn:Ht; [|done]. destruct (h cfg t) as [[[b t'] o']|] eqn:Hh; [|done].
  intros [= <- <- <-]. by exists cfg, t, t'.
Qed.

Lemma on_core_run {A} i (h : O3Core.config → proc call O3Core.state A) w a w' o :
  on_core W i h w = Ok (a, w', o) →
  ∃ cfg s m s', vec_get (cfg_cores W) i = Ok cfg ∧ vec_get (o3cores w) i = Ok s ∧
    h cfg (s <| O3Core.is_migrate_ready := m |>) = Ok (a, s', o) ∧ o3cores w' = vec_set i s' (o3cores w).
Proof.
  unfold on_core. intros (m & w0 & o0 & o1 & [= <- <- <-] & Hrun & ->)%bind_run.
  apply bind_run in Hrun as ([x m] & w1 & o2 & o3 & Hon & Hrun & ->).
  apply bind_run in Hrun as (u & w2 & o4 & o5 & [= <- <- <-] & [= <- <- <-] & ->).
  apply on_run in Hon as (cfg & s & s' & Hc & Hs & Hh & ->).
  apply bind_run in Hh as (u & s1 & o4 & o5 & [= <- <- <-] & Hh & ->).
  apply bind_run in Hh as (b & s2 & o4 & o6 & Hh & Hrun & ->).
  apply bind_run in Hrun as (m' & s3 & o7 & o8 & [= <- <- <-] & [= -> <- <- <-] & ->).
  rewrite !app_nil_r. by exists cfg, s, (is_migrate_ready w), s2.
Qed.

Lemma on_actives {C T A} (cfgs : list C) (get : world → list T) put i (h : C → proc call T A) l :
  (∀ f w, o3cores (put f w) = o3cores w) → keeps (λ w, actives w = l) (on cfgs get put i h).
Proof.
  intros Hput w Hw. apply wp_intro; [|done]. intros a w' o (cfg & t & t' & _ & _ & _ & ->)%on_run.
  unfold actives. by rewrite Hput.
Qed.

Lemma noc_actives {A} i (h : Crossbar.config → proc call Crossbar.state A) l :
  keeps (λ w, actives w = l) (on_noc W i h).
Proof.
  unfold on_noc. keeps_step; [|apply keeps_fails]. intros w Hw. apply wp_intro; [|done]. unfold zoom.
  destruct (h _ _) as [[[a t] o]|]; [|done]. by intros ? ? ? [= <- <- <-].
Qed.

Lemma core_actives {A} i (h : O3Core.config → proc call O3Core.state A) l :
  (∀ cfg b, keeps (λ s, O3Core.active s = b) (h cfg)) → keeps (λ w, actives w = l) (on_core W i h).
Proof.
  intros Hh w Hw. apply wp_intro; [|done]. intros a w' o (cfg & s & m & s' & _ & Hs & Hrun & Hw')%on_core_run.
  rewrite <- Hw. unfold actives. rewrite Hw'.
  pose proof (wp_run _ _ _ _ _ _ _ (Hh cfg _ (s <| O3Core.is_migrate_ready := m |>) eq_refl) Hrun) as Ha. cbn in Ha.
  apply vec_get_Some in Hs as [Hi Hs]. unfold vec_set, vec_alter. destruct (Z.ltb_spec i 0); [done|].
  apply list_eq. intros k. rewrite !list_lookup_fmap. destruct (decide (k = Z.to_nat i)) as [->|].
  - rewrite list_lookup_alter_eq, Hs. cbn. by rewrite Ha.
  - by rewrite list_lookup_alter_ne.
Qed.

Ltac each_kept := first
  [apply keeps_ret|apply keeps_fails|apply noc_actives|apply on_actives; done
  |apply core_actives; intros; first [apply keeps_core_wake|apply keeps_core_request|apply keeps_core_reply]].

Lemma process_actives c t l : keeps (λ w, actives w = l) (process_event W c t).
Proof. unfold process_event. destruct (c_type c); each_kept. Qed.

Lemma receive_actives c l : keeps (λ w, actives w = l) (receive W c).
Proof.
  destruct c as [| dst ? ? ?|dst ? ? ?| | | | |]; cbn [receive]; try destruct (c_type dst); try each_kept.
  unfold update_os_page_req_dist. keeps_auto.
Qed.

Lemma followed_actives {A} d (h : proc call world A) l :
  keeps (λ w, actives w = l) h → (∀ c, keeps (λ w, actives w = l) (d c)) → keeps (λ w, actives w = l) (followed d h).
Proof.
  intros Hh Hd w Hw. specialize (Hh w Hw). unfold followed, wp in *. destruct (h w) as [[[a w1] o]|]; [|done].
  pose proof (keeps_for_each (λ w, actives w = l) o d (λ c _, Hd c) w1 Hh) as Ho. unfold wp in Ho.
  by destruct (for_each o d w1) as [[[u w2] evs]|].
Qed.

Lemma deliver_actives n c l : keeps (λ w, actives w = l) (deliver W n c).
Proof.
  revert c. induction n as [|n IH]; intros c; [apply keeps_fails|]. cbn [deliver].
  destruct c; try apply keeps_emit; apply followed_actives; auto using receive_actives.
Qed.

Lemma settled_actives {A} (h : proc call world A) l :
  keeps (λ w, actives w = l) h → keeps (λ w, actives w = l) (settled W h).
Proof. intros Hh. apply followed_actives; [done|]. intros c. apply deliver_actives. Qed.
End Active.
(** *** The thread the event loop returns *)

Section Returns.
Context {AD : Addresses} (W : wiring) (OK : wiring_ok W).

Lemma run_actives c t w r w' evs : settled W (process_event W c t) w = Ok (r, w', evs) → actives w' = actives w.
Proof.
  intros Hrun.
  exact (wp_run _ _ _ _ _ _ _ (settled_actives W _ (actives w) (process_actives W c t _) w eq_refl) Hrun).
Qed.

Lemma core_run_returns c t w r w' evs :
  is_core c = true → settled W (process_event W c t) w = Ok (r, w', evs) →
  vec_get (actives w) r = Ok true ∨ r = Z.of_nat (length (cfg_cores W)).
Proof.
  unfold is_core, settled, followed, process_event. destruct (c_type c) eqn:Hc; try done.
  intros _. destruct (on_core W _ _ w) as [[[a w1] o]|] eqn:Hon; [|done].
  destruct (for_each o _ w1) as [[[u w2] evs']|]; [|done]. intros [= -> _ _].
  apply on_core_run in Hon as (cfg & s & m & s' & Hcfg & Hs & Hrun & _).
  destruct (ok_numbers W OK _ _ Hcfg) as [Hn Hh].
  pose proof (wp_run _ _ _ _ _ _ _ (core_returns cfg t (s <| O3Core.is_migrate_ready := m |>)) Hrun) as Hr.
  cbv beta in Hr. rewrite Hn, Hh in Hr. destruct Hr as [[-> Ha]|Hr]; [left|by right].
  apply vec_get_Some in Hs as [Hi Hs]. apply vec_get_Some. split; [done|]. unfold actives.
  rewrite list_lookup_fmap, Hs. cbn. by f_equal.
Qed.

(** The loop returns a thread that is active, or [num_hthreads] on an empty queue. *)
Definition asked (g' : GEQ) (w : world) (r : Z) : Prop :=
  vec_get (actives w) r = Ok true ∨ (r = num_hthreads g' ∧ event_queue g' = ∅).

Lemma one_returns g w ret g' w' :
  num_hthreads g = Z.of_nat (length (cfg_cores W)) →
  process_one (Machine0 := machine W) g w = Ok (ret, g', w') →
  actives w' = actives w ∧ num_hthreads g' = num_hthreads g ∧ ∀ r, ret = Some r → asked g' w r.
Proof.
  intros Hn. unfold process_one. destruct (map_begin (event_queue g)) as [[t s]|] eqn:Hb; cycle 1.
  { intros [= <- <- <-]. split_and!; [done|done|]. intros r [= <-]. right. split; [done|]. by apply map_begin_None. }
  destruct (set_begin s) as [c|]; [|done]. cbn [run_component machine].
  assert (∀ r w1 evs, settled W (process_event W c t) w = Ok (r, w1, evs) → actives w1 = actives w) as Hact
    by (intros; by eapply run_actives).
  assert (∀ evs h, num_hthreads (add_events evs h) = num_hthreads h) as Hadd by (intros; apply num_hthreads_adds).
  destruct (c_type c) eqn:Hc; try done.
  all: destruct (settled W (process_event W c t) w) as [[[r1 w1] evs]|] eqn:Hrun; cbn; [|done].
  all: try match goal with |- context [map_begin ?m] => destruct (map_begin m) as [[t' s']|]; [|done]; destruct (t' =? t); [|done] end.
  all: intros [= <- <- <-]; rewrite ?Hadd; split_and!; [by eapply Hact|cbn; by rewrite ?Hadd|try done].
  all: destruct (core_run_returns c t w r1 w1 evs) as [Hr| ->]; [unfold is_core; by rewrite Hc|done|intros x; destruct (_ <? _); intros [= <-]; by left|].
  all: intros x; destruct (_ <? _) eqn:Hlt; intros [= <-].
  all: apply Z.ltb_lt in Hlt; change (Z.of_nat (length (cfg_cores W)) < num_hthreads g) in Hlt; lia.
Qed.

Lemma machine_returns fuel g w r g' w' :
  num_hthreads g = Z.of_nat (length (cfg_cores W)) →
  GlobalEventQueue.process_event (Machine0 := machine W) fuel g w = Ok (r, g', w') →
  actives w' = actives w ∧ num_hthreads g' = num_hthreads g ∧ ∀ x, r = Some x → asked g' w x.
Proof.
  revert g w. induction fuel as [|fuel IH]; intros g w Hn; cbn [GlobalEventQueue.process_event].
  { by intros [= <- <- <-]. }
  destruct (process_one g w) as [[[ret g1] w1]|] eqn:H1; [|done]. cbn.
  destruct (one_returns _ _ _ _ _ Hn H1) as (Ha & Hh & Hr). destruct ret as [x|].
  - intros [= <- <- <-]. split_and!; [done..|]. intros y [= <-]. by apply Hr.
  - intros Hrun. destruct (IH g1 w1) as (Ha' & Hh' & Hr'); [congruence|done|].
    split_and!; [congruence..|]. intros y Hy. specialize (Hr' y Hy). unfold asked in *. by rewrite Ha in Hr'.
Qed.
(** *** Progress *)

(** A component that is not a core asking for instructions schedules strictly later. *)
Lemma asks_or_later c t w :
  prompt W 1 → 0 ≤ t < horizon → is_core c = true →
  wp any_failure (process_event W c t) w
    (λ r _ o, r < Z.of_nat (length (cfg_cores W)) ∨ Forall (within (t + 1) (2 ^ 34)) o).
Proof.
  intros PR Ht Hc. unfold is_core in Hc. unfold process_event. destruct (c_type c); try done.
  apply wp_intro; [|done]. intros r w' o (cfg & s & m & s' & Hcfg & Hs & Hrun & _)%on_core_run.
  destruct (ok_numbers W OK _ _ Hcfg) as [Hn _].
  destruct (Forall_vec_get _ _ _ _ (ok_cores W OK) Hcfg) as [Hok _].
  pose proof (Forall_vec_get _ _ _ _ (proj1 PR) Hcfg) as Hpr.
  pose proof (CoreSchedule.core_wakes_later cfg Hok t ltac:(unfold soon; lia) 1 ltac:(lia) Hpr
    (s <| O3Core.is_migrate_ready := m |>)) as Hw.
  destruct (wp_run _ _ _ _ _ _ _ Hw Hrun) as [->|Ho]; [left|by right].
  rewrite Hn. apply vec_get_Some in Hcfg as [H0 Hl]. apply lookup_lt_Some in Hl. lia.
Qed.

Lemma machine_later T :
  prompt W 1 → T + 1 < horizon →
  strictly_later (Machine0 := bounded (T + 1) (machine W)) (Z.of_nat (length (cfg_cores W))).
Proof.
  intros PR HT c t w r w' evs. cbn [run_component bounded machine].
  destruct ((0 <=? t) && (t <? T + 1)) eqn:Ht; [|done]. apply andb_true_iff in Ht as [H1 H2]. intros Hrun.
  assert (∀ X : Z → Prop, wp any_failure (process_event W c t) w (λ r _ o, X r ∨ Forall (within (t + 1) (2 ^ 34)) o) →
    X r ∨ Forall (λ e, t < e.1) evs) as Hgen.
  { intros X Hw. enough (X r ∨ Forall (λ e, t + 1 ≤ e.1) evs) as [?|He];
      [by left|right; eapply Forall_impl; [exact He|cbv beta; lia]|].
    refine (wp_run _ _ _ _ _ _ _ (wp_followed X (within (t + 1) (2 ^ 34)) (λ e, t + 1 ≤ e.1) _ _ w Hw _) Hrun).
    intros k Hk. apply (deliver_window W _ 1); [done|lia|unfold max_depth; lia|by rewrite Z.mul_1_l]. }
  destruct (is_core c) eqn:Hc.
  - destruct (Hgen _ (asks_or_later c t w PR ltac:(lia) Hc)); [by left|by right].
  - right. destruct (Hgen (λ _, False)) as [[]|?]; [|done].
    eapply wp_mono; [exact (emits_wake W 1 c t OK ltac:(lia) PR ltac:(lia) Hc w)|]. intros a s o Ho. by right.
Qed.

(** A tick before the bound: the bounded machine runs as the real one. *)
Lemma bounded_eq H g w t s :
  map_begin (event_queue g) = Some (t, s) → 0 ≤ t < H →
  process_one (Machine0 := bounded H (machine W)) g w = process_one (Machine0 := machine W) g w.
Proof.
  intros Hb Ht. unfold process_one. rewrite Hb. cbn [run_component bounded].
  by rewrite (proj2 (Z.leb_le 0 t)), (proj2 (Z.ltb_lt t H)) by lia.
Qed.

(** The state of the queue before tick [T]. *)
Record before (H T : Z) (g : GEQ) : Prop := {
  bef_wf : wf g;
  bef_threads : num_hthreads g = Z.of_nat (length (cfg_cores W));
  bef_time : curr_time g < H;
  bef_pending t c : pending g t c → T ≤ t }.

Notation reaches H n g w P := (after (Machine0 := machine W) H n g w (λ g' (_ : world), P g')).

(** One tick is emptied after as many rounds as it has components. *)
Lemma tick_empties H T k g w :
  prompt W 1 → H < horizon → 0 ≤ T < H → before H T g → size (at_tick g T) = k →
  ∃ n, reaches H n g w (before H (T + 1)).
Proof.
  intros PR HH HT. pose proof (bounded_laws W H OK ltac:(lia)) as Hlaws.
  revert g w. induction (lt_wf k) as [k _ IH]. intros g w [Hwf Hn Hc Hp] Hk.
  destruct (decide (at_tick g T = ∅)) as [He|Hne].
  { exists 0%nat. split; [done..|]. intros t c Hpc. specialize (Hp _ _ Hpc).
    destruct (decide (t = T)) as [->|]; [|lia]. unfold pending in Hpc. unfold at_tick in He.
    rewrite He in Hpc. set_solver. }
  assert (∃ s, map_begin (event_queue g) = Some (T, s)) as [s Hb].
  { apply set_choose_L in Hne as [d Hd]. destruct (map_begin (event_queue g)) as [[t s]|] eqn:Hb.
    - pose proof (pending_earliest _ _ _ Hb _ _ Hd). pose proof (map_begin_Some _ _ _ Hb) as [Hs _].
      destruct (set_choose_L s) as [e Hin]; [by destruct (Hwf _ _ Hs)|].
      specialize (Hp t e). unfold pending in Hp. rewrite Hs in Hp. specialize (Hp Hin).
      exists s. do 2 f_equal. lia.
    - apply map_begin_None in Hb. unfold at_tick in Hd. rewrite Hb in Hd. set_solver. }
  apply (after_then H 1 g w (λ g' _, before H T g' ∧ (size (at_tick g' T) < k)%nat)).
  - unfold after. cbn [GlobalEventQueue.process_event]. pose proof (bounded_eq H g w T s Hb HT) as Heq.
    destruct (process_one (Machine0 := machine W) g w) as [[[[r|] g1] w1]|f] eqn:E; cbn; [done| |].
    + destruct (process_one_wakes _ _ _ _ _ Hwf Heq) as (Hw & Hwf1 & _).
      destruct (one_returns _ _ _ _ _ Hn E) as (_ & Hn1 & _).
      pose proof (machine_later (H - 1) PR ltac:(lia)) as Hlater. rewrite Z.sub_add, <- Hn in Hlater.
      destruct (wakes_shrinks _ _ _ _ _ Hw Hlater Hp) as [HT1 Hsub].
      split; [split; [done|congruence| |done]|rewrite <- Hk; by apply subset_size, Hsub].
      inversion Hw as [|t c r evs ? ? ? Hpt Hl Hrun Hg1 _ _]; subst. rewrite Hg1. cbn.
      apply set_choose_L in Hne as [d Hd]. destruct (Hl T d Hd); lia.
    + destruct (process_one_fails _ _ _ Hwf Heq) as (t & c & Hpt & Hl & Hf).
      assert (t = T) as ->.
      { apply set_choose_L in Hne as [d Hd]. pose proof (Hl T d Hd). pose proof (Hp _ _ Hpt). lia. }
      exists T, c, w. split; [lia|]. destruct Hf as [Hf|?]; [left|by right].
      cbn [run_component bounded] in Hf. by rewrite (proj2 (Z.leb_le 0 T)), (proj2 (Z.ltb_lt T H)) in Hf by lia.
  - intros g1 w1 [Hg1 Hlt]. by eapply IH.
Qed.

Lemma time_advances H k T g w :
  prompt W 1 → H < horizon → 0 ≤ T → T + Z.of_nat k ≤ H → before H T g →
  ∃ n, reaches H n g w (before H (T + Z.of_nat k)).
Proof.
  intros PR HH. revert T g w. induction k as [|k IH]; intros T g w H0 HT Hg.
  { exists 0%nat. by rewrite Z.add_0_r. }
  destruct (tick_empties H T _ g w PR HH ltac:(lia) Hg eq_refl) as [n Hn].
  eapply after_then; [exact Hn|]. intros g' w' Hg'. destruct (IH (T + 1) g' w') as [m Hm]; [lia|lia|done|].
  exists m. by replace (T + Z.of_nat (S k)) with (T + 1 + Z.of_nat k) by lia.
Qed.
End Returns.

End MachineProofs.
