(* ===== verification/McSim.v ===== *)
(** * The timing simulator: what it is asked to do (McSim, McSim.h and McSim.cc)

    [add_instruction] gives a core an instruction, [resume_simulation] runs the machine
    until a thread needs more, [set_active] and [set_stack_n_size] describe the threads. *)

From S2P Require Export Machine.

Module McSim.
Import GlobalEventQueue Machine MachineProofs.

Record config := { wires : wiring; print_interval : Z }.

Record mcsim := {
  global_q : GEQ;
  parts : world;
  num_fetched_instrs : Z;
  num_instrs_printed_last_time : Z;
  curr_time_last : Z;
  num_fetched_instrs_last : Z;
  num_mem_acc_last : Z;
  num_used_pages_last : Z;
  num_l1_acc_last : Z;
  num_l1_miss_last : Z;
  num_l2_acc_last : Z;
  num_l2_miss_last : Z }.

(** A sum of 64-bit counters. *)
Definition total {A} (f : A → Z) (l : list A) : Z := foldl (λ n x, n ⊕ f x) 0 l.

Section Operations.
Context {AD : Addresses} (cfg : config).
Notation W := (wires cfg).

(** A handler of a component, with its events put into the queue. *)
Definition run {A} (h : proc call world A) (s : mcsim) : outcome (A * mcsim) :=
  '(a, w, evs) ← settled W h (parts s);
  Ok (a, s <| parts := w |> <| global_q ::= add_events evs |>).

(** ** Threads *)

Definition set_stack_n_size (pth_id stack stacksize : Z) (s : mcsim) : outcome mcsim :=
  '(_, s) ← run (on_core W pth_id (λ _, modify (λ c, c <| O3Core.stack := stack |> <| O3Core.stacksize := stacksize |>))) s;
  Ok s.

Definition set_active (pth_id : Z) (is_active : bool) (s : mcsim) : outcome mcsim :=
  '(_, s) ← run (on_core W pth_id (λ _, modify (set O3Core.active (λ _, is_active)))) s;
  Ok s.

Definition get_num_hthreads (s : mcsim) : Z := num_hthreads (global_q s).
Definition get_curr_time (s : mcsim) : Z := curr_time (global_q s).

Context {xed : O3Core.XedCategories}.

Definition add_instruction (hthreadid curr_time_ : Z) (i : O3Core.instruction) (s : mcsim) : outcome (Z * mcsim) :=
  run (on_core W hthreadid (λ c, O3Core.add_instruction c curr_time_ i)) (s <| num_fetched_instrs ::= λ n, n ⊕ 1 |>).

(** ** The report *)

Definition l1_acc (d i : CacheL1.state) : Z :=
  CacheL1.num_rd_access d + CacheL1.num_wr_access d + CacheL1.num_rd_access i + CacheL1.num_wr_access i
  - CacheL1.num_nack d - CacheL1.num_nack i.
Definition l1_miss (d i : CacheL1.state) : Z :=
  CacheL1.num_rd_miss d + CacheL1.num_wr_miss d + CacheL1.num_rd_miss i + CacheL1.num_wr_miss i
  - CacheL1.num_nack d - CacheL1.num_nack i.
Definition l2_acc (c : CacheL2.state) : Z :=
  CacheL2.num_rd_access c + CacheL2.num_wr_access c - CacheL2.num_nack c.
Definition l2_miss (c : CacheL2.state) : Z :=
  CacheL2.num_rd_miss c + CacheL2.num_wr_miss c - CacheL2.num_nack c.

Definition account (m : MemoryController.state) : outcome MemoryController.state :=
  '(_, m, _) ← MemoryController.update_acc_dist m; Ok m.

(** The statistics of an interval are printed: the totals are kept for the next report,
    and the page counters of the memory controllers start again. *)
Definition report (s : mcsim) : outcome mcsim :=
  let w := parts s in
  _ ← (if (length (l1is w) <? length (l1ds w))%nat then Err Undef else Ok tt);
  let caches := zip (l1ds w) (l1is w) in
  ms ← mapM account (mcs w);
  Ok (s <| parts := w <| mcs := ms |> |>
    <| num_l1_acc_last := total (λ c, l1_acc c.1 c.2) caches |>
    <| num_l1_miss_last := total (λ c, l1_miss c.1 c.2) caches |>
    <| num_l2_acc_last := total l2_acc (l2s w) |>
    <| num_l2_miss_last := total l2_miss (l2s w) |>
    <| num_mem_acc_last := total MemoryController.num_reqs (mcs w) |>
    <| num_used_pages_last := total (λ m, Z.of_nat (size (MemoryController.os_page_acc_dist m))) ms |>
    <| num_fetched_instrs_last := num_fetched_instrs s |>
    <| curr_time_last := curr_time (global_q s) |>).

Definition maybe_report (s : mcsim) : outcome mcsim :=
  if print_interval cfg =? 0 then Err Undef
  else
    let n := num_fetched_instrs s / print_interval cfg in
    if n =? num_instrs_printed_last_time s then Ok s
    else report (s <| num_instrs_printed_last_time := n |>).

(** ** Simulation *)

(** The first core whose thread is active. *)
Definition first_active (w : world) : outcome (option Z) :=
  match list_find (λ c, O3Core.active c = true) (o3cores w) with
  | Some (i, _) => c ← vec_get (cfg_cores W) (Z.of_nat i); Ok (Some (c_num (O3Core.this c)))
  | None => Ok None
  end.

Definition is_empty (g : GEQ) : bool := bool_decide (event_queue g = ∅).

(** The argument [must_switch] is not used.  The result is the hardware thread that needs
    instructions, and the time; none when [fuel] rounds of the event loop do not reach it.
    [M] is the machine the loop runs. *)
Definition resume_with (M : Machine world) (fuel : nat) (s : mcsim) : outcome (option (Z * Z) * mcsim) :=
  any ← (if is_empty (global_q s) then first_active (parts s) else Ok None);
  match any with
  | Some num => Ok (Some (num, curr_time (global_q s)), s)
  | None =>
      '(ret, g, w) ← GlobalEventQueue.process_event (Machine0 := M) fuel (global_q s) (parts s);
      let s := s <| global_q := g |> <| parts := w |> in
      match ret with
      | None => Ok (None, s)
      | Some r => s ← maybe_report s; Ok (Some (r, curr_time g), s)
      end
  end.

Definition resume_simulation (fuel : nat) (must_switch : bool) (s : mcsim) : outcome (option (Z * Z) * mcsim) :=
  resume_with (machine W) fuel s.
End Operations.

(** ** Construction *)

(** What the memory of a new object holds where its constructor leaves it as it is. *)
Record leftovers := {
  left_queue : Z → nat → O3Core.O3Queue;
  left_rob : Z → nat → O3Core.O3ROB;
  left_tRP : Z → Z }.

Section Construction.
Context (p : params) (L : leftovers).

Definition hthreads : Z := u32 (pts_get_param_uint64 p "pts.num_hthreads" max_hthreads).
Definition num_threads_per_l1_cache : Z := u32 (pts_get_param_uint64 p "pts.num_hthreads_per_l1$" 4).
Definition num_l1_caches_per_l2_cache : Z := u32 (pts_get_param_uint64 p "pts.num_l1$_per_l2$" 2).
Definition num_memory_controllers : Z := u32 (pts_get_param_uint64 p "pts.num_mcs" 2).
Definition num_l2_caches : Z := hthreads / num_l1_caches_per_l2_cache.

(** The L2 cache of an L1 cache. *)
Definition l2_of (i : Z) : Comp := Build_Comp ct_cachel2 (i / num_l1_caches_per_l2_cache).
Definition l2_comps : list Comp := Build_Comp ct_cachel2 <$> upto num_l2_caches.
Definition dir_comps : list Comp := Build_Comp ct_directory <$> upto num_l2_caches.
Definition xbar : Comp := Build_Comp ct_crossbar 0.

Definition new_core (i : Z) : outcome O3Core.config :=
  O3Core.make_config p (Build_Comp ct_o3core i) (Build_Comp ct_cachel1d i) (Build_Comp ct_cachel1i i)
    (Build_Comp ct_tlbl1d i) (Build_Comp ct_tlbl1i i) (get_param_uint64 p ct_cachel1i "set_lsb" 6) hthreads
    (pts_get_param_bool p "pts.skip_all_instrs" false).
Definition core_state (cfg : O3Core.config) : O3Core.state :=
  let i := c_num (O3Core.this cfg) in
  O3Core.init (get_param_uint64 p ct_o3core "num_bp_entries" 256) (get_param_uint64 p ct_o3core "gp_size" 0)
    (left_queue L i <$> seq 0 (Z.to_nat (O3Core.o3queue_max_size cfg)))
    (left_rob L i <$> seq 0 (Z.to_nat (O3Core.o3rob_max_size cfg))) (Z.to_nat hthreads).
Definition new_l1 (t : component_type) (i : Z) : outcome CacheL1.config :=
  CacheL1.make_config p (Build_Comp t i) (l2_of i).
Definition new_tlb (t : component_type) (i : Z) : TLBL1.config := TLBL1.make_config p (Build_Comp t i).
Definition new_l2 (i : Z) : outcome CacheL2.config :=
  CacheL2.make_config p (Build_Comp ct_cachel2 i) (Build_Comp ct_directory i) xbar (which_mc (make p)).
Definition new_mc (i : Z) : MemoryController.config :=
  MemoryController.make_config p (Build_Comp ct_memory_controller i) (Build_Comp ct_directory i) hthreads (left_tRP L i).
Definition new_dir (i : Z) : Directory.config :=
  Directory.make_config p (Build_Comp ct_directory i) (Build_Comp ct_memory_controller i) (Build_Comp ct_cachel2 i)
    xbar l2_comps.
Definition new_noc : Crossbar.config :=
  Crossbar.make_config p xbar num_l2_caches dir_comps (which_mc (make p)).

(** The checks of [connect_comps]; the pointers it stores are in the components. *)
Definition connect_comps (l2s : list CacheL2.config) : outcome unit :=
  if hthreads <? num_memory_controllers ⊗₃₂ num_l1_caches_per_l2_cache then Err Fatal
  else if negb (bool_decide (pts_get_param_str p "pts.noc_type" = "xbar"%string)) then Err Fatal
  else _ ← mapM (λ i, vec_get l2s (i / num_l1_caches_per_l2_cache)) (upto hthreads); Ok tt.

Definition create_comps : outcome wiring :=
  _ ← (if num_threads_per_l1_cache =? 1 then Ok tt else Err Fatal);
  cores ← mapM new_core (upto hthreads);
  l1 ← mapM (λ i, ci ← new_l1 ct_cachel1i i; cd ← new_l1 ct_cachel1d i; Ok (ci, cd)) (upto hthreads);
  _ ← (if num_l1_caches_per_l2_cache =? 0 then Err Undef else Ok tt);
  l2 ← mapM new_l2 (upto num_l2_caches);
  _ ← connect_comps l2;
  Ok {| cfg_cores := cores; cfg_l1is := l1.*1; cfg_l1ds := l1.*2;
        cfg_tlbl1is := new_tlb ct_tlbl1i <$> upto hthreads; cfg_tlbl1ds := new_tlb ct_tlbl1d <$> upto hthreads;
        cfg_l2s := l2; cfg_dirs := new_dir <$> upto num_l2_caches; cfg_mcs := new_mc <$> upto num_l2_caches;
        cfg_noc := new_noc;
        display_os_page_usage := get_param_bool p ct_memory_controller "display_os_page_usage" false;
        page_sz_base_bit := GlobalEventQueue.page_sz_base_bit (make p) |}.

(** The components of a machine as their constructors leave them. *)
Definition new_world (W : wiring) : world := {|
  o3cores := core_state <$> cfg_cores W;
  l1is := CacheL1.init <$> cfg_l1is W;
  l1ds := CacheL1.init <$> cfg_l1ds W;
  tlbl1is := (λ _, TLBL1.init) <$> cfg_tlbl1is W;
  tlbl1ds := (λ _, TLBL1.init) <$> cfg_tlbl1ds W;
  l2s := CacheL2.init <$> cfg_l2s W;
  dirs := Directory.init <$> cfg_dirs W;
  mcs := MemoryController.init <$> cfg_mcs W;
  noc := Crossbar.init num_l2_caches;
  is_migrate_ready := replicate (Z.to_nat hthreads) false;
  os_page_req_dist := ∅ |}.

(** The events that the constructors of the memory controllers put into the queue. *)
Definition refresh_events (W : wiring) : list (Z * Comp) :=
  let evs c := (MemoryController.refresh_interval c, MemoryController.this c) in
  filter (λ e, e.1 ≠ 0) (evs <$> cfg_mcs W).

Definition new_mcsim : outcome (config * mcsim) :=
  W ← create_comps;
  Ok ({| wires := W; print_interval := pts_get_param_uint64 p "pts.print_interval" 1000000 |},
      {| global_q := add_events (refresh_events W) (make p); parts := new_world W;
         num_fetched_instrs := 0; num_instrs_printed_last_time := 0; curr_time_last := 0;
         num_fetched_instrs_last := 0; num_mem_acc_last := 0; num_used_pages_last := 0;
         num_l1_acc_last := 0; num_l1_miss_last := 0; num_l2_acc_last := 0; num_l2_miss_last := 0 |}).
End Construction.
End McSim.

(** ** Theorems *)

Module McSimProofs.
Import GlobalEventQueue Machine MachineProofs McSim.

Section Resume.
Context {AD : Addresses} (cfg : config) (OK : wiring_ok (wires cfg)).
Notation W := (wires cfg).

(** A machine between two requests. *)
Record sim_ok (s : mcsim) : Prop := {
  sim_queue : wf (global_q s);
  sim_threads : num_hthreads (global_q s) = Z.of_nat (length (cfg_cores W));
  sim_cores : length (o3cores (parts s)) = length (cfg_cores W) }.

Lemma maybe_report_keeps s s' :
  maybe_report cfg s = Ok s' → global_q s' = global_q s ∧ actives (parts s') = actives (parts s).
Proof.
  unfold maybe_report, report. destruct (_ =? 0); [done|]. destruct (_ =? _); [by intros [= <-]|].
  destruct (_ <? _)%nat; [done|]. cbn. destruct (mapM account (mcs (parts s))); [|done]. by intros [= <-].
Qed.

Lemma actives_length w w' : actives w' = actives w → length (o3cores w') = length (o3cores w).
Proof. intros Ha%(f_equal length). unfold actives in Ha. by rewrite !length_fmap in Ha. Qed.

Lemma first_active_active w r :
  length (o3cores w) = length (cfg_cores W) → first_active cfg w = Ok (Some r) → vec_get (actives w) r = Ok true.
Proof.
  intros Hl. unfold first_active. destruct (list_find _ _) as [[i c]|] eqn:Hf; [|done].
  apply list_find_Some in Hf as (Hi & Ha & _). destruct (vec_get _ _) as [cc|] eqn:Hc; [|done]. cbn. intros [= <-].
  destruct (ok_numbers W OK _ _ Hc) as [-> _]. apply vec_get_Some. split; [lia|].
  unfold actives. by rewrite Nat2Z.id, list_lookup_fmap, Hi, <- Ha.
Qed.

Lemma first_active_none w : first_active cfg w = Ok None → true ∉ actives w.
Proof.
  unfold first_active. destruct (list_find _ _) as [[i c]|] eqn:Hf.
  - by destruct (vec_get _ _).
  - intros _ (c & Ha & Hc)%list_elem_of_fmap. apply list_find_None in Hf. rewrite Forall_forall in Hf. by apply (Hf c).
Qed.

Lemma first_active_total w : length (o3cores w) = length (cfg_cores W) → ∃ r, first_active cfg w = Ok r.
Proof.
  intros Hl. unfold first_active. destruct (list_find _ _) as [[i c]|] eqn:Hf; [|by eexists].
  apply list_find_Some in Hf as (Hi & _). apply lookup_lt_Some in Hi.
  destruct (lookup_lt_is_Some_2 (cfg_cores W) i) as [cc Hcc]; [lia|].
  rewrite (proj2 (vec_get_Some (cfg_cores W) (Z.of_nat i) cc)); [by eexists|]. rewrite Nat2Z.id. split; [lia|done].
Qed.

Lemma is_empty_spec g : is_empty g = true ↔ event_queue g = ∅.
Proof. unfold is_empty. apply bool_decide_eq_true. Qed.

(** What a call of [resume_simulation] may answer, from [s] to [s']. *)
Definition answered (s s' : mcsim) (h t : Z) : Prop :=
  t = curr_time (global_q s') ∧
  (vec_get (actives (parts s')) h = Ok true ∨
   (h = num_hthreads (global_q s) ∧ event_queue (global_q s') = ∅ ∧
    (event_queue (global_q s) = ∅ → true ∉ actives (parts s)))).

(** A call that stays below the horizon. *)
Lemma resume_runs fuel s r s' :
  sim_ok s → resume_with cfg (bounded horizon (machine W)) fuel s = Ok (r, s') →
  resume_simulation cfg fuel true s = Ok (r, s') ∧ sim_ok s' ∧
  curr_time (global_q s) ≤ curr_time (global_q s') ∧ actives (parts s') = actives (parts s) ∧
  ∀ h t, r = Some (h, t) → answered s s' h t.
Proof.
  intros Hs. unfold resume_simulation, resume_with.
  destruct (if is_empty _ then _ else _) as [any|] eqn:Hany; [cbn|done].
  assert (event_queue (global_q s) = ∅ → first_active cfg (parts s) = Ok any) as Hfirst.
  { intros He. apply is_empty_spec in He. by rewrite He in Hany. }
  destruct any as [num|].
  + intros [= <- <-]. split_and!; [done..|]. intros h t [= <- <-]. split; [done|left].
    destruct (is_empty (global_q s)) eqn:He; [|done]. by apply first_active_active; [apply Hs|].
  + destruct (GlobalEventQueue.process_event _ _ _) as [[[ret g] w]|] eqn:Hrun; [cbn|done].
    pose proof (machine_laws W OK) as Hlaws.
    destruct (process_event_runs _ _ _ _ _ _ (sim_queue s Hs) Hrun) as (_ & Hwf & Hle).
    apply bounded_run in Hrun. rewrite Hrun. cbn.
    destruct (machine_returns W OK _ _ _ _ _ _ (sim_threads s Hs) Hrun) as (Ha & Hn & Hask).
    assert (∀ s1, global_q s1 = g → actives (parts s1) = actives w →
      sim_ok s1 ∧ curr_time (global_q s) ≤ curr_time (global_q s1) ∧ actives (parts s1) = actives (parts s)) as Hok.
    { intros s1 Hg1 H1. rewrite Hg1. split_and!; [split; rewrite ?Hg1; [done|rewrite Hn; apply Hs|]|done|congruence].
      rewrite <- (sim_cores s Hs). apply actives_length. congruence. }
    destruct ret as [x|]; cycle 1.
    { intros [= <- <-]. split; [done|]. cbn. destruct (Hok (s <| global_q := g |> <| parts := w |>)) as (? & ? & ?); [done..|].
      by split_and!. }
    destruct (maybe_report cfg _) as [s1|] eqn:Hrep; [|done]. intros [= <- <-].
    apply maybe_report_keeps in Hrep as [Hg Hw]. destruct (Hok s1 Hg Hw) as (? & ? & Hact).
    split_and!; [done..|]. intros h t [= <- <-]. split; [by rewrite Hg|].
    destruct (Hask x eq_refl) as [Hx|[Hx He]]; [left; by rewrite Hact|].
    right. rewrite Hg. split_and!; [by rewrite Hx, Hn|done|]. intros Hemp. apply first_active_none, Hfirst, Hemp.
Qed.

(** C3: resuming the simulation, whatever the fuel, as long as no tick from 2^63 on is
    reached: the simulated time does not go back, it is the time that is answered, which
    threads are active does not change, and the thread answered is an active one; or else
    it is [num_hthreads], with no event left, and with no active thread if there was no
    event from the start.  When there is no event and a thread is active the answer comes
    at once, without fuel. *)
Theorem resume_answers fuel s :
  sim_ok s →
  (∀ r s', resume_with cfg (bounded horizon (machine W)) fuel s = Ok (r, s') →
     resume_simulation cfg fuel true s = Ok (r, s') ∧ sim_ok s' ∧
     curr_time (global_q s) ≤ curr_time (global_q s') ∧ actives (parts s') = actives (parts s) ∧
     ∀ h t, r = Some (h, t) → answered s s' h t) ∧
  (event_queue (global_q s) = ∅ → true ∈ actives (parts s) →
     ∃ h, resume_simulation cfg fuel true s = Ok (Some (h, curr_time (global_q s)), s) ∧
       vec_get (actives (parts s)) h = Ok true).
Proof.
  intros Hs. split.
  - intros r s'. by apply resume_runs.
  - intros He Ht. pose proof (proj2 (is_empty_spec _) He) as Hb. unfold resume_simulation, resume_with. rewrite Hb.
    destruct (first_active_total (parts s) (sim_cores s Hs)) as [[h|] Hf].
    + rewrite Hf. eexists. split; [done|]. apply first_active_active; [apply Hs|done].
    + by apply first_active_none in Hf.
Qed.
End Resume.
(** ** The machine the constructor builds *)

(** Every pointer of a component leads to an existing component of the kind it is used
    as, and the component that points back.  [k] L1 caches share an L2 cache. *)
Record connected (W : wiring) (k : Z) : Prop := {
  conn_core i c : vec_get (cfg_cores W) i = Ok c →
    O3Core.this c = Build_Comp ct_o3core i ∧
    O3Core.cachel1i c = Build_Comp ct_cachel1i i ∧ O3Core.cachel1d c = Build_Comp ct_cachel1d i ∧
    O3Core.tlbl1i c = Build_Comp ct_tlbl1i i ∧ O3Core.tlbl1d c = Build_Comp ct_tlbl1d i ∧
    (∃ l1i, vec_get (cfg_l1is W) i = Ok l1i) ∧ (∃ l1d, vec_get (cfg_l1ds W) i = Ok l1d) ∧
    (∃ ti, vec_get (cfg_tlbl1is W) i = Ok ti) ∧ (∃ td, vec_get (cfg_tlbl1ds W) i = Ok td);
  conn_l1i i c : vec_get (cfg_l1is W) i = Ok c →
    CacheL1.this c = Build_Comp ct_cachel1i i ∧ CacheL1.cachel2 c = Build_Comp ct_cachel2 (i / k) ∧
    ∃ l2, vec_get (cfg_l2s W) (i / k) = Ok l2;
  conn_l1d i c : vec_get (cfg_l1ds W) i = Ok c →
    CacheL1.this c = Build_Comp ct_cachel1d i ∧ CacheL1.cachel2 c = Build_Comp ct_cachel2 (i / k) ∧
    ∃ l2, vec_get (cfg_l2s W) (i / k) = Ok l2;
  conn_l2 j c : vec_get (cfg_l2s W) j = Ok c →
    CacheL2.this c = Build_Comp ct_cachel2 j ∧ CacheL2.directory c = Build_Comp ct_directory j ∧
    CacheL2.crossbar c = Crossbar.this (cfg_noc W) ∧
    ∃ d m, vec_get (cfg_dirs W) j = Ok d ∧ vec_get (cfg_mcs W) j = Ok m ∧
      Directory.this d = Build_Comp ct_directory j ∧ Directory.cachel2 d = CacheL2.this c ∧
      Directory.crossbar d = Crossbar.this (cfg_noc W) ∧ Directory.memorycontroller d = MemoryController.this m ∧
      MemoryController.this m = Build_Comp ct_memory_controller j ∧ MemoryController.directory m = Directory.this d;
  conn_noc : Crossbar.this (cfg_noc W) = Build_Comp ct_crossbar 0 ∧
    Crossbar.num_ports (cfg_noc W) = Z.of_nat (length (cfg_l2s W)) ∧
    Crossbar.directory (cfg_noc W) = Directory.this <$> cfg_dirs W ∧
    Forall (λ d, Directory.l2s d = CacheL2.this <$> cfg_l2s W) (cfg_dirs W) }.

(** Sizes that the arithmetic of the cores can hold, and the mode of the memory
    controllers whose handler no machine can run. *)
Record moderate (p : params) : Prop := {
  mod_rob : get_param_uint64 p ct_o3core "o3rob_max_size" 16 < 2 ^ 31;
  mod_queue : get_param_uint64 p ct_o3core "o3queue_max_size" 64 < 2 ^ 30 - 4;
  mod_line : get_param_uint64 p ct_cachel1i "set_lsb" 6 < 64;
  mod_mode : get_param_bool p ct_memory_controller "is_fixed_bw_n_latency" false = false }.

(** The parameters a machine can be built from. *)
Record buildable (p : params) : Prop := {
  bld_l1 : num_threads_per_l1_cache p = 1;
  bld_share : num_l1_caches_per_l2_cache p ≠ 0 ∧ (num_l1_caches_per_l2_cache p | hthreads p);
  bld_mcs : num_memory_controllers p ⊗₃₂ num_l1_caches_per_l2_cache p ≤ hthreads p;
  bld_noc : pts_get_param_str p "pts.noc_type" = "xbar"%string;
  bld_interval : get_param_uint64 p ct_o3core "process_interval" 80 ≠ 0;
  bld_rob : 4 ≤ get_param_uint64 p ct_o3core "o3rob_max_size" 16;
  bld_l1i : get_param_uint64 p ct_cachel1i "set_lsb" 6 ≤
    u32 (pts_get_param_uint64 p "pts.l2$.set_lsb" (get_param_uint64 p ct_cachel1i "set_lsb" 6));
  bld_l1d : get_param_uint64 p ct_cachel1d "set_lsb" 6 ≤
    u32 (pts_get_param_uint64 p "pts.l2$.set_lsb" (get_param_uint64 p ct_cachel1d "set_lsb" 6));
  bld_banks : get_param_uint64 p ct_cachel2 "num_banks" 1 ≠ 0 }.

Lemma make_wf p : wf (make p).
Proof. intros t s Hs. cbn in Hs. by rewrite lookup_empty in Hs. Qed.

Section Built.
Context {AD : Addresses} (p : params) (L : leftovers).

Lemma hthreads_range : in_u32 (hthreads p).
Proof. apply u32_range. Qed.

Lemma new_core_ok i c :
  new_core p i = Ok c → moderate p →
  O3Pipeline.cfg_ok c ∧ O3Core.this c = Build_Comp ct_o3core i ∧ O3Core.num_hthreads c = hthreads p ∧
  O3Core.cachel1i c = Build_Comp ct_cachel1i i ∧ O3Core.cachel1d c = Build_Comp ct_cachel1d i ∧
  O3Core.tlbl1i c = Build_Comp ct_tlbl1i i ∧ O3Core.tlbl1d c = Build_Comp ct_tlbl1d i.
Proof.
  intros Hc [Hr Hq Hl _]. unfold new_core, O3Core.make_config in Hc. cbn [c_type] in Hc. cbv beta zeta in Hc.
  pose proof (get_param_u32 p ct_o3core "process_interval" 80) as Hi.
  pose proof (get_param_u32 p ct_o3core "o3queue_max_size" 64) as Hqr. unfold in_u32 in *.
  set (pi := get_param_uint64 _ _ "process_interval" 80) in *.
  apply bind_Ok in Hc as (? & Hnz & Hc).
  assert (pi ≠ 0) as Hz by (intros Hz; unfold ceil_by_y in Hnz; by rewrite Hz in Hnz).
  do 3 apply bind_Ok in Hc as (? & _ & Hc).
  destruct (_ <? 4) eqn:H4; [done|]. injection Hc as <-. split; [|done].
  split; cbn; try apply u32_range; try apply get_param_u32; try lia.
  unfold u32. rewrite Z.mod_small by lia. lia.
Qed.

Lemma new_core_total i : buildable p → ∃ c, new_core p i = Ok c.
Proof.
  intros B. unfold new_core, O3Core.make_config. cbn [c_type]. cbv beta zeta. unfold ceil_by_y.
  rewrite (proj2 (Z.eqb_neq _ _) (bld_interval p B)). cbn.
  rewrite (proj2 (Z.ltb_ge _ _) (bld_rob p B)). by eexists.
Qed.

Lemma new_l1_ok t i c : new_l1 p t i = Ok c →
  CacheL1.latencies_ok c ∧ CacheL1.this c = Build_Comp t i ∧ CacheL1.cachel2 c = l2_of p i.
Proof.
  unfold new_l1, CacheL1.make_config. destruct (_ <? _); [done|]. intros [= <-]. split_and!; [|done..].
  split; cbn; apply get_param_u32.
Qed.

Lemma new_l1_total t i :
  get_param_uint64 p t "set_lsb" 6 ≤ u32 (pts_get_param_uint64 p "pts.l2$.set_lsb" (get_param_uint64 p t "set_lsb" 6)) →
  ∃ c, new_l1 p t i = Ok c.
Proof.
  intros Hle. unfold new_l1, CacheL1.make_config. destruct (_ <? _) eqn:E; [|by eexists].
  exfalso. apply Z.ltb_lt in E. revert E. by apply Z.le_ngt.
Qed.

Lemma new_l2_ok i c : new_l2 p i = Ok c →
  L2Schedule.latencies_ok c ∧ CacheL2.this c = Build_Comp ct_cachel2 i ∧ CacheL2.directory c = Build_Comp ct_directory i ∧
  CacheL2.crossbar c = xbar.
Proof.
  unfold new_l2, CacheL2.make_config. intros (lg & _ & [= <-])%bind_Ok. split_and!; [|done..].
  split; cbn; apply get_param_u32.
Qed.

(** What [create_comps] returns, part by part. *)
Lemma create_comps_parts W :
  create_comps p L = Ok W →
  num_threads_per_l1_cache p = 1 ∧ num_l1_caches_per_l2_cache p ≠ 0 ∧
  mapM (new_core p) (upto (hthreads p)) = Ok (cfg_cores W) ∧
  mapM (new_l1 p ct_cachel1i) (upto (hthreads p)) = Ok (cfg_l1is W) ∧
  mapM (new_l1 p ct_cachel1d) (upto (hthreads p)) = Ok (cfg_l1ds W) ∧
  cfg_tlbl1is W = new_tlb p ct_tlbl1i <$> upto (hthreads p) ∧ cfg_tlbl1ds W = new_tlb p ct_tlbl1d <$> upto (hthreads p) ∧
  mapM (new_l2 p) (upto (num_l2_caches p)) = Ok (cfg_l2s W) ∧
  cfg_dirs W = new_dir p <$> upto (num_l2_caches p) ∧ cfg_mcs W = new_mc p L <$> upto (num_l2_caches p) ∧
  cfg_noc W = new_noc p ∧ connect_comps p (cfg_l2s W) = Ok tt.
Proof.
  unfold create_comps. intros (? & H1 & H)%bind_Ok. destruct (Z.eqb_spec (num_threads_per_l1_cache p) 1); [|done].
  apply bind_Ok in H as (cores & Hcores & H). apply bind_Ok in H as (l1 & Hl1 & H).
  apply bind_Ok in H as (? & H2 & H). destruct (Z.eqb_spec (num_l1_caches_per_l2_cache p) 0); [done|].
  apply bind_Ok in H as (l2 & Hl2 & H). apply bind_Ok in H as ([] & Hc & H). injection H as <-. cbn.
  apply mapM_Ok in Hl1. split_and!; try done; apply mapM_Ok.
  all: apply Forall2_fmap_r; eapply Forall2_impl; [exact Hl1|]; intros i [ci cd] (ci' & Hi & H)%bind_Ok.
  all: apply bind_Ok in H as (cd' & Hd & [= -> ->]); done.
Qed.

Lemma connect_comps_Ok W :
  connect_comps p W = Ok tt ↔
  num_memory_controllers p ⊗₃₂ num_l1_caches_per_l2_cache p ≤ hthreads p ∧
  pts_get_param_str p "pts.noc_type" = "xbar"%string ∧
  ∀ i, 0 ≤ i < hthreads p → ∃ c, vec_get W (i / num_l1_caches_per_l2_cache p) = Ok c.
Proof.
  unfold connect_comps. destruct (Z.ltb_spec (hthreads p) (num_memory_controllers p ⊗₃₂ num_l1_caches_per_l2_cache p)).
  { split; [done|]. intros (? & _). lia. }
  case_bool_decide as Hx; cbn [negb]; [|naive_solver].
  split.
  - intros (cs & Hcs & _)%bind_Ok. split_and!; [done..|]. intros i Hi. apply mapM_Ok in Hcs.
    destruct (lookup_lt_is_Some_2 (upto (hthreads p)) (Z.to_nat i)) as [j Hj]; [unfold upto; rewrite length_seqZ; lia|].
    destruct (Forall2_lookup_l _ _ _ _ _ Hcs Hj) as (c & _ & Hc). unfold upto in Hj. apply lookup_seqZ in Hj as [-> _].
    rewrite Z.add_0_l, Z2Nat.id in Hc by lia. by exists c.
  - intros (_ & _ & Hi). by destruct (mapM_upto_total _ _ Hi) as [cs ->].
Qed.

Lemma shares_exactly W :
  create_comps p L = Ok W →
  (num_l1_caches_per_l2_cache p | hthreads p) ∧ 0 < num_l1_caches_per_l2_cache p ∧
  Z.of_nat (length (cfg_l2s W)) = num_l2_caches p ∧
  ∀ i, 0 ≤ i < hthreads p → ∃ c, vec_get (cfg_l2s W) (i / num_l1_caches_per_l2_cache p) = Ok c.
Proof.
  intros (_ & Hk & _ & _ & _ & _ & _ & Hl2 & _ & _ & _ & Hc)%create_comps_parts.
  apply connect_comps_Ok in Hc as (_ & _ & Hc). pose proof hthreads_range as Hh. unfold in_u32 in Hh.
  assert (0 < num_l1_caches_per_l2_cache p) as Hpos.
  { pose proof (u32_range (pts_get_param_uint64 p "pts.num_l1$_per_l2$" 2)) as Hr. unfold in_u32 in Hr.
    unfold num_l1_caches_per_l2_cache in *. lia. }
  apply mapM_upto in Hl2 as [Hl2 _]. unfold num_l2_caches in *. set (k := num_l1_caches_per_l2_cache p) in *.
  pose proof (Z.div_pos (hthreads p) k ltac:(lia) Hpos). rewrite Z.max_r in Hl2 by lia.
  split_and!; [|done..]. destruct (decide (hthreads p = 0)) as [->|Hne]; [by apply Z.divide_0_r|].
  destruct (Hc (hthreads p - 1)) as [c Hr%vec_get_range]; [lia|]. rewrite Hl2 in Hr.
  exists (hthreads p / k). pose proof (Z.div_mod (hthreads p) k ltac:(lia)). pose proof (Z.mod_pos_bound (hthreads p) k Hpos).
  pose proof (Z.div_mod (hthreads p - 1) k ltac:(lia)). pose proof (Z.mod_pos_bound (hthreads p - 1) k Hpos).
  nia.
Qed.

Lemma created_connected W : create_comps p L = Ok W → connected W (num_l1_caches_per_l2_cache p).
Proof.
  intros HW. destruct (shares_exactly W HW) as (_ & _ & Hn & Hex).
  apply create_comps_parts in HW as (_ & _ & Hcores & Hi & Hd & Hti & Htd & Hl2 & Hdir & Hmc & Hnoc & _).
  pose proof hthreads_range as Hh. unfold in_u32 in Hh.
  destruct (mapM_upto _ _ _ Hcores) as [_ Hcores2]. destruct (mapM_upto _ _ _ Hi) as [Hi1 Hi2].
  destruct (mapM_upto _ _ _ Hd) as [Hd1 Hd2]. destruct (mapM_upto _ _ _ Hl2) as [_ Hl22].
  split.
  - intros i c (Hr & Hc)%Hcores2. unfold new_core, O3Core.make_config in Hc. cbv zeta in Hc.
    do 4 apply bind_Ok in Hc as (? & _ & Hc). destruct (_ <? 4); [done|]. injection Hc as <-. split_and!; try done.
    + apply vec_get_lt. lia.
    + apply vec_get_lt. lia.
    + eexists. rewrite Hti. by apply vec_get_upto.
    + eexists. rewrite Htd. by apply vec_get_upto.
  - intros i c (Hr & (_ & ? & ?)%new_l1_ok)%Hi2. eauto.
  - intros i c (Hr & (_ & ? & ?)%new_l1_ok)%Hd2. eauto.
  - intros j c (Hr & (_ & Ht & ? & ?)%new_l2_ok)%Hl22. rewrite Hnoc, Hdir, Hmc, Ht. split_and!; [done..|].
    eexists _, _. split; [by apply vec_get_upto|]. split; [by apply vec_get_upto|]. done.
  - rewrite Hnoc, Hdir. cbn. split_and!; [done|done|by rewrite <- list_fmap_compose|].
    apply Forall_fmap, Forall_forall. intros j _. cbn. unfold l2_comps. apply mapM_Ok in Hl2.
    clear -Hl2. induction Hl2 as [|j c l k (_ & Hc & _)%new_l2_ok _ IH]; [done|]. cbn. by rewrite IH, Hc.
Qed.

Lemma created_ok W : create_comps p L = Ok W → moderate p → wiring_ok W.
Proof.
  intros (_ & _ & Hcores & Hi & Hd & Hti & Htd & Hl2 & Hdir & Hmc & Hnoc & _)%create_comps_parts Hm.
  pose proof hthreads_range as Hh. unfold in_u32 in Hh.
  destruct (mapM_upto _ _ _ Hcores) as [Hlen Hget].
  apply mapM_Ok in Hcores, Hi, Hd, Hl2.
  assert (∀ A B (P : A → B → Prop) (Q : B → Prop) l k, Forall2 P l k → (∀ x y, P x y → Q y) → Forall Q k) as Hall.
  { clear. induction 1; intros; constructor; eauto. }
  split.
  - eapply Hall; [exact Hcores|]. intros i c Hc. destruct (new_core_ok i c Hc Hm) as (? & _ & _ & -> & -> & _). done.
  - eapply Hall; [exact Hi|]. intros i c Hc. by apply new_l1_ok in Hc as [? _].
  - eapply Hall; [exact Hd|]. intros i c Hc. by apply new_l1_ok in Hc as [? _].
  - rewrite Hti. apply Forall_fmap, Forall_forall. intros i _. split; cbn; apply get_param_u32.
  - rewrite Htd. apply Forall_fmap, Forall_forall. intros i _. split; cbn; apply get_param_u32.
  - eapply Hall; [exact Hl2|]. intros i c Hc. by apply new_l2_ok in Hc as [? _].
  - rewrite Hdir. apply Forall_fmap, Forall_forall. intros i _. split; cbn; apply get_param_u32.
  - rewrite Hmc. apply Forall_fmap, Forall_forall. intros i _. split; [|done].
    split; cbn; try apply get_param_u32. apply Hm.
  - rewrite Hnoc. split; cbn; apply get_param_u32.
  - intros i c (Hr & Hc)%Hget. destruct (new_core_ok i c Hc Hm) as (_ & -> & -> & _). split; [done|lia].
Qed.

Lemma refresh_events_range W : create_comps p L = Ok W → Forall (λ e, 0 ≤ e.1) (refresh_events W).
Proof.
  intros HW. apply create_comps_parts in HW as (_ & _ & _ & _ & _ & _ & _ & _ & _ & Hmcs & _).
  unfold refresh_events. rewrite Hmcs. apply Forall_forall. intros e [_ He]%list_elem_of_filter.
  rewrite <- list_fmap_compose in He. apply list_elem_of_fmap in He as (i & -> & _). cbn.
  apply get_param_u32.
Qed.

Lemma new_mcsim_ok cfg s :
  new_mcsim p L = Ok (cfg, s) →
  create_comps p L = Ok (wires cfg) ∧ Z.of_nat (length (cfg_cores (wires cfg))) = hthreads p ∧ sim_ok cfg s.
Proof.
  unfold new_mcsim. intros (W & HW & [= <- <-])%bind_Ok. cbn [wires].
  assert (Z.of_nat (length (cfg_cores W)) = hthreads p) as Hlen.
  { pose proof hthreads_range as Hh. unfold in_u32 in Hh.
    apply create_comps_parts in HW as (_ & _ & Hcores & _). apply mapM_upto in Hcores as [-> _]. lia. }
  split_and!; [done|done|]. split; cbn [wires global_q parts].
  - apply wf_add_events; [apply make_wf|by eapply refresh_events_range].
  - by rewrite num_hthreads_adds, Hlen.
  - cbn. by rewrite length_fmap.
Qed.

Lemma new_mcsim_time cfg s : new_mcsim p L = Ok (cfg, s) → curr_time (global_q s) = 0.
Proof. unfold new_mcsim. intros (W & _ & [= _ <-])%bind_Ok. cbn [global_q]. by rewrite curr_time_add_events. Qed.

Lemma buildable_created : buildable p → ∃ W, create_comps p L = Ok W.
Proof.
  intros B. unfold create_comps. rewrite (proj2 (Z.eqb_eq _ _) (bld_l1 p B)). cbn.
  destruct (mapM_upto_total (new_core p) (hthreads p)) as [cores ->]; [intros; by apply new_core_total|]. cbn.
  destruct (mapM_upto_total (λ i, ci ← new_l1 p ct_cachel1i i; cd ← new_l1 p ct_cachel1d i; Ok (ci, cd)) (hthreads p))
    as [l1 ->].
  { intros i _. destruct (new_l1_total ct_cachel1i i (bld_l1i p B)) as [ci ->].
    destruct (new_l1_total ct_cachel1d i (bld_l1d p B)) as [cd ->]. by eexists. }
  cbn. destruct (bld_share p B) as [Hk Hdiv]. rewrite (proj2 (Z.eqb_neq _ _) Hk). cbn.
  destruct (mapM_upto_total (new_l2 p) (num_l2_caches p)) as [l2 Hl2].
  { intros i _. unfold new_l2, CacheL2.make_config, Cache.make_geometry, log2. cbn [c_type Cache.num_banks]. cbv zeta.
    rewrite (proj2 (Z.eqb_neq _ _) (bld_banks p B)). cbn. by eexists. }
  rewrite Hl2. cbn. rewrite (proj2 (connect_comps_Ok l2)); [by eexists|].
  split; [apply B|]. split; [apply B|]. intros i Hi. apply vec_get_lt. apply mapM_upto in Hl2 as [Hl2 _]. unfold num_l2_caches in *.
  pose proof (u32_range (pts_get_param_uint64 p "pts.num_l1$_per_l2$" 2)) as Hr. unfold in_u32 in Hr.
  unfold num_l1_caches_per_l2_cache in *. destruct Hdiv as [n Hn]. rewrite Hn in Hl2, Hi. rewrite Z.div_mul in Hl2 by lia.
  split; [apply Z.div_pos; lia|]. apply Z.div_lt_upper_bound; lia.
Qed.
End Built.

(** C5: the constructor of the simulator.  When it succeeds, every pointer between the
    components leads to an existing component and the pointers of two levels agree; the L1
    caches are divided evenly among the L2 caches, so an uneven number does not get
    through; and the machine is between two requests, ready to run for parameters of
    moderate size.  It succeeds for the parameters that are buildable. *)
Theorem create_comps_connects {AD : Addresses} p L :
  (∀ cfg s, new_mcsim p L = Ok (cfg, s) →
     connected (wires cfg) (num_l1_caches_per_l2_cache p) ∧
     Z.of_nat (length (cfg_cores (wires cfg))) = hthreads p ∧
     Z.of_nat (length (cfg_l2s (wires cfg))) * num_l1_caches_per_l2_cache p = hthreads p ∧
     sim_ok cfg s ∧ (moderate p → wiring_ok (wires cfg))) ∧
  (buildable p → ∃ cfg s, new_mcsim p L = Ok (cfg, s)).
Proof.
  unfold new_mcsim. split.
  - intros cfg s Hnew. destruct (new_mcsim_ok p L cfg s Hnew) as (HW & Hlen & Hok).
    destruct (shares_exactly p L _ HW) as (Hdiv & Hk & Hn & _).
    split_and!; [by eapply created_connected|done| |done|by eapply created_ok].
    rewrite Hn. unfold num_l2_caches. destruct Hdiv as [n ->]. by rewrite Z.div_mul by lia.
  - intros B. destruct (buildable_created p L B) as [W ->]. cbn. by eexists _, _.
Qed.

(** ** Requests keep the simulator in order *)

Section Requests.
Context {AD : Addresses} (cfg : config) (OK : wiring_ok (wires cfg)).
Notation W := (wires cfg).

Lemma settled_run {A} (h : proc call world A) w a w' evs :
  settled W h w = Ok (a, w', evs) → ∃ w1 o, h w = Ok (a, w1, o) ∧ actives w' = actives w1.
Proof.
  unfold settled, followed. destruct (h w) as [[[b w1] o]|]; [|done].
  destruct (for_each o _ w1) as [[[u w2] evs']|] eqn:Ho; [|done]. intros [= -> -> ->]. eexists _, _. split; [done|].
  exact (wp_run _ _ _ _ _ _ _ (keeps_for_each (λ w, actives w = actives w1) o (deliver W max_depth) (λ c _, deliver_actives W _ c _) w1 eq_refl) Ho).
Qed.

(** A handler of a core, called with a tick that has not passed. *)
Lemma run_core_ok {A} i now (h : O3Core.config → proc call O3Core.state A) s a s' :
  (∀ c, O3Pipeline.cfg_ok c → emits (within now (2 ^ 34)) (h c)) →
  sim_ok cfg s → curr_time (global_q s) ≤ now → 0 ≤ now < horizon →
  run cfg (on_core W i h) s = Ok (a, s') →
  sim_ok cfg s' ∧ curr_time (global_q s') = curr_time (global_q s) ∧ 0 ≤ i < Z.of_nat (length (cfg_cores W)) ∧
  ∃ c t t0 t' o, h c t0 = Ok (a, t', o) ∧ O3Core.active t0 = O3Core.active t ∧
    vec_get (o3cores (parts s)) i = Ok t ∧ actives (parts s') = vec_set i (O3Core.active t') (actives (parts s)).
Proof.
  intros Hh Hs Hnow Hr. unfold run. intros ([[b w] evs] & Hset & [= <- <-])%bind_Ok. cbn.
  assert (emits (within now (2 ^ 34)) (on_core W i h)) as Hem.
  { eapply emits_on_core; [apply (ok_cores _ OK)|]. intros c (? & _). by apply Hh. }
  pose proof (wp_run _ _ _ _ _ _ _ (emits_settled W now _ OK Hr Hem (parts s)) Hset) as Hevs. cbv beta in Hevs.
  apply settled_run in Hset as (w1 & o & Hon & Hact).
  apply on_core_run in Hon as (c & t & m & t' & Hc & Ht & Hrun & Hcores).
  assert (actives w = vec_set i (O3Core.active t') (actives (parts s))) as Hw.
  { rewrite Hact. unfold actives, vec_set, vec_alter. rewrite Hcores. apply vec_get_range in Hc. unfold vec_set, vec_alter.
    destruct (i <? 0) eqn:?; [lia|]. apply list_eq. intros k. rewrite list_lookup_fmap.
    destruct (decide (k = Z.to_nat i)) as [->|].
    - rewrite !list_lookup_alter_eq, list_lookup_fmap. by destruct (_ !! _).
    - by rewrite !list_lookup_alter_ne, list_lookup_fmap. }
  split_and!; [|apply curr_time_add_events|apply vec_get_range in Hc; lia|apply vec_get_range in Hc; lia|].
  - split; cbn.
    + apply wf_add_events; [apply Hs|]. eapply Forall_impl; [exact Hevs|]. cbn. lia.
    + rewrite num_hthreads_adds. apply Hs.
    + rewrite <- (sim_cores cfg s Hs). apply (f_equal length) in Hw. unfold actives in Hw.
      unfold vec_set in Hw. by rewrite length_vec_alter, !length_fmap in Hw.
  - by eexists c, t, _, t', o.
Qed.

Lemma set_active_ok i b s s' :
  sim_ok cfg s → 0 ≤ curr_time (global_q s) < horizon → set_active cfg i b s = Ok s' →
  sim_ok cfg s' ∧ curr_time (global_q s') = curr_time (global_q s) ∧
  actives (parts s') = vec_set i b (actives (parts s)) ∧ 0 ≤ i < Z.of_nat (length (cfg_cores W)).
Proof.
  intros Hs Hr. unfold set_active. intros ([u s1] & Hrun & [= <-])%bind_Ok.
  eapply run_core_ok in Hrun as (? & ? & ? & c & t & t0 & t' & o & Hh & Ht0 & Ht & Ha); [|intros ? _; apply emits_modify|done|done|done].
  injection Hh as _ <- _. cbn in Ha. split_and!; [done..|lia|lia].
Qed.

Lemma same_actives i w t : vec_get (o3cores w) i = Ok t → vec_set i (O3Core.active t) (actives w) = actives w.
Proof.
  intros [Hi Ht]%vec_get_Some. apply vec_alter_self, vec_get_Some. split; [done|].
  unfold actives. by rewrite list_lookup_fmap, Ht.
Qed.

Lemma set_stack_ok i st sz s s' :
  sim_ok cfg s → 0 ≤ curr_time (global_q s) < horizon → set_stack_n_size cfg i st sz s = Ok s' →
  sim_ok cfg s' ∧ curr_time (global_q s') = curr_time (global_q s) ∧
  actives (parts s') = actives (parts s) ∧ 0 ≤ i < Z.of_nat (length (cfg_cores W)).
Proof.
  intros Hs Hr. unfold set_stack_n_size. intros ([u s1] & Hrun & [= <-])%bind_Ok.
  eapply run_core_ok in Hrun as (? & ? & Hi & c & t & t0 & t' & o & Hh & Ht0 & Ht & Ha); [|intros ? _; apply emits_modify|done|done|done].
  injection Hh as _ <- _. cbn in Ha. split_and!; [done..| |lia|lia]. rewrite Ha, Ht0.
  by apply same_actives.
Qed.

Context {xed : O3Core.XedCategories}.

Lemma counted s : sim_ok cfg s → sim_ok cfg (s <| num_fetched_instrs ::= λ n, n ⊕ 1 |>).
Proof. intros []. by split. Qed.

Lemma add_instruction_ok i t ins s n s' :
  sim_ok cfg s → curr_time (global_q s) ≤ t → 0 ≤ t < horizon → add_instruction cfg i t ins s = Ok (n, s') →
  sim_ok cfg s' ∧ curr_time (global_q s') = curr_time (global_q s) ∧
  actives (parts s') = actives (parts s) ∧ 0 ≤ i < Z.of_nat (length (cfg_cores W)).
Proof.
  intros Hs Hnow Hr. unfold add_instruction. intros Hrun.
  assert (∀ c, O3Pipeline.cfg_ok c → emits (within t (2 ^ 34)) (O3Core.add_instruction c t ins)) as Hem.
  { intros c Hc. apply CoreSchedule.emits_instruction. }
  pose proof (run_core_ok _ _ _ _ _ _ Hem (counted s Hs) Hnow Hr Hrun) as (? & ? & Hi & c & x & x0 & x' & o & Hh & Hx0 & Hx & Ha).
  split_and!; [done..| |lia|lia]. rewrite Ha.
  assert (keeps (λ s, O3Core.active s = O3Core.active x) (O3Core.add_instruction c t ins)) as Hk.
  { unfold O3Core.add_instruction, O3Core.wake_at. repeat first [solve [eauto 3 with nocore]|keeps_step|apply keeps_modify; by intros]. }
  pose proof (wp_run _ _ _ _ _ _ _ (Hk _ Hx0) Hh) as Hact. cbn in Hact. rewrite Hact.
  by apply same_actives.
Qed.
End Requests.
(** ** A small machine *)

#[local] Existing Instance code_addresses.

(** Two threads share an L2 cache; the first is active and has an event. *)
Definition toy_params : params := {|
  params_bool := ∅;
  params_uint64_t := list_to_map [
    ("pts.num_hthreads", 2); ("pts.num_hthreads_per_l1$", 1); ("pts.num_l1$_per_l2$", 2); ("pts.num_mcs", 1);
    ("pts.l1i$.num_sets", 2); ("pts.l1d$.num_sets", 2); ("pts.l2$.num_sets", 2);
    ("pts.o3core.o3queue_max_size", 8); ("pts.o3core.o3rob_max_size", 4); ("pts.o3core.num_bp_entries", 2)]%string;
  params_string := {["pts.noc_type"%string := "xbar"%string]} |}.

Definition toy_leftovers : leftovers := {|
  left_queue _ _ := O3Core.Build_O3Queue O3Core.o3iqs_invalid 0 0 0 0 0 0 0 O3Core.no_mem 0 0 0 0 0 0 0 0;
  left_rob _ _ := O3Core.Build_O3ROB O3Core.o3irs_invalid 0 0 0 false false 0 0 0 O3Core.no_mem 0 0 0 0 0 0 0 0;
  left_tRP _ := 10 |}.

Definition toy_xed : O3Core.XedCategories :=
  {| O3Core.XED_CATEGORY_X87_ALU := 36; O3Core.XED_CATEGORY_SSE := 60; O3Core.XED_CATEGORY_CALL := 5 |}.

(** A load from address 2^20. *)
Definition toy_load : O3Core.instruction := {|
  O3Core.in_waddr := 0; O3Core.in_wlen := 0; O3Core.in_raddr := 2 ^ 20; O3Core.in_raddr2 := 0; O3Core.in_rlen := 8;
  O3Core.in_ip := 4096; O3Core.category := 0; O3Core.isbranch := false; O3Core.isbranchtaken := false;
  O3Core.islock := false; O3Core.isunlock := false; O3Core.isbarrier := false;
  O3Core.in_rr0 := 0; O3Core.in_rr1 := 0; O3Core.in_rr2 := 0; O3Core.in_rr3 := 0;
  O3Core.in_rw0 := 1; O3Core.in_rw1 := 0; O3Core.in_rw2 := 0; O3Core.in_rw3 := 0 |}.

(** The first thread is active and fills its queue. *)
Definition ready_with (p : params) : outcome (config * mcsim) :=
  '(cfg, s) ← new_mcsim p toy_leftovers;
  s ← set_active cfg 0 true s;
  s ← Nat.iter 10 (λ m, s ← m; '(_, s) ← add_instruction (xed := toy_xed) cfg 0 0 toy_load s; Ok s) (Ok s);
  Ok (cfg, s).
Definition toy_ready : outcome (config * mcsim) := ready_with toy_params.

Lemma toy_moderate : moderate toy_params.
Proof. by split. Qed.

Lemma ready_ok p cfg s :
  moderate p → ready_with p = Ok (cfg, s) →
  wiring_ok (wires cfg) ∧ sim_ok cfg s ∧ curr_time (global_q s) = 0.
Proof.
  unfold ready_with. intros Hp ([cfg' s0] & Hnew & H)%bind_Ok. apply bind_Ok in H as (s1 & Hact & H).
  apply bind_Ok in H as (s2 & Hadd & [= <- <-]).
  pose proof (new_mcsim_time _ _ _ _ Hnew) as H0.
  apply new_mcsim_ok in Hnew as (HW & _ & Hs). pose proof (created_ok _ _ _ HW Hp) as OK.
  split; [done|]. eapply set_active_ok in Hact as (Hs1 & H1 & _); [|done|done|unfold horizon; lia].
  revert s2 Hadd. generalize 10%nat. intros n. induction n as [|n IH]; cbn [Nat.iter nat_rect]; intros s2 Hadd.
  - injection Hadd as <-. split; [done|lia].
  - apply bind_Ok in Hadd as (s3 & Hn & Hadd). apply bind_Ok in Hadd as ([r s4] & Hadd & [= <-]).
    destruct (IH s3 Hn) as [Hs3 H3].
    eapply add_instruction_ok in Hadd as (? & ? & _); [|done|done|lia|unfold horizon; lia]. split; [done|lia].
Qed.

Lemma toy_ready_ok cfg s : toy_ready = Ok (cfg, s) → wiring_ok (wires cfg) ∧ sim_ok cfg s.
Proof. intros Hs. apply (ready_ok toy_params) in Hs as (? & ? & _); [by split|apply toy_moderate]. Qed.

(** What the theorems below need of it, computed. *)
Definition toy_answer : option (Z * Z * Z) :=
  match toy_ready with
  | Ok (cfg, s) =>
      match resume_with cfg (bounded horizon (machine (wires cfg))) 300 s with
      | Ok (Some (h, t), _) => Some (h, t, num_hthreads (global_q s))
      | _ => None
      end
  | Err _ => None
  end.

Lemma toy_answers :
  ∃ cfg s s', toy_ready = Ok (cfg, s) ∧ num_hthreads (global_q s) = 2 ∧
    resume_with cfg (bounded horizon (machine (wires cfg))) 300 s = Ok (Some (0, 4880), s').
Proof.
  assert (toy_answer = Some (0, 4880, 2)) as Hans by (vm_compute; reflexivity). unfold toy_answer in Hans.
  destruct toy_ready as [[cfg s]|]; [|done]. exists cfg, s.
  destruct (resume_with cfg _ 300 s) as [[[[h t]|] s']|]; [|done|done]. injection Hans as -> -> ->. by exists s'.
Qed.

Example resume_answers_witness :
  ∃ cfg s s', toy_ready = Ok (cfg, s) ∧ resume_simulation cfg 300 true s = Ok (Some (0, 4880), s') ∧
    sim_ok cfg s' ∧ vec_get (actives (parts s')) 0 = Ok true.
Proof.
  destruct toy_answers as (cfg & s & s' & Hready & H2 & Hrun). destruct (toy_ready_ok cfg s Hready) as [OK Hs].
  destruct (proj1 (resume_answers cfg OK 300 s Hs) _ _ Hrun) as (Hreal & Hs' & _ & _ & Hans).
  exists cfg, s, s'. split_and!; [done|done|done|].
  destruct (Hans 0 4880 eq_refl) as [_ [Ha|[Hn _]]]; [done|]. by rewrite H2 in Hn.
Defined.

(** The same machine with the latencies from the caches and the TLBs to the cores that the
    sample configurations have; the default is 0. *)
Definition prompt_params : params := {|
  params_bool := params_bool toy_params;
  params_uint64_t := list_to_map [
    ("pts.l1i$.to_lsu_t", 2); ("pts.l1d$.to_lsu_t", 4); ("pts.l1itlb.to_lsu_t", 2); ("pts.l1dtlb.to_lsu_t", 2)]%string
    ∪ params_uint64_t toy_params;
  params_string := params_string toy_params |}.

Definition prompt_check : bool :=
  match ready_with prompt_params with
  | Ok (cfg, s) => bool_decide (prompt (wires cfg) 1) && negb (bool_decide (event_queue (global_q s) = ∅))
  | Err _ => false
  end.


Example create_comps_connects_witness :
  buildable toy_params ∧ moderate toy_params ∧
  ∃ cfg s, new_mcsim toy_params toy_leftovers = Ok (cfg, s) ∧
    connected (wires cfg) 2 ∧ sim_ok cfg s ∧ wiring_ok (wires cfg) ∧ length (cfg_l2s (wires cfg)) = 1%nat.
Proof.
  assert (buildable toy_params) as Hb.
  { by split. }
  split_and!; [done|apply toy_moderate|].
  destruct (create_comps_connects toy_params toy_leftovers) as [Hok Hex].
  destruct (Hex Hb) as (cfg & s & Hnew). exists cfg, s. destruct (Hok cfg s Hnew) as (? & _ & Hl & ? & Hw).
  split_and!; [done|done|done|apply Hw, toy_moderate|].
  change (num_l1_caches_per_l2_cache toy_params) with 2 in Hl. change (hthreads toy_params) with 2 in Hl. lia.
Defined.
End McSimProofs.
