(* ===== verification/Report.v ===== *)
(** * What the simulator prints (operator<<, show_state, display and the destructors)

    The statistics of an interval and at the end of a simulation, which the destructors
    print, and the state of a line or of the queues for debugging.  What is written to a stream is the list of what
    is put into it: texts, numbers and manipulators.  A floating-point quotient is kept as
    its two operands, so that no rounding is modelled. *)

From S2P Require Import McSim.

Module Report.
Import OrdMap PtrSet GlobalEventQueue Machine McSim.

(** ** Streams *)

Inductive token : Type :=
| Text (s : string)
| Num (n : Z)
| Quot (num den : Z)
    (** the [double] [num / den]; an infinity or not a number when [den = 0] *)
| Pointer
    (** an address that the allocator returned *)
| Setw (n : Z) | Setfill (c : string) | Hex | Dec | Fixed | Precision (n : Z) | Endl.
#[local] Arguments Text s%_string_scope.
#[local] Arguments Setfill c%_string_scope.

Inductive severity : Set := INFO | WARNING.

(** One statement that prints, to [std::cout] or to a log. *)
Inductive printed : Type :=
| cout (t : list token)
| LOG (s : severity) (t : list token).

Definition flag (b : bool) : token := Num (if b then 1 else 0).
Definition newline : token := Text (String (Ascii.ascii_of_nat 10) EmptyString).

(** ** The enumerations *)

Definition name_of_component (ct : component_type) : token :=
  match ct with
  | ct_core => Text "ct_core" | ct_o3core => Text "ct_o3core" | ct_cachel1d => Text "ct_l1d$"
  | ct_cachel1i => Text "ct_l1i$" | ct_cachel2 => Text "ct_l2$" | ct_directory => Text "ct_dir"
  | ct_crossbar => Text "ct_xbar" | ct_memory_controller => Text "ct_mc" | ct_tlbl1d => Text "ct_tlbl1d"
  | ct_tlbl1i => Text "ct_tlbl1i" | ct_tlbl2 => Text "ct_tlbl2"
  end.

Definition name_of_event (et : event_type) : token :=
  match et with
  | et_read => Text "et_rd" | et_write => Text "et_wr" | et_write_nd => Text "et_wrnd"
  | et_evict => Text "et_ev" | et_evict_nd => Text "et_evnd" | et_dir_evict => Text "et_dir_ev"
  | et_e_to_m => Text "et_e_to_m" | et_e_to_i => Text "et_e_to_i" | et_e_to_s => Text "et_es"
  | et_e_to_s_nd => Text "et_esnd" | et_m_to_s => Text "et_ms" | et_m_to_m => Text "et_mm"
  | et_m_to_i => Text "et_mi" | et_s_to_s => Text "et_ss" | et_s_to_s_nd => Text "et_ssnd"
  | et_m_to_e => Text "et_me" | et_dir_rd => Text "et_dr" | et_dir_rd_nd => Text "et_drnd"
  | et_e_rd => Text "et_er" | et_s_rd => Text "et_sr" | et_nack => Text "et_na"
  | et_invalidate => Text "et_in" | et_invalidate_nd => Text "et_innd" | et_s_rd_wr => Text "et_rw"
  | et_rd_bypass => Text "et_rb" | et_tlb_rd => Text "et_tr" | et_i_to_e => Text "et_ie"
  | et_rd_dir_info_req => Text "et_rdiq" | et_rd_dir_info_rep => Text "et_rdip" | et_nop => Text "et_nop"
  end.

Definition name_of_coherence (cs : coherence_state_type) : token :=
  match cs with
  | cs_invalid => Text "cs_invalid" | cs_shared => Text "cs_shared" | cs_exclusive => Text "cs_exclusive"
  | cs_modified => Text "cs_modified" | cs_tr_to_i => Text "cs_tr_to_i" | cs_tr_to_s => Text "cs_tr_to_s"
  | cs_tr_to_m => Text "cs_tr_to_m" | cs_tr_to_e => Text "cs_tr_to_e" | cs_m_to_s => Text "cs_m_to_s"
  end.

Definition name_of_instruction (it : O3Core.ins_type) : token :=
  match it with
  | O3Core.mem_rd => Text "mem_rd" | O3Core.mem_2nd_rd => Text "mem_2nd_rd" | O3Core.mem_wr => Text "mem_wr"
  | O3Core.no_mem => Text "no_mem" | O3Core.ins_branch_taken => Text "ins_branch_taken" | O3Core.ins_branch_not_taken => Text "ins_branch_not_taken"
  | O3Core.ins_lock => Text "ins_lock" | O3Core.ins_unlock => Text "ins_unlock" | O3Core.ins_barrier => Text "ins_barrier"
  | O3Core.ins_x87 => Text "ins_x87" | O3Core.ins_notify => Text "ins_notify" | O3Core.ins_waitfor => Text "ins_waitfor"
  | O3Core.ins_invalid => Text "ins_invalid"
  end.

Definition name_of_queue_state (iqs : O3Core.o3_instr_queue_state) : token :=
  match iqs with
  | O3Core.o3iqs_not_in_queue => Text "iqs_niq"
  | O3Core.o3iqs_being_loaded => Text "iqs_bld"
  | O3Core.o3iqs_ready => Text "iqs_rdy"
  | O3Core.o3iqs_invalid => Text "iqs_inv"
  end.

Definition name_of_rob_state (irs : O3Core.o3_instr_rob_state) : token :=
  match irs with
  | O3Core.o3irs_issued => Text "irs_iss"
  | O3Core.o3irs_executing => Text "irs_exe"
  | O3Core.o3irs_completed => Text "irs_cmp"
  | O3Core.o3irs_invalid => Text "irs_inv"
  end.

Definition name_of_action (action : MemoryController.mc_bank_action) : token :=
  match action with
  | MemoryController.mc_bank_activate => Text "ACT"
  | MemoryController.mc_bank_read => Text "RD"
  | MemoryController.mc_bank_write => Text "WR"
  | MemoryController.mc_bank_precharge => Text "PRE"
  | MemoryController.mc_bank_idle => Text "IDL"
  end.

Definition name_of_policy (policy : MemoryController.mc_scheduling_policy) : token :=
  match policy with
  | MemoryController.mc_scheduling_open => Text "open"
  | MemoryController.mc_scheduling_closed => Text "closed"
  | MemoryController.mc_scheduling_pred => Text "pred"
  end.

(** ** Messages, components and the event queue *)

Section Printing.
Context {AD : Addresses}.

(** [Component::print] *)
Definition print (c : Comp) : list token :=
  [Text "("; name_of_component (c_type c); Text ", "; Num (c_num c); Text ")"].

Definition print_lqe (l : LQE) : list token :=
  [Text "  -- LQE : type = "; name_of_event (type l); Text ", addr = 0x"; Hex; Num (address l); Dec] ++
  (c ← from l; print c ++ [Text ", "]) ++ [Endl].

Definition print_geq (g : GEQ) : list token :=
  [Text "  -- global event queue : at cycle = "; Num (curr_time g); Endl] ++
  ('(t, cs) ← in_order (event_queue g);
   [Num t; Text ", "] ++ (c ← set_iter cs; print c ++ [Text ", "]) ++ [Endl]).

(** ** TLBs *)

Definition end_tlb (cfg : TLBL1.config) (s : TLBL1.state) : list printed :=
  if 0 <? TLBL1.num_access s then
    [cout [if decide (c_type (TLBL1.this cfg) = ct_tlbl1d) then Text "  -- TLBD[" else Text "  -- TLBI["];
     cout [Num (c_num (TLBL1.this cfg)); Text "] : (miss, access) = ("; Num (TLBL1.num_miss s); Text ", ";
           Num (TLBL1.num_access s); Text ") = "; Quot (100 * TLBL1.num_miss s) (TLBL1.num_access s);
           Text "%"; Endl]]
  else [].

(** ** Dirty lines by process *)

Section Dirty.
Context (g : Cache.geometry) (addr_offset_lsb : Z).

(** [((tag * num_sets) << set_lsb) >> addr_offset_lsb], where the shifts may be too wide:
    the part of the address that main.cc adds for each process. *)
Definition offset_of (tag : Z) : outcome Z :=
  if (64 <=? Cache.set_lsb g) || (addr_offset_lsb <? 0) || (64 <=? addr_offset_lsb) then Err Undef
  else Ok (shr (shl64 (tag ⊗ Cache.num_sets g) (Cache.set_lsb g)) addr_offset_lsb).

Definition count_offset (m : gmap Z Z) (offset : Z) : gmap Z Z :=
  <[offset := match m !! offset with None => 1 | Some n => n ⊕ 1 end]> m.

(** [dirty_cl_per_offset], for the tags of the modified lines. *)
Fixpoint dirty_cl_per_offset (dirty : list Z) (m : gmap Z Z) : outcome (gmap Z Z) :=
  match dirty with
  | [] => Ok m
  | t :: l => offset ← offset_of t; dirty_cl_per_offset l (count_offset m offset)
  end.
End Dirty.

(** The parameter, as the destructors of the caches read it. *)
Definition addr_offset_lsb (p : params) : Z := i32 (u32 (pts_get_param_uint64 p "addr_offset_lsb" (u32 48))).

(** ** L1 caches *)

Section L1.
Context (p : params) (cfg : CacheL1.config) (s : CacheL1.state).
Import CacheL1.
Notation data := (bool_decide (c_type (this cfg) = ct_cachel1d)).
Notation num := (c_num (this cfg)).

Definition l1_modified : list Z := fst <$> filter (λ w : l1_tag_pair, w.2 = cs_modified) (concat (tags s)).

Definition end_l1_reads : list printed :=
  if 0 <? num_rd_access s then
    [cout [Text "  -- L1$"; if data then Text "D[" else Text "I["; Setw 3; Num num;
           Text "] : RD (miss, access)=( "; Setw 8; Num (num_rd_miss s); Text ", "; Setw 8; Num (num_rd_access s);
           Text ")= "; Setw 6; Fixed; Precision 2; Quot (100 * num_rd_miss s) (num_rd_access s);
           Text "%, PRE (hit, reqs)=( "; Num (num_prefetch_hits s); Text ", "; Num (num_prefetch_requests s);
           Text " )"; Endl]]
  else [].

Definition end_l1_writes : list printed :=
  if 0 <? num_wr_access s then
    [cout [Text "  -- L1$"; if data then Text "D[" else Text "I["; Setw 3; Num num;
           Text "] : WR (miss, access)=( "; Setw 8; Num (num_wr_miss s); Text ", "; Setw 8; Num (num_wr_access s);
           Text ")= "; Setw 6; Fixed; Precision 2; Quot (100 * num_wr_miss s) (num_wr_access s); Text "%"; Endl]]
  else [].

Definition end_l1_coherence : outcome (list printed) :=
  if data && ((0 <? num_ev_coherency s) || (0 <? num_ev_capacity s) || (0 <? num_coherency_access s)) then
    dirty ← dirty_cl_per_offset (geo cfg) (addr_offset_lsb p) l1_modified ∅;
    Ok ([cout [Text "  -- L1$D["; Setw 3; Num num;
               Text "] : (ev_coherency, ev_capacity, coherency_access, up_req, bypass, nack)=( ";
               Setw 8; Num (num_ev_coherency s); Text ", "; Setw 8; Num (num_ev_capacity s); Text ", ";
               Setw 8; Num (num_coherency_access s); Text ", "; Setw 8; Num (num_upgrade_req s); Text ", ";
               Setw 8; Num (num_bypass s); Text ", "; Setw 8; Num (num_nack s); Text "), "];
         cout [Text "#_dirty_lines (pid:#) = "]] ++
        ((λ m, cout [Num m.1; Text ": "; Num m.2; Text " , "]) <$> in_order dirty) ++ [cout [Endl]])
  else if negb data && bool_decide (c_type (this cfg) = ct_cachel1i) &&
          ((0 <? num_ev_coherency s) || (0 <? num_coherency_access s)) then
    Ok [cout [Text "  -- L1$I["; Setw 3; Num num; Text "] : (ev_coherency, coherency_access, bypass)=( ";
              Setw 10; Num (num_ev_coherency s); Text ", "; Setw 10; Num (num_coherency_access s); Text ", ";
              Setw 10; Num (num_bypass s); Text ")"; Endl]]
  else Ok [].

(** [CacheL1::~CacheL1] *)
Definition end_l1 : outcome (list printed) :=
  l ← end_l1_coherence; Ok (end_l1_reads ++ end_l1_writes ++ l).

(** [CacheL1::show_state] *)
Definition show_l1 (addr : Z) : outcome (list printed) :=
  '(set, tag) ← Cache.split_addr (geo cfg) addr;
  ways ← vec_get (tags s) set;
  Ok match Cache.find_way (holds_tag tag) ways with
     | Some (_, w) => [LOG WARNING [Text "  -- L1"; if data then Text "D[" else Text "I["; Num num; Text "] : ";
                                    name_of_coherence w.2; Endl]]
     | None => []
     end.
End L1.

(** ** L2 caches *)

(** How many lines are in which state: invalid, exclusive, shared, modified and the rest,
    32-bit counters. *)
Record census := { num_i : Z; num_e : Z; num_s : Z; num_m : Z; num_tr : Z }.

Definition count_line (n : census) (t : coherence_state_type) : census :=
  match t with
  | cs_invalid => n <| num_i ::= λ k, k ⊕₃₂ 1 |>
  | cs_exclusive => n <| num_e ::= λ k, k ⊕₃₂ 1 |>
  | cs_shared => n <| num_s ::= λ k, k ⊕₃₂ 1 |>
  | cs_modified => n <| num_m ::= λ k, k ⊕₃₂ 1 |>
  | _ => n <| num_tr ::= λ k, k ⊕₃₂ 1 |>
  end.

Definition census_of (ts : list coherence_state_type) : census :=
  foldl count_line {| num_i := 0; num_e := 0; num_s := 0; num_m := 0; num_tr := 0 |} ts.

Definition num_cache_lines (n : census) : Z :=
  num_i n ⊕₃₂ num_e n ⊕₃₂ num_s n ⊕₃₂ num_m n ⊕₃₂ num_tr n.

(** [1000 * num / num_cache_lines] *)
Definition per_mille (n : census) (k : Z) : outcome Z :=
  if num_cache_lines n =? 0 then Err Undef else Ok ((1000 ⊗₃₂ k) / num_cache_lines n).

Section L2.
Context (p : params) (cfg : CacheL2.config) (s : CacheL2.state).
Import CacheL2.
Notation num := (c_num (this cfg)).

Definition print_entry (e : L2Entry) : list token :=
  [Text " l2entry: tag= "; Hex; Num (tag e); Dec; Text ", type= "; name_of_coherence (cs_type e);
   Text ", type_l1l2= "; name_of_coherence (type_l1l2 e); Text ", sharedl1=[ "] ++
  (c ← set_iter (sharedl1 e); print c ++ [Text ", "]) ++
  [Text "], first_acc_time= "; Num (first_access_time e); Text ", last_acc_time= "; Num (last_access_time e)] ++
  match pending e with Some l => Text ", pending= " :: print_lqe l | None => [] end.

Definition l2_modified : list Z := tag <$> filter (λ e, cs_type e = cs_modified) (concat (tags s)).
Definition l2_states : list coherence_state_type := cs_type <$> concat (tags s).

Definition display_life_time : bool := get_param_bool p (c_type (this cfg)) "display_life_time" false.

Definition end_l2_accesses : list printed :=
  (if 0 <? num_rd_access s then
     [cout [Text "  -- L2$ ["; Setw 3; Num num; Text "] : RD (miss, acc)=( "; Setw 8; Num (num_rd_miss s);
            Text ", "; Setw 8; Num (num_rd_access s); Text ")= "; Setw 6; Fixed; Precision 2;
            Quot (100 * num_rd_miss s) (num_rd_access s); Text "%"; Endl]]
   else []) ++
  (if 0 <? num_wr_access s then
     [cout [Text "  -- L2$ ["; Setw 3; Num num; Text "] : WR (miss, acc)=( "; Setw 8; Num (num_wr_miss s);
            Text ", "; Setw 8; Num (num_wr_access s); Text ")= "; Setw 6; Fixed; Precision 2;
            Quot (100 * num_wr_miss s) (num_wr_access s); Text "%"; Endl]]
   else []).

Definition end_l2_coherence : list printed :=
  (if (0 <? num_ev_coherency s) || (0 <? num_ev_capacity s) ||
      (0 <? num_coherency_access s) || (0 <? num_upgrade_req s) then
     [cout [Text "  -- L2$ ["; Setw 3; Num num;
            Text "] : (ev_coherency, ev_capacity, coherency_acc, up_req, bypass, nack)=( ";
            Setw 8; Num (num_ev_coherency s); Text ", "; Setw 8; Num (num_ev_capacity s); Text ", ";
            Setw 8; Num (num_coherency_access s); Text ", "; Setw 8; Num (num_upgrade_req s); Text ", ";
            Setw 8; Num (num_bypass s); Text ", "; Setw 8; Num (num_nack s); Text ")"; Endl]]
   else []) ++
  (if 0 <? num_ev_from_l1 s then
     [cout [Text "  -- L2$ ["; Setw 3; Num num; Text "] : EV_from_L1 (miss, acc)=( "; Setw 8;
            Num (num_ev_from_l1_miss s); Text ", "; Setw 8; Num (num_ev_from_l1 s); Text ")= "; Fixed; Precision 2;
            Quot (100 * num_ev_from_l1_miss s) (num_ev_from_l1 s); Text "%, "]]
   else []).

Definition end_l2_lines : outcome (list printed) :=
  if (0 <? num_rd_access s) || (0 <? num_wr_access s) then
    dirty ← dirty_cl_per_offset (geo cfg) (addr_offset_lsb p) l2_modified ∅;
    let n := census_of l2_states in
    i ← per_mille n (num_i n); e ← per_mille n (num_e n); sh ← per_mille n (num_s n);
    m ← per_mille n (num_m n); tr ← per_mille n (num_tr n);
    Ok ([cout [Text " L2$ (i,e,s,m,tr) ratio=("; Fixed; Setw 3; Num i; Text ", "; Fixed; Setw 3; Num e; Text ", ";
               Fixed; Setw 3; Num sh; Text ", "; Fixed; Setw 3; Num m; Text ", "; Fixed; Setw 3; Num tr;
               Text "), num_dirty_lines (pid:#) = "]] ++
        ((λ m, cout [Num m.1; Text " : "; Num m.2; Text ", "]) <$> in_order dirty) ++ [cout [Endl]])
  else Ok [].

Definition end_l2_life : list printed :=
  if display_life_time && (0 <? num_destroyed_cache_lines s) then
    let cycles := process_interval cfg ⊗ num_destroyed_cache_lines s in
    [cout [Text "  -- L2$ ["; Setw 3; Num num;
           Text "] : (cache_line_life_time, time_between_last_access_and_cache_destroy) = ("; Fixed; Precision 2;
           Quot (cache_line_life_time s) cycles; Text ", "; Fixed; Precision 2;
           Quot (time_between_last_access_and_cache_destroy s) cycles; Text ") L2$ cycles"; Endl]]
  else [].

(** [CacheL2::~CacheL2] *)
Definition end_l2 : outcome (list printed) :=
  l ← end_l2_lines; Ok (end_l2_accesses ++ end_l2_coherence ++ l ++ end_l2_life).

(** [CacheL2::show_state] *)
Definition show_l2 (addr : Z) : outcome (list printed) :=
  '(set, t) ← Cache.split_addr (geo cfg) addr;
  ways ← vec_get (tags s) set;
  Ok match Cache.find_way (holds_tag t) ways with
     | Some (_, e) =>
         [LOG WARNING ([Text "  -- L2 ["; Num num; Text "] : "; name_of_coherence (cs_type e); Text ", ";
                        name_of_coherence (type_l1l2 e)] ++
                       (c ← set_iter (sharedl1 e); Text ", " :: print c) ++ [Endl])]
     | None => []
     end.
End L2.

(** [CacheL2::test_tags]: a check that no call is left of. *)
Fixpoint no_tag_twice (ways : list CacheL2.L2Entry) (seen : gset Z) : outcome unit :=
  match ways with
  | [] => Ok tt
  | e :: ways =>
      if bool_decide (CacheL2.cs_type e = cs_invalid) then no_tag_twice ways seen
      else if bool_decide (CacheL2.tag e ∈ seen) then Err Fatal
      else no_tag_twice ways ({[CacheL2.tag e]} ∪ seen)
  end.
Definition test_tags (set : Z) (s : CacheL2.state) : outcome unit :=
  ways ← vec_get (CacheL2.tags s) set; no_tag_twice ways ∅.

(** ** Directories *)

Section Dir.
Context (cfg : Directory.config) (s : Directory.state).
Import Directory.
Notation num := (c_num (this cfg)).

(** The lines that are still there are added to the histogram. *)
Fixpoint count_sharers (l : list DirEntry) (h : list Z) : outcome (list Z) :=
  match l with
  | [] => Ok h
  | e :: l => _ ← vec_get h (num_sharer e); count_sharers l (vec_alter (λ n, n ⊕ 1) (num_sharer e) h)
  end.

(** [Directory::~Directory] *)
Definition end_dir : outcome (list printed) :=
  h ← count_sharers (snd <$> in_order (dir s)) (num_sharer_histogram s);
  Ok (if 0 <? num_i_to_tr s then
        [cout [Text "  -- Dir ["; Setw 3; Num num;
               Text "] : (i->tr, e->tr, s->tr, m->tr, m->i, tr->i, tr->e, tr->s, tr->m) = (";
               Num (num_i_to_tr s); Text ", "; Num (num_e_to_tr s); Text ", "; Num (num_s_to_tr s); Text ", ";
               Num (num_m_to_tr s); Text ", "; Num (num_m_to_i s); Text ", "; Num (num_tr_to_i s); Text ", ";
               Num (num_tr_to_e s); Text ", "; Num (num_tr_to_s s); Text ", "; Num (num_tr_to_m s); Text ")"; Endl];
         cout [Text "  -- Dir ["; Setw 3; Num num; Text "] : (acc, nack, bypass, ev, inv, from_mc) = (";
               Num (num_acc s); Text ", "; Num (num_nack s); Text ", "; Num 0; Text ", ";
               Num (num_evict s); Text ", "; Num (num_invalidate s); Text ", "; Num (num_from_mc s); Text "), "]] ++
        (if has_directory_cache cfg then
           [cout [Endl; Text "  -- Dir ["; Setw 3; Num num; Text "] : (dir$_miss, dir$_retry, dir$_ev) = (";
                  Num (num_dir_cache_miss s); Text ", "; Num (num_dir_cache_retry s); Text ", ";
                  Num (num_dir_evict s); Text "), "]]
         else []) ++
        [cout [Text "num_sharer_histogram: "]] ++
        ((λ n, cout [Num n; Text ", "]) <$> drop 1 h) ++ [cout [Endl]]
      else []).

(** [Directory::show_state] *)
Definition show_dir (addr : Z) : outcome (list printed) :=
  line ← c_shr addr (set_lsb cfg);
  Ok match dir s !! line with
     | None => []
     | Some e =>
         [LOG WARNING
            ([Text "  -- DIR["; Num num; Text "] : "; name_of_coherence (cs_type e)] ++
             (if not_in_dc e then [Text ", not_in_dc"] else []) ++
             (c ← set_iter (sharedl2 e); [Text ", ("; name_of_component (c_type c); Text ", "; Num (c_num c); Text ") "]) ++
             match pending e with Some l => print_lqe l | None => [Endl] end)]
     end.
End Dir.

(** ** Memory controllers *)

Section MC.
Context (p : params) (cfg : MemoryController.config).
Import MemoryController.
Notation num := (c_num (this cfg)).

Definition display_os_page_usage : bool := get_param_bool p (c_type (this cfg)) "display_os_page_usage" false.

(** One line per page: the accesses counted at the cores and here; [1 << page_sz_base_bit]
    is an [int], undefined from 31 on. *)
Definition page_line (at_cores : gmap Z Z) (m : Z * Z) : outcome printed :=
  if 31 <=? page_sz_base_bit cfg then Err Undef
  else Ok (cout [Text "  -- page 0x"; Setfill "0"; Setw 8; Hex; Num (m.1 ⊗ 2 ^ page_sz_base_bit cfg); Setfill " "; Dec;
                 Text " is accessed ("; Setw 7; Num (default 0 (at_cores !! m.1)); Text ", "; Setw 7; Num m.2;
                 Text ") times at (Core, MC)."; Endl]).

(** [MemoryController::~MemoryController]; the counters of refreshes and of predictions
    are 0, since nothing counts them. *)
Definition end_mc (at_cores : gmap Z Z) (s : state) : outcome (list printed) :=
  '(_, s, _) ← (if 0 <? num_read s then update_acc_dist s else Ok (tt, s, []));
  stats ←
    (if 0 <? num_read s then
       if num_read s ⊕ num_write s =? 0 then Err Undef
       else Ok [
         cout [Text "  -- MC  ["; Setw 3; Num num; Text "] : (rd, wr, act, pre) = ("; Setw 9; Num (num_read s); Text ", ";
               Setw 9; Num (num_write s); Text ", "; Setw 9; Num (num_activate s); Text ", "; Setw 9;
               Num (num_precharge s); Text "), # of WR->RD switch = "; Num (num_write_to_read_switch s);
               Text ", #_refresh = "; Num 0; Text ", "; Num (Z.of_nat (size (os_page_acc_dist s))); Text " pages acc, ";
               Text "avg_tick_in_mc= "; Num (packet_time_in_mc_acc s / (num_read s ⊕ num_write s)); Endl];
         cout [Text "  -- MC  ["; Setw 3; Num num; Text "] : "; Text "local pred (miss,hit)=( "; Num 0; Text ", "; Num 0;
               Text "), global pred (miss,hit)=( "; Num 0; Text ", "; Num 0; Text ")"; Endl]]
     else Ok []);
  pages ← (if display_os_page_usage then mapM (page_line at_cores) (in_order (os_page_acc_dist s)) else Ok []);
  Ok (stats ++ pages).

Definition show_request (k : nat) (l : LQE) : outcome printed :=
  rank ← get_rank_num cfg (address l); bank ← get_bank_num cfg (address l); page ← get_page_num cfg (address l);
  Ok (cout ([Text "  -- req_l["; Setw 2; Num (Z.of_nat k); Text "] = ("; Num rank; Text ", "; Num bank; Text ", 0x"; Hex;
             Num page; Dec; Text ") : "; Hex; Pointer; Dec; Text " : "] ++ print_lqe l)).

Definition show_bank (i k : nat) (b : BankStatus) : printed :=
  cout [Text "  -- bank_status["; Setw 2; Num (Z.of_nat i); Text "]["; Setw 2; Num (Z.of_nat k); Text "] = ("; Setw 10;
        Num (action_time b); Text ", "; Hex; Text "0x"; Num (page_num b); Dec; Text ", "; name_of_action (action_type b);
        Text ")"; Endl].

Definition show_path (name : string) (m : gmap Z mc_bank_action) : list printed :=
  (λ kv, cout [Text name; Num kv.1; Text ", "; name_of_action kv.2; Text ")"; Endl]) <$> in_order m.

(** [MemoryController::show_state] takes the tick, where [McSim::show_state] passes the
    address. *)
Definition show_mc (curr_time : Z) (s : state) : outcome (list printed) :=
  reqs ← mapM (λ kl, show_request kl.1 kl.2) (zip (seq 0 (length (req_l s))) (req_l s));
  Ok ([LOG INFO [Text "  -- MC  ["; Num num; Text "] : curr_time = "; Num curr_time; Endl]] ++ reqs ++
      (if 0 <=? curr_batch_last s then
         [cout [Text "  -- current batch ends at req_l["; Setw 2; Num (curr_batch_last s); Text "]"; newline]] else []) ++
      concat (imap (λ i, imap (show_bank i)) (bank_status s)) ++
      imap (λ i t, cout [Text "  -- last_act_time["; Num (Z.of_nat i); Text "] = "; Num t; Endl]) (last_activate_time s) ++
      show_path "  -- data_path_status = (" (dp_status s) ++ show_path "  -- rd_dp_status = (" (rd_dp_status s) ++
      show_path "  -- wr_dp_status = (" (wr_dp_status s)).
End MC.

(** ** Cores *)

Section Core.
Context (cfg : O3Core.config) (s : O3Core.state).
Import O3Core.
Notation num := (c_num (this cfg)).

(** [O3Core::~O3Core]; [num_x87_ops] is 0, since nothing counts it. *)
Definition end_core : list printed :=
  if 0 <? num_instrs s then
    [cout [Text "  -- OOO ["; Setw 3; Num num; Text "] : fetched "; Setw 10; Num (num_instrs s);
           Text " instrs, branch (miss, access)=( "; Setw 8; Num (num_branch_miss s); Text ", "; Setw 10;
           Num (num_branch s); Text ")= "];
     if 0 <? num_branch s then
       cout [Setw 6; Fixed; Precision 2; Quot (100 * num_branch_miss s) (num_branch s); Text "%,"]
     else cout [Setw 6; Num 0; Text "%,"];
     cout [Text " nacks= "; Num (num_nacks s); Text ", x87_ops= "; Num 0; Text ", call_ops= "; Num (num_call_ops s);
           Text ", latest_ip= 0x"; Hex; Num (latest_ip s); Dec; Text ", tot_mem_wr_time= "; Num (total_mem_wr_time s);
           Text ", tot_mem_rd_time= "; Num (total_mem_rd_time s); Endl]]
  else [].

Definition show_queue_entry (i : Z) : outcome printed :=
  q ← vec_get (o3queue s) i;
  Ok (cout [Text "  - "; Setw 3; Num i; Text ": "; name_of_queue_state (q_state q); Text ", "; Dec; Num (q_ready_time q);
            Hex; Text ", 0x"; Num (waddr q); Text ", 0x"; Num (wlen q); Text ", 0x"; Num (raddr q); Text ", 0x";
            Num (raddr2 q); Text ", 0x"; Num (rlen q); Text ", 0x"; Num (q_ip q); Text ", ";
            name_of_instruction (q_type q); Text ": "; Dec; Num (q_rr0 q); Text ", "; Num (q_rr1 q); Text ", ";
            Num (q_rr2 q); Text ", "; Num (q_rr3 q); Text ", "; Num (q_rw0 q); Text ", "; Num (q_rw1 q); Text ", ";
            Num (q_rw2 q); Text ", "; Num (q_rw3 q); Dec; Endl]).

Definition displayO3Queue : outcome (list printed) :=
  l ← mapM show_queue_entry (upto (o3queue_max_size cfg));
  Ok (cout [Text "  OOO["; Setw 3; Num num; Text "]Q: head="; Num (o3queue_head s); Text ", size=";
            Num (o3queue_size s); Endl] :: l).

Definition show_rob_entry (i : Z) : outcome printed :=
  r ← vec_get (o3rob s) i;
  Ok (cout [Text "  - "; Setw 3; Num i; Text ": "; name_of_rob_state (r_state r); Text ", "; Dec; Num (r_ready_time r);
            Hex; Text ", 0x"; Num (r_ip r); Text ", 0x"; Num (memaddr r); Text ", "; flag (isread r); Text ", ";
            flag (branch_miss r); Text ": 0x"; Num (mem_dep r); Text ", 0x"; Num (instr_dep r); Text ", 0x";
            Num (branch_dep r); Text ", "; name_of_instruction (r_type r); Text ": 0x"; Num (r_rr0 r); Text ", 0x";
            Num (r_rr1 r); Text ", 0x"; Num (r_rr2 r); Text ", 0x"; Num (r_rr3 r); Text ", 0x"; Num (r_rw0 r);
            Text ", 0x"; Num (r_rw1 r); Text ", 0x"; Num (r_rw2 r); Text ", 0x"; Num (r_rw3 r); Dec; Endl]).

Definition displayO3ROB : outcome (list printed) :=
  l ← mapM show_rob_entry (upto (o3rob_max_size cfg));
  Ok (cout [Text "  OOO["; Setw 3; Num num; Text "]R: head="; Num (o3rob_head s); Text ", size=";
            Num (o3rob_size s); Endl] :: l).
End Core.

(** ** The crossbar *)

(** [NoC::~NoC] *)
Definition end_noc (cfg : Crossbar.config) (s : Crossbar.state) : list printed :=
  if 0 <? Crossbar.num_req s then
    [cout [Text "  -- NoC ["; Setw 3; Num (c_num (Crossbar.this cfg)); Text "] : (req, crq, rep) = ("; Num (Crossbar.num_req s);
           Text ", "; Num (Crossbar.num_crq s); Text ", "; Num (Crossbar.num_rep s); Text "), num_data_transfers = ";
           Num (Crossbar.num_data_transfers s); Endl]]
  else [].

(** ** The simulator *)

Section Simulator.
Context (p : params) (cfg : config).
Notation W := (wires cfg).

(** A loop over the components of a kind, in their order. *)
Definition each {C T} (f : C → T → outcome (list printed)) (cs : list C) (ts : list T) : outcome (list printed) :=
  l ← mapM (λ x, f x.1 x.2) (zip cs ts); Ok (concat l).

Definition lsu_process_interval : Z := u32 (pts_get_param_uint64 p "pts.o3core.process_interval" 10).

Definition ipc1000 (s : mcsim) : Z :=
  if curr_time (global_q s) =? 0 then 0
  else 1000 ⊗ num_fetched_instrs s ⊗ lsu_process_interval / curr_time (global_q s).

(** What [resume_simulation] prints at the end of an interval, before the totals are kept
    for the next one ([McSim.report]). *)
Definition interval_ipc1000 (s : mcsim) : Z :=
  1000 ⊗ (num_fetched_instrs s ⊖ num_fetched_instrs_last s) ⊗ lsu_process_interval
    / (curr_time (global_q s) ⊖ curr_time_last s).

Definition show_l2_stat_per_interval : bool := pts_get_param_bool p "pts.show_l2_stat_per_interval" false.

Definition used_pages (f : MemoryController.state → gmap Z Z) (l : list MemoryController.state) : Z :=
  total (λ m, Z.of_nat (size (f m))) l.

Definition end_interval (s : mcsim) : outcome (list printed) :=
  let w := parts s in
  _ ← (if (length (l1is w) <? length (l1ds w))%nat then Err Undef else Ok tt);
  let caches := zip (l1ds w) (l1is w) in
  ms ← mapM account (mcs w);
  Ok ([cout [Text "  -- ["; Dec; Setw 12; Num (curr_time (global_q s)); Text "]: "; Setw 10; Num (num_fetched_instrs s);
             Text " instrs so far,"]] ++
      (if curr_time_last s <? curr_time (global_q s) then
         [cout [Text " IPC= "; Setw 3; Num (interval_ipc1000 s / 1000); Text "."; Setfill "0"; Setw 3;
                Num (interval_ipc1000 s mod 1000); Setfill " "; Text ", "]] else []) ++
      [cout [Text "L1 (acc, miss)=( "; Setw 7; Num (total (λ c, l1_acc c.1 c.2) caches ⊖ num_l1_acc_last s); Text ", "; Setw 6;
             Num (total (λ c, l1_miss c.1 c.2) caches ⊖ num_l1_miss_last s); Text "), "];
       cout [Text "L2 (acc, miss)=( "; Setw 6; Num (total l2_acc (l2s w) ⊖ num_l2_acc_last s); Text ", "; Setw 6;
             Num (total l2_miss (l2s w) ⊖ num_l2_miss_last s); Text "), "];
       cout [Setw 6; Num (total MemoryController.num_reqs (mcs w) ⊖ num_mem_acc_last s); Text " mem accs, ( "];
       cout [Setw 4; Num (used_pages MemoryController.os_page_acc_dist_curr (mcs w)); Text ", "];
       cout [Setw 4; Num (used_pages MemoryController.os_page_acc_dist ms ⊖ num_used_pages_last s);
             Text ") touched pages (this time, 1stly), "]] ++
      (if show_l2_stat_per_interval then [] else [cout [Endl]])).

(** [McSim::~McSim]: the totals, and what the destructors of the components print. *)
Definition end_mcsim (s : mcsim) : outcome (list printed) :=
  let w := parts s in
  let ipc := ipc1000 s in
  cores ← each (λ c s, Ok (end_core c s)) (cfg_cores W) (o3cores w);
  itlbs ← each (λ c s, Ok (end_tlb c s)) (cfg_tlbl1is W) (tlbl1is w);
  dtlbs ← each (λ c s, Ok (end_tlb c s)) (cfg_tlbl1ds W) (tlbl1ds w);
  is_ ← each (end_l1 p) (cfg_l1is W) (l1is w);
  ds ← each (end_l1 p) (cfg_l1ds W) (l1ds w);
  l2s_ ← each (end_l2 p) (cfg_l2s W) (l2s w);
  dirs_ ← each end_dir (cfg_dirs W) (dirs w);
  mcs_ ← each (λ c, end_mc p c (os_page_req_dist w)) (cfg_mcs W) (mcs w);
  Ok ([cout [Text "  -- total number of fetched instructions : "; Num (num_fetched_instrs s); Text " (IPC = "; Setw 3;
             Num (ipc / 1000); Text "."; Setfill "0"; Setw 3; Num (ipc mod 1000); Setfill " "; Text ")"; Endl]] ++
      cores ++ itlbs ++ dtlbs ++ is_ ++ ds ++ l2s_ ++ dirs_ ++ mcs_ ++ end_noc (cfg_noc W) (noc w)).

(** What [resume_simulation] prints when no event is left and no thread is active. *)
Definition end_of_events (s : mcsim) : list printed := [cout [Num (curr_time (global_q s)); Endl]].

(** [McSim::show_state]; cores, TLBs and the crossbar show nothing. *)
Definition show_state (addr : Z) (w : world) : outcome (list printed) :=
  is_ ← each (λ c s, show_l1 c s addr) (cfg_l1is W) (l1is w);
  ds ← each (λ c s, show_l1 c s addr) (cfg_l1ds W) (l1ds w);
  l2s_ ← each (λ c s, show_l2 c s addr) (cfg_l2s W) (l2s w);
  mcs_ ← each (λ c, show_mc c addr) (cfg_mcs W) (mcs w);
  dirs_ ← each (λ c s, show_dir c s addr) (cfg_dirs W) (dirs w);
  Ok (is_ ++ ds ++ l2s_ ++ mcs_ ++ dirs_).
End Simulator.
End Printing.
End Report.

Module ReportProofs.
Import OrdMap PtrSet GlobalEventQueue Machine McSim Report.

(** ** The census of an L2 *)

Definition lines (n : census) : Z := num_i n + num_e n + num_s n + num_m n + num_tr n.

Record counts (n : census) : Prop := {
  counts_i : 0 ≤ num_i n; counts_e : 0 ≤ num_e n; counts_s : 0 ≤ num_s n;
  counts_m : 0 ≤ num_m n; counts_tr : 0 ≤ num_tr n }.

Definition modified (ts : list coherence_state_type) : Z :=
  Z.of_nat (length (filter (λ t, t = cs_modified) ts)).

Lemma census_loop ts n :
  counts n → lines n + Z.of_nat (length ts) < 2 ^ 32 →
  let n' := foldl count_line n ts in
  counts n' ∧ lines n' = lines n + Z.of_nat (length ts) ∧ num_m n' = num_m n + modified ts.
Proof.
  revert n. induction ts as [|t ts IH]; intros n Hn Hl; cbn [foldl length] in *.
  { unfold modified. cbn. split_and!; [done|lia|lia]. }
  assert (counts (count_line n t) ∧ lines (count_line n t) = lines n + 1 ∧
    num_m (count_line n t) = num_m n + if decide (t = cs_modified) then 1 else 0) as (H1 & H2 & H3).
  { destruct Hn as [Hi He Hs Hm Ht]. unfold lines in *.
    destruct t; (split_and!; [split; cbn; rewrite ?u32_id by (unfold in_u32; lia); lia|
      cbn; rewrite u32_id by (unfold in_u32; lia); lia|
      cbn; rewrite ?u32_id by (unfold in_u32; lia); case_decide; congruence || lia]). }
  destruct (IH (count_line n t) H1) as (H4 & H5 & H6); [lia|].
  split_and!; [done|lia|]. rewrite H6, H3. unfold modified. rewrite filter_cons. case_decide; cbn [length]; lia.
Qed.

Lemma census_total ts :
  Z.of_nat (length ts) < 2 ^ 32 →
  counts (census_of ts) ∧ lines (census_of ts) = Z.of_nat (length ts) ∧ num_m (census_of ts) = modified ts ∧
  num_cache_lines (census_of ts) = Z.of_nat (length ts).
Proof.
  intros Hl. destruct (census_loop ts {| num_i := 0; num_e := 0; num_s := 0; num_m := 0; num_tr := 0 |}) as (Hc & Ht & Hm);
    [by split|exact Hl|]. fold (census_of ts) in Hc, Ht, Hm.
  change (lines (census_of ts) = Z.of_nat (length ts)) in Ht. cbn [num_m] in Hm.
  split_and!; [done|done|lia|]. unfold num_cache_lines. destruct Hc. unfold lines in Ht.
  set (n := census_of ts) in *. rewrite (u32_id (num_i n + num_e n)), (u32_id (num_i n + num_e n + num_s n)),
    (u32_id (num_i n + num_e n + num_s n + num_m n)), u32_id by (unfold in_u32; lia). lia.
Qed.

(** ** The dirty lines of each process *)

Definition sum_of (m : gmap Z Z) : Z := map_fold (λ _ n k, n + k) 0 m.

Lemma sum_of_insert m k n : m !! k = None → sum_of (<[k := n]> m) = n + sum_of m.
Proof. intros H. unfold sum_of. rewrite map_fold_insert_L; [done|intros; lia|done]. Qed.

Lemma sum_of_replace m k n n' : m !! k = Some n → sum_of (<[k := n']> m) = sum_of m - n + n'.
Proof.
  intros H. rewrite <- (insert_delete_id m k n H) at 2. rewrite <- insert_delete_eq.
  rewrite !sum_of_insert by apply lookup_delete_eq. lia.
Qed.

Lemma sum_of_nonneg m : map_Forall (λ _ n, 0 ≤ n) m → 0 ≤ sum_of m.
Proof.
  induction m as [|k n m Hk IH] using map_ind; intros Hm; [done|]. rewrite sum_of_insert by done.
  apply map_Forall_insert in Hm as [Hn Hm]; [|done]. specialize (IH Hm). lia.
Qed.

(** How many of the lines with these tags are at the offset [k]. *)
Definition lines_at (g : Cache.geometry) (lsb k : Z) (l : list Z) : Z :=
  Z.of_nat (length (filter (λ t, offset_of g lsb t = Ok k) l)).

Lemma lines_at_cons g lsb k t l :
  lines_at g lsb k (t :: l) = (if decide (offset_of g lsb t = Ok k) then 1 else 0) + lines_at g lsb k l.
Proof. unfold lines_at. rewrite filter_cons. case_decide; cbn [length]; lia. Qed.

Lemma offset_defined g lsb t :
  0 ≤ Cache.set_lsb g < 64 → 0 ≤ lsb < 64 → ∃ k, offset_of g lsb t = Ok k.
Proof.
  intros Hg Hl. unfold offset_of. rewrite (proj2 (Z.leb_gt _ _)), (proj2 (Z.ltb_ge _ _)), (proj2 (Z.leb_gt _ _)) by lia. by eexists.
Qed.

Lemma dirty_defined g lsb dirty m :
  0 ≤ Cache.set_lsb g < 64 → 0 ≤ lsb < 64 → ∃ m', dirty_cl_per_offset g lsb dirty m = Ok m'.
Proof.
  intros Hg Hl. revert m. induction dirty as [|t dirty IH]; intros m; cbn [dirty_cl_per_offset]; [by eexists|].
  destruct (offset_defined g lsb t Hg Hl) as [k ->]. apply IH.
Qed.

Lemma dirty_ok g lsb dirty m :
  0 ≤ Cache.set_lsb g < 64 → 0 ≤ lsb < 64 →
  map_Forall (λ _ n, 0 < n) m → sum_of m + Z.of_nat (length dirty) < 2 ^ 64 →
  ∃ m', dirty_cl_per_offset g lsb dirty m = Ok m' ∧ sum_of m' = sum_of m + Z.of_nat (length dirty) ∧
    map_Forall (λ _ n, 0 < n) m' ∧ ∀ k, default 0 (m' !! k) = default 0 (m !! k) + lines_at g lsb k dirty.
Proof.
  intros Hg Hlsb. revert m. induction dirty as [|t dirty IH]; intros m Hm Hl; cbn [dirty_cl_per_offset length] in *.
  { exists m. split_and!; [done|lia|done|]. intros k. unfold lines_at. cbn. lia. }
  destruct (offset_defined g lsb t Hg Hlsb) as [o Ho]. rewrite Ho. cbn [mbind outcome_bind].
  assert (∀ k n, m !! k = Some n → 0 < n ≤ sum_of m) as Hle.
  { intros k n Hk. pose proof (Hm _ _ Hk). split; [done|]. rewrite <- (insert_delete_id m k n Hk), sum_of_insert by apply lookup_delete_eq.
    enough (0 ≤ sum_of (delete k m)) by lia. apply sum_of_nonneg. eapply map_Forall_impl; [by apply map_Forall_delete|]. cbn. lia. }
  set (m1 := count_offset m o).
  assert (sum_of m1 = sum_of m + 1 ∧ map_Forall (λ _ n, 0 < n) m1 ∧
    ∀ k, default 0 (m1 !! k) = default 0 (m !! k) + if decide (k = o) then 1 else 0) as (H1 & H2 & H3).
  { unfold m1, count_offset. destruct (m !! o) as [n|] eqn:Hn.
    - apply Hle in Hn as Hn'. rewrite u64_id by (unfold in_u64; lia). split_and!.
      + rewrite (sum_of_replace _ _ n) by done. lia.
      + apply map_Forall_insert_2; [lia|done].
      + intros k. case_decide as Hk; [subst; by rewrite lookup_insert_eq, Hn|]. rewrite lookup_insert_ne by done. lia.
    - split_and!.
      + rewrite sum_of_insert by done. lia.
      + apply map_Forall_insert_2; [lia|done].
      + intros k. case_decide as Hk; [subst; by rewrite lookup_insert_eq, Hn|]. rewrite lookup_insert_ne by done. lia. }
  destruct (IH m1 H2) as (m' & Hrun & Hsum & Hpos & Hcount); [lia|]. exists m'. split_and!; [done|lia|done|]. intros k.
  rewrite Hcount, H3, lines_at_cons, Ho. case_decide; case_decide; lia || congruence.
Qed.

(** The line of an address of the process whose addresses begin at [pid * 2 ^ lsb] is
    counted for that process, when the index of the set is below the offset. *)
Lemma offset_of_process g k lsb addr set tag :
  0 ≤ Cache.set_lsb g → Cache.num_sets g = 2 ^ k → 0 ≤ k → Cache.set_lsb g + k ≤ lsb < 64 →
  0 ≤ addr < 2 ^ 64 → Cache.split_addr g addr = Ok (set, tag) → offset_of g lsb tag = Ok (addr / 2 ^ lsb).
Proof.
  intros Hb Hk Hk0 Hl Ha. unfold Cache.split_addr, c_shr. rewrite (proj2 (Z.ltb_lt _ _)) by lia. cbn.
  rewrite Hk, (proj2 (Z.eqb_neq _ _)) by (pose proof (Z.pow_pos_nonneg 2 k); lia). intros [= <- <-].
  unfold offset_of. rewrite (proj2 (Z.leb_gt _ _)), (proj2 (Z.ltb_ge _ _)), (proj2 (Z.leb_gt _ _)) by lia. cbn. f_equal.
  rewrite Hk. unfold shr, shl64. rewrite !Z.shiftr_div_pow2, Z.shiftl_mul_pow2 by lia.
  set (b := Cache.set_lsb g) in *. rewrite Z.div_div by (pose proof (Z.pow_pos_nonneg 2 b); pose proof (Z.pow_pos_nonneg 2 k); lia).
  rewrite <- Z.pow_add_r by lia.
  assert (addr / 2 ^ (b + k) * 2 ^ k * 2 ^ b = 2 ^ (b + k) * (addr / 2 ^ (b + k))) as E by (rewrite Z.pow_add_r by lia; lia).
  assert (0 ≤ 2 ^ (b + k) * (addr / 2 ^ (b + k)) ≤ addr) as Hr.
  { split; [|apply Z.mul_div_le; apply Z.pow_pos_nonneg; lia].
    apply Z.mul_nonneg_nonneg; [apply Z.pow_nonneg; lia|apply Z.div_pos; [lia|apply Z.pow_pos_nonneg; lia]]. }
  assert (0 ≤ addr / 2 ^ (b + k) * 2 ^ k) by (apply Z.mul_nonneg_nonneg; [apply Z.div_pos; [lia|apply Z.pow_pos_nonneg; lia]|apply Z.pow_nonneg; lia]).
  assert (1 ≤ 2 ^ b) by (pose proof (Z.pow_pos_nonneg 2 b); lia).
  rewrite (u64_id (_ * 2 ^ k)) by (unfold in_u64; nia). rewrite u64_id by (unfold in_u64; lia). rewrite E.
  replace lsb with ((b + k) + (lsb - (b + k))) by lia. rewrite (Z.pow_add_r 2 (b + k)) by lia.
  rewrite <- !Z.div_div by (apply Z.pow_nonzero || apply Z.pow_pos_nonneg; lia).
  f_equal. rewrite Z.mul_comm. apply Z.div_mul. apply Z.pow_nonzero; lia.
Qed.

(** ** The report of an L2 *)

Lemma length_concat_tags g (ts : list (list CacheL2.L2Entry)) :
  Cache.tags_ok CacheL2.tag CacheL2.alive CacheL2.entry_ok g ts →
  Z.of_nat (length (concat ts)) = Cache.num_sets g * Cache.num_ways g.
Proof.
  intros [Hl Hf]. rewrite <- Hl. clear Hl. induction Hf as [|ways ts [Hw _ _] _ IH]; cbn [concat length]; [lia|].
  rewrite length_app. lia.
Qed.

Lemma per_mille_ok n k : 0 < num_cache_lines n → per_mille n k = Ok ((1000 ⊗₃₂ k) / num_cache_lines n).
Proof. intros H. unfold per_mille. by rewrite (proj2 (Z.eqb_neq _ _)) by lia. Qed.

Lemma filter_fmap_length {A} (f : A → coherence_state_type) l :
  length (filter (λ t, t = cs_modified) (f <$> l)) = length (filter (λ x, f x = cs_modified) l).
Proof.
  induction l as [|x l IH]; [done|]. rewrite fmap_cons, !filter_cons. repeat case_decide; cbn [length]; lia || congruence.
Qed.

(** What the report of an L2 says. *)
Lemma l2_report_ok p cfg s :
  Cache.geometry_ok (CacheL2.geo cfg) → CacheL2.inv cfg s → 0 ≤ addr_offset_lsb p < 64 →
  let size := Cache.num_sets (CacheL2.geo cfg) * Cache.num_ways (CacheL2.geo cfg) in size < 2 ^ 32 →
  let n := census_of (l2_states s) in
  num_i n + num_e n + num_s n + num_m n + num_tr n = size ∧
  ∃ dirty, dirty_cl_per_offset (CacheL2.geo cfg) (addr_offset_lsb p) (l2_modified s) ∅ = Ok dirty ∧
    map_Forall (λ _ n, 0 < n) dirty ∧ sum_of dirty = num_m n ∧
    (∀ k, default 0 (dirty !! k) = lines_at (CacheL2.geo cfg) (addr_offset_lsb p) k (l2_modified s)) ∧
  ∃ ratio out, mapM (per_mille n) [num_i n; num_e n; num_s n; num_m n; num_tr n] = Ok ratio ∧ end_l2 p cfg s = Ok out ∧
    (1000 * size < 2 ^ 32 → Forall (λ r, 0 ≤ r ≤ 1000) ratio ∧ 996 ≤ foldr Z.add 0 ratio ≤ 1000).
Proof.
  intros Hg Hinv Hlsb size Hsize n. pose proof (length_concat_tags _ _ Hinv) as Hlen. fold size in Hlen.
  assert (Z.of_nat (length (l2_states s)) = size) as Hlen' by (unfold l2_states; by rewrite length_fmap).
  assert (0 < size) as Hpos by (destruct Hg; unfold size; nia).
  destruct (census_total (l2_states s)) as (Hc & Hl & Hm & Ht); [lia|]. fold n in Hc, Hl, Hm, Ht.
  split; [unfold lines in Hl; lia|].
  assert (Z.of_nat (length (l2_modified s)) = num_m n) as Hmod.
  { rewrite Hm. unfold modified, l2_states, l2_modified. by rewrite filter_fmap_length, length_fmap. }
  destruct (dirty_ok (CacheL2.geo cfg) (addr_offset_lsb p) (l2_modified s) ∅) as (dirty & Hd & Hsum & Hpos' & Hcount);
    [apply Hg|done|done| |].
  { change (sum_of ∅) with 0. rewrite Hmod. destruct Hc. unfold lines in Hl. lia. }
  exists dirty. split; [done|]. split; [done|]. split; [by rewrite Hsum, Hmod|]. split; [intros k; by rewrite Hcount|].
  assert (∃ out, end_l2 p cfg s = Ok out) as [out Hout].
  { unfold end_l2, end_l2_lines. destruct (_ || _); [|by eexists]. rewrite Hd. cbn [mbind outcome_bind]. fold n.
    rewrite !per_mille_ok by lia. by eexists. }
  cbn [mapM]. rewrite !per_mille_ok by lia. rewrite Ht, Hlen'. eexists _, out. split; [reflexivity|]. split; [done|].
  intros H1000. destruct Hc as [Hi He Hs' Hm' Htr]. unfold lines in Hl.
  rewrite !u32_id by (unfold in_u32; lia). cbn [foldr].
  assert (∀ k, 0 ≤ k ≤ size → 0 ≤ 1000 * k / size ≤ 1000 ∧ 1000 * k - size < 1000 * k / size * size ≤ 1000 * k) as Hdiv.
  { intros k Hk. pose proof (Z.mod_pos_bound (1000 * k) size Hpos). pose proof (Z.div_mod (1000 * k) size). nia. }
  pose proof (Hdiv (num_i n)). pose proof (Hdiv (num_e n)). pose proof (Hdiv (num_s n)). pose proof (Hdiv (num_m n)).
  pose proof (Hdiv (num_tr n)). split; [repeat constructor; lia|].
  match goal with |- 996 ≤ ?q ≤ 1000 => set (Q := q) end.
  assert (995 * size < Q * size ≤ 1000 * size) as [HQ1 HQ2] by (unfold Q; rewrite !Z.mul_add_distr_r; lia).
  apply Z.mul_lt_mono_pos_r in HQ1; [|done]. apply Z.mul_le_mono_pos_r in HQ2; [|done]. lia.
Qed.

Lemma end_l2_ok p cfg s :
  Cache.geometry_ok (CacheL2.geo cfg) → CacheL2.inv cfg s → 0 ≤ addr_offset_lsb p < 64 →
  Cache.num_sets (CacheL2.geo cfg) * Cache.num_ways (CacheL2.geo cfg) < 2 ^ 32 → ∃ out, end_l2 p cfg s = Ok out.
Proof. intros Hg Hi Hl Hs. destruct (l2_report_ok p cfg s Hg Hi Hl Hs) as (_ & _ & _ & _ & _ & _ & _ & out & _ & H & _). by exists out. Qed.

(** ** The check that a set holds no line twice *)

Lemma no_tag_twice_spec ways seen :
  no_tag_twice ways seen = Ok tt ↔
  NoDup (Cache.valid_tags CacheL2.tag CacheL2.alive ways) ∧
  ∀ t, t ∈ Cache.valid_tags CacheL2.tag CacheL2.alive ways → t ∉ seen.
Proof.
  revert seen. induction ways as [|e ways IH]; intros seen; cbn [no_tag_twice].
  { split; [|done]. intros _. split; [constructor|]. by intros t ?%not_elem_of_nil. }
  assert (Cache.valid_tags CacheL2.tag CacheL2.alive (e :: ways) =
    if bool_decide (CacheL2.cs_type e = cs_invalid) then Cache.valid_tags CacheL2.tag CacheL2.alive ways
    else CacheL2.tag e :: Cache.valid_tags CacheL2.tag CacheL2.alive ways) as ->.
  { unfold Cache.valid_tags. rewrite filter_cons. case_decide as Ha; unfold CacheL2.alive in Ha; by destruct (bool_decide _). }
  case_bool_decide; [apply IH|]. rewrite NoDup_cons. case_bool_decide as Hs.
  - split; [done|]. intros [_ H']. exfalso. by apply (H' (CacheL2.tag e)); [left|].
  - rewrite IH.
    generalize (Cache.valid_tags CacheL2.tag CacheL2.alive ways). intros l. split.
    + intros [Hn Hd]. split; [split; [intros Hx; apply (Hd _ Hx), elem_of_union_l, elem_of_singleton; done|done]|].
      intros t [->|Ht]%elem_of_cons; [done|]. intros Hin. by apply (Hd t Ht), elem_of_union_r.
    + intros [[Hx Hn] Hd]. split; [done|]. intros t Ht [->%elem_of_singleton|Hin]%elem_of_union; [done|].
      apply (Hd t); [by right|done].
Qed.

Lemma test_tags_ok cfg s set : CacheL2.inv cfg s → 0 ≤ set < Cache.num_sets (CacheL2.geo cfg) → test_tags set s = Ok tt.
Proof.
  intros [Hl Hf] Hset. unfold test_tags. destruct (vec_get_lt (CacheL2.tags s) set) as [ways Hw]; [lia|]. rewrite Hw. cbn.
  apply no_tag_twice_spec. apply (Forall_vec_get _ _ _ _ Hf) in Hw as [_ Hnd _]. split; [done|]. intros t _. apply not_elem_of_empty.
Qed.

(** In every state an L2 can reach, the check finds nothing. *)
Theorem test_tags_passes `{!Addresses} cfg s set :
  Cache.geometry_ok (CacheL2.geo cfg) → rtc (CacheL2.step cfg) (CacheL2.init cfg) s →
  0 ≤ set < Cache.num_sets (CacheL2.geo cfg) → test_tags set s = Ok tt.
Proof. intros Hg Hr. eapply test_tags_ok, (CacheL2.reachable_full cfg s Hg Hr). Qed.

(** ** The report of a directory *)

Lemma count_sharers_ok (l : list Directory.DirEntry) h :
  Forall (λ e, 0 ≤ Directory.num_sharer e < Z.of_nat (length h)) l →
  ∃ h', count_sharers l h = Ok h' ∧ length h' = length h.
Proof.
  revert h. induction l as [|e l IH]; intros h Hl; cbn [count_sharers]; [by exists h|].
  apply Forall_cons in Hl as [He Hl]. destruct (vec_get_lt h (Directory.num_sharer e)) as [n ->]; [lia|]. cbn.
  destruct (IH (vec_alter (λ n, n ⊕ 1) (Directory.num_sharer e) h)) as (h' & -> & Hlen).
  { by rewrite length_vec_alter. }
  exists h'. by rewrite length_vec_alter in Hlen.
Qed.

Lemma in_order_Forall {A} (P : A → Prop) (m : gmap Z A) : map_Forall (λ _, P) m → Forall P (snd <$> in_order m).
Proof.
  intros Hm. apply Forall_fmap, Forall_forall. intros [k x] Hx. apply (Hm k).
  apply elem_of_map_to_list. unfold in_order in Hx. by rewrite merge_sort_Permutation in Hx.
Qed.

Lemma end_dir_ok `{!Addresses} cfg s : Directory.good cfg s → ∃ out, end_dir cfg s = Ok out.
Proof.
  intros [He Hh]. unfold end_dir.
  destruct (count_sharers_ok (snd <$> in_order (Directory.dir s)) (Directory.num_sharer_histogram s)) as (h & -> & _).
  { eapply Forall_impl; [by apply in_order_Forall|]. intros e [_ _ _ Hc]. cbn in Hc |- *. rewrite Hh. lia. }
  cbn. by eexists.
Qed.

(** ** The state of a line *)

Lemma show_l2_ok `{!Addresses} cfg s addr :
  Cache.geometry_ok (CacheL2.geo cfg) → CacheL2.inv cfg s → 0 ≤ addr → ∃ out, show_l2 cfg s addr = Ok out.
Proof.
  intros Hg [Hl _] Ha. destruct (Cache.split_addr_ok _ Hg addr Ha) as (set & t & Hsp & Hset & _).
  unfold show_l2. rewrite Hsp. cbn. destruct (vec_get_lt (CacheL2.tags s) set) as [ways ->]; [lia|]. cbn. by eexists.
Qed.

(** ** The report of the simulator *)

Section Final.
Context {AD : Addresses} (p : params) (cfg : config).
Notation W := (wires cfg).

Record reportable (w : world) : Prop := {
  rp_offset : 0 ≤ addr_offset_lsb p < 64;
  rp_l1is : Forall (λ c, 0 ≤ Cache.set_lsb (CacheL1.geo c) < 64) (cfg_l1is W);
  rp_l1ds : Forall (λ c, 0 ≤ Cache.set_lsb (CacheL1.geo c) < 64) (cfg_l1ds W);
  rp_l2s : Forall2 (λ c s, Cache.geometry_ok (CacheL2.geo c) ∧ CacheL2.inv c s ∧
             Cache.num_sets (CacheL2.geo c) * Cache.num_ways (CacheL2.geo c) < 2 ^ 32) (cfg_l2s W) (l2s w);
  rp_dirs : Forall2 Directory.good (cfg_dirs W) (dirs w);
  rp_mcs : Forall2 (λ c s, 0 ≤ MemoryController.page_sz_base_bit c < 31 ∧
             0 ≤ MemoryController.num_write s ∧ MemoryController.num_read s + MemoryController.num_write s < 2 ^ 64)
             (cfg_mcs W) (mcs w) }.

Lemma zip_Forall2 {C T} (R : C → T → Prop) cs ts c t : Forall2 R cs ts → (c, t) ∈ zip cs ts → R c t.
Proof.
  induction 1 as [|x y cs ts Hxy _ IH]; cbn; [by intros ?%not_elem_of_nil|].
  by intros [[= -> ->]|Hin]%elem_of_cons; [|apply IH].
Qed.

Lemma each_ok {C T} (f : C → T → outcome (list printed)) cs ts :
  (∀ c t, (c, t) ∈ zip cs ts → ∃ out, f c t = Ok out) → ∃ out, each f cs ts = Ok out.
Proof.
  intros Hf. unfold each. enough (∃ l, mapM (λ x, f x.1 x.2) (zip cs ts) = Ok l) as [l ->] by (by eexists).
  revert Hf. generalize (zip cs ts). intros l Hf.
  induction l as [|[c t] l IH]; cbn; [by eexists|].
  destruct (Hf c t) as [x ->]; [left|]. destruct IH as [k ->]; [intros; apply Hf; by right|]. by eexists.
Qed.

Lemma end_l1_ok c s :
  0 ≤ addr_offset_lsb p < 64 → 0 ≤ Cache.set_lsb (CacheL1.geo c) < 64 → ∃ out, end_l1 p c s = Ok out.
Proof.
  intros Hp Hc. unfold end_l1, end_l1_coherence. destruct (_ && _); [|destruct (_ && _); by eexists].
  enough (∃ d, dirty_cl_per_offset (CacheL1.geo c) (addr_offset_lsb p) (l1_modified s) ∅ = Ok d) as [d ->] by (by eexists).
  apply dirty_defined; done.
Qed.

Lemma end_mc_ok c m s :
  0 ≤ MemoryController.page_sz_base_bit c < 31 → 0 ≤ MemoryController.num_write s →
  MemoryController.num_read s + MemoryController.num_write s < 2 ^ 64 → ∃ out, end_mc p c m s = Ok out.
Proof.
  intros Hb Hw Hr. unfold end_mc.
  assert (∀ l, ∃ k, mapM (page_line c m) l = Ok k) as Hpages.
  { intros l. assert (∀ x, ∃ y, page_line c m x = Ok y) as Hline.
    { intros x. unfold page_line. rewrite (proj2 (Z.leb_gt _ _)) by lia. by eexists. }
    induction l as [|x l [k IH]]; cbn; [by eexists|]. destruct (Hline x) as [y ->]. cbn. rewrite IH. by eexists. }
  assert (∃ s' u, (if 0 <? MemoryController.num_read s then MemoryController.update_acc_dist s else Ok (tt, s, [])) = Ok (u, s', []) ∧
    MemoryController.num_read s' = MemoryController.num_read s ∧ MemoryController.num_write s' = MemoryController.num_write s)
    as (s' & u & -> & Hr' & Hw') by (case_match; by eexists _, _).
  cbn [mbind outcome_bind]. rewrite <- Hr' in Hr. rewrite <- Hw' in Hr, Hw. clear Hr' Hw'.
  destruct (Hpages (in_order (MemoryController.os_page_acc_dist s'))) as [k Hk]. rewrite Hk.
  destruct (Z.ltb_spec 0 (MemoryController.num_read s')).
  - rewrite u64_id, (proj2 (Z.eqb_neq _ _)) by (unfold in_u64; lia). cbn [mbind outcome_bind]. case_match; by eexists.
  - cbn [mbind outcome_bind]. case_match; by eexists.
Qed.

(** The end of an interval is printed exactly when the totals can be kept. *)
Lemma interval_printed s : (∃ out, end_interval p s = Ok out) ↔ ∃ s', report s = Ok s'.
Proof.
  unfold end_interval, report. destruct (_ <? _)%nat; cbn; [naive_solver|].
  destruct (mapM account (mcs (parts s))); cbn; naive_solver.
Qed.

Theorem final_report s : reportable (parts s) → ∃ out, end_mcsim p cfg s = Ok out.
Proof.
  intros [Ho Hi Hd Hl2 Hdir Hmc]. unfold end_mcsim.
  destruct (each_ok (λ c s, Ok (end_core c s)) (cfg_cores W) (o3cores (parts s))) as [cores ->]; [by eexists|].
  destruct (each_ok (λ c s, Ok (end_tlb c s)) (cfg_tlbl1is W) (tlbl1is (parts s))) as [itlbs ->]; [by eexists|].
  destruct (each_ok (λ c s, Ok (end_tlb c s)) (cfg_tlbl1ds W) (tlbl1ds (parts s))) as [dtlbs ->]; [by eexists|].
  destruct (each_ok (end_l1 p) (cfg_l1is W) (l1is (parts s))) as [li ->].
  { intros c t Hin%elem_of_zip_l. apply end_l1_ok; [done|]. by eapply Forall_forall in Hi. }
  destruct (each_ok (end_l1 p) (cfg_l1ds W) (l1ds (parts s))) as [ld ->].
  { intros c t Hin%elem_of_zip_l. apply end_l1_ok; [done|]. by eapply Forall_forall in Hd. }
  destruct (each_ok (end_l2 p) (cfg_l2s W) (l2s (parts s))) as [l2 ->].
  { intros c t Hin. destruct (zip_Forall2 _ _ _ _ _ Hl2 Hin) as (Hg & Hinv & Hsz). by apply end_l2_ok. }
  destruct (each_ok end_dir (cfg_dirs W) (dirs (parts s))) as [ds ->].
  { intros c t Hin. apply end_dir_ok. exact (zip_Forall2 _ _ _ _ _ Hdir Hin). }
  destruct (each_ok (λ c, end_mc p c (os_page_req_dist (parts s))) (cfg_mcs W) (mcs (parts s))) as [ms ->].
  { intros c t Hin. destruct (zip_Forall2 _ _ _ _ _ Hmc Hin) as (Hb & Hw & Hr). by apply end_mc_ok. }
  by eexists.
Qed.
End Final.

(** *** What the report of an L2 says *)

(** How many ways are in a state. *)
Definition in_state (s : CacheL2.state) (P : coherence_state_type → bool) : Z :=
  Z.of_nat (length (filter (λ e, P (CacheL2.cs_type e) = true) (concat (CacheL2.tags s)))).

Definition exactly (c : coherence_state_type) : coherence_state_type → bool := λ d, bool_decide (d = c).
Definition in_transit (c : coherence_state_type) : bool :=
  match c with cs_invalid | cs_exclusive | cs_shared | cs_modified => false | _ => true end.

(** A modified line whose address is one of the process: the addresses of process [pid]
    begin at [pid * 2 ^ lsb]. *)
Definition dirty_line (g : Cache.geometry) (lsb pid : Z) (set : nat) (e : CacheL2.L2Entry) : Prop :=
  CacheL2.cs_type e = cs_modified ∧ Cache.join_addr g (Z.of_nat set) (CacheL2.tag e) / 2 ^ lsb = pid.
#[local] Instance dirty_line_dec g lsb pid set e : Decision (dirty_line g lsb pid set e) := and_dec _ _.

Definition dirty_lines (cfg : CacheL2.config) (s : CacheL2.state) (lsb pid : Z) : Z :=
  Z.of_nat (length (concat (imap (λ set ways, filter (dirty_line (CacheL2.geo cfg) lsb pid set) ways) (CacheL2.tags s)))).

Lemma census_field (get : census → Z) (P : coherence_state_type → bool) ts n :
  (∀ n t, counts n → lines n + 1 < 2 ^ 32 → get (count_line n t) = get n + if P t then 1 else 0) →
  counts n → lines n + Z.of_nat (length ts) < 2 ^ 32 →
  get (foldl count_line n ts) = get n + Z.of_nat (length (filter (λ t, P t = true) ts)).
Proof.
  intros Hget. revert n. induction ts as [|t ts IH]; intros n Hn Hl; cbn [foldl length] in *; [cbn; lia|].
  destruct (census_loop [t] n Hn) as (Hc & Hl1 & _); [change (Z.of_nat (length [t])) with 1; lia|].
  cbn [foldl] in Hc, Hl1. change (Z.of_nat (length [t])) with 1 in Hl1.
  rewrite (IH (count_line n t)) by (done || lia). rewrite Hget by (done || lia). rewrite filter_cons.
  destruct (P t); [rewrite decide_True by done|rewrite decide_False by done]; cbn [length]; lia.
Qed.

Lemma filter_states (P : coherence_state_type → bool) (l : list CacheL2.L2Entry) :
  length (filter (λ t, P t = true) (CacheL2.cs_type <$> l)) = length (filter (λ e, P (CacheL2.cs_type e) = true) l).
Proof.
  induction l as [|e l IH]; [done|]. rewrite fmap_cons, !filter_cons. repeat case_decide; cbn [length]; congruence.
Qed.

(** Every counter of the census is the number of ways in its state. *)
Lemma census_exact s : Z.of_nat (length (l2_states s)) < 2 ^ 32 →
  census_of (l2_states s) =
    {| num_i := in_state s (exactly cs_invalid); num_e := in_state s (exactly cs_exclusive); num_s := in_state s (exactly cs_shared);
       num_m := in_state s (exactly cs_modified); num_tr := in_state s in_transit |}.
Proof.
  intros Hl. set (n0 := {| num_i := 0; num_e := 0; num_s := 0; num_m := 0; num_tr := 0 |}).
  assert (counts n0) as Hc by (by split).
  assert (∀ (get : census → Z) (P : coherence_state_type → bool), (∀ n t, counts n → lines n + 1 < 2 ^ 32 → get (count_line n t) = get n + if P t then 1 else 0) →
    get n0 = 0 → get (census_of (l2_states s)) = in_state s P) as H.
  { intros get P Hget H0. unfold census_of. fold n0. rewrite (census_field get P _ n0 Hget Hc) by exact Hl.
    unfold in_state, l2_states. by rewrite H0, filter_states. }
  rewrite <- (H num_i (exactly cs_invalid)), <- (H num_e (exactly cs_exclusive)), <- (H num_s (exactly cs_shared)),
    <- (H num_m (exactly cs_modified)), <- (H num_tr in_transit); [by destruct (census_of _)|..];
    try done; intros n t [] Hn; unfold lines in Hn; unfold exactly;
    destruct t; rewrite ?bool_decide_eq_true_2 by done; rewrite ?bool_decide_eq_false_2 by done; cbn;
    rewrite ?u32_id by (unfold in_u32; lia); lia.
Qed.

(** The offset of a line is the number of the process its address belongs to, whichever
    set it is in. *)
Lemma offset_of_line g k lsb set tag :
  0 ≤ Cache.set_lsb g → Cache.num_sets g = 2 ^ k → 0 ≤ k → Cache.set_lsb g + k ≤ lsb < 64 → 0 ≤ set < Cache.num_sets g →
  offset_of g lsb tag = Ok (Cache.join_addr g set tag / 2 ^ lsb).
Proof.
  intros Hb Hk Hk0 Hl Hset. unfold offset_of, Cache.join_addr.
  rewrite (proj2 (Z.leb_gt _ _)), (proj2 (Z.ltb_ge _ _)), (proj2 (Z.leb_gt _ _)) by lia. cbn. f_equal.
  unfold shr, shl64. rewrite !Z.shiftr_div_pow2, !Z.shiftl_mul_pow2 by lia. rewrite Hk in *.
  set (b := Cache.set_lsb g) in *. unfold u64.
  assert (∀ r, 0 ≤ r < 2 ^ k →
    ((tag * 2 ^ k + r) * 2 ^ b) mod 2 ^ 64 / 2 ^ lsb = tag mod 2 ^ (64 - b - k) / 2 ^ (lsb - b - k)) as Hr.
  { intros r Hr. pose proof (Z.pow_pos_nonneg 2 b). pose proof (Z.pow_pos_nonneg 2 k).
    replace 64 with (b + k + (64 - b - k)) at 1 by lia. rewrite (Z.pow_add_r 2 (b + k)) by lia.
    replace lsb with (b + k + (lsb - b - k)) at 1 by lia. rewrite (Z.pow_add_r 2 (b + k) (lsb - b - k)) by lia.
    rewrite Z.rem_mul_r by (apply Z.pow_nonzero || apply Z.pow_pos_nonneg; lia).
    rewrite <- Z.div_div by (apply Z.pow_nonzero || apply Z.pow_pos_nonneg; lia).
    assert ((tag * 2 ^ k + r) * 2 ^ b = r * 2 ^ b + tag * 2 ^ (b + k)) as -> by (rewrite Z.pow_add_r by lia; ring).
    assert (0 ≤ r * 2 ^ b < 2 ^ (b + k)) as Hrb by (rewrite Z.pow_add_r by lia; nia).
    rewrite Z.div_add, (Z.div_small (r * 2 ^ b)), Z.mod_add, (Z.mod_small (r * 2 ^ b)) by lia.
    rewrite Z.add_0_l, (Z.mul_comm (2 ^ (b + k))), Z.div_add, (Z.div_small (r * 2 ^ b)) by lia. by rewrite Z.add_0_l. }
  rewrite Zplus_mod_idemp_l, !Zmult_mod_idemp_l, (Hr set Hset). rewrite <- (Hr 0) by lia. by rewrite Z.add_0_r.
Qed.

(** The loop counts, for every process, its dirty lines. *)
Lemma dirty_lines_at cfg s k lsb pid :
  Cache.geometry_ok (CacheL2.geo cfg) → CacheL2.inv cfg s → Cache.num_sets (CacheL2.geo cfg) = 2 ^ k → 0 ≤ k →
  Cache.set_lsb (CacheL2.geo cfg) + k ≤ lsb < 64 →
  dirty_lines cfg s lsb pid = lines_at (CacheL2.geo cfg) lsb pid (l2_modified s).
Proof.
  intros Hg [Hlen _] Hk Hk0 Hl. set (g := CacheL2.geo cfg) in *.
  set (at_pid := λ e, CacheL2.cs_type e = cs_modified ∧ offset_of g lsb (CacheL2.tag e) = Ok pid).
  assert (imap (λ set ways, filter (dirty_line g lsb pid set) ways) (CacheL2.tags s) =
    (λ ways, filter at_pid ways) <$> CacheL2.tags s) as Hsets.
  { apply list_eq. intros i. rewrite list_lookup_imap, list_lookup_fmap.
    destruct (CacheL2.tags s !! i) as [ways|] eqn:Hi; [|done]. cbn. f_equal. apply lookup_lt_Some in Hi.
    apply list_filter_iff. intros e. unfold dirty_line, at_pid.
    rewrite (offset_of_line g k lsb (Z.of_nat i)) by (first [apply Hg|lia]). split; intros [??]; split; congruence. }
  unfold dirty_lines. fold g. rewrite Hsets. unfold lines_at, l2_modified. f_equal. clear.
  induction (CacheL2.tags s) as [|ways ts IH]; [done|]. rewrite fmap_cons. cbn [concat].
  rewrite filter_app, fmap_app, filter_app, !length_app, IH. f_equal. clear.
  induction ways as [|e ways IH]; [done|]. rewrite !filter_cons. destruct (decide (at_pid e)) as [[Hm Ho]|Hn].
  - rewrite decide_True by done. rewrite fmap_cons, filter_cons, decide_True by done. cbn [length]. by rewrite IH.
  - case_decide; [|exact IH]. rewrite fmap_cons, filter_cons, decide_False; [exact IH|]. intros Ho. by destruct Hn.
Qed.

Lemma in_order_sorted (m : gmap Z Z) : StronglySorted Z.lt (in_order m).*1.
Proof.
  assert (NoDup (in_order m).*1) as Hnd.
  { unfold in_order. rewrite merge_sort_Permutation. apply NoDup_fst_map_to_list. }
  assert (StronglySorted key_le (in_order m)) as Hs by (apply StronglySorted_merge_sort; apply _).
  revert Hnd Hs. generalize (in_order m). intros l Hnd Hs. induction Hs as [|[k n] l _ IH Hk]; [constructor|].
  cbn in *. apply NoDup_cons in Hnd as [Hn Hnd]. constructor; [by apply IH|]. rewrite Forall_fmap, Forall_forall in *.
  intros [k' n'] Hin. specialize (Hk _ Hin). unfold key_le in Hk. cbn in *.
  assert (k ≠ k') by (intros ->; apply Hn, list_elem_of_fmap; by exists (k', n')). lia.
Qed.

Lemma in_order_sum (m : gmap Z Z) : foldr Z.add 0 (in_order m).*2 = sum_of m.
Proof.
  unfold sum_of. rewrite map_fold_foldr.
  assert (∀ l : list (Z * Z), foldr (uncurry (λ _ n k, n + k)) 0 l = foldr Z.add 0 l.*2) as ->
    by (induction l as [|[k n] l IH]; cbn; [done|by rewrite IH]).
  assert ((in_order m).*2 ≡ₚ (map_to_list m).*2) as Hp by (f_equiv; apply merge_sort_Permutation).
  revert Hp. generalize (in_order m).*2, (map_to_list m).*2. induction 1; cbn; lia.
Qed.

(** The lines a report of the tags prints. *)
Definition tags_report (shares : list Z) (dirty : list (Z * Z)) : list printed :=
  match shares with
  | [i; e; sh; m; tr] =>
      [cout [Text " L2$ (i,e,s,m,tr) ratio=("; Fixed; Setw 3; Num i; Text ", "; Fixed; Setw 3; Num e; Text ", ";
             Fixed; Setw 3; Num sh; Text ", "; Fixed; Setw 3; Num m; Text ", "; Fixed; Setw 3; Num tr;
             Text "), num_dirty_lines (pid:#) = "]] ++
      ((λ m, cout [Num m.1; Text " : "; Num m.2; Text ", "]) <$> dirty) ++ [cout [Endl]]
  | _ => []
  end.

(** C40: What the destructor of an L2 that was accessed prints about its lines, for tags and
    sharer sets that are consistent.  First the invalid, exclusive, shared and modified
    ways and those in transition, in this order, each as a share of the size in
    thousandths, rounded down, so that together they make between 996 and 1000.  Then, in
    the order of their numbers, the processes with modified lines, each with the number of
    modified ways whose address, that of the set included, is one of the process; these
    numbers add up to the modified ways.  The numbers of sets and of bits below the process
    are such that no set straddles two processes. *)
Theorem l2_report p cfg s k :
  let g := CacheL2.geo cfg in let size := Cache.num_sets g * Cache.num_ways g in let lsb := addr_offset_lsb p in
  Cache.geometry_ok g → CacheL2.inv cfg s → Cache.num_sets g = 2 ^ k → 0 ≤ k → Cache.set_lsb g + k ≤ lsb < 64 →
  1000 * size < 2 ^ 32 → 0 < CacheL2.num_rd_access s ∨ 0 < CacheL2.num_wr_access s →
  let ways := in_state s <$> [exactly cs_invalid; exactly cs_exclusive; exactly cs_shared; exactly cs_modified; in_transit] in
  let shares := (λ n, 1000 * n / size) <$> ways in
  ∃ dirty, end_l2 p cfg s =
      Ok (end_l2_accesses cfg s ++ end_l2_coherence cfg s ++ tags_report shares dirty ++ end_l2_life p cfg s) ∧
    foldr Z.add 0 ways = size ∧ 996 ≤ foldr Z.add 0 shares ≤ 1000 ∧
    StronglySorted Z.lt dirty.*1 ∧
    (∀ pid n, (pid, n) ∈ dirty ↔ 0 < n ∧ n = dirty_lines cfg s lsb pid) ∧
    foldr Z.add 0 dirty.*2 = in_state s (exactly cs_modified).
Proof.
  intros g size lsb Hg Hinv Hk Hk0 Hl H1000 Hacc ways shares.
  assert (0 < size) as Hpos by (destruct Hg; unfold size; nia).
  destruct (l2_report_ok p cfg s Hg Hinv) as (Hsum & dirty & Hd & Hnz & Hdirty & Hcount & ratio & out & Hratio & _ & Hbound);
    [destruct Hg; lia|fold g size; lia|]. fold g size in Hsum, Hbound. specialize (Hbound H1000) as [_ Hbound].
  pose proof (length_concat_tags _ _ Hinv) as Hlen. fold g size in Hlen.
  assert (Z.of_nat (length (l2_states s)) = size) as Hlen' by (unfold l2_states; by rewrite length_fmap).
  destruct (census_total (l2_states s)) as ([Hi He Hs Hm Ht] & _ & _ & Htot); [lia|]. rewrite Hlen' in Htot.
  assert (∀ n, 0 ≤ n ≤ size → per_mille (census_of (l2_states s)) n = Ok (1000 * n / size)) as Hper.
  { intros n Hn. rewrite per_mille_ok by lia. rewrite Htot, u32_id by (unfold in_u32; lia). done. }
  cbn [mapM] in Hratio. rewrite !Hper in Hratio by lia. injection Hratio as <-.
  exists (in_order dirty).
  assert (∀ pid n, dirty !! pid = Some n ↔ 0 < n ∧ n = dirty_lines cfg s lsb pid) as Hin.
  { intros pid n. rewrite (dirty_lines_at cfg s k lsb pid), <- Hcount by done. destruct (dirty !! pid) as [m|] eqn:E; cbn.
    - pose proof (Hnz _ _ E). split; [intros [= <-]; done|intros [_ ->]; done].
    - split; [done|lia]. }
  assert (in_order dirty ≡ₚ map_to_list dirty) as Hperm by apply merge_sort_Permutation.
  assert (end_l2_lines p cfg s = Ok (tags_report shares (in_order dirty))) as Hout.
  { unfold end_l2_lines. fold g lsb in Hd |- *. assert ((0 <? CacheL2.num_rd_access s) || (0 <? CacheL2.num_wr_access s) = true) as -> by lia.
    rewrite Hd. cbn [mbind outcome_bind]. rewrite !Hper by lia. cbn [mbind outcome_bind].
    by rewrite (census_exact s) by lia. }
  rewrite (census_exact s) in * by lia. cbn [num_i num_e num_s num_m num_tr] in *.
  split_and!; [unfold end_l2; by rewrite Hout| |exact (proj1 Hbound)|exact (proj2 Hbound)|apply in_order_sorted| |by rewrite in_order_sum].
  - subst ways. cbn [fmap list_fmap foldr]. lia.
  - intros pid n. by rewrite Hperm, elem_of_map_to_list.
Qed.

(** Two ways, one of them a modified line of process 0. *)
Definition read_once : CacheL2.state := CacheL2.owned_state <| CacheL2.num_rd_access := 1 |>.

Lemma l2_report_witness :
  ∃ dirty, end_l2 no_params CacheL2.example_config read_once =
      Ok (end_l2_accesses CacheL2.example_config read_once ++ end_l2_coherence CacheL2.example_config read_once ++
          tags_report [500; 0; 0; 500; 0] dirty ++ end_l2_life no_params CacheL2.example_config read_once) ∧
    (0, 1) ∈ dirty.
Proof.
  destruct (l2_report no_params CacheL2.example_config read_once 0) as (dirty & Hout & _ & _ & _ & Hin & _);
    [apply CacheL2.example_geometry|apply CacheL2.owned_ok|done|done|by vm_compute|by vm_compute|by left|].
  exists dirty. split; [exact Hout|]. apply Hin. split; [done|]. vm_compute. reflexivity.
Defined.
End ReportProofs.
