(* ===== verification/Server.v ===== *)
(** * The server of the front ends (main.cc, PTSProcessDescription.cc)

    [ProcessDescription] reads which processes to run; [main] numbers their threads and
    then serves one message after another: the message of the process [curr_pid], whose
    answer may go to another one. *)

From S2P Require Export McSim Frontend.
From Stdlib Require Import Ascii.

(** ** What is run *)

Module ProcessDescription.

(** [PTSProcess], without the page and the operating system's numbers. *)
Record PTSProcess := {
  num_threads : Z;
  num_instrs_to_skip_first : Z;
  tid_to_htid : Z;
  trace_name : string;
  directory : string;
  prog_n_argv : list string }.

(** A table of the run file. *)
Definition table : Type := list (string * toml).

Fixpoint find (key : string) (run : table) : option toml :=
  match run with
  | [] => None
  | (k, v) :: run => if decide (k = key) then Some v else find key run
  end.

Definition contains (key : string) (run : table) : outcome unit :=
  match find key run with Some _ => Ok tt | None => Err Fatal end.

(** [toml::find] throws when the entry is missing or of another type, [toml::find_or]
    gives the default. *)
Definition find_string (key : string) (run : table) : outcome string :=
  match find key run with Some (TString s) => Ok s | _ => Err Fatal end.
Definition find_integer (key : string) (run : table) : outcome Z :=
  match find key run with Some (TInt i) => Ok i | _ => Err Fatal end.
Definition find_or_int (key : string) (run : table) (def : Z) : Z :=
  match find key run with Some (TInt i) => i32 i | _ => def end.

(** The white space of [operator>>]. *)
Definition isspace (c : ascii) : bool :=
  let n := nat_of_ascii c in ((9 <=? n) && (n <=? 13) || (n =? 32))%nat.

(** The words of a string; [acc] is the word being read, backwards. *)
Fixpoint words (s : list ascii) (acc : list ascii) : list string :=
  let close := match acc with [] => [] | _ => [String.string_of_list_ascii (reverse acc)] end in
  match s with
  | [] => close
  | c :: s => if isspace c then close ++ words s [] else words s (c :: acc)
  end.

(** [do { ss >> word; push_back(word); } while (ss);] also pushes the empty word of the
    read that fails. *)
Definition split_args (arg : string) : list string := words (String.list_ascii_of_string arg) [] ++ [""%string].

(** A run table; none when it has no type, in which case it is ignored. *)
Definition read_run (offset : Z) (run : table) : outcome (option PTSProcess) :=
  match find "type" run with
  | None => Ok None
  | Some _ =>
      type ← find_string "type" run;
      '(threads, trace) ← (if decide (type = "pintool"%string) then
          _ ← contains "num_threads" run; _ ← contains "path" run; _ ← contains "arg" run;
          n ← find_integer "num_threads" run; Ok (i32 n, ""%string)
        else if decide (type = "trace"%string) then
          _ ← contains "trace_file" run; _ ← contains "path" run; _ ← contains "arg" run;
          name ← find_string "trace_file" run; Ok (1, name)
        else Err Fatal);
      path ← find_string "path" run;
      arg ← find_string "arg" run;
      Ok (Some {| num_threads := threads;
                  num_instrs_to_skip_first := find_or_int "num_instrs_to_skip_first" run 0;
                  tid_to_htid := offset; trace_name := trace; directory := path; prog_n_argv := split_args arg |})
  end.

(** The processes, and [num_hthreads], the threads of all of them. *)
Fixpoint read_runs (offset : Z) (runs : list table) : outcome (list PTSProcess * Z) :=
  match runs with
  | [] => Ok ([], offset)
  | run :: runs =>
      o ← read_run offset run;
      match o with
      | None => read_runs offset runs
      | Some pr => '(prs, n) ← read_runs (offset ⊕₃₂ num_threads pr) runs; Ok (pr :: prs, n)
      end
  end.

Definition make (runs : list table) : outcome (list PTSProcess * Z) := read_runs 0 runs.

(** The argument that follows [-trace_skip_first] on the command line of a trace player. *)
Definition trace_skip_first (instrs_skip : string) (pr : PTSProcess) : option string :=
  if (1 <? length (prog_n_argv pr))%nat then last (prog_n_argv pr) else Some instrs_skip.
End ProcessDescription.

(** ** The server *)

Module Server.
Import ProcessDescription PTSInterface McSim.

(** What [main] does to the processes it started. *)
Inductive signal : Set := KillAll | InterruptAll.

(** The fields of the message that the server writes. *)
Inductive answer : Type :=
| ans_switch (uint32_t_val uint64_t_val : Z)
| ans_slots (uint32_t_val : Z)
| ans_num_hthreads (uint32_t_val : Z)
| ans_uint64 (uint64_t_val : Z)
| ans_bool (bool_val : bool)
| ans_none.

(** What a round of the loop leads to: an answer in the page of a process, the end of the
    loop, or, when the simulator is still running after its fuel, neither yet. *)
Inductive served : Type :=
| Answered (pid : Z) (a : answer)
| Stopped
| Running.

(** What is fixed before the loop. *)
Record setup := {
  mc : config;
  md : params;
  pts_processes : list PTSProcess;
  htid_to_tid : list Z;
  htid_to_pid : list Z;
  offset : Z;
  addr_offset_lsb : Z;
  max_total_instrs : Z;
  num_instrs_per_th : Z;
  interleave_base_bit : Z }.

Record server := {
  mcsim_ : mcsim;
  curr_pid : Z;
  nactive : Z;
  num_th_passed_instr_count : Z;
  num_fetched : list Z }.

Section Server.
Context {AD : Addresses} {xed : O3Core.XedCategories}.

(** *** Before the loop *)

(** The threads of the processes, one after the other: the number of the process, and of
    the thread in it. *)
Fixpoint number_threads (idx : Z) (prs : list PTSProcess) : list (Z * Z) :=
  match prs with
  | [] => []
  | pr :: prs => ((λ j, (idx, j)) <$> upto (num_threads pr)) ++ number_threads (idx + 1) prs
  end.

(** The instruction without any effect, at address 0. *)
Definition no_instruction : O3Core.instruction := {|
  O3Core.in_waddr := 0; O3Core.in_wlen := 0; O3Core.in_raddr := 0; O3Core.in_raddr2 := 0; O3Core.in_rlen := 0;
  O3Core.in_ip := 0; O3Core.category := 0; O3Core.isbranch := false; O3Core.isbranchtaken := false;
  O3Core.islock := false; O3Core.isunlock := false; O3Core.isbarrier := false;
  O3Core.in_rr0 := 0; O3Core.in_rr1 := 0; O3Core.in_rr2 := 0; O3Core.in_rr3 := 0;
  O3Core.in_rw0 := 0; O3Core.in_rw1 := 0; O3Core.in_rw2 := 0; O3Core.in_rw3 := 0 |}.

(** The first thread of every process but the first is made active, with an instruction
    that brings it an event. *)
Fixpoint activate (cfg : config) (prs : list PTSProcess) (s : mcsim) : outcome mcsim :=
  match prs with
  | [] => Ok s
  | pr :: prs =>
      '(_, s) ← add_instruction cfg (tid_to_htid pr) 0 no_instruction s;
      s ← set_active cfg (i32 (tid_to_htid pr)) true s;
      activate cfg prs s
  end.

Definition start (p : params) (L : leftovers) (runs : list table) : outcome (setup * server) :=
  '(cfg, s) ← new_mcsim p L;
  '(prs, n) ← ProcessDescription.make runs;
  s ← activate cfg (tail prs) s;
  if get_num_hthreads s <? n then Err Fatal
  else match prs with
  | [] => Err Fatal
  | _ =>
      let ids := number_threads 0 prs in
      Ok ({| mc := cfg; md := p; pts_processes := prs; htid_to_tid := ids.*2; htid_to_pid := ids.*1; offset := n;
             addr_offset_lsb := i32 (Params.pts_get_param_uint64 p "addr_offset_lsb" 48);
             max_total_instrs := Params.pts_get_param_uint64 p "max_total_instrs" 1000000000;
             num_instrs_per_th := Params.pts_get_param_uint64 p "num_instrs_per_th" 0;
             interleave_base_bit := i32 (Params.pts_get_param_uint64 p "pts.mc.interleave_base_bit" 14) |},
          {| mcsim_ := s; curr_pid := 0; nactive := n; num_th_passed_instr_count := 0;
             num_fetched := replicate (length ids) 0 |})
  end.

(** *** A round of the loop *)

Context (S : setup).
Notation handler := (proc signal server).

(** [(uint64_t)x << n] for an [int32_t] [n]. *)
Definition shift_left (x n : Z) : outcome Z :=
  if (n <? 0) || (64 <=? n) then Err Undef else Ok (shl64 x n).

(** What is added to the addresses of a process, so that two processes do not share. *)
Definition address_offset (pid : Z) : outcome Z :=
  hi ← shift_left pid (addr_offset_lsb S);
  lo ← shift_left pid (interleave_base_bit S);
  Ok (hi ⊕ lo).

(** An address the instruction does not have stays 0. *)
Definition relocate (off a : Z) : Z := a ⊕ (if a =? 0 then 0 else off).

Definition relocate_instr (off : Z) (i : PTSInstr) : O3Core.instruction := {|
  O3Core.in_waddr := relocate off (waddr i); O3Core.in_wlen := wlen i;
  O3Core.in_raddr := relocate off (raddr i); O3Core.in_raddr2 := relocate off (raddr2 i); O3Core.in_rlen := rlen i;
  O3Core.in_ip := ip i ⊕ off; O3Core.category := category i;
  O3Core.isbranch := isbranch i; O3Core.isbranchtaken := isbranchtaken i;
  O3Core.islock := islock i; O3Core.isunlock := isunlock i; O3Core.isbarrier := isbarrier i;
  O3Core.in_rr0 := rr0 i; O3Core.in_rr1 := rr1 i; O3Core.in_rr2 := rr2 i; O3Core.in_rr3 := rr3 i;
  O3Core.in_rw0 := rw0 i; O3Core.in_rw1 := rw1 i; O3Core.in_rw2 := rw2 i; O3Core.in_rw3 := rw3 i |}.

(** A call of the simulator. *)
Definition simulator {A} (f : mcsim → outcome (A * mcsim)) : handler A :=
  m ← reads mcsim_;
  '(a, m) ← lift (f m);
  _ ← modify (set mcsim_ (λ _, m));
  mret a.

(** The instructions of a batch, in order; the result is that of the last one. *)
Fixpoint add_instructions (htid off slots : Z) (l : list PTSInstr) : handler Z :=
  match l with
  | [] => mret slots
  | i :: l =>
      slots ← simulator (add_instruction (mc S) (htid ⊕₃₂ hthreadid_ i) (curr_time_ i) (relocate_instr off i));
      add_instructions htid off slots l
  end.

(** The instructions of a thread are counted; a thread that passes [num_instrs_per_th]
    is counted too. *)
Definition count_batch (htid num_instrs : Z) : handler unit :=
  fs ← reads num_fetched;
  f ← lift (vec_get fs htid);
  _ ← when ((0 <? num_instrs_per_th S) && (f <? num_instrs_per_th S) && (num_instrs_per_th S <=? f ⊕ num_instrs))
        (modify (set num_th_passed_instr_count (λ n, n ⊕₃₂ 1)));
  modify (set num_fetched (vec_set htid (f ⊕ num_instrs))).

(** The answer to the thread that [resume_simulation] returned. *)
Definition switch_to (ret : Z * Z) : handler served :=
  pid ← lift (vec_get (htid_to_pid S) ret.1);
  _ ← modify (set curr_pid (λ _, pid));
  _ ← lift (vec_get (pts_processes S) pid);
  tid ← lift (vec_get (htid_to_tid S) ret.1);
  mret (Answered pid (ans_switch tid ret.2)).

(** A thread that is killed asks to be resumed one last time. *)
Definition note_killed (msg : PTSMessage) : handler unit :=
  match msg with
  | pts_resume_simulation _ true =>
      _ ← modify (set nactive (λ n, n ⊖₃₂ 1));
      n ← reads nactive;
      when (n =? 0) (emit InterruptAll)
  | _ => mret tt
  end.

(** The [switch] of the loop, for the process [curr_p]; [M] is the machine the simulator
    runs. *)
Definition dispatch (M : GlobalEventQueue.Machine Machine.world) (fuel : nat) (curr_p : PTSProcess) (msg : PTSMessage)
    : handler served :=
  s ← reads (λ s, s);
  let reply a := mret (Answered (curr_pid s) a) in
  match msg with
  | pts_resume_simulation _ _ =>
      r ← simulator (resume_with (mc S) M fuel);
      match r with Some ret => switch_to ret | None => mret Running end
  | pts_add_instruction l =>
      match l with
      | [] => fails Fatal
      | first :: _ =>
          off ← lift (address_offset (curr_pid s));
          slots ← add_instructions (tid_to_htid curr_p) off 0 l;
          _ ← count_batch (tid_to_htid curr_p ⊕₃₂ hthreadid_ first) (Z.of_nat (length l));
          reply (ans_slots slots)
      end
  | pts_get_num_hthreads => reply (ans_num_hthreads (get_num_hthreads (mcsim_ s)))
  | pts_get_param_uint64 str def => reply (ans_uint64 (Params.pts_get_param_uint64 (md S) str def))
  | pts_get_param_bool str def => reply (ans_bool (Params.pts_get_param_bool (md S) str def))
  | pts_get_curr_time => reply (ans_uint64 (get_curr_time (mcsim_ s)))
  | pts_set_active tid b =>
      _ ← simulator (λ m, m ← set_active (mc S) (i32 (tid_to_htid curr_p ⊕₃₂ tid)) b m; Ok (tt, m));
      reply ans_none
  | pts_set_stack_n_size tid stack size =>
      off ← lift (address_offset (curr_pid s));
      _ ← simulator (λ m,
            m ← set_stack_n_size (mc S) (i32 (tid_to_htid curr_p ⊕₃₂ tid)) (stack ⊕ off) size m; Ok (tt, m));
      reply ans_none
  | pts_destructor =>
      r ← simulator (resume_with (mc S) M fuel);
      match r with
      | Some ret => if ret.1 =? get_num_hthreads (mcsim_ s) then mret Stopped else switch_to ret
      | None => mret Running
      end
  end.

(** Enough instructions were simulated, in all or by every thread. *)
Definition limit_reached (s : server) : bool :=
  (max_total_instrs S <=? num_fetched_instrs (mcsim_ s)) || (offset S <=? num_th_passed_instr_count s).

Definition serve_with (M : GlobalEventQueue.Machine Machine.world) (fuel : nat) (msg : PTSMessage) : handler served :=
  s ← reads (λ s, s);
  curr_p ← lift (vec_get (pts_processes S) (curr_pid s));
  if limit_reached s then (_ ← emit KillAll; mret Stopped)
  else (_ ← note_killed msg; dispatch M fuel curr_p msg).

Definition serve (fuel : nat) (msg : PTSMessage) : handler served := serve_with (Machine.machine (wires (mc S))) fuel msg.
End Server.
End Server.

Module ServerProofs.
Import GlobalEventQueue Machine MachineProofs McSim McSimProofs ProcessDescription PTSInterface Server.

(** ** Numbering the threads *)

Fixpoint total_threads (prs : list PTSProcess) : Z :=
  match prs with [] => 0 | pr :: prs => num_threads pr + total_threads prs end.

(** The processes come one after the other, from [off] on. *)
Fixpoint placed (off : Z) (prs : list PTSProcess) : Prop :=
  match prs with
  | [] => True
  | pr :: prs => tid_to_htid pr = off ∧ 0 ≤ num_threads pr ∧ placed (off + num_threads pr) prs
  end.

Lemma total_nonneg off prs : placed off prs → 0 ≤ total_threads prs.
Proof. revert off. induction prs as [|pr prs IH]; intros off; cbn; [lia|]. intros (_ & ? & H%IH). lia. Qed.

Lemma read_runs_placed off runs prs n :
  read_runs off runs = Ok (prs, n) → Forall (λ pr, 0 ≤ num_threads pr) prs → 0 ≤ off → off + total_threads prs < 2 ^ 32 →
  placed off prs ∧ n = off + total_threads prs.
Proof.
  revert off prs n. induction runs as [|run runs IH]; intros off prs n; cbn [read_runs].
  { intros [= <- <-] _ _ _. split; [done|]. cbn. lia. }
  intros (o & Ho & H)%bind_Ok. destruct o as [pr|]; [|by apply IH].
  apply bind_Ok in H as ([prs' n'] & H & [= <- <-]). intros [Hpr Hprs]%Forall_cons Hoff Htot. cbn in Htot.
  assert (tid_to_htid pr = off) as Hid.
  { unfold read_run in Ho. destruct (find _ _); [|done]. apply bind_Ok in Ho as (ty & _ & Ho).
    apply bind_Ok in Ho as ([th tr] & _ & Ho). apply bind_Ok in Ho as (pa & _ & Ho).
    apply bind_Ok in Ho as (ar & _ & [= <-]). done. }
  assert (0 ≤ total_threads prs') as Hnn.
  { clear -Hprs. induction Hprs as [|x l Hx _ IH]; cbn; lia. }
  unfold u32 in H. rewrite Z.mod_small in H by lia.
  destruct (IH _ _ _ H) as [Hpl ->]; [done|lia|lia|]. cbn. split; [done|lia].
Qed.

Lemma length_numbers idx off prs : placed off prs → Z.of_nat (length (number_threads idx prs)) = total_threads prs.
Proof.
  revert idx off. induction prs as [|pr prs IH]; intros idx off; cbn; [done|]. intros (_ & Hn & H).
  rewrite length_app, length_fmap. unfold upto. rewrite length_seqZ, Nat2Z.inj_add, (IH _ _ H). lia.
Qed.

Lemma vec_get_cons {A} (x : A) l i y :
  vec_get (x :: l) i = Ok y ↔ (i = 0 ∧ y = x) ∨ (0 < i ∧ vec_get l (i - 1) = Ok y).
Proof.
  rewrite !vec_get_Some. split.
  - intros [Hi Hy]. destruct (decide (i = 0)) as [->|]; [left; by injection Hy as ->|right].
    split; [lia|]. split; [lia|]. by replace (Z.to_nat i) with (S (Z.to_nat (i - 1))) in Hy by lia.
  - intros [[-> ->]|(Hi & _ & Hy)]; [done|]. split; [lia|]. by replace (Z.to_nat i) with (S (Z.to_nat (i - 1))) by lia.
Qed.

Lemma vec_get_app_iff {A} (l k : list A) i y :
  vec_get (l ++ k) i = Ok y ↔ vec_get l i = Ok y ∨ (Z.of_nat (length l) ≤ i ∧ vec_get k (i - Z.of_nat (length l)) = Ok y).
Proof.
  rewrite !vec_get_Some. rewrite lookup_app_Some. split.
  - intros (Hi & [Hy|[Hl Hy]]); [by left|right]. split; [lia|]. split; [lia|].
    by replace (Z.to_nat (i - Z.of_nat (length l))) with (Z.to_nat i - length l)%nat by lia.
  - intros [[Hi Hy]|(Hl & _ & Hy)]; [eauto|]. split; [lia|]. right. split; [lia|].
    by replace (Z.to_nat i - length l)%nat with (Z.to_nat (i - Z.of_nat (length l))) by lia.
Qed.

(** Thread [j] of process [i] is found at its number, and nowhere else. *)
Lemma number_threads_spec idx off prs h i j :
  placed off prs →
  vec_get (number_threads idx prs) h = Ok (i, j) ↔
  ∃ pr, vec_get prs (i - idx) = Ok pr ∧ 0 ≤ j < num_threads pr ∧ off + h = tid_to_htid pr + j.
Proof.
  revert idx off h. induction prs as [|pr prs IH]; intros idx off h; cbn [number_threads placed].
  { intros _. unfold vec_get. split; [by case_match|]. intros (? & H & _). by case_match. }
  intros (Hid & Hn & Hpl). rewrite vec_get_app_iff, vec_get_upto, length_fmap. unfold upto. rewrite length_seqZ, Z2Nat.id by lia.
  rewrite (IH _ _ _ Hpl). split.
  - intros [[Hh [= -> ->]]|(Hh & pr' & Hget & Hj & Hsum)].
    + exists pr. rewrite vec_get_cons. split; [left; split; [lia|done]|]. lia.
    + exists pr'. rewrite vec_get_cons. replace (i - idx - 1) with (i - (idx + 1)) by lia.
      pose proof (vec_get_range _ _ _ Hget). split; [right; split; [lia|done]|]. lia.
  - intros (pr' & Hget%vec_get_cons & Hj & Hsum). destruct Hget as [[Hi ->]|[Hi Hget]].
    + left. split; [lia|]. f_equal; lia.
    + right. assert (off + num_threads pr ≤ tid_to_htid pr') as Hle.
      { clear -Hget Hpl. revert off Hpl i idx Hget. generalize (num_threads pr). induction prs as [|p prs IH]; intros k off Hpl i idx.
        - unfold vec_get. by case_match.
        - cbn in Hpl. destruct Hpl as (? & ? & Hpl). rewrite vec_get_cons. intros [[_ ->]|[_ Hget]]; [lia|].
          specialize (IH _ _ Hpl (i - 1) idx). replace (i - 1 - idx - 1) with (i - idx - 1 - 1) in IH by lia. specialize (IH Hget). lia. }
      split; [lia|]. exists pr'. replace (i - (idx + 1)) with (i - idx - 1) by lia. split; [done|]. lia.
Qed.

(** ** The invariant of the loop *)

Section Loop.
Context {AD : Addresses} {xed : O3Core.XedCategories} (S : setup).
Notation W := (wires (mc S)).

(** What [start] establishes. *)
Record setup_ok : Prop := {
  set_wiring : wiring_ok W;
  set_placed : placed 0 (pts_processes S);
  set_pid : htid_to_pid S = (number_threads 0 (pts_processes S)).*1;
  set_tid : htid_to_tid S = (number_threads 0 (pts_processes S)).*2;
  set_room : total_threads (pts_processes S) ≤ Z.of_nat (length (cfg_cores W)) }.

(** What a round keeps. *)
Record server_ok (st : server) : Prop := {
  srv_sim : sim_ok (mc S) (mcsim_ st);
  srv_pid : 0 ≤ curr_pid st < Z.of_nat (length (pts_processes S));
  srv_count : length (num_fetched st) = length (htid_to_pid S) }.

Notation now st := (curr_time (global_q (mcsim_ st))).
Notation threads st := (actives (parts (mcsim_ st))).

(** The instructions of a message are not for a tick that has passed. *)
Definition timely (msg : PTSMessage) (st : server) : Prop :=
  0 ≤ now st < horizon ∧
  match msg with
  | pts_add_instruction l => Forall (λ i, now st ≤ curr_time_ i < horizon) l
  | _ => True
  end.

Context (OK : setup_ok).

Lemma owner h i j :
  vec_get (htid_to_pid S) h = Ok i ∧ vec_get (htid_to_tid S) h = Ok j ↔
  ∃ pr, vec_get (pts_processes S) i = Ok pr ∧ 0 ≤ j < num_threads pr ∧ h = tid_to_htid pr + j.
Proof.
  rewrite (set_pid OK), (set_tid OK). pose proof (number_threads_spec 0 0 (pts_processes S) h i j (set_placed OK)) as Hsp.
  rewrite Z.sub_0_r, Z.add_0_l in Hsp. rewrite <- Hsp, !vec_get_Some, !list_lookup_fmap.
  destruct (_ !! Z.to_nat h) as [[i' j']|]; cbn; split; naive_solver.
Qed.

Lemma simulator_run {A} (f : mcsim → outcome (A * mcsim)) st a st' o :
  simulator f st = Ok (a, st', o) → ∃ m, f (mcsim_ st) = Ok (a, m) ∧ st' = st <| mcsim_ := m |> ∧ o = [].
Proof.
  unfold simulator, mbind, proc_bind, lift, reads. destruct (f (mcsim_ st)) as [[b m]|]; [|done].
  cbn. intros [= <- <- <-]. by exists m.
Qed.

Lemma add_instructions_ok htid off l slots st a st' o :
  add_instructions S htid off slots l st = Ok (a, st', o) →
  server_ok st → 0 ≤ now st < horizon → Forall (λ i, now st ≤ curr_time_ i < horizon) l →
  server_ok st' ∧ now st' = now st ∧ curr_pid st' = curr_pid st ∧ threads st' = threads st ∧ o = [].
Proof.
  revert slots st o. induction l as [|i l IH]; intros slots st o; cbn [add_instructions].
  { by intros [= <- <- <-]. }
  intros (n & st1 & o1 & o2 & Hi & Hl & ->)%bind_run Hst Hnow [Hti Htl]%Forall_cons.
  apply simulator_run in Hi as (m & Hadd & -> & ->).
  eapply add_instruction_ok in Hadd as (Hs & Ht & Ha & _); [|apply OK|apply Hst|apply Hti|lia].
  apply IH in Hl as (? & ? & ? & ? & ->).
  - cbn in *. split_and!; congruence || done.
  - split; [done|apply Hst|apply Hst].
  - cbn. lia.
  - cbn. by rewrite Ht.
Qed.

Lemma simulator_swap {A} (f g : mcsim → outcome (A * mcsim)) st r :
  (∀ x, f (mcsim_ st) = Ok x → g (mcsim_ st) = Ok x) → simulator f st = Ok r → simulator g st = Ok r.
Proof.
  unfold simulator, mbind, proc_bind, lift, reads. intros Hfg. destruct (f (mcsim_ st)) as [x|]; [|done].
  by rewrite (Hfg x eq_refl).
Qed.

Lemma bind_swap {A B} (m m' : proc signal server A) (k k' : A → proc signal server B) st r :
  (∀ x, m st = Ok x → m' st = Ok x) →
  (∀ a st' o r, m st = Ok (a, st', o) → k a st' = Ok r → k' a st' = Ok r) →
  (m ≫= k) st = Ok r → (m' ≫= k') st = Ok r.
Proof.
  unfold mbind, proc_bind. intros Hm Hk. destruct (m st) as [[[a st'] o]|]; [|done]. rewrite (Hm _ eq_refl).
  destruct (k a st') as [[[b st2] o2]|] eqn:Hr; [|done]. by rewrite (Hk _ _ _ _ eq_refl Hr).
Qed.

Lemma note_killed_run msg st u st' o :
  note_killed msg st = Ok (u, st', o) → ∃ n, st' = st <| nactive := n |>.
Proof.
  assert (st = st <| nactive := nactive st |>) as Hid by (by destruct st).
  unfold note_killed. destruct msg as [|b [|]| | | | | | |]; try (intros [= _ <- _]; by eexists).
  unfold mbind, proc_bind, modify, reads, when, emit. cbn. destruct (_ =? 0); intros [= _ <- _]; by eexists.
Qed.

(** Only the loop of the events tells the two machines apart. *)
Lemma dispatch_real fuel pr msg st r :
  server_ok st → dispatch S (bounded horizon (machine W)) fuel pr msg st = Ok r → dispatch S (machine W) fuel pr msg st = Ok r.
Proof.
  intros Hst. unfold dispatch. apply bind_swap; [done|]. intros s st' o r' [= <- <- _].
  destruct msg; try done; (apply bind_swap; [|done]); intros x; apply simulator_swap; intros [a m] Hm.
  all: by apply resume_runs in Hm as (? & _); [|apply OK|apply Hst].
Qed.

Lemma serve_real fuel msg st r :
  server_ok st → serve_with S (bounded horizon (machine W)) fuel msg st = Ok r → serve S fuel msg st = Ok r.
Proof.
  intros Hst. apply bind_swap; [done|]. intros s st' o r' [= <- <- _].
  apply bind_swap; [done|]. intros pr st' o' r2 Hpr. destruct (limit_reached S st); [done|].
  apply bind_swap; [done|]. intros u st2 o2 r3 (n & ->)%note_killed_run. apply dispatch_real.
  unfold lift in Hpr. destruct (vec_get _ _); [|done]. injection Hpr as _ <- _. destruct Hst. by split.
Qed.

Lemma switch_to_run h tm st r st' o :
  switch_to S (h, tm) st = Ok (r, st', o) →
  ∃ pid pr tid, r = Answered pid (ans_switch tid tm) ∧ st' = st <| curr_pid := pid |> ∧ o = [] ∧
    vec_get (pts_processes S) pid = Ok pr ∧ 0 ≤ tid < num_threads pr ∧ h = tid_to_htid pr + tid.
Proof.
  unfold switch_to, mbind, proc_bind, lift, modify. cbn [fst snd]. destruct (vec_get (htid_to_pid S) h) as [pid|] eqn:Hp; [|done].
  destruct (vec_get (pts_processes S) pid) as [pr|] eqn:Hpr; [|done].
  destruct (vec_get (htid_to_tid S) h) as [tid|] eqn:Ht; [|done]. intros [= <- <- <-].
  destruct (proj1 (owner h pid tid)) as (pr' & Hpr' & Hj & Hh); [done|]. rewrite Hpr in Hpr'. injection Hpr' as <-.
  by exists pid, pr, tid.
Qed.

Definition resumes (msg : PTSMessage) : bool :=
  match msg with pts_resume_simulation _ _ | pts_destructor => true | _ => false end.

(** What a round may answer, from [st] to [st']. *)
Definition answers_ok (msg : PTSMessage) (st : server) (r : served) (st' : server) : Prop :=
  match r with
  | Stopped => limit_reached S st = true ∨ (msg = pts_destructor ∧ event_queue (global_q (mcsim_ st')) = ∅)
  | Running => resumes msg = true
  | Answered pid a =>
      pid = curr_pid st' ∧
      match a with
      | ans_switch tid t =>
          resumes msg = true ∧ t = now st' ∧ ∃ pr, vec_get (pts_processes S) pid = Ok pr ∧ 0 ≤ tid < num_threads pr ∧
            vec_get (threads st') (tid_to_htid pr + tid) = Ok true
      | _ => resumes msg = false ∧ pid = curr_pid st ∧ now st' = now st
      end
  end.

Definition threads_after (msg : PTSMessage) (st st' : server) : Prop :=
  match msg with
  | pts_set_active tid b => limit_reached S st = false →
      ∃ pr x, vec_get (pts_processes S) (curr_pid st) = Ok pr ∧
        let h := i32 (tid_to_htid pr ⊕₃₂ tid) in
        vec_get (threads st) h = Ok x ∧ threads st' = vec_set h b (threads st)
  | _ => threads st' = threads st
  end.

Lemma resumed fuel st x st1 o1 :
  server_ok st → simulator (resume_with (mc S) (bounded horizon (machine W)) fuel) st = Ok (x, st1, o1) →
  server_ok st1 ∧ now st ≤ now st1 ∧ threads st1 = threads st ∧ curr_pid st1 = curr_pid st ∧
  num_fetched st1 = num_fetched st ∧
  ∀ h t, x = Some (h, t) → answered (mcsim_ st) (mcsim_ st1) h t.
Proof.
  intros Hst (m & Hm & -> & ->)%simulator_run. apply resume_runs in Hm as (_ & Hs & Hle & Ha & Hans); [|apply OK|apply Hst].
  split_and!; [split; [done|apply Hst|apply Hst]|done..].
Qed.

(** A thread number that the threads of the processes have is not [num_hthreads]. *)
Lemma thread_in_range pid pr tid st :
  server_ok st → vec_get (pts_processes S) pid = Ok pr → 0 ≤ tid < num_threads pr →
  tid_to_htid pr + tid ≠ num_hthreads (global_q (mcsim_ st)).
Proof.
  intros Hst Hpr Htid. rewrite (sim_threads _ _ (srv_sim st Hst)).
  assert (vec_get (number_threads 0 (pts_processes S)) (tid_to_htid pr + tid) = Ok (pid, tid)) as Hget%vec_get_range.
  { apply (number_threads_spec 0 0); [apply OK|]. exists pr. rewrite Z.sub_0_r. split; [done|]. lia. }
  rewrite (length_numbers 0 0) in Hget by apply OK. pose proof (set_room OK). lia.
Qed.

Lemma switched fuel st st1 o1 h t r st' o2 :
  server_ok st → simulator (resume_with (mc S) (bounded horizon (machine W)) fuel) st = Ok (Some (h, t), st1, o1) →
  switch_to S (h, t) st1 = Ok (r, st', o2) →
  server_ok st' ∧ now st ≤ now st' ∧ threads st' = threads st ∧ ∀ msg, resumes msg = true → answers_ok msg st r st'.
Proof.
  intros Hst Hsim Hsw. apply resumed in Hsim as (Hst1 & Hle & Ha & _ & _ & Hans); [|done].
  apply switch_to_run in Hsw as (pid & pr & tid & -> & -> & _ & Hpr & Htid & ->).
  destruct (Hans _ _ eq_refl) as [Ht Hact]. split_and!; [|done|done|].
  - destruct Hst1. split; try done. by apply vec_get_range in Hpr.
  - intros msg Hmsg. split; [done|]. split; [done|]. split; [done|]. exists pr. split_and!; [done|lia|lia|].
    destruct Hact as [Hact|(Hn & _)]; [done|]. by apply (thread_in_range _ _ _ _ Hst Hpr Htid) in Hn.
Qed.

Lemma count_batch_run htid n st u st' o :
  count_batch S htid n st = Ok (u, st', o) →
  ∃ k fs, st' = st <| num_th_passed_instr_count := k |> <| num_fetched := fs |> ∧ length fs = length (num_fetched st).
Proof.
  assert (st = st <| num_th_passed_instr_count := num_th_passed_instr_count st |>) as Hid by (by destruct st).
  unfold count_batch, mbind, proc_bind, lift, reads, when, modify. destruct (vec_get _ _) as [f|]; [|done].
  destruct (_ && _); cbn; intros [= _ <- _]; eexists _, _; (split; [|by rewrite length_vec_alter]); [done|].
  by rewrite Hid at 1.
Qed.

Lemma no_extra_thread st h : server_ok st → vec_get (threads st) h = Ok true → h ≠ get_num_hthreads (mcsim_ st).
Proof.
  intros Hst Hh%vec_get_range. unfold actives in Hh. unfold get_num_hthreads.
  rewrite length_fmap, (sim_cores _ _ (srv_sim st Hst)) in Hh. rewrite (sim_threads _ _ (srv_sim st Hst)). lia.
Qed.

Lemma dispatch_ok fuel pr msg st r st' o :
  server_ok st → timely msg st → vec_get (pts_processes S) (curr_pid st) = Ok pr → limit_reached S st = false →
  dispatch S (bounded horizon (machine W)) fuel pr msg st = Ok (r, st', o) →
  server_ok st' ∧ now st ≤ now st' ∧ threads_after msg st st' ∧ answers_ok msg st r st'.
Proof.
  intros Hst [Hnow Hti] Hpr Hlim. unfold dispatch.
  intros (s & st1 & o1 & o2 & [= <- <- <-] & Hrun & _)%bind_run.
  destruct msg as [|sw k|l|tid stack size|tid b| |str def|str def|].
  - apply bind_run in Hrun as ([[h t]|] & st1 & o3 & o4 & Hsim & Hrun & _).
    + cbn [fst] in Hrun. destruct (Z.eqb_spec h (get_num_hthreads (mcsim_ st))) as [->|Hne].
      * injection Hrun as <- <- _. apply resumed in Hsim as (Hst1 & Hle & Ha & _ & _ & Hans); [|done].
        split_and!; [done..|]. right. split; [done|]. destruct (Hans _ _ eq_refl) as [_ [Hact|(_ & He & _)]]; [|done].
        rewrite Ha in Hact. by apply (no_extra_thread _ _ Hst) in Hact.
      * destruct (switched _ _ _ _ _ _ _ _ _ Hst Hsim Hrun) as (? & ? & ? & Hans). split_and!; [done..|by apply Hans].
    + injection Hrun as <- <- _. apply resumed in Hsim as (Hst1 & Hle & Ha & _); [|done]. by split_and!.
  - apply bind_run in Hrun as ([[h t]|] & st1 & o3 & o4 & Hsim & Hrun & _).
    + destruct (switched _ _ _ _ _ _ _ _ _ Hst Hsim Hrun) as (? & ? & ? & Hans). split_and!; [done..|by apply Hans].
    + injection Hrun as <- <- _. apply resumed in Hsim as (Hst1 & Hle & Ha & _); [|done]. by split_and!.
  - destruct l as [|first l]; [done|]. apply bind_run in Hrun as (off & st1 & o3 & o4 & Hoff & Hrun & _).
    unfold lift in Hoff. destruct (address_offset _ _) as [off'|]; [|done]. injection Hoff as <- <- _.
    apply bind_run in Hrun as (slots & st2 & o5 & o6 & Hadd & Hrun & _).
    apply add_instructions_ok in Hadd as (Hst2 & Ht & Hp & Ha & _); [|done..].
    apply bind_run in Hrun as (u & st3 & o7 & o8 & Hcount & [= <- <- _] & _).
    apply count_batch_run in Hcount as (k & fs & -> & Hlen).
    split_and!; [|cbn; lia|exact Ha|split; [by cbn; rewrite Hp|by split_and!]].
    destruct Hst2. split; cbn; [done|done|by rewrite Hlen].
  - apply bind_run in Hrun as (off & st1 & o3 & o4 & Hoff & Hrun & _).
    unfold lift in Hoff. destruct (address_offset _ _) as [off'|]; [|done]. injection Hoff as <- <- _.
    apply bind_run in Hrun as (u & st2 & o5 & o6 & Hset & [= <- <- _] & _).
    apply simulator_run in Hset as (m & (m' & Hset & [= _ <-])%bind_Ok & -> & _).
    eapply set_stack_ok in Hset as (? & ? & ? & _); [|apply OK|apply Hst|done].
    split_and!; [|cbn; lia|done|by split_and!]. split; [done|apply Hst|apply Hst].
  - apply bind_run in Hrun as (u & st2 & o5 & o6 & Hset & [= <- <- _] & _).
    apply simulator_run in Hset as (m & (m' & Hset & [= _ <-])%bind_Ok & -> & _).
    eapply set_active_ok in Hset as (? & ? & ? & Hh); [|apply OK|apply Hst|done].
    split_and!; [|cbn; lia| |by split_and!]; [split; [done|apply Hst|apply Hst]|]. intros _.
    destruct (vec_get_lt (threads st) (i32 (tid_to_htid pr ⊕₃₂ tid))) as [x Hx].
    { unfold actives. by rewrite length_fmap, (sim_cores _ _ (srv_sim st Hst)). }
    by exists pr, x.
  - injection Hrun as <- <- _. split_and!; done || lia.
  - injection Hrun as <- <- _. split_and!; done || lia.
  - injection Hrun as <- <- _. split_and!; done || lia.
  - injection Hrun as <- <- _. split_and!; done || lia.
Qed.

Lemma serve_round fuel msg st r st' o :
  server_ok st → timely msg st →
  serve_with S (bounded horizon (machine W)) fuel msg st = Ok (r, st', o) →
  serve S fuel msg st = Ok (r, st', o) ∧ server_ok st' ∧ now st ≤ now st' ∧
  threads_after msg st st' ∧ answers_ok msg st r st'.
Proof.
  intros Hst Hti Hrun. split; [by apply serve_real|]. unfold serve_with in Hrun.
  apply bind_run in Hrun as (s & st1 & o1 & o2 & [= <- <- <-] & Hrun & _).
  apply bind_run in Hrun as (pr & st1 & o1 & o3 & Hpr & Hrun & _).
  unfold lift in Hpr. destruct (vec_get (pts_processes S) _) as [pr'|] eqn:Hget; [|done]. injection Hpr as -> <- _.
  destruct (limit_reached S st) eqn:Hlim.
  - apply bind_run in Hrun as (u & st1 & o1' & o4 & [= _ <- _] & [= <- <- _] & _).
    split_and!; [done|lia| |by left]. destruct msg; try done. cbn. by rewrite Hlim.
  - apply bind_run in Hrun as (u & st1 & o1' & o4 & (n & ->)%note_killed_run & Hrun & _).
    assert (server_ok (st <| nactive := n |>)) as Hst1 by (destruct Hst; by split).
    assert (timely msg (st <| nactive := n |>)) as Hti1 by done.
    by destruct (dispatch_ok fuel pr msg _ _ _ _ Hst1 Hti1 Hget Hlim Hrun) as (? & ? & ? & ?).
Qed.

(** C2: a round of the server.  Serving a message keeps the simulator in order and its
    time does not go back, as long as no tick from 2^63 on is reached.  The answer goes to
    the process that sent the message, at the same time, except that a request to resume is
    answered to the process of an active thread, with the number of that thread in it and
    the new time; only [set_active] changes which threads are active, and only the thread it
    names, which exists.  The loop ends when enough instructions were simulated, or when a
    process leaves and no event is left. *)
Theorem serve_answers fuel msg st r st' o :
  server_ok st → timely msg st →
  serve_with S (bounded horizon (machine W)) fuel msg st = Ok (r, st', o) →
  serve S fuel msg st = Ok (r, st', o) ∧ server_ok st' ∧ now st ≤ now st' ∧
  threads_after msg st st' ∧ answers_ok msg st r st'.
Proof. apply serve_round. Qed.

(** A request to resume when no event is left and no thread is active.  The simulator
    answers [num_hthreads], which is the number of no thread, and the loop of the server
    looks it up in [htid_to_pid] all the same: behaviour is undefined. *)
Theorem resume_without_threads fuel st sw :
  server_ok st → limit_reached S st = false → event_queue (global_q (mcsim_ st)) = ∅ → true ∉ threads st →
  print_interval (mc S) ≠ 0 →
  num_fetched_instrs (mcsim_ st) / print_interval (mc S) = num_instrs_printed_last_time (mcsim_ st) →
  serve S (1 + fuel) (pts_resume_simulation sw false) st = Err Undef.
Proof.
  intros Hst Hlim He Hno Hpi Hprint. unfold serve, serve_with, mbind, proc_bind, lift. cbn [reads].
  destruct (vec_get_lt (pts_processes S) (curr_pid st)) as [pr ->]; [apply Hst|]. rewrite Hlim. cbn [note_killed].
  unfold dispatch, simulator, resume_with, mbind, proc_bind, lift. cbn.
  rewrite (proj2 (is_empty_spec _) He).
  destruct (first_active_total _ (parts (mcsim_ st)) (sim_cores _ _ (srv_sim st Hst))) as [[h|] Hf].
  { exfalso. apply Hno. apply first_active_active in Hf; [|apply OK|apply Hst].
    apply vec_get_Some in Hf as [_ Hf]. by eapply list_elem_of_lookup_2. }
  rewrite Hf. cbn. unfold process_one. rewrite (proj2 (map_begin_None _) He). cbn.
  unfold maybe_report. cbn. rewrite (proj2 (Z.eqb_neq _ _) Hpi), Hprint, Z.eqb_refl. cbn.
  assert (vec_get (htid_to_pid S) (num_hthreads (global_q (mcsim_ st))) = Err Undef) as Hout.
  { destruct (vec_get _ _) as [pid|f] eqn:Hget.
    - apply vec_get_range in Hget. rewrite (set_pid OK), length_fmap, (length_numbers 0 0) in Hget by apply OK.
      rewrite (sim_threads _ _ (srv_sim st Hst)) in Hget. pose proof (set_room OK). lia.
    - unfold vec_get, some_or_undef in Hget. repeat case_match; by simplify_eq. }
  unfold switch_to, mbind, proc_bind, lift. cbn. by rewrite Hout.
Qed.
End Loop.

(** ** Addresses *)

Section Isolation.
Context (S : setup).

Lemma shift_left_ok x n : 0 ≤ n < 64 → 0 ≤ x → x * 2 ^ n < 2 ^ 64 → shift_left x n = Ok (x * 2 ^ n).
Proof.
  intros Hn Hx Hlt. unfold shift_left. destruct (Z.ltb_spec n 0); [lia|]. destruct (Z.leb_spec 64 n); [lia|]. cbn.
  unfold shl64. rewrite Z.shiftl_mul_pow2 by lia. f_equal. apply u64_id. unfold in_u64. nia.
Qed.

Lemma address_offset_ok p :
  0 ≤ addr_offset_lsb S < 64 → 0 ≤ interleave_base_bit S < 64 → 0 ≤ p < 2 ^ (64 - addr_offset_lsb S) →
  p * 2 ^ interleave_base_bit S < 2 ^ addr_offset_lsb S →
  address_offset S p = Ok (p * 2 ^ addr_offset_lsb S + p * 2 ^ interleave_base_bit S) ∧
  p * 2 ^ addr_offset_lsb S + 2 ^ addr_offset_lsb S ≤ 2 ^ 64.
Proof.
  intros Hk Hb Hp Hlow. set (k := addr_offset_lsb S) in *. set (b := interleave_base_bit S) in *.
  assert (2 ^ (64 - k) * 2 ^ k = 2 ^ 64) as H64 by (rewrite <- Z.pow_add_r by lia; f_equal; lia).
  assert (0 < 2 ^ k) by (apply Z.pow_pos_nonneg; lia).
  assert (p * 2 ^ k + 2 ^ k ≤ 2 ^ 64) as Hroom by nia.
  split; [|done]. unfold address_offset. fold k b. rewrite !shift_left_ok by (lia || nia). cbn [mbind outcome_bind].
  f_equal. apply u64_id. unfold in_u64. assert (0 < 2 ^ b) by (apply Z.pow_pos_nonneg; lia). nia.
Qed.

Lemma relocate_ok p off a :
  0 ≤ addr_offset_lsb S < 64 → 0 ≤ interleave_base_bit S < 64 → 0 ≤ p < 2 ^ (64 - addr_offset_lsb S) →
  0 < a → a + p * 2 ^ interleave_base_bit S < 2 ^ addr_offset_lsb S → address_offset S p = Ok off →
  relocate off a = p * 2 ^ addr_offset_lsb S + (a + p * 2 ^ interleave_base_bit S).
Proof.
  intros Hk Hb Hp Ha Hlow Hoff. destruct (address_offset_ok p) as [Hoff' Hroom]; [done|done|done|lia|].
  rewrite Hoff in Hoff'. injection Hoff' as ->. unfold relocate. rewrite (proj2 (Z.eqb_neq a 0)) by lia.
  rewrite u64_id; [lia|]. unfold in_u64.
  assert (0 < 2 ^ addr_offset_lsb S) by (apply Z.pow_pos_nonneg; lia).
  assert (0 < 2 ^ interleave_base_bit S) by (apply Z.pow_pos_nonneg; lia). nia.
Qed.

(** C22: the simulated processes do not share memory.  When the addresses of two
    processes, with the interleaving offset, stay below [2 ^ addr_offset_lsb] and the
    processes are few enough for the remaining bits, relocated addresses are equal only
    for the same address of the same process; an address that an instruction does not have
    stays 0, and no other address becomes 0. *)
Theorem addresses_isolated p q a c :
  0 ≤ addr_offset_lsb S < 64 → 0 ≤ interleave_base_bit S < 64 →
  0 ≤ p < 2 ^ (64 - addr_offset_lsb S) → 0 ≤ q < 2 ^ (64 - addr_offset_lsb S) → 0 < a → 0 < c →
  a + p * 2 ^ interleave_base_bit S < 2 ^ addr_offset_lsb S → c + q * 2 ^ interleave_base_bit S < 2 ^ addr_offset_lsb S →
  ∃ op oq, address_offset S p = Ok op ∧ address_offset S q = Ok oq ∧
    (relocate op a = relocate oq c → p = q ∧ a = c) ∧ relocate op a ≠ 0 ∧ relocate op 0 = 0.
Proof.
  intros Hk Hb Hp Hq Ha Hc Hpa Hqc. destruct (address_offset_ok p) as [Hop _]; [done|done|done|lia|].
  destruct (address_offset_ok q) as [Hoq _]; [done|done|done|lia|]. eexists _, _. split; [exact Hop|]. split; [exact Hoq|].
  rewrite (relocate_ok p _ a), (relocate_ok q _ c) by done.
  set (k := addr_offset_lsb S) in *. set (b := interleave_base_bit S) in *.
  assert (0 < 2 ^ k) by (apply Z.pow_pos_nonneg; lia). assert (0 < 2 ^ b) by (apply Z.pow_pos_nonneg; lia).
  split_and!; [|nia|done]. intros Heq. assert (0 ≤ p * 2 ^ b) by nia. assert (0 ≤ q * 2 ^ b) by nia.
  assert (p = q) as ->; [|split; [done|lia]].
  rewrite !(Z.mul_comm _ (2 ^ k)) in Heq.
  by destruct (Z.div_mod_unique (2 ^ k) p q (a + p * 2 ^ b) (c + q * 2 ^ b)) as [? _]; [lia|lia|exact Heq|].
Qed.
End Isolation.

(** ** Command lines *)

Definition is_word (w : string) : Prop :=
  w ≠ ""%string ∧ Forall (λ c, isspace c = false) (String.list_ascii_of_string w).

Lemma words_spec s acc :
  Forall (λ c, isspace c = false) acc →
  Forall is_word (words s acc) ∧
  words s acc ≫= String.list_ascii_of_string = reverse acc ++ filter (λ c, isspace c = false) s.
Proof.
  assert (∀ c acc, Forall (λ c, isspace c = false) (c :: acc) → is_word (String.string_of_list_ascii (reverse (c :: acc)))) as Hw.
  { intros c l Hl. split.
    - intros He%(f_equal String.list_ascii_of_string). rewrite String.list_ascii_of_string_of_list_ascii in He.
      rewrite reverse_cons in He. by apply app_nil in He as [_ ?].
    - rewrite String.list_ascii_of_string_of_list_ascii. by apply Forall_reverse. }
  revert acc. induction s as [|c s IH]; intros acc Hacc; cbn [words].
  - rewrite filter_nil, app_nil_r. destruct acc as [|c acc]; [done|].
    split; [by constructor; [apply Hw|]|]. cbn. by rewrite app_nil_r, String.list_ascii_of_string_of_list_ascii.
  - destruct (isspace c) eqn:Hc.
    + rewrite filter_cons_False by congruence. destruct (IH [] ltac:(constructor)) as [H1 H2]. destruct acc as [|d acc].
      * split; [exact H1|exact H2].
      * split; [constructor; [by apply Hw|exact H1]|]. cbn [app mbind list_bind].
        rewrite String.list_ascii_of_string_of_list_ascii. f_equal. exact H2.
    + rewrite filter_cons_True by done. destruct (IH (c :: acc)) as [H1 H2]; [by constructor|].
      split; [exact H1|]. rewrite H2, reverse_cons, <- app_assoc. done.
Qed.

(** How the arguments of a program are split.  The words are non-empty, have no white
    space and together make up the other characters, in order; but an empty word follows
    them, which the program is given as an argument, and which is what a trace player gets
    for [-trace_skip_first] whenever there is a word at all. *)
Theorem split_args_words arg :
  ∃ ws, split_args arg = ws ++ [""%string] ∧ Forall is_word ws ∧
    ws ≫= String.list_ascii_of_string = filter (λ c, isspace c = false) (String.list_ascii_of_string arg) ∧
    ∀ skip n k h t d, trace_skip_first skip (Build_PTSProcess n k h t d (split_args arg)) =
      match ws with [] => Some skip | _ => Some ""%string end.
Proof.
  destruct (words_spec (String.list_ascii_of_string arg) [] ltac:(constructor)) as [H1 H2].
  exists (words (String.list_ascii_of_string arg) []). split_and!; [done..|].
  intros skip n k h t d. unfold trace_skip_first, split_args. cbn [prog_n_argv]. rewrite last_snoc, length_app. cbn [length].
  destruct (words _ _); [done|]. by rewrite Nat.add_comm.
Qed.


(** ** The start *)

Section Start.
Context {AD : Addresses} {xed : O3Core.XedCategories}.

Lemma activate_ok cfg prs s s' :
  wiring_ok (wires cfg) → sim_ok cfg s → curr_time (global_q s) = 0 → activate cfg prs s = Ok s' →
  sim_ok cfg s' ∧ curr_time (global_q s') = 0.
Proof.
  intros OK. revert s. induction prs as [|pr prs IH]; intros s Hs H0; cbn [activate].
  { by intros [= <-]. }
  intros ([n s1] & Hadd & H)%bind_Ok. apply bind_Ok in H as (s2 & Hset & H).
  eapply add_instruction_ok in Hadd as (Hs1 & H1 & _); [|done|done|lia|unfold horizon; lia].
  eapply set_active_ok in Hset as (Hs2 & H2 & _); [|done|done|unfold horizon; lia].
  apply IH in H; [done|done|lia].
Qed.

(** What was read from the run file is of moderate size. *)
Definition runs_moderate (runs : list table) : Prop :=
  ∀ prs n, ProcessDescription.make runs = Ok (prs, n) →
    Forall (λ pr, 0 ≤ num_threads pr) prs ∧ total_threads prs < 2 ^ 32.

Lemma server_starts p L runs S st :
  start p L runs = Ok (S, st) → moderate p → runs_moderate runs →
  setup_ok S ∧ server_ok S st ∧ offset S = total_threads (pts_processes S) ∧ offset S ≤ hthreads p ∧
  (∀ h i j, vec_get (htid_to_pid S) h = Ok i ∧ vec_get (htid_to_tid S) h = Ok j ↔
     ∃ pr, vec_get (pts_processes S) i = Ok pr ∧ 0 ≤ j < num_threads pr ∧ h = tid_to_htid pr + j) ∧
  (∀ h, 0 ≤ h < offset S → ∃ i j, vec_get (htid_to_pid S) h = Ok i ∧ vec_get (htid_to_tid S) h = Ok j).
Proof.
  unfold start. intros ([cfg s0] & Hnew & H)%bind_Ok Hp Hruns. apply bind_Ok in H as ([prs n] & Hread & H).
  apply bind_Ok in H as (s & Hact & H). destruct (Hruns _ _ Hread) as [Hnn Htot].
  destruct (read_runs_placed 0 runs prs n Hread) as [Hpl Hn]; [done..|]. cbn in Hn.
  pose proof (new_mcsim_time _ _ _ _ Hnew) as H0.
  destruct (new_mcsim_ok _ _ _ _ Hnew) as (HW & Hlen & Hs0). pose proof (created_ok _ _ _ HW Hp) as OK.
  apply activate_ok in Hact as [Hs _]; [|done..].
  destruct (Z.ltb_spec (get_num_hthreads s) n) as [|Hroom]; [done|].
  destruct prs as [|pr0 prs0]; [done|]. set (prs := pr0 :: prs0) in *.
  assert (0 < length prs)%nat as Hpos by (cbn; lia). clearbody prs. cbv zeta in H. injection H as <- <-.
  assert (n ≤ hthreads p) as Hle.
  { unfold get_num_hthreads in Hroom. rewrite (sim_threads _ _ Hs), Hlen in Hroom. done. }
  pose proof (length_numbers 0 0 prs Hpl) as Hids.
  assert (setup_ok {| mc := cfg; md := p; pts_processes := prs; htid_to_tid := (number_threads 0 prs).*2;
    htid_to_pid := (number_threads 0 prs).*1; offset := n;
    addr_offset_lsb := i32 (Params.pts_get_param_uint64 p "addr_offset_lsb" 48);
    max_total_instrs := Params.pts_get_param_uint64 p "max_total_instrs" 1000000000;
    num_instrs_per_th := Params.pts_get_param_uint64 p "num_instrs_per_th" 0;
    interleave_base_bit := i32 (Params.pts_get_param_uint64 p "pts.mc.interleave_base_bit" 14) |}) as HS
    by (split; cbn; [done|done|done|done|lia]).
  split_and!; [exact HS| |cbn; lia|exact Hle|intros h i j; by apply owner|].
  - split; cbn; [done|lia|by rewrite length_replicate, length_fmap].
  - cbn [offset htid_to_pid htid_to_tid]. intros h Hh. destruct (vec_get_lt (number_threads 0 prs) h) as [[i j] [_ Hij]%vec_get_Some]; [lia|].
    exists i, j. rewrite !vec_get_Some, !list_lookup_fmap, Hij. cbn. split; (split; [lia|done]).
Qed.

(** C21: the start of the server.  The threads of the processes are numbered one process
    after the other: [htid_to_pid] and [htid_to_tid] give for a hardware thread exactly the
    process and the thread whose number it is, every number below the total has one, and
    each has a core.  The loop starts in order. *)
Theorem start_numbers_threads p L runs S st :
  start p L runs = Ok (S, st) → moderate p → runs_moderate runs →
  setup_ok S ∧ server_ok S st ∧ offset S = total_threads (pts_processes S) ∧ offset S ≤ hthreads p ∧
  (∀ h i j, vec_get (htid_to_pid S) h = Ok i ∧ vec_get (htid_to_tid S) h = Ok j ↔
     ∃ pr, vec_get (pts_processes S) i = Ok pr ∧ 0 ≤ j < num_threads pr ∧ h = tid_to_htid pr + j) ∧
  (∀ h, 0 ≤ h < offset S → ∃ i j, vec_get (htid_to_pid S) h = Ok i ∧ vec_get (htid_to_tid S) h = Ok j).
Proof. apply server_starts. Qed.
End Start.

(** ** Two small processes *)

#[local] Existing Instance code_addresses.
#[local] Existing Instance toy_xed.

Definition toy_table (dir : string) : table :=
  [("type", TString "pintool"); ("num_threads", TInt 1); ("path", TString dir); ("arg", TString "./a.out -n 4")]%string.

Definition toy_start (n : nat) : outcome (setup * server) :=
  start toy_params toy_leftovers (replicate n (toy_table "/tmp"%string)).

Lemma toy_runs_moderate n : (n ≤ 2)%nat → runs_moderate (replicate n (toy_table "/tmp"%string)).
Proof.
  intros Hn prs k H.
  assert (match ProcessDescription.make (replicate n (toy_table "/tmp"%string)) with
          | Ok (prs, _) => forallb (λ pr, 0 <=? num_threads pr) prs && (total_threads prs <? 2 ^ 32)
          | Err _ => true end = true) as Hc by (clear H; destruct n as [|[|[|n]]]; [vm_compute; reflexivity..|lia]).
  rewrite H in Hc. apply andb_true_iff in Hc as [H1%Is_true_true%forallb_True H2]. split; [|lia].
  eapply Forall_impl; [exact H1|]. cbn. intros pr Hpr. apply Is_true_true in Hpr. lia.
Qed.
(** What the witnesses need of the start and of a first request to resume, computed. *)
Definition toy_served : option (served * list Z * bool) :=
  match toy_start 2 with
  | Ok (su, st) =>
      match serve_with su (bounded horizon (machine (wires (mc su)))) 300 (pts_resume_simulation true false) st with
      | Ok (r, _, _) =>
          Some (r, [curr_time (global_q (mcsim_ st)); addr_offset_lsb su; interleave_base_bit su; offset su],
                limit_reached su st)
      | Err _ => None
      end
  | Err _ => None
  end.

Lemma toy_serves :
  ∃ su st st' o, toy_start 2 = Ok (su, st) ∧ setup_ok su ∧ server_ok su st ∧ curr_time (global_q (mcsim_ st)) = 0 ∧
    addr_offset_lsb su = 48 ∧ interleave_base_bit su = 14 ∧ offset su = 2 ∧
    serve_with su (bounded horizon (machine (wires (mc su)))) 300 (pts_resume_simulation true false) st =
      Ok (Answered 1 (ans_switch 0 0), st', o).
Proof.
  assert (toy_served = Some (Answered 1 (ans_switch 0 0), [0; 48; 14; 2], false)) as Hc by (vm_compute; reflexivity).
  unfold toy_served in Hc. destruct (toy_start 2) as [[su st]|] eqn:Hst; [|done].
  destruct (serve_with su _ 300 _ st) as [[[r st'] o]|] eqn:Hrun; [|done]. injection Hc as -> H1 H2 H3 H4 _.
  destruct (server_starts _ _ _ _ _ Hst toy_moderate (toy_runs_moderate 2 ltac:(lia))) as (? & ? & _).
  exists su, st, st', o. split; [reflexivity|]. split_and!; assumption.
Qed.

Example serve_answers_witness :
  ∃ su st st' o, toy_start 2 = Ok (su, st) ∧ serve su 300 (pts_resume_simulation true false) st =
      Ok (Answered 1 (ans_switch 0 0), st', o) ∧ server_ok su st' ∧ curr_pid st' = 1.
Proof.
  destruct toy_serves as (su & st & st' & o & Hst & Hsu & Hok & H0 & _ & _ & _ & Hrun). exists su, st, st', o.
  destruct (serve_answers su Hsu 300 (pts_resume_simulation true false) st (Answered 1 (ans_switch 0 0)) st' o Hok) as (? & ? & _ & _ & Ha & _);
    [split; [unfold horizon; lia|done]|exact Hrun|]. split_and!; [assumption..|by destruct Ha].
Defined.

Example start_numbers_threads_witness :
  ∃ su st, toy_start 2 = Ok (su, st) ∧ setup_ok su ∧ server_ok su st ∧
    ∃ i j, vec_get (htid_to_pid su) 1 = Ok i ∧ vec_get (htid_to_tid su) 1 = Ok j.
Proof.
  destruct toy_serves as (su & st & _ & _ & Hst & _ & _ & _ & _ & _ & H2 & _). exists su, st. split; [assumption|].
  destruct (start_numbers_threads _ _ _ _ _ Hst toy_moderate (toy_runs_moderate 2 ltac:(lia))) as (? & ? & _ & _ & _ & Hn).
  split_and!; [done|done|]. apply Hn. lia.
Defined.

Example addresses_isolated_witness :
  ∃ su st op oq, toy_start 2 = Ok (su, st) ∧ address_offset su 0 = Ok op ∧ address_offset su 1 = Ok oq ∧
    relocate op 4096 ≠ relocate oq 4096.
Proof.
  destruct toy_serves as (su & st & _ & _ & Hst & _ & _ & _ & Hl & Hb & _). exists su, st.
  destruct (addresses_isolated su 0 1 4096 4096) as (op & oq & ? & ? & Hiso & _); rewrite ?Hl, ?Hb; try lia.
  exists op, oq. split_and!; [assumption..|]. intros [? _]%Hiso. lia.
Defined.

(** One process, none of whose threads is active yet. *)
Definition toy_idle : option (Z * Z * bool * bool * bool) :=
  match toy_start 1 with
  | Ok (su, st) =>
      Some (print_interval (mc su),
            num_fetched_instrs (mcsim_ st) / print_interval (mc su) - num_instrs_printed_last_time (mcsim_ st),
            limit_reached su st, is_empty (global_q (mcsim_ st)), bool_decide (true ∈ actives (parts (mcsim_ st))))
  | Err _ => None
  end.

Example resume_without_threads_witness :
  ∃ su st, toy_start 1 = Ok (su, st) ∧ serve su 1 (pts_resume_simulation true false) st = Err Undef.
Proof.
  assert (toy_idle = Some (1000000, 0, false, true, false)) as Hc by (vm_compute; reflexivity).
  unfold toy_idle in Hc. destruct (toy_start 1) as [[su st]|] eqn:Hst; [|done]. exists su, st. split; [reflexivity|].
  injection Hc as Hp Hq Hl He Ha. apply is_empty_spec in He. apply bool_decide_eq_false in Ha.
  destruct (server_starts _ _ _ _ _ Hst toy_moderate (toy_runs_moderate 1 ltac:(lia))) as (? & ? & _).
  apply (resume_without_threads su); [done|done|done|done|done|lia|lia].
Defined.
End ServerProofs.
