(* ===== verification/Invariants.v ===== *)
(** * What every component keeps, the whole simulator keeps

    A component's invariant that its own handlers keep, whatever message they are given,
    holds of every component of that kind in every state the simulator is driven into.  The
    class [PromisesKept] is what the components owe; the module [Kept] carries it through
    the deliveries, the event loop and the calls of the front end, and [Promised] discharges
    it for the caches, the TLBs and the branch predictors. *)

From S2P Require Export McSim Report Server.

Module Kept.
Import OrdMap PtrSet GlobalEventQueue Machine MachineProofs McSim.

(** One invariant per kind of component. *)
Class Promises := {
  core_promise : O3Core.config → O3Core.state → Prop;
  l1_promise : CacheL1.config → CacheL1.state → Prop;
  tlb_promise : TLBL1.config → TLBL1.state → Prop;
  l2_promise : CacheL2.config → CacheL2.state → Prop;
  dir_promise : Directory.config → Directory.state → Prop;
  mc_promise : MemoryController.config → MemoryController.state → Prop;
  noc_promise : Crossbar.config → Crossbar.state → Prop }.

(** Every handler that the machine calls keeps the invariant of its component. *)
Class PromisesKept {AD : Addresses} {xed : O3Core.XedCategories} (P : Promises) : Prop := {
  core_wakes c t : keeps (core_promise c) (O3Core.process_event c t);
  core_requested c t l : keeps (core_promise c) (O3Core.add_req_event c t l);
  core_replied c t l : keeps (core_promise c) (O3Core.add_rep_event c t l);
  core_instructed c t i : keeps (core_promise c) (O3Core.add_instruction c t i);
  core_migrates c s m : core_promise c s → core_promise c (s <| O3Core.is_migrate_ready := m |>);
  core_activated c s b : core_promise c s → core_promise c (s <| O3Core.active := b |>);
  core_stacked c s a b : core_promise c s → core_promise c (s <| O3Core.stack := a |> <| O3Core.stacksize := b |>);
  l1_wakes c t : keeps (l1_promise c) (CacheL1.process_event c t);
  l1_requested c t l : keeps (l1_promise c) (CacheL1.add_req_event c t l);
  l1_replied c t l : keeps (l1_promise c) (CacheL1.add_rep_event c t l);
  tlb_wakes c t : keeps (tlb_promise c) (TLBL1.process_event c t);
  tlb_requested c t l : keeps (tlb_promise c) (TLBL1.add_req_event c t l);
  l2_wakes c t : keeps (l2_promise c) (CacheL2.process_event c t);
  l2_requested c t l : keeps (l2_promise c) (CacheL2.add_req_event c t l);
  l2_replied c t l : keeps (l2_promise c) (CacheL2.add_rep_event c t l);
  dir_wakes c t : keeps (dir_promise c) (Directory.process_event c t);
  dir_requested c t l : keeps (dir_promise c) (Directory.add_req_event c t l);
  dir_replied c t l : keeps (dir_promise c) (Directory.add_rep_event c t l);
  mc_wakes c t : keeps (mc_promise c) (MemoryController.process_event c t);
  mc_requested c t l : keeps (mc_promise c) (MemoryController.add_req_event c t l);
  mc_replied c t l : keeps (mc_promise c) (MemoryController.add_rep_event c t l);
  mc_accounts c s s' : mc_promise c s → account s = Ok s' → mc_promise c s';
  noc_wakes c t : keeps (noc_promise c) (Crossbar.process_event c t);
  noc_requested c t l src : keeps (noc_promise c) (Crossbar.add_req_event c t l src);
  noc_replied c t l src : keeps (noc_promise c) (Crossbar.add_rep_event c t l src);
  noc_asked c t l src : keeps (noc_promise c) (Crossbar.add_crq_event c t l src);
  noc_flits c t l n src : keeps (noc_promise c) (Crossbar.add_rep_flits c t l n src);
  noc_asked_flits c t l n src : keeps (noc_promise c) (Crossbar.add_crq_flits c t l n src) }.

#[export] Hint Resolve core_wakes core_requested core_replied core_instructed l1_wakes l1_requested l1_replied
  tlb_wakes tlb_requested l2_wakes l2_requested l2_replied dir_wakes dir_requested dir_replied mc_wakes mc_requested
  mc_replied noc_wakes noc_requested noc_replied noc_asked noc_flits noc_asked_flits : promises.

(** The whole machine keeps its promises. *)
Record promised {P : Promises} (W : wiring) (w : world) : Prop := {
  pr_cores : Forall2 core_promise (cfg_cores W) (o3cores w);
  pr_l1is : Forall2 l1_promise (cfg_l1is W) (l1is w);
  pr_l1ds : Forall2 l1_promise (cfg_l1ds W) (l1ds w);
  pr_tlbis : Forall2 tlb_promise (cfg_tlbl1is W) (tlbl1is w);
  pr_tlbds : Forall2 tlb_promise (cfg_tlbl1ds W) (tlbl1ds w);
  pr_l2s : Forall2 l2_promise (cfg_l2s W) (l2s w);
  pr_dirs : Forall2 dir_promise (cfg_dirs W) (dirs w);
  pr_mcs : Forall2 mc_promise (cfg_mcs W) (mcs w);
  pr_noc : noc_promise (cfg_noc W) (noc w) }.

(** What may be asked of the simulator from outside. *)
Inductive asked {AD : Addresses} {xed : O3Core.XedCategories} (cfg : config) : mcsim → mcsim → Prop :=
| asked_resume fuel must_switch r s s' : resume_simulation cfg fuel must_switch s = Ok (r, s') → asked cfg s s'
| asked_instruction i t ins n s s' : add_instruction cfg i t ins s = Ok (n, s') → asked cfg s s'
| asked_active i b s s' : set_active cfg i b s = Ok s' → asked cfg s s'
| asked_stack i a b s s' : set_stack_n_size cfg i a b s = Ok s' → asked cfg s s'.

Lemma Forall2_vec_set {C T} (R : C → T → Prop) cs ts i c t :
  Forall2 R cs ts → vec_get cs i = Ok c → R c t → Forall2 R cs (vec_set i t ts).
Proof.
  intros HR [Hi Hc]%vec_get_Some Ht. unfold vec_set, vec_alter. destruct (i <? 0); [done|].
  rewrite <- (list_alter_id id cs (Z.to_nat i)) by done. apply Forall2_alter; [done|].
  intros x y Hx Hy Hxy. cbn. rewrite Hc in Hx. by injection Hx as <-.
Qed.

Lemma Forall2_get {C T} (R : C → T → Prop) cs ts i c t :
  Forall2 R cs ts → vec_get cs i = Ok c → vec_get ts i = Ok t → R c t.
Proof. intros HR [_ Hc]%vec_get_Some [_ Ht]%vec_get_Some. by eapply Forall2_lookup_lr. Qed.

(** *** Deliveries *)

Section Deliveries.
Context {AD : Addresses} {xed : O3Core.XedCategories} {P : Promises} {K : PromisesKept P} (W : wiring).
Notation ok := (promised W).

Lemma keeps_on {C T A} (R : C → T → Prop) (cfgs : list C) (get : world → list T) put i (h : C → proc call T A) :
  (∀ w, ok w → Forall2 R cfgs (get w)) →
  (∀ f w, ok w → Forall2 R cfgs (f (get w)) → ok (put f w)) →
  (∀ c, keeps (R c) (h c)) → keeps ok (on cfgs get put i h).
Proof.
  intros Hget Hput Hh w Hw. apply wp_intro; [|done]. intros a w' o (c & t & t' & Hc & Ht & Hrun & ->)%on_run.
  apply Hput; [done|]. eapply Forall2_vec_set; [by apply Hget|done|].
  eapply (wp_run _ _ _ _ _ _ _ (Hh c t ltac:(eapply Forall2_get; [by apply Hget|done|done])) Hrun).
Qed.

Lemma keeps_on_core {A} i (h : O3Core.config → proc call O3Core.state A) :
  (∀ c, keeps (core_promise c) (h c)) → keeps ok (on_core W i h).
Proof.
  intros Hh. unfold on_core. keeps_step; [apply keeps_reads|]. keeps_step.
  - eapply (keeps_on core_promise); [by intros w []|by intros f w [] ?; split|].
    intros c. keeps_step; [apply keeps_modify; intros s; apply core_migrates|]. keeps_step; [apply Hh|]. by repeat keeps_step.
  - keeps_step. keeps_step; [|apply keeps_ret]. apply keeps_modify. by intros w []; split.
Qed.

Lemma keeps_on_noc {A} i (h : Crossbar.config → proc call Crossbar.state A) :
  (∀ c, keeps (noc_promise c) (h c)) → keeps ok (on_noc W i h).
Proof.
  intros Hh. unfold on_noc. keeps_step; [|apply keeps_fails].
  apply (keeps_zoom _ (noc_promise (cfg_noc W))); [by intros w []|by intros t w [] ?; split|apply Hh].
Qed.

Ltac component := first
  [apply keeps_ret|apply keeps_fails|apply keeps_on_core|apply keeps_on_noc
  |eapply (keeps_on l1_promise); [by intros w []|by intros f w [] ?; split|]
  |eapply (keeps_on tlb_promise); [by intros w []|by intros f w [] ?; split|]
  |eapply (keeps_on l2_promise); [by intros w []|by intros f w [] ?; split|]
  |eapply (keeps_on dir_promise); [by intros w []|by intros f w [] ?; split|]
  |eapply (keeps_on mc_promise); [by intros w []|by intros f w [] ?; split|]];
  eauto with promises.

Lemma woken c t : keeps ok (process_event W c t).
Proof. unfold process_event. destruct (c_type c); component. Qed.

Lemma received c : keeps ok (receive W c).
Proof.
  destruct c as [| dst ? ? ?|dst ? ? ?| | | | |]; cbn [receive]; try destruct (c_type dst); try component.
  unfold update_os_page_req_dist. repeat keeps_step. apply keeps_modify. by intros w []; split.
Qed.

Lemma keeps_followed {A} d (h : proc call world A) :
  keeps ok h → (∀ c, keeps ok (d c)) → keeps ok (followed d h).
Proof.
  intros Hh Hd w Hw. specialize (Hh w Hw). unfold followed, wp in *. destruct (h w) as [[[a w1] o]|]; [|done].
  pose proof (keeps_for_each ok o d (λ c _, Hd c) w1 Hh) as Ho. unfold wp in Ho.
  by destruct (for_each o d w1) as [[[u w2] evs]|].
Qed.

Lemma delivered n c : keeps ok (deliver W n c).
Proof.
  revert c. induction n as [|n IH]; intros c; [apply keeps_fails|]. cbn [deliver].
  destruct c; try apply keeps_emit; apply keeps_followed; auto using received.
Qed.

Lemma keeps_settled {A} (h : proc call world A) : keeps ok h → keeps ok (settled W h).
Proof. intros Hh. apply keeps_followed; [done|]. intros c. apply delivered. Qed.
End Deliveries.

(** *** The event loop *)

Section Loop.
Context {AD : Addresses} {World : Type} {M : Machine World} (I : World → Prop).
Context (HI : ∀ c t w r w' evs, I w → run_component c t w = Ok (r, w', evs) → I w').

Lemma round_keeps g w ret g' w' : I w → process_one g w = Ok (ret, g', w') → I w'.
Proof.
  intros Hw. unfold process_one. destruct (map_begin _) as [[t s]|]; [|by intros [= _ _ <-]].
  destruct (set_begin s) as [c|]; [|done].
  destruct (c_type c); try done; intros ([[r w1] evs] & Hrun%HI & H)%bind_Ok; try done.
  all: try destruct (map_begin _) as [[t' s']|]; try done; try destruct (t' =? t); try done.
  all: by injection H as _ _ <-.
Qed.

Lemma loop_keeps fuel g w r g' w' :
  I w → GlobalEventQueue.process_event fuel g w = Ok (r, g', w') → I w'.
Proof.
  revert g w. induction fuel as [|fuel IH]; intros g w Hw; cbn [GlobalEventQueue.process_event].
  { by intros [= _ _ <-]. }
  intros ([[ret g1] w1] & Hone & H)%bind_Ok. apply round_keeps in Hone; [|done].
  destruct ret; [by injection H as _ _ <-|by eapply IH].
Qed.
End Loop.

(** *** The calls of the front end *)

Section Calls.
Context {AD : Addresses} {xed : O3Core.XedCategories} {P : Promises} {K : PromisesKept P} (cfg : config).
Notation W := (wires cfg).
Notation ok s := (promised W (parts s)).

Lemma run_keeps {A} (h : proc call world A) s a s' : keeps (promised W) h → ok s → run cfg h s = Ok (a, s') → ok s'.
Proof.
  unfold run. intros Hh Hs ([[b w] evs] & Hrun & [= _ <-])%bind_Ok.
  exact (wp_run _ _ _ _ _ _ _ (keeps_settled W h Hh (parts s) Hs) Hrun).
Qed.

Lemma accounted cs ms ms' : Forall2 mc_promise cs ms → mapM account ms = Ok ms' → Forall2 mc_promise cs ms'.
Proof.
  intros Hm Hr%mapM_Ok. revert cs Hm. induction Hr as [|m m' ms ms' Hacc _ IH]; intros cs Hm.
  { by inversion Hm. }
  inversion Hm as [|c ? cs' ? Hc Hcs]; subst. constructor; [by eapply mc_accounts|by apply IH].
Qed.

Lemma reported s s' : ok s → maybe_report cfg s = Ok s' → ok s'.
Proof.
  unfold maybe_report, report. intros Hs. destruct (_ =? _); [done|]. destruct (_ =? _); [by intros [= <-]|].
  intros (u & _ & H)%bind_Ok. apply bind_Ok in H as (ms & Hms & [= <-]).
  destruct Hs as [? ? ? ? ? ? ? Hmcs ?]. split; cbn; try done.
  exact (accounted _ _ _ Hmcs Hms).
Qed.

Lemma resume_keeps fuel b r s s' : ok s → resume_simulation cfg fuel b s = Ok (r, s') → ok s'.
Proof.
  unfold resume_simulation, resume_with. intros Hs (any & _ & H)%bind_Ok. destruct any; [by injection H as _ <-|].
  apply bind_Ok in H as ([[ret g] w] & Hrun & H).
  assert (promised W w) as Hw.
  { eapply (loop_keeps (M := machine W)); [|exact Hs|exact Hrun]. intros c t w0 r0 w1 evs Hw0 Hone.
    exact (wp_run _ _ _ _ _ _ _ (keeps_settled W _ (woken W c t) w0 Hw0) Hone). }
  destruct ret; [|by injection H as _ <-]. apply bind_Ok in H as (s1 & Hrep & [= _ <-]). by eapply reported in Hrep.
Qed.

Lemma asked_keeps s s' : ok s → asked cfg s s' → ok s'.
Proof.
  intros Hs Ha. destruct Ha as [fuel b r s s' H|i t ins n s s' H|i b s s' H|i a b s s' H].
  - by eapply resume_keeps.
  - eapply run_keeps; [| |exact H]; [apply keeps_on_core; eauto with promises|exact Hs].
  - unfold set_active in H. apply bind_Ok in H as ([u s2] & H & [= <-]). eapply run_keeps; [|done|exact H].
    apply keeps_on_core. intros c. apply keeps_modify. intros. by apply core_activated.
  - unfold set_stack_n_size in H. apply bind_Ok in H as ([u s2] & H & [= <-]). eapply run_keeps; [|done|exact H].
    apply keeps_on_core. intros c. apply keeps_modify. intros. by apply core_stacked.
Qed.

(** Whatever is asked of the simulator, and in whatever order. *)
Lemma promised_reachable s s' : ok s → rtc (asked cfg) s s' → ok s'.
Proof. intros Hs Hr. revert Hs. induction Hr; eauto using asked_keeps. Qed.
End Calls.
End Kept.

(** ** What the components promise *)

Module Promised.
Import OrdMap PtrSet GlobalEventQueue Machine MachineProofs McSim McSimProofs Kept.

Section Core.
Import O3Core.
Context (cfg : O3Core.config).

Record core_shape (s : O3Core.state) : Prop := {
  shape_queue : Z.of_nat (length (o3queue s)) = o3queue_max_size cfg;
  shape_rob : Z.of_nat (length (o3rob s)) = o3rob_max_size cfg;
  shape_counters : Forall (λ c, 0 ≤ c ≤ 3) (BranchPredictor.bimodal_entry (bp s)) }.

Ltac shaped := apply keeps_modify; intros ? []; split; cbn; unfold vec_set; rewrite ?length_vec_alter; done.
Ltac keeps_auto := repeat first [solve [eauto 3 with nocore]|keeps_step|shaped].

Lemma miss_counters a t b m b' :
  BranchPredictor.miss a t b = Ok (m, b') → Forall (λ c, 0 ≤ c ≤ 3) (BranchPredictor.bimodal_entry b) →
  Forall (λ c, 0 ≤ c ≤ 3) (BranchPredictor.bimodal_entry b').
Proof.
  unfold BranchPredictor.miss. intros (x & _ & H)%bind_Ok Hb. destruct (_ =? 0); [done|].
  apply bind_Ok in H as (c & Hc & [= _ <-]). cbn. apply Forall_vec_alter; [done|]. intros y Hy Hr.
  rewrite Hc in Hy. injection Hy as ->. by apply O3Pipeline.next_entry_range.
Qed.

Lemma shape_predict q : keeps core_shape (predict q).
Proof.
  intros s Hs. unfold predict. wp_if E; [|by wp_steps]. wp_steps. apply wp_lift; [|done].
  intros [m b] Hb. wp_steps. destruct Hs as [? ? Hc]. destruct m; split; cbn; try done; by eapply miss_counters.
Qed.

Lemma shape_load now a ks : keeps core_shape (load_loop cfg now a ks).
Proof. revert a. induction ks as [|k ks IH]; intros a; cbn [load_loop]; keeps_auto. unfold load_one. keeps_auto. Qed.
Lemma shape_fill now q inf acc ks : keeps core_shape (fill_loop cfg now q inf acc ks).
Proof. revert acc. induction ks as [|k ks IH]; intros acc; cbn [fill_loop]; keeps_auto. unfold fill_one. keeps_auto. Qed.
Lemma shape_issue now n : keeps core_shape (issue_loop cfg now n).
Proof.
  pose proof shape_fill. pose proof shape_predict. induction n as [|n IH]; cbn [issue_loop]; keeps_auto.
  unfold issue_one, wake_at. keeps_auto.
Qed.
Lemma shape_exec now ks c : keeps core_shape (exec_loop cfg now ks c).
Proof.
  revert c. induction ks as [|k ks IH]; intros c; cbn [exec_loop]; keeps_auto.
  unfold exec_one, stall, send_access, complete, wake_at. keeps_auto.
Qed.
Lemma shape_commit now n : keeps core_shape (commit_loop cfg now n).
Proof. induction n as [|n IH]; cbn [commit_loop]; keeps_auto. Qed.

Lemma shape_request t l : keeps core_shape (add_req_event cfg t l).
Proof. unfold add_req_event, count_nack, check_nacks, loaded_one, wake_at. keeps_auto. Qed.
Lemma shape_reply t l : keeps core_shape (add_rep_event cfg t l).
Proof. unfold add_rep_event, count_nack, check_nacks, access_type, complete, wake_at. keeps_auto; apply keeps_modify; intros s []; by destruct (isread _). Qed.
Lemma shape_wake now : keeps core_shape (process_event cfg now).
Proof.
  pose proof shape_load. pose proof shape_issue. pose proof shape_exec. pose proof shape_commit.
  unfold process_event, cycle, wake_one, wake_next, commit_more, wake_at. keeps_auto.
Qed.
Lemma shape_instruction {xed : XedCategories} t i : keeps core_shape (add_instruction cfg t i).
Proof. unfold add_instruction, wake_at. keeps_auto. Qed.
End Core.

Section Dir.
Import Directory.
Context {AD : Addresses} (cfg : Directory.config).
Notation shape := (λ s : Directory.state, length (num_sharer_histogram s) = S (length (l2s cfg))).

Ltac dir_auto := repeat first
  [solve [eauto 3 with nocore]|keeps_step
  |apply keeps_modify; intros ? ?; unfold set_entry; cbn; unfold vec_set; rewrite ?length_vec_alter; first [done|by case_match]].

Lemma shape_victim l : keeps shape (find_victim l).
Proof. induction l as [|k l IH]; cbn [find_victim]; unfold dir_at; dir_auto. Qed.

Lemma dir_reply_shape now l : keeps shape (process_reply cfg now l).
Proof.
  pose proof shape_victim.
  unfold process_reply, on_evict, cache_reply, cached, make_room, evict_line, on_upgraded, on_ack, last_ack, on_no_data, on_data,
    on_memory, forget, remove_directory_cache_entry, nack, add_event_to_UL, add_event_to_UL_at, add_event_to_ULpp, to_l2, to_mc,
    Directory.add_rep_event, dir_at.
  dir_auto.
Qed.

Lemma dir_request_shape now l : keeps shape (process_request cfg now l).
Proof.
  pose proof shape_victim.
  unfold process_request, first_access, cache_request, access_line, read_line, write_line, write_shared, hold_and_ask,
    invalidate, cached, make_room, nack, add_event_to_UL, add_event_to_UL_at, add_event_to_ULpp, to_l2, to_mc, dir_at.
  dir_auto.
Qed.

Lemma dir_wake_shape now : keeps shape (process_event cfg now).
Proof. pose proof dir_reply_shape. pose proof dir_request_shape. unfold process_event. dir_auto. Qed.
End Dir.

(** What every component keeps of itself: the arrays of a core have their sizes and its
    counters two bits; no set of a cache holds a line twice, and the lines of an L2 are in
    one of its states; the least-recently-used list of a TLB agrees with its table; the
    histogram of a directory has a place for every number of sharers. *)
#[export] Instance shapes {AD : Addresses} : Promises := {|
  core_promise := core_shape;
  l1_promise := CacheL1.inv;
  tlb_promise := λ _, TLBL1.consistent;
  l2_promise := CacheL2.inv;
  dir_promise := λ c s, length (Directory.num_sharer_histogram s) = S (length (Directory.l2s c));
  mc_promise := λ _ _, True;
  noc_promise := λ _ _, True |}.

Lemma keeps_true {S A} (m : proc call S A) : keeps (λ _, True) m.
Proof. intros s _. apply wp_intro; done. Qed.

Ltac queued := repeat keeps_step; apply keeps_modify; intros ? Hs; first [exact Hs|by case_match|by split; apply Hs].

#[export] Instance shapes_kept {AD : Addresses} {xed : O3Core.XedCategories} : PromisesKept shapes.
Proof.
  split; cbn; intros.
  1: by apply shape_wake. 1: by apply shape_request. 1: by apply shape_reply. 1: by apply shape_instruction.
  1-3: match goal with H : core_shape _ _ |- _ => by destruct H; split end.
  1: by apply CacheL1.l1_keeps_process_event.
  1: unfold CacheL1.add_req_event; queued. 1: unfold CacheL1.add_rep_event; queued.
  1: by apply TLBL1.keeps_tlb_event. 1: unfold TLBL1.add_req_event; queued.
  1: by apply CacheL2.keeps_tags_event.
  1: unfold CacheL2.add_req_event; queued. 1: unfold CacheL2.add_rep_event; queued.
  1: by apply dir_wake_shape.
  1: unfold Directory.add_req_event; queued. 1: unfold Directory.add_rep_event; queued.
  all: first [done|apply keeps_true].
Qed.

(** ** The initial machine *)

Section Start.
Context {AD : Addresses} {xed : O3Core.XedCategories}.

(** The caches have sets and ways, and lines of a size that can be shifted by. *)
Record shaped (W : wiring) : Prop := {
  shaped_l1is : Forall (λ c, Cache.geometry_ok (CacheL1.geo c)) (cfg_l1is W);
  shaped_l1ds : Forall (λ c, Cache.geometry_ok (CacheL1.geo c)) (cfg_l1ds W);
  shaped_l2s : Forall (λ c, Cache.geometry_ok (CacheL2.geo c)) (cfg_l2s W) }.

Lemma new_core_sizes p i c :
  new_core p i = Ok c → 0 ≤ O3Core.o3queue_max_size c ∧ 0 ≤ O3Core.o3rob_max_size c.
Proof.
  unfold new_core, O3Core.make_config. cbv zeta. intros H. do 4 apply bind_Ok in H as (? & _ & H).
  destruct (_ <? 4); [done|]. injection H as <-. cbn.
  pose proof (u32_range (get_param_uint64 p ct_o3core "o3queue_max_size" 64 + 4)) as H1.
  pose proof (get_param_u32 p ct_o3core "o3rob_max_size" 16) as H2. unfold in_u32 in *. lia.
Qed.

Lemma core_starts p L c :
  0 ≤ O3Core.o3queue_max_size c ∧ 0 ≤ O3Core.o3rob_max_size c → core_shape c (core_state p L c).
Proof.
  intros [Hq Hr]. split; cbn; rewrite ?length_fmap, ?length_seq; [lia|lia|]. by apply Forall_replicate.
Qed.

Lemma l1_starts c : Cache.geometry_ok (CacheL1.geo c) → CacheL1.inv c (CacheL1.init c).
Proof.
  intros [_ _ Hs Hw]. constructor; cbn; [rewrite length_replicate; lia|]. apply Forall_replicate. constructor.
  - rewrite length_replicate. lia.
  - unfold Cache.valid_tags. rewrite filter_none; [constructor|]. by apply Forall_replicate.
  - by apply Forall_replicate.
Qed.

Lemma Forall2_init {C T} (P : C → Prop) (R : C → T → Prop) (f : C → T) cs :
  Forall P cs → (∀ c, P c → R c (f c)) → Forall2 R cs (f <$> cs).
Proof. intros Hcs Hf. apply Forall2_fmap_r, Forall_Forall2_diag. eapply Forall_impl; [exact Hcs|]. done. Qed.

Lemma machine_starts p L W : create_comps p L = Ok W → shaped W → promised W (new_world p L W).
Proof.
  intros HW [Hi Hd H2]. apply create_comps_parts in HW as (_ & _ & Hc & _).
  split; cbn; try (eapply Forall2_init; [exact Hi || exact Hd|apply l1_starts]).
  - apply (Forall2_init (λ c, 0 ≤ O3Core.o3queue_max_size c ∧ 0 ≤ O3Core.o3rob_max_size c)); [|apply core_starts].
    apply mapM_Ok in Hc. clear -Hc. induction Hc; constructor; eauto using new_core_sizes.
  - apply (Forall2_init (λ _, True)); [by apply Forall_true|]. by constructor.
  - apply (Forall2_init (λ _, True)); [by apply Forall_true|]. by constructor.
  - eapply Forall2_init; [exact H2|]. intros c Hc'. by apply (CacheL2.init_full c).
  - apply (Forall2_init (λ _, True)); [by apply Forall_true|]. intros c _. cbn. by rewrite length_replicate.
  - apply (Forall2_init (λ _, True)); [by apply Forall_true|]. done.
  - done.
Qed.
End Start.
End Promised.

(** ** The server *)

Module Served.
Import GlobalEventQueue Machine McSim ProcessDescription PTSInterface Server Report ReportProofs Kept Promised.

Section Served.
Context {AD : Addresses} {xed : O3Core.XedCategories} (S : setup).

(** The messages of the front ends, answered one after the other. *)
Fixpoint serve_all (fuel : nat) (msgs : list PTSMessage) (st : server) : outcome server :=
  match msgs with
  | [] => Ok st
  | msg :: msgs => '(_, st, _) ← serve S fuel msg st; serve_all fuel msgs st
  end.

(** The server asks nothing of the simulator but what may be asked. *)
Notation from m := (λ st, rtc (asked (mc S)) m (mcsim_ st)).

Lemma asks {A} (f : mcsim → outcome (A * mcsim)) m :
  (∀ s a s', f s = Ok (a, s') → asked (mc S) s s') → keeps (from m) (simulator f).
Proof.
  intros Hf st Hst. unfold simulator. wp_steps. apply wp_lift; [|done]. intros [a m'] Hrun. wp_steps.
  cbn. eapply rtc_r; [exact Hst|by eapply Hf].
Qed.

Lemma batch_asks htid off slots l m : keeps (from m) (add_instructions S htid off slots l).
Proof.
  revert slots. induction l as [|i l IH]; intros slots; cbn [add_instructions]; repeat keeps_step; [|apply IH].
  apply asks. intros s a s' H. by eapply asked_instruction.
Qed.

Lemma serve_asks fuel msg m : keeps (from m) (serve S fuel msg).
Proof.
  unfold serve, serve_with, note_killed, dispatch, switch_to, count_batch.
  repeat (keeps_step || (apply keeps_modify; by intros)).
  all: first [apply batch_asks|apply asks; intros m0 r0 m1 H].
  all: try (by eapply (asked_resume _ _ true)).
  all: apply bind_Ok in H as (m2 & H & [= _ <-]); first [by eapply asked_active|by eapply asked_stack].
Qed.

Lemma serves_ask fuel msgs st st' : serve_all fuel msgs st = Ok st' → rtc (asked (mc S)) (mcsim_ st) (mcsim_ st').
Proof.
  revert st. induction msgs as [|msg msgs IH]; intros st; cbn [serve_all]; [by intros [= <-]|].
  intros ([[r st1] o] & Hrun & H)%bind_Ok. etrans; [|by apply IH].
  exact (wp_run _ _ _ _ _ _ _ (serve_asks fuel msg (mcsim_ st) st (rtc_refl _ _)) Hrun).
Qed.
End Served.

Section Whole.
Context {AD : Addresses} {xed : O3Core.XedCategories}.

Lemma activate_asks cfg prs s s' : activate cfg prs s = Ok s' → rtc (asked cfg) s s'.
Proof.
  revert s. induction prs as [|pr prs IH]; intros s; cbn [activate]; [by intros [= <-]|].
  intros ([n s1] & Hadd & H)%bind_Ok. apply bind_Ok in H as (s2 & Hact & H).
  eapply rtc_l; [by eapply asked_instruction|]. eapply rtc_l; [by eapply asked_active|]. by apply IH.
Qed.

Lemma start_asks p L runs S st :
  start p L runs = Ok (S, st) → ∃ s, new_mcsim p L = Ok (mc S, s) ∧ rtc (asked (mc S)) s (mcsim_ st).
Proof.
  unfold start. intros ([cfg s0] & Hnew & H)%bind_Ok. apply bind_Ok in H as ([prs n] & _ & H).
  apply bind_Ok in H as (s & Hact & H). destruct (_ <? n); [done|]. destruct prs as [|pr prs]; [done|].
  injection H as <- <-. exists s0. split; [done|]. by eapply activate_asks.
Qed.

(** C8: The whole simulator, from its start, whatever messages the front ends send and
    however they interleave.  In every state it reaches no set of an L1 or L2 cache holds a
    line twice, and every line of an L2 is in one of its states with the sharers and the
    held message that belong to it; in every TLB the least-recently-used list agrees with
    the table of the pages; the queues of every core have their sizes and the counters of
    its branch predictor two bits.  So the check of the tags finds nothing in any set, and
    the report of an L2 can be printed, for caches of fewer than 2^32 lines and an offset
    below 64. *)
Theorem simulator_keeps_shape p L runs S st fuel msgs st' :
  start p L runs = Ok (S, st) → shaped (wires (mc S)) → serve_all S fuel msgs st = Ok st' →
  let W := wires (mc S) in let w := parts (mcsim_ st') in
  Forall2 CacheL1.inv (cfg_l1is W) (l1is w) ∧ Forall2 CacheL1.inv (cfg_l1ds W) (l1ds w) ∧
  Forall2 CacheL2.inv (cfg_l2s W) (l2s w) ∧
  Forall2 (λ _, TLBL1.consistent) (cfg_tlbl1is W) (tlbl1is w) ∧ Forall2 (λ _, TLBL1.consistent) (cfg_tlbl1ds W) (tlbl1ds w) ∧
  Forall2 core_shape (cfg_cores W) (o3cores w) ∧
  ∀ i c x, vec_get (cfg_l2s W) i = Ok c → vec_get (l2s w) i = Ok x →
    (∀ set, 0 ≤ set < Cache.num_sets (CacheL2.geo c) → test_tags set x = Ok tt) ∧
    (∀ q, 0 ≤ Report.addr_offset_lsb q < 64 → Cache.num_sets (CacheL2.geo c) * Cache.num_ways (CacheL2.geo c) < 2 ^ 32 →
       ∃ out, end_l2 q c x = Ok out).
Proof.
  intros Hst Hsh Hserve W w. apply start_asks in Hst as (s & Hnew & Hrun). apply serves_ask in Hserve.
  assert (promised W (parts s)) as H0.
  { unfold new_mcsim in Hnew. apply bind_Ok in Hnew as (W0 & HW & H). unfold W in *. destruct (mc S) as [W1 ?].
    injection H as -> _ <-. by apply machine_starts. }
  destruct (promised_reachable (mc S) s (mcsim_ st') H0 ltac:(by etrans)) as [Hc Hi Hd Hti Htd H2 _ _ _].
  split_and!; try done. intros i c x Hci Hxi. pose proof (Forall2_get _ _ _ _ _ _ H2 Hci Hxi) as Hinv. split.
  - intros set Hset. by eapply test_tags_ok.
  - intros q Hq Hsz. apply end_l2_ok; [|done|done|done]. exact (Forall_vec_get _ _ _ _ (shaped_l2s _ Hsh) Hci).
Qed.
End Whole.

(** *** A run *)

Import McSimProofs ServerProofs.
#[local] Existing Instance code_addresses.
#[local] Existing Instance toy_xed.

(** A thread that loads from five lines that go to the same set, again and again. *)
Definition toy_load_from (a : Z) : PTSInstr := {|
  hthreadid_ := 0; curr_time_ := 0; waddr := 0; wlen := 0; raddr := a; raddr2 := 0; rlen := 8; ip := 4096; category := 0;
  isbranch := false; isbranchtaken := false; islock := false; isunlock := false; isbarrier := false;
  rr0 := 0; rr1 := 0; rr2 := 0; rr3 := 0; rw0 := 1; rw1 := 0; rw2 := 0; rw3 := 0 |}.
Definition toy_messages : list PTSMessage :=
  pts_set_active 0 true :: concat (replicate 4
    [pts_add_instruction (toy_load_from <$> [4096; 8192; 12288; 16384; 20480; 4096; 8192; 12288]);
     pts_resume_simulation true false]).

Definition toy_shaped (W : wiring) : bool :=
  forallb (λ g, (0 <=? Cache.set_lsb g) && (Cache.set_lsb g <? 64) && (0 <? Cache.num_banks g) && (0 <? Cache.num_sets g) &&
                (0 <? Cache.num_ways g))
    ((CacheL1.geo <$> cfg_l1is W) ++ (CacheL1.geo <$> cfg_l1ds W) ++ (CacheL2.geo <$> cfg_l2s W)).

Lemma toy_shaped_ok W : toy_shaped W = true → shaped W.
Proof.
  unfold toy_shaped. rewrite !forallb_app, !andb_true_iff. intros (H1 & H2 & H3).
  split; apply Forall_forall; intros c Hc; [revert H1|revert H2|revert H3]; rewrite forallb_forall; intros H.
  all: specialize (H _ (proj1 (list_elem_of_In _ _) (list_elem_of_fmap_2 _ _ _ Hc))); split; lia.
Qed.

(** The state of the lines of the L2 after the run. *)
Definition toy_result : option (bool * list (list Z)) :=
  match toy_start 1 with
  | Ok (su, st) =>
      match serve_all su 2000 toy_messages st with
      | Ok st' =>
          Some (toy_shaped (wires (mc su)),
                (λ x, CacheL2.tag <$> filter (λ e, CacheL2.alive e = true) (concat (CacheL2.tags x))) <$> l2s (parts (mcsim_ st')))
      | Err _ => None
      end
  | Err _ => None
  end.

Example simulator_keeps_shape_witness :
  ∃ su st st', toy_start 1 = Ok (su, st) ∧ serve_all su 2000 toy_messages st = Ok st' ∧
    Forall2 CacheL2.inv (cfg_l2s (wires (mc su))) (l2s (parts (mcsim_ st'))) ∧
    (λ x, CacheL2.tag <$> filter (λ e, CacheL2.alive e = true) (concat (CacheL2.tags x))) <$> l2s (parts (mcsim_ st')) =
      [[64; 96; 128; 160; 32]].
Proof.
  assert (toy_result = Some (true, [[64; 96; 128; 160; 32]])) as Hc by (vm_compute; reflexivity). unfold toy_result in Hc.
  destruct (toy_start 1) as [[su st]|] eqn:Hst; [|done]. destruct (serve_all su 2000 toy_messages st) as [st'|] eqn:Hrun; [|done].
  injection Hc as Hsh Hl. exists su, st, st'. split; [reflexivity|]. split; [exact Hrun|].
  destruct (simulator_keeps_shape _ _ _ _ _ _ _ _ Hst (toy_shaped_ok _ Hsh) Hrun) as (_ & _ & H2 & _).
  split; [exact H2|exact Hl].
Defined.
End Served.
