(* ===== verification/System.v ===== *)
(** * One program on the simulator

    The front end of one process, its page and the server together.  [Backend], behind
    which Frontend.v keeps the other side of the page, is here the loop of main.cc on the
    whole machine.  The server keeps what the thread library relies on ([BackendLaws]), so
    that the theorems of the library hold of a program that runs on the simulator; and the
    instructions of the program reach the cores as they are, one by one and in order. *)

From S2P Require Import Prelude Frontend PthreadScheduler Trace PthreadSim PthreadInv PthreadReach PthreadCalls McSim Server.
Import PTSInterface GlobalEventQueue Machine MachineProofs McSim McSimProofs ProcessDescription Server ServerProofs.

Module System.

Section System.
Context {AD : Addresses} {xed : O3Core.XedCategories} (S : setup) (M : GlobalEventQueue.Machine world) (fuel : nat).
Notation now st := (curr_time (global_q (mcsim_ st))).
Notation threads st := (actives (parts (mcsim_ st))).

(** ** The server as a backend *)

(** The server in its loop, or gone: it has ended or aborted, or is still running after
    its fuel or at the horizon, so that no answer comes.  A program that waits for an
    answer for ever does nothing any more; what is said of it after [Gone], which keeps the
    active threads and the time, is there to make the backend total, and speaks of no run
    of the program. *)
Inductive simulation : Type :=
| Live (st : server)
| Gone (on : gset Z) (time : Z).

(** The fields of the message that the front end reads back. *)
Definition reply_of (a : answer) : reply :=
  match a with
  | ans_switch tid t => {| uint32_t_val := tid; uint64_t_val := t; bool_val := false |}
  | ans_slots n | ans_num_hthreads n => {| uint32_t_val := n; uint64_t_val := 0; bool_val := false |}
  | ans_uint64 v => {| uint32_t_val := 0; uint64_t_val := v; bool_val := false |}
  | ans_bool b => {| uint32_t_val := 0; uint64_t_val := 0; bool_val := b |}
  | ans_none => {| uint32_t_val := 0; uint64_t_val := 0; bool_val := false |}
  end.

Definition gone (msg : PTSMessage) (on : gset Z) (time : Z) : reply * simulation :=
  match msg with
  | pts_set_active h a => (reply_of ans_none, Gone (if a : bool then {[ h ]} ∪ on else on ∖ {[ h ]}) time)
  | pts_resume_simulation _ _ => (reply_of (ans_switch (default 0 (head (elements on))) time), Gone on time)
  | _ => (reply_of ans_none, Gone on time)
  end.

Definition is_active (st : server) (h : Z) : bool :=
  match vec_get (threads st) h with Ok a => a | Err _ => false end.

Definition active_threads (st : server) : gset Z :=
  list_to_set (filter (λ h, is_active st h = true) (upto (Z.of_nat (length (threads st))))).

Definition simulate (msg : PTSMessage) (b : simulation) : reply * simulation :=
  match b with
  | Gone on time => gone msg on time
  | Live st =>
      match serve_with S M fuel msg st with
      | Ok (Answered _ a, st', _) =>
          if (0 <=? now st') && (now st' <? horizon) then (reply_of a, Live st')
          else gone msg (active_threads st) (now st)
      | _ => gone msg (active_threads st) (now st)
      end
  end.

#[export] Instance simulated : Backend simulation := simulate.

(** ** What reaches the simulator *)

(** An instruction as the program executed it. *)
Definition instruction_of (i : PTSInstr) : O3Core.instruction := {|
  O3Core.in_waddr := u64 (waddr i); O3Core.in_wlen := wlen i;
  O3Core.in_raddr := u64 (raddr i); O3Core.in_raddr2 := u64 (raddr2 i); O3Core.in_rlen := rlen i;
  O3Core.in_ip := u64 (ip i); O3Core.category := category i;
  O3Core.isbranch := isbranch i; O3Core.isbranchtaken := isbranchtaken i;
  O3Core.islock := islock i; O3Core.isunlock := isunlock i; O3Core.isbarrier := isbarrier i;
  O3Core.in_rr0 := rr0 i; O3Core.in_rr1 := rr1 i; O3Core.in_rr2 := rr2 i; O3Core.in_rr3 := rr3 i;
  O3Core.in_rw0 := rw0 i; O3Core.in_rw1 := rw1 i; O3Core.in_rw2 := rw2 i; O3Core.in_rw3 := rw3 i |}.

(** The reference: the program calls the simulator itself, without page, batches or server. *)
Definition direct (x : PTSInstr + PTSMessage) (m : mcsim) : outcome mcsim :=
  match x with
  | inl i =>
      '(_, m) ← add_instruction (mc S) (u32 (hthreadid_ i)) (curr_time_ i) (instruction_of i) m; Ok m
  | inr (pts_resume_simulation _ _) | inr pts_destructor => '(_, m) ← resume_with (mc S) M fuel m; Ok m
  | inr (pts_set_active h a) => set_active (mc S) (i32 (u32 h)) a m
  | inr (pts_set_stack_n_size h stack size) => set_stack_n_size (mc S) (i32 (u32 h)) (u64 stack) size m
  | inr _ => Ok m
  end.

Fixpoint directly (l : list (PTSInstr + PTSMessage)) (m : mcsim) : outcome mcsim :=
  match l with
  | [] => Ok m
  | x :: l => m ← direct x m; directly l m
  end.

End System.
End System.

Module SystemProofs.
Import System.

(** ** The program reaches the simulator as it is *)

Section Direct.
Context {AD : Addresses} {xed : O3Core.XedCategories} (S : setup) (M : GlobalEventQueue.Machine world) (fuel : nat).
Notation directly := (directly S M fuel).
Notation now st := (curr_time (global_q (mcsim_ st))).
Notation threads st := (actives (parts (mcsim_ st))).
Lemma directly_app l k m : directly (l ++ k) m = m ← directly l m; directly k m.
Proof.
  revert m. induction l as [|x l IH]; intros m; [done|]. cbn. destruct (direct S M fuel x m); [|done]. apply IH.
Qed.

(** The one process, whose threads are the first ones. *)
Context (pr : PTSProcess) (Hone : pts_processes S = [pr]) (Hfirst : tid_to_htid pr = 0).

Lemma one_process pid q : vec_get (pts_processes S) pid = Ok q → pid = 0 ∧ q = pr.
Proof. rewrite Hone, vec_get_cons. intros [[-> ->]|[_ H%vec_get_range]]; [done|]. cbn in H. lia. Qed.

Lemma offset_0 off : address_offset S 0 = Ok off → off = 0.
Proof.
  unfold address_offset, shift_left, shl64. rewrite !Z.shiftl_0_l.
  by destruct ((_ <? 0) || (64 <=? addr_offset_lsb S)), (_ || _); cbn; try done; intros [= <-].
Qed.

Lemma relocate_0 a : relocate 0 a = u64 a.
Proof. unfold relocate. destruct (a =? 0); by rewrite Z.add_0_r. Qed.

Lemma relocate_instr_0 i : relocate_instr 0 i = instruction_of i.
Proof. unfold relocate_instr, instruction_of. by rewrite !relocate_0, Z.add_0_r. Qed.

Lemma add_instructions_direct slots l st a st' o :
  add_instructions S 0 0 slots l st = Ok (a, st', o) →
  directly (inl <$> l) (mcsim_ st) = Ok (mcsim_ st') ∧ curr_pid st' = curr_pid st.
Proof.
  revert slots st o. induction l as [|i l IH]; intros slots st o; cbn [add_instructions].
  { by intros [= <- <- <-]. }
  intros (n & st1 & o1 & o2 & Hi & Hl & _)%bind_run. apply simulator_run in Hi as (m & Hadd & -> & _).
  rewrite relocate_instr_0 in Hadd. apply IH in Hl as [Hl Hp]. split; [|exact Hp].
  cbn. change (0 ⊕₃₂ hthreadid_ i) with (u32 (hthreadid_ i)) in Hadd. by rewrite Hadd.
Qed.

Lemma switch_stays ret st r st' o :
  switch_to S ret st = Ok (r, st', o) → curr_pid st' = 0 ∧ mcsim_ st' = mcsim_ st.
Proof.
  unfold switch_to, mbind, proc_bind, lift, modify. destruct (vec_get (htid_to_pid S) _) as [pid|]; [|done].
  destruct (vec_get (pts_processes S) pid) as [q|] eqn:Hq; [|done]. apply one_process in Hq as [-> _].
  destruct (vec_get (htid_to_tid S) _); [|done]. by intros [= _ <- _].
Qed.

(** A round of the server, seen from the simulator. *)
Lemma round_direct msg st pid a st' o :
  curr_pid st = 0 → serve_with S M fuel msg st = Ok (Answered pid a, st', o) →
  directly (PTS.expand_one (Request msg)) (mcsim_ st) = Ok (mcsim_ st') ∧ curr_pid st' = 0.
Proof.
  intros Hpid Hrun. unfold serve_with in Hrun. apply bind_run in Hrun as (s & st1 & o1 & o2 & [= <- <- _] & Hrun & _).
  apply bind_run in Hrun as (q & st1 & o1' & o3 & Hq & Hrun & _).
  unfold lift in Hq. destruct (vec_get _ _) as [q'|] eqn:Hget; [|done]. injection Hq as <- <- _.
  apply one_process in Hget as [_ ->]. destruct (limit_reached S st).
  { by apply bind_run in Hrun as (u & st1 & o5 & o4 & _ & [=] & _). }
  apply bind_run in Hrun as (u & st1 & o5 & o4 & (n & ->)%note_killed_run & Hrun & _).
  unfold dispatch in Hrun. apply bind_run in Hrun as (s & st1 & o6 & o7 & [= <- <- _] & Hrun & _).
  destruct msg as [|sw k|l|tid stack size|tid b| |str def|str def|]; cbn [PTS.expand_one].
  - apply bind_run in Hrun as ([[h t]|] & st1 & o8 & o9 & Hsim & Hrun & _); [|done].
    apply simulator_run in Hsim as (m & Hm & -> & _). destruct (_ =? _); [done|].
    apply switch_stays in Hrun as [-> ->]. cbn in *. by rewrite Hm.
  - apply bind_run in Hrun as ([[h t]|] & st1 & o8 & o9 & Hsim & Hrun & _); [|done].
    apply simulator_run in Hsim as (m & Hm & -> & _).
    apply switch_stays in Hrun as [-> ->]. cbn in *. by rewrite Hm.
  - destruct l as [|first l]; [done|]. apply bind_run in Hrun as (off & st1 & o8 & o9 & Hoff & Hrun & _).
    cbn [curr_pid set] in Hoff. rewrite Hpid in Hoff.
    unfold lift in Hoff. destruct (address_offset S 0) as [off'|] eqn:E; [|done]. injection Hoff as <- <- _.
    apply offset_0 in E as ->. apply bind_run in Hrun as (slots & st2 & o10 & o11 & Hadd & Hrun & _).
    rewrite Hfirst in Hadd. apply add_instructions_direct in Hadd as [Hadd Hp].
    apply bind_run in Hrun as (u' & st3 & o12 & o13 & Hcount & [= _ _ <- _] & _).
    apply count_batch_run in Hcount as (j & fs & -> & _). split; [exact Hadd|]. cbn. by rewrite Hp.
  - apply bind_run in Hrun as (off & st1 & o8 & o9 & Hoff & Hrun & _). cbn [curr_pid set] in Hoff. rewrite Hpid in Hoff.
    unfold lift in Hoff. destruct (address_offset S 0) as [off'|] eqn:E; [|done]. injection Hoff as <- <- _.
    apply offset_0 in E as ->. apply bind_run in Hrun as (u' & st2 & o10 & o11 & Hset & [= _ _ <- _] & _).
    apply simulator_run in Hset as (m & (m' & Hset & [= _ <-])%bind_Ok & -> & _).
    rewrite Hfirst, Z.add_0_r in Hset. cbn in *. change (0 ⊕₃₂ tid) with (u32 tid) in Hset. by rewrite Hset.
  - apply bind_run in Hrun as (u' & st2 & o10 & o11 & Hset & [= _ _ <- _] & _).
    apply simulator_run in Hset as (m & (m' & Hset & [= _ <-])%bind_Ok & -> & _).
    rewrite Hfirst in Hset. cbn in *. change (0 ⊕₃₂ tid) with (u32 tid) in Hset. by rewrite Hset.
  - injection Hrun as _ _ <- _. done.
  - injection Hrun as _ _ <- _. done.
  - injection Hrun as _ _ <- _. done.
  - injection Hrun as _ _ <- _. done.
Qed.

Lemma gone_stays o on time : ∃ on' time', PTS.replay (BE := simulated S M fuel) o (Gone on time) = Gone on' time'.
Proof.
  revert on time. induction o as [|e o IH]; intros on time; [by eexists _, _|]. unfold PTS.replay in *. cbn [foldl].
  destruct e as [msg| | |]; [|apply IH..].
  destruct msg; cbn [PTS.served_by PTSInterface.serve simulated simulate gone snd]; apply IH.
Qed.

Lemma serve_live msg st r st' :
  PTSInterface.serve (Backend := simulated S M fuel) msg (Live st) = (r, Live st') →
  ∃ pid a o, serve_with S M fuel msg st = Ok (Answered pid a, st', o) ∧ r = reply_of a ∧ 0 ≤ now st' < horizon.
Proof.
  unfold PTSInterface.serve, simulated, simulate. destruct (serve_with S M fuel msg st) as [[[[pid a| |] st1] o]|]; try by destruct msg.
  destruct (_ && _) eqn:E; [|by destruct msg]. intros [= <- <-]. exists pid, a, o. split_and!; [done|done|lia|lia].
Qed.

(** A log that leaves the server in its loop. *)
Lemma replay_direct o st st' :
  curr_pid st = 0 → PTS.replay (BE := simulated S M fuel) o (Live st) = Live st' →
  directly (PTS.expand o) (mcsim_ st) = Ok (mcsim_ st') ∧ curr_pid st' = 0.
Proof.
  revert st. induction o as [|e o IH]; intros st Hpid; [by intros [= <-]|].
  unfold PTS.replay. cbn [foldl]. change (PTS.expand (e :: o)) with (PTS.expand_one e ++ PTS.expand o).
  destruct e as [msg| | |]; [|by apply IH..]. cbn [PTS.served_by].
  destruct (PTSInterface.serve msg (Live st)) as [r [st1|on time]] eqn:Hs; cbn [snd].
  - apply serve_live in Hs as (pid & a & o1 & Hrun & _). apply round_direct in Hrun as [Hrun Hpid1]; [|done].
    intros H. rewrite directly_app, Hrun. by apply IH.
  - intros H. destruct (gone_stays o on time) as (on' & time' & Hg). unfold PTS.replay in Hg. by rewrite Hg in H.
Qed.

(** C6: One program on the simulator.  Whatever the program has its threads do, in batches or
    not, the calls of the proxy return; and while the server is in its loop the cores,
    caches and queues are in the state they would be in had the program called the
    simulator itself: each instruction handed in as it was executed, at its place among the
    other requests, except for those that are still piled up. *)
Theorem program_reaches_simulator n t cs s st :
  PTS.pile_ok n t s → PTS.well_ordered n t cs → PTS.mcsim s = Live st → curr_pid st = 0 →
  ∃ s' o, PTS.run_calls (BE := simulated S M fuel) cs s = Ok (tt, s', o) ∧
    ∀ st', PTS.mcsim s' = Live st' →
    ∃ T, T ++ (inl <$> PTS.instr s') = (inl <$> PTS.instr s) ++ (cs ≫= PTS.reference) ∧
      directly T (mcsim_ st) = Ok (mcsim_ st').
Proof.
  intros Hs Hcs Hst Hpid. assert (PTS.issued (inl <$> PTS.instr s) s []) as HT by by split.
  destruct (wp_total _ _ _ (PTS.wpl_run_calls (BE := simulated S M fuel) _ _ _ _ _ _ Hcs Hs HT)) as (() & s' & o & Hrun & _ & HT' & _).
  exists s', o. split; [done|]. intros st' Hst'. exists (PTS.expand o). split; [done|].
  apply PTS.logged_run_calls in Hrun. rewrite Hst, Hst' in Hrun. by eapply replay_direct.
Qed.
End Direct.

(** ** The server keeps what the thread library relies on *)

Section Laws.
Context {AD : Addresses} {xed : O3Core.XedCategories} (S : setup) (fuel : nat).
Context (OK : setup_ok S) (pr : PTSProcess) (Hone : pts_processes S = [pr]).
Notation M := (bounded horizon (machine (wires (mc S)))).
Notation now st := (curr_time (global_q (mcsim_ st))).
Notation threads st := (actives (parts (mcsim_ st))).
Notation BE := (simulated S M fuel).

Lemma first_thread : tid_to_htid pr = 0.
Proof. pose proof (set_placed _ OK) as H. rewrite Hone in H. by destruct H as [-> _]. Qed.

Definition simulation_ok (b : simulation) : Prop :=
  match b with Live st => server_ok S st ∧ 0 ≤ now st < horizon | Gone _ _ => True end.
Definition simulation_active (b : simulation) (h : Z) : bool :=
  match b with Live st => is_active st h | Gone on _ => bool_decide (h ∈ on) end.
Definition simulation_time (b : simulation) : Z :=
  match b with Live st => now st | Gone _ time => time end.

Lemma is_active_true st h : is_active st h = true ↔ vec_get (threads st) h = Ok true.
Proof. unfold is_active. destruct (vec_get (threads st) h) as [[]|]; naive_solver. Qed.

Lemma elem_of_active_threads st h : h ∈ active_threads st ↔ is_active st h = true.
Proof.
  unfold active_threads. rewrite elem_of_list_to_set, list_elem_of_filter. split; [by intros [? _]|]. intros Hh.
  split; [done|]. unfold upto. rewrite elem_of_seqZ. apply is_active_true, vec_get_range in Hh. lia.
Qed.

Lemma active_gone st h : bool_decide (h ∈ active_threads st) = is_active st h.
Proof.
  destruct (is_active st h) eqn:E; [by apply bool_decide_eq_true, elem_of_active_threads|].
  apply bool_decide_eq_false. rewrite elem_of_active_threads. congruence.
Qed.

Lemma gone_told (on : gset Z) h a h' :
  bool_decide (h' ∈ if a : bool then {[ h ]} ∪ on else on ∖ {[ h ]}) = if decide (h' = h) then a else bool_decide (h' ∈ on).
Proof.
  destruct a, (decide (h' = h)) as [->|Hne];
    [apply bool_decide_eq_true|apply bool_decide_ext|apply bool_decide_eq_false|apply bool_decide_ext]; set_solver.
Qed.

Lemma i32_nonneg h : in_u32 h → 0 ≤ i32 h → i32 h = h.
Proof.
  unfold in_u32, i32. intros Hh Hi. destruct (decide (h < 2 ^ 31)) as [Hlt|Hge]; [rewrite Z.mod_small; lia|].
  rewrite <- (Z.mod_unique (h + 2 ^ 31) (2 ^ 32) 1 (h - 2 ^ 31)) in Hi |- *; lia.
Qed.

(** What serving a message may lead to. *)
Lemma serve_cases msg st : simulation_ok (Live st) → fits (now st) msg →
  (∃ a st', PTSInterface.serve (Backend := BE) msg (Live st) = (reply_of a, Live st') ∧ simulation_ok (Live st') ∧
     threads_after S msg st st' ∧ limit_reached S st = false ∧ answers_ok S msg st (Answered 0 a) st') ∨
  PTSInterface.serve (Backend := BE) msg (Live st) = gone msg (active_threads st) (now st).
Proof.
  intros [Hst Hnow] Hfit. destruct (PTSInterface.serve (Backend := BE) msg (Live st)) as [r b] eqn:Hs.
  assert (timely msg st) as Hti.
  { split; [done|]. destruct msg; try done. eapply Forall_impl; [exact Hfit|]. cbn. lia. }
  destruct b as [st'|on time].
  - left. pose proof Hs as (pid & a & o & Hrun & -> & Hnow')%serve_live.
    pose proof (serve_round S OK _ _ _ _ _ _ Hst Hti Hrun) as (_ & Hst' & Hle & Hth & Hans).
    assert (pid = 0) as ->.
    { destruct Hans as [-> _]. pose proof (srv_pid _ _ Hst') as Hp. rewrite Hone in Hp. cbn in Hp. lia. }
    exists a, st'. do 2 (split; [done|]). split; [done|]. split; [|done].
    destruct (limit_reached S st) eqn:E; [|done]. unfold serve_with, mbind, proc_bind, lift, reads, emit in Hrun.
    destruct (vec_get _ _); [|done]. by rewrite E in Hrun.
  - right. rewrite <- Hs. unfold PTSInterface.serve, simulated, simulate in Hs |- *.
    destruct (serve_with S M fuel msg st) as [[[[pid a| |] st1] o]|]; try done. by destruct (_ && _).
Qed.

#[export] Instance simulated_laws : BackendLaws BE.
Proof.
  refine {| thread_active := simulation_active; backend_ok := simulation_ok; backend_time := simulation_time |}.
  - intros msg [st|on t] Hb Hf; [|by destruct msg].
    destruct (serve_cases msg st Hb Hf) as [(a & st' & -> & ? & _)| ->]; [done|by destruct msg].
  - intros h a [st|on t] h' Hb Hh.
    + destruct (serve_cases (pts_set_active h a) st Hb Hh) as [(ans & st' & -> & _ & Hth & Hlim & _)| ->].
      * destruct (Hth Hlim) as (q & x & Hq & Hget & Hset).
        apply (one_process S pr Hone) in Hq as [_ ->].
        rewrite first_thread in Hget, Hset. change (0 ⊕₃₂ h) with (u32 h) in Hget, Hset. rewrite u32_id in Hget, Hset by done.
        assert (i32 h = h) as Hi.
        { apply vec_get_range in Hget. apply i32_nonneg; [done|lia]. }
        rewrite Hi in Hget, Hset. cbn. unfold is_active. rewrite Hset. case_decide as Hne.
        -- subst. by rewrite (vec_get_set _ _ _ _ Hget).
        -- by rewrite vec_get_set_ne.
      * cbn. rewrite <- active_gone. apply gone_told.
    + apply gone_told.
  - intros msg [st|on t] h' Hb Hf Hm; [|destruct msg as [| | | |h a| | | |]; try done; by destruct (Hm h a)].
    destruct (serve_cases msg st Hb Hf) as [(ans & st' & -> & _ & Hth & _)| ->].
    + cbn. unfold is_active. assert (threads st' = threads st) as ->; [|done].
      destruct msg as [| | | |h a| | | |]; try done. by destruct (Hm h a).
    + cbn. rewrite <- active_gone. destruct msg as [| | | |h a| | | |]; try done. by destruct (Hm h a).
  - intros sw k b Hb Hsome.
    assert (∀ on t, (∃ h, h ∈ on) → simulation_active (Gone on t) (default 0 (head (elements on))) = true) as Hgone.
    { intros on t [h Hh%elem_of_elements]. apply bool_decide_eq_true, elem_of_elements.
      destruct (elements on); [by apply not_elem_of_nil in Hh|left]. }
    destruct b as [st|on t].
    + destruct (serve_cases (pts_resume_simulation sw k) st Hb I) as [(ans & st' & -> & _ & Hth & _ & Hans)| ->].
      * destruct Hans as [_ Hans]. destruct ans; try (by destruct Hans). destruct Hans as (_ & _ & q & [_ ->]%(one_process S pr Hone) & _ & Hact).
        rewrite first_thread in Hact. cbn in Hth. rewrite Hth in Hact. by apply is_active_true.
      * destruct Hsome as [h Hh]. cbn in Hh. rewrite <- elem_of_active_threads in Hh.
        cbn. rewrite <- active_gone. apply (Hgone _ 0). by exists h.
    + destruct Hsome as [h Hh%bool_decide_eq_true]. apply (Hgone _ 0). by exists h.
  - intros sw k [st|on t] Hb _; [|done].
    destruct (serve_cases (pts_resume_simulation sw k) st Hb I) as [(ans & st' & -> & _ & _ & _ & Hans)| ->]; [|done].
    destruct Hans as [_ Hans]. destruct ans; try (by destruct Hans). by destruct Hans as (_ & -> & _).
  - intros msg [st|on t] Hb Hf; [|by destruct msg].
    assert (resumes msg = false → simulation_time (snd (PTSInterface.serve (Backend := BE) msg (Live st))) = now st) as H.
    { destruct (serve_cases msg st Hb Hf) as [(ans & st' & -> & _ & _ & _ & Hans)| ->]; [|by destruct msg].
      intros Hmsg. destruct Hans as [_ Hans]. destruct ans; [destruct Hans as [Hr _]; congruence|..]; apply Hans. }
    destruct msg; try done; by apply H.
Defined.
End Laws.

(** ** The library on the simulator *)

Section Program.
Context {AD : Addresses} {xed : O3Core.XedCategories} {PIN : Pin}.
Notation now st := (GlobalEventQueue.curr_time (global_q (mcsim_ st))).
Notation threads st := (actives (parts (mcsim_ st))).
Notation on S := (simulated S (bounded horizon (machine (wires (mc S))))).

Lemma start_idle p L runs S st pr :
  start p L runs = Ok (S, st) → pts_processes S = [pr] →
  curr_pid st = 0 ∧ now st = 0 ∧ get_num_hthreads (mcsim_ st) = hthreads p ∧ ∀ h, is_active st h = false.
Proof.
  unfold start. intros ([cfg s0] & Hnew & H)%bind_Ok Hone. apply bind_Ok in H as ([prs n] & Hread & H).
  apply bind_Ok in H as (s & Hact & H). destruct (_ <? n); [done|]. destruct prs as [|pr0 prs]; [done|].
  injection H as <- <-. cbn in Hone. injection Hone as -> ->. cbn in Hact. injection Hact as <-.
  split; [done|]. split; [by apply (new_mcsim_time _ _ _ _ Hnew)|]. split.
  { destruct (new_mcsim_ok _ _ _ _ Hnew) as (_ & Hlen & Hs). unfold get_num_hthreads. cbn [mcsim_]. by rewrite (sim_threads _ _ Hs). }
  intros h. unfold is_active. cbn [mcsim_].
  unfold new_mcsim in Hnew. apply bind_Ok in Hnew as (W & _ & [= <- <-]). cbn [parts]. unfold actives, new_world. cbn [o3cores].
  destruct (vec_get _ h) as [a|] eqn:E; [|done]. apply vec_get_Some in E as [_ E].
  rewrite !list_lookup_fmap in E. destruct (cfg_cores W !! Z.to_nat h); [|done]. by injection E as <-.
Qed.

Lemma start_boots p L runs S st pr fuel (OK : setup_ok S) (Hone : pts_processes S = [pr]) :
  start p L runs = Ok (S, st) → moderate p → runs_moderate runs →
  0 < hthreads p < 2 ^ 31 → limit_reached S st = false →
  boots (BL := simulated_laws S fuel OK pr Hone) (hthreads p) (Live st).
Proof.
  intros Hst Hp Hruns Hh Hlim. destruct (start_idle _ _ _ _ _ _ Hst Hone) as (Hpid & Hnow & Hnum & Hidle).
  destruct (server_starts _ _ _ _ _ Hst Hp Hruns) as (_ & Hok & _).
  split; [done| |exact Hidle| |exact Hnow].
  - assert (serve_with S (bounded horizon (machine (wires (mc S)))) fuel pts_get_num_hthreads st =
      Ok (Answered 0 (ans_num_hthreads (hthreads p)), st, [])) as Hrun.
    { unfold serve_with, dispatch, note_killed, mbind, proc_bind, lift, reads. rewrite Hpid, Hone. cbn.
      rewrite Hlim, <- Hnum. change (some_or_undef ([pr] !! Z.to_nat 0)) with (Ok pr). cbn. by rewrite Hpid. }
    unfold PTSInterface.serve, simulated, simulate. by rewrite Hrun, Hnow.
  - split; [done|]. rewrite Hnow. unfold horizon. lia.
Qed.

(** C7: A program that runs on the simulator, one process with whatever threads it creates.
    In every state that guarded calls lead to, while the server is in its loop: the simulator
    is in order, and so is the clock: the time the library believes in and the time of every
    instruction that is piled up is the time of the simulator, so that no instruction is for
    a tick that has passed; the threads whose cores are active are exactly those that the
    library lets run, the others wait in one queue each; some thread is active; and no
    guarded call meets undefined behaviour. *)
Theorem program_on_simulator p L runs S st pr fuel s st' :
  start p L runs = Ok (S, st) → moderate p → runs_moderate runs → pts_processes S = [pr] →
  0 < hthreads p < 2 ^ 31 → limit_reached S st = false →
  reachable (BE := on S fuel) (Live st) s → PTS.mcsim (PthreadScheduler.pts (PthreadSim.sched s)) = Live st' →
  server_ok S st' ∧ 0 ≤ now st' < horizon ∧
  now st' = PthreadScheduler.curr_time (PthreadSim.sched s) ∧
  Forall (λ i, curr_time_ i = now st') (PTS.instr (PthreadScheduler.pts (PthreadSim.sched s))) ∧
  (∀ h, vec_get (threads st') h = Ok true ↔ view s !! h = Some true) ∧
  (∀ h, view s !! h = Some false ↔ ∃ w, h ∈ queue s w) ∧
  (∃ c, PthreadScheduler.current (PthreadSim.sched s) = Some c ∧ view s !! c = Some true) ∧
  (∀ a, PthreadCalls.guard a s → perform (BE := on S fuel) a s ≠ Err Undef).
Proof.
  intros Hst Hp Hruns Hone Hh Hlim Hr Hlive. destruct (server_starts _ _ _ _ _ Hst Hp Hruns) as (OK & _).
  pose proof (start_boots _ _ _ _ _ _ fuel OK Hone Hst Hp Hruns Hh Hlim) as Hb.
  pose proof (kept_reachable (BL := simulated_laws S fuel OK pr Hone) _ _ _ Hb Hr) as Hk.
  pose proof Hk as [c [[Hs Hw _ _ _] Hc]]. destruct (so_link _ _ _ _ Hs) as [_ _ Ha Hok Htime Hinstr].
  rewrite Hlive in Ha, Hok, Htime. cbn in Ha, Hok, Htime. destruct Hok as [Hok Hnow]. rewrite <- Htime in *.
  split_and!; [done|lia|lia|done|done| |apply Hw|exists c; split; [apply Hs|done]|].
  - intros h. rewrite <- is_active_true, Ha. unfold is_on, view. destruct (sview _ !! h) as [[]|]; naive_solver.
  - intros a Hg E. pose proof (kept_perform _ a s Hk Hg) as Hsafe. unfold safe, wp in Hsafe. by rewrite E in Hsafe.
Qed.
End Program.

(** ** A small program *)

#[local] Existing Instance code_addresses.
#[local] Existing Instance toy_xed.
#[local] Existing Instance bare.

Definition two_threads : table :=
  [("type", TString "pintool"); ("num_threads", TInt 2); ("path", TString "/tmp"); ("arg", TString "./a.out")]%string.

Lemma two_threads_moderate : runs_moderate [two_threads].
Proof.
  intros prs k H. assert (ProcessDescription.make [two_threads] = Ok ([Build_PTSProcess 2 0 0 "" "/tmp" ["./a.out"; ""]]%string, 2)) as E
    by (vm_compute; reflexivity).
  rewrite H in E. injection E as -> ->. split; [by repeat constructor|]. cbn. lia.
Qed.

Definition a_load (ip : Z) : PTSInstrTrace := {|
  t_waddr := 0; t_wlen := 0; t_raddr := 2 ^ 20; t_raddr2 := 0; t_rlen := 8; t_ip := ip; t_category := 0;
  t_isbranch := false; t_isbranchtaken := false; t_rr0 := 0; t_rr1 := 0; t_rr2 := 0; t_rr3 := 0;
  t_rw0 := 1; t_rw1 := 0; t_rw2 := 0; t_rw3 := 0 |}.

Definition toy_machine (su : setup) : GlobalEventQueue.Machine world := bounded horizon (machine (wires (mc su))).
#[local] Notation on su := (simulated su (toy_machine su) 300).

(** The first thread creates a second one, takes a mutex and loads, until the simulator
    switches. *)
Definition toy_apis : list api :=
  new_thread :: MutexLock 100 0 :: ((λ k, Instruction 0 (a_load (4096 + 4 * k))) <$> seqZ 0 24).

Definition toy_program (su : setup) (st : server) : option (PthreadSim.sim simulation) :=
  match PthreadSim.initiate (BE := on su) TracePlay.no_player 0 no_attr (PthreadSim.no_threads (Live st)) with
  | Ok (_, s, _) => run_checked (BE := on su) toy_apis s
  | Err _ => None
  end.

Definition live_in (s : PthreadSim.sim simulation) : option server :=
  match PTS.mcsim (PthreadScheduler.pts (PthreadSim.sched s)) with Live st => Some st | Gone _ _ => None end.

Definition toy_outcome : option (list PTSProcess * bool * Z * list bool * option Z) :=
  match start toy_params toy_leftovers [two_threads] with
  | Ok (su, st) =>
      s ← toy_program su st; st' ← live_in s;
      Some (pts_processes su, limit_reached su st, GlobalEventQueue.curr_time (global_q (mcsim_ st')),
            actives (parts (mcsim_ st')), PthreadScheduler.current (PthreadSim.sched s))
  | Err _ => None
  end.

Lemma toy_runs_live :
  ∃ su st s st' pr, start toy_params toy_leftovers [two_threads] = Ok (su, st) ∧ toy_program su st = Some s ∧
    pts_processes su = [pr] ∧ limit_reached su st = false ∧
    PTS.mcsim (PthreadScheduler.pts (PthreadSim.sched s)) = Live st' ∧
    GlobalEventQueue.curr_time (global_q (mcsim_ st')) = 5680 ∧ PthreadScheduler.current (PthreadSim.sched s) = Some 1.
Proof.
  assert (toy_outcome = Some ([Build_PTSProcess 2 0 0 "" "/tmp" ["./a.out"; ""]]%string, false, 5680, [true; true], Some 1)) as E
    by (vm_compute; reflexivity).
  unfold toy_outcome in E. destruct (start toy_params toy_leftovers [two_threads]) as [[su st]|]; [|done].
  destruct (toy_program su st) as [s|] eqn:Hs; [|done]. cbn in E.
  destruct (live_in s) as [st'|] eqn:Hl; [|done]. cbn in E. injection E as Hpr Hlim Ht _ Hc.
  unfold live_in in Hl. destruct (PTS.mcsim _) as [st2|] eqn:Hm; [|done]. injection Hl as ->.
  eexists su, st, s, st', _. split_and!; [done|done|exact Hpr|done|done|done|done].
Qed.

Lemma toy_reachable su st s : toy_program su st = Some s → reachable (BE := on su) (Live st) s.
Proof.
  unfold toy_program. destruct (PthreadSim.initiate _ _ _ _) as [[[f s0] o]|] eqn:E; [|done].
  apply reachable_checked. by eapply (reach_initiate _ TracePlay.no_player).
Qed.

(** A switch after 5680 ticks: thread 1 goes on, and both cores are active. *)
Example program_on_simulator_witness :
  ∃ su st s st', start toy_params toy_leftovers [two_threads] = Ok (su, st) ∧ toy_program su st = Some s ∧
    PTS.mcsim (PthreadScheduler.pts (PthreadSim.sched s)) = Live st' ∧
    PthreadScheduler.curr_time (PthreadSim.sched s) = 5680 ∧ view s !! 1 = Some true ∧ server_ok su st'.
Proof.
  destruct toy_runs_live as (su & st & s & st' & pr & Hst & Hs & Hone & Hlim & Hlive & Ht & Hcur).
  destruct (program_on_simulator toy_params toy_leftovers [two_threads] su st pr 300 s st')
    as (? & _ & Hnow & _ & _ & _ & (c & Hc & Hv) & _);
    [exact Hst|exact toy_moderate|exact two_threads_moderate|exact Hone|vm_compute; split; reflexivity|exact Hlim|
     exact (toy_reachable su st s Hs)|exact Hlive|].
  exists su, st, s, st'. rewrite Hcur in Hc. injection Hc as <-. rewrite <- Hnow. split_and!; assumption.
Defined.

(** The calls of a thread, between which the simulator runs. *)
Definition toy_calls : list PTS.call :=
  PTS.Ask (pts_set_active 0 true) :: ((λ k, PTS.AddInstruction (PTS.an_instr 0 (64 * k)) true) <$> seqZ 1 12) ++
  [PTS.Ask (pts_resume_simulation true false); PTS.AddInstruction (PTS.an_instr 0 64) true].

Definition toy_proxy (st : server) : PTS.pts simulation :=
  {| PTS.instr := []; PTS.type_is_add := false; PTS.num_hthreads := 2; PTS.num_available_slot := [4; 4]; PTS.mcsim := Live st |}.

Definition toy_called : option (Z * Z * nat) :=
  match start toy_params toy_leftovers [two_threads] with
  | Ok (su, st) =>
      match PTS.run_calls (BE := on su) toy_calls (toy_proxy st) with
      | Ok (_, s, _) =>
          match PTS.mcsim s with
          | Live st' => Some (GlobalEventQueue.curr_time (global_q (mcsim_ st')), num_fetched_instrs (mcsim_ st'), length (PTS.instr s))
          | Gone _ _ => None
          end
      | Err _ => None
      end
  | Err _ => None
  end.

Lemma toy_calls_live :
  ∃ su st s o st' pr, start toy_params toy_leftovers [two_threads] = Ok (su, st) ∧ pts_processes su = [pr] ∧ tid_to_htid pr = 0 ∧
    curr_pid st = 0 ∧ PTS.run_calls (BE := on su) toy_calls (toy_proxy st) = Ok (tt, s, o) ∧ PTS.mcsim s = Live st' ∧
    PTS.instr s = [] ∧ GlobalEventQueue.curr_time (global_q (mcsim_ st')) = 12880 ∧ num_fetched_instrs (mcsim_ st') = 13.
Proof.
  assert (toy_called = Some (12880, 13, 0%nat)) as E by (vm_compute; reflexivity).
  assert (match start toy_params toy_leftovers [two_threads] with
          | Ok (su, st) => Some (pts_processes su, curr_pid st) | Err _ => None end =
          Some ([Build_PTSProcess 2 0 0 "" "/tmp" ["./a.out"; ""]]%string, 0)) as E2 by (vm_compute; reflexivity).
  unfold toy_called in E. destruct (start toy_params toy_leftovers [two_threads]) as [[su st]|]; [|done].
  injection E2 as Hpr Hpid. destruct (PTS.run_calls _ _) as [[[[] s] o]|] eqn:Hrun; [|done].
  destruct (PTS.mcsim s) as [st'|] eqn:Hm; [|done]. injection E as Ht Hn Hl. apply length_zero_iff_nil in Hl.
  eexists su, st, s, o, st', _. split_and!; [done|exact Hpr|done|done|exact Hrun|done|done|done|done].
Qed.

Lemma toy_ordered : PTS.well_ordered 2 None toy_calls.
Proof. vm_compute. split_and!; first [discriminate|by left|by right|done]. Qed.

Lemma toy_empty st : PTS.pile_ok 2 None (toy_proxy st).
Proof. by split. Qed.

(** Thirteen instructions, handed in one by one, bring the cores where the batches brought
    them, 12880 ticks later. *)
Example program_reaches_simulator_witness :
  ∃ su st st', start toy_params toy_leftovers [two_threads] = Ok (su, st) ∧
    directly su (toy_machine su) 300 (toy_calls ≫= PTS.reference) (mcsim_ st) = Ok (mcsim_ st') ∧
    GlobalEventQueue.curr_time (global_q (mcsim_ st')) = 12880 ∧ num_fetched_instrs (mcsim_ st') = 13.
Proof.
  destruct toy_calls_live as (su & st & s & o & st' & pr & Hst & Hone & Hfirst & Hpid & Hrun & Hlive & Hnil & Ht & Hn).
  destruct (program_reaches_simulator su (toy_machine su) 300 pr Hone Hfirst 2 None toy_calls (toy_proxy st) st)
    as (s2 & o2 & Hrun2 & HT);
    [apply toy_empty|exact toy_ordered|done|exact Hpid|].
  rewrite Hrun in Hrun2. injection Hrun2 as <- <-. destruct (HT st' Hlive) as (T & HT1 & HT2).
  rewrite Hnil, app_nil_r in HT1. exists su, st, st'. subst T. split_and!; [done|exact HT2|done|done].
Defined.
End SystemProofs.
