(* ===== verification/Replay.v ===== *)
(** * A recorded program on the simulator

    From tracegen.cpp to the cores: the instructions that the trace generator writes to a
    file are those that the player ([PlayTraces] of EEPthreadScheduler.cpp), the proxy
    (PTS.cpp), the page and the server (main.cc) hand to the simulator. *)

From S2P Require Import Prelude Frontend PthreadThreads PthreadScheduler PthreadSim PthreadInv PthreadReach PthreadCalls Trace McSim Server System.
Import PTSInterface TraceFormat TraceGen TracePlay TraceProofs.

Module Replay.

(** ** The player and a lawful simulator *)

(** The instructions among what was issued. *)
Definition instrs_of (T : list (PTSInstr + PTSMessage)) : list PTSInstr :=
  omap (λ x, match x with inl i => Some i | inr _ => None end) T.

Lemma instrs_of_piled T l : instrs_of (T ++ (inl <$> l)) = instrs_of T ++ l.
Proof. unfold instrs_of. rewrite omap_app. f_equal. induction l as [|i l IH]; [done|]. cbn. by f_equal. Qed.

(** The instructions that were issued are those of a trace, each at some tick. *)
Definition issued_as (l : list PTSInstrTrace) (L : list PTSInstr) : Prop :=
  Forall2 (λ i x, ∃ t, x = PthreadScheduler.instr_of 0 t i) l L.

Section Player.
Context {B : Type} {BE : Backend B} {BL : BackendLaws BE} {PIN : Pin}.
Implicit Types (s : scheduler B) (o : list event) (T : list (PTSInstr + PTSMessage)).

(** A player: its one thread runs, and skips nothing. *)
Record playing (n : Z) s : Prop := {
  pl_sched : sched_ok n (Some 0) 0 s;
  pl_alone : sview s = {[0 := true]};
  pl_thread : ∃ p, pthreads s !! 0 = Some p ∧ started p = true ∧
    negb (ignore_skip_instrs s) && (0 <? skip_instrs p) && (spinning p <=? 0) = false }.

Lemma playing_alter n s f :
  (∀ p, active (f p) = active p) → (∀ p, started (f p) = started p) → (∀ p, skip_instrs (f p) = skip_instrs p) →
  (∀ p, spinning (f p) = spinning p) → playing n s → playing n (s <| pthreads ::= alter f 0 |>).
Proof.
  intros H1 H2 H3 H4 [Hs Hv (p & Hp & Hst & Hsk)]. split; [by apply sched_ok_alter|by rewrite sview_alter|].
  exists (f p). cbn. by rewrite lookup_alter_eq, Hp, H2, H3, H4.
Qed.

Lemma playing_pts n s time p :
  playing n s → link n (Some 0) (is_on (sview s)) time p → playing n (s <| pts := p |> <| curr_time := time |>).
Proof. intros [[Hb Hlen Hth Hc Hcur Hl] Hv Hp] Hl'. by split. Qed.

Lemma wpl_current n s o (Q : Z * Pthread → scheduler B → list event → Prop) :
  playing n s → (∀ p, pthreads s !! 0 = Some p → started p = true →
     negb (ignore_skip_instrs s) && (0 <? skip_instrs p) && (spinning p <=? 0) = false → Q (0, p) s o) →
  wpl no_failure PthreadScheduler.current_entry s o Q.
Proof.
  intros [Hs Hv (p & Hp & Hst & Hsk)] HQ. unfold PthreadScheduler.current_entry. log_steps.
  rewrite (so_current _ _ _ _ Hs). eapply wpl_lift_ok; [done|]. cbv beta. log_steps.
  rewrite Hp. eapply wpl_lift_ok; [done|]. cbv beta. log_steps. by apply HQ.
Qed.

(** The simulator goes on with the one thread there is. *)
Lemma wpl_resume n s o T (Q : flow unit → scheduler B → list event → Prop) :
  playing n s → PTS.issued T (pts s) o →
  (∀ s' o' T', playing n s' → PTS.issued T' (pts s') o' → instrs_of T' = instrs_of T → Q (Returns tt) s' o') →
  wpl no_failure (PthreadScheduler.resume_simulation false false) s o Q.
Proof.
  intros Hp HT HQ. pose proof Hp as [Hs Hv _]. unfold PthreadScheduler.resume_simulation, PthreadScheduler.on_pts. log_steps.
  apply wpl_zoom. unfold PTS.resume_simulation. log_steps.
  assert (∀ h, is_on (sview s) h = true → h = 0) as Honly.
  { intros h. unfold is_on. rewrite Hv. destruct (decide (h = 0)) as [->|Hne]; [done|]. by rewrite lookup_singleton_ne. }
  eapply wpl_link_request; [done|done|done|apply (so_link _ _ _ _ Hs)|exact HT| |].
  { intros a k _. exists 0. unfold is_on. by rewrite Hv. }
  intros r p o1 Hl HT1 Hon. log_steps. rewrite (Honly _ (Hon _ _ eq_refl)).
  assert (link n (Some 0) (is_on (sview s)) (uint64_t_val r) p) as Hl' by by apply link_weaken.
  set (s1 := set curr_time _ _). assert (playing n s1) as Hp1 by exact (playing_pts n s _ p Hp Hl').
  pose proof (pl_thread _ _ Hp1) as (q & Hq & _).
  destruct (so_threads _ _ _ _ (pl_sched _ _ Hp1) _ _ Hq) as (_ & _ & ->). log_steps.
  rewrite (so_current _ _ _ _ (pl_sched _ _ Hp1)), bool_decide_eq_true_2 by done. log_steps.
  eapply (wpl_current n); [done|]. intros q1 _ -> _. log_steps. unfold PthreadScheduler.update_current. log_steps.
  eapply (wpl_current n); [done|]. intros q2 _ _ _. unfold PthreadScheduler.update_thread. log_steps.
  apply (HQ _ _ (T ++ [inr (pts_resume_simulation false false)])); [by apply playing_alter|exact HT1|].
  unfold instrs_of. rewrite omap_app. cbn. apply app_nil_r.
Qed.

(** One instruction of the trace. *)
Lemma wpl_process_ins n i s o T (Q : flow unit → scheduler B → list event → Prop) :
  playing n s → PTS.issued T (pts s) o →
  (∀ s' o' T' t, playing n s' → PTS.issued T' (pts s') o' →
     instrs_of T' = instrs_of T ++ [PthreadScheduler.instr_of 0 t i] → Q (Returns tt) s' o') →
  wpl no_failure (PthreadScheduler.process_ins None i) s o Q.
Proof.
  intros Hp HT HQ. unfold PthreadScheduler.process_ins. log_steps. eapply (wpl_current n); [done|].
  intros p Hp0 _ Hskip. cbv beta iota. rewrite bool_decide_eq_false_2, andb_false_r by by intros [? ?].
  unfold PthreadScheduler.skipping. log_steps. rewrite Hskip.
  unfold PthreadScheduler.update_thread. log_steps.
  match goal with |- context [alter ?f 0] => pose (g := f) end. fold g.
  assert (playing n (s <| pthreads ::= alter g 0 |>)) as Hp1 by by apply playing_alter.
  set (s1 := set total_instrs _ _). assert (playing n s1) as Hp2.
  { destruct Hp1 as [Hs1 Hv1 Ht1]. split; [by eapply sched_ok_frame|done|done]. }
  unfold PthreadScheduler.hth_of. log_steps. pose proof (pl_thread _ _ Hp2) as (q & Hq & _).
  destruct (so_threads _ _ _ _ (pl_sched _ _ Hp2) _ _ Hq) as (Hr & Hh & _). rewrite Hq, Hh. change (default 0 (Some 0)) with 0.
  unfold PthreadScheduler.on_pts. log_steps. apply wpl_zoom.
  eapply (wpl_link_add n (Some 0)); [by right|exact Hr|done|apply (so_link _ _ _ _ (pl_sched _ _ Hp2))|exact HT|].
  intros b p1 o1 Hl HT1. log_steps. set (s2 := set pts _ s1).
  assert (playing n s2) as Hp3 by exact (playing_pts n s1 _ p1 Hp2 Hl).
  set (T1 := T ++ [inl (PthreadScheduler.instr_of 0 (curr_time s1) i)]) in *.
  assert (instrs_of T1 = instrs_of T ++ [PthreadScheduler.instr_of 0 (curr_time s1) i]) as HT2
    by (unfold instrs_of, T1; by rewrite omap_app).
  destruct b; [|log_steps; by eapply HQ]. log_steps.
  assert (nactive s2 = 1) as Hone.
  { rewrite (so_count _ _ _ _ (pl_sched _ _ Hp3)), (pl_alone _ _ Hp3). reflexivity. }
  rewrite Hone. apply wpl_when; [done|intros _]. eapply wpl_resume; [exact Hp3|exact HT1|].
  intros s3 o3 T3 Hp4 HT4 Hi. eapply HQ; [done|done|]. by rewrite Hi, HT2.
Qed.

Lemma wpl_play_all n l s o T :
  playing n s → PTS.issued T (pts s) o →
  wpl no_failure (play_all l) s o (λ f s' o', f = Returns tt ∧ playing n s' ∧
    ∃ T' L, PTS.issued T' (pts s') o' ∧ instrs_of T' = instrs_of T ++ L ∧ issued_as l L).
Proof.
  revert s o T. induction l as [|i l IH]; intros s o T Hp HT; cbn [play_all].
  { log_steps. split_and!; [done|done|]. exists T, []. split_and!; [done|by rewrite app_nil_r|constructor]. }
  log_steps. eapply wpl_process_ins; [done|done|]. intros s1 o1 T1 t Hp1 HT1 Hi. cbv beta iota.
  eapply wpl_mono; [by eapply IH|]. intros f s2 o2 (-> & Hp2 & T2 & L & HT2 & HL & Hall).
  split_and!; [done|done|]. exists T2, (PthreadScheduler.instr_of 0 t i :: L). split_and!; [done| |constructor; eauto].
  by rewrite HL, Hi, <- app_assoc.
Qed.

(** What the tool sets up is a player, when it has no other thread. *)
Lemma playing_reachable n b (u : sim B) p :
  boots n b → reachable b u → view u = {[0 := true]} → pthreads (sched u) !! 0 = Some p → started p = true →
  negb (ignore_skip_instrs (sched u)) && (0 <? skip_instrs p) && (spinning p <=? 0) = false → playing n (sched u).
Proof.
  intros Hb Hr Hv Hp Hst Hsk. destruct (kept_reachable _ _ _ Hb Hr) as [c [[Hs _ _ _ _] Hc]].
  assert (c = 0) as ->.
  { rewrite Hv in Hc. by apply lookup_singleton_Some in Hc as [<- _]. }
  split; [done|done|by exists p].
Qed.

(** ** The log of the player *)

Notation simulator s := (PTS.mcsim (pts s)).

Lemma logged_on_pts {A} (m : proc event (PTS.pts B) A) :
  PTS.logged PTS.mcsim m → PTS.logged (λ s, simulator s) (PthreadScheduler.on_pts m).
Proof. by apply PTS.logged_zoom. Qed.

Lemma logged_current : PTS.logged (λ s, simulator s) (PthreadScheduler.current_entry (B := B)).
Proof. unfold PthreadScheduler.current_entry. PTS.logged_steps. Qed.

Lemma logged_update t f : PTS.logged (λ s, simulator s) (PthreadScheduler.update_thread (B := B) t f).
Proof. unfold PthreadScheduler.update_thread. PTS.logged_steps. Qed.

Lemma logged_process_ins i : PTS.logged (λ s, simulator s) (PthreadScheduler.process_ins (B := B) None i).
Proof.
  unfold PthreadScheduler.process_ins, PthreadScheduler.skipping, PthreadScheduler.hth_of,
    PthreadScheduler.resume_simulation, PthreadScheduler.update_current, PTS.resume_simulation.
  repeat (PTS.logged_step || apply logged_current || apply logged_update || apply logged_on_pts || apply PTS.logged_add_instruction || apply PTS.logged_request).
Qed.

Lemma logged_play_all l : PTS.logged (λ s, simulator s) (play_all (B := B) l).
Proof. induction l as [|i l IH]; cbn [play_all]; repeat (PTS.logged_step || apply logged_process_ins || apply IH). Qed.
End Player.

(** ** From the recorded program to the cores *)

Section Recorded.
Context {AD : Component.Addresses} {xed : O3Core.XedCategories} {PIN : Pin}.
Import GlobalEventQueue Machine MachineProofs McSim Server ServerProofs System SystemProofs.

Context (S : setup) (OK : setup_ok S) (pr : ProcessDescription.PTSProcess) (Hone : pts_processes S = [pr]).
Context (fuel : nat).
Notation M := (bounded horizon (machine (wires (mc S)))).
Notation BE := (simulated S M fuel).
Notation BL := (simulated_laws S fuel OK pr Hone).

(** C9: A recorded program on the simulator.  A program of whole slices is traced, and a
    player, alone on the machine, plays the file of one of the slices through the proxy,
    the page and the server.  Neither fails, and the player comes to the end of the file;
    while the server is in its loop, the simulator is in the state in which the instructions
    of the slice, from the first one that is not skipped, with every field and in their
    order, put it, handed in one by one with requests to resume in between; those still
    piled up in the player are the last ones. *)
Theorem recorded_reaches_cores n G m pad RC RU Mx index ls s0 :
  (0 < G)%nat → in_u32 (Z.of_nat G) → 0 < m → snappy_laws G Mx RC RU → m * (16 + Mx) + 32 < 2 ^ 64 →
  Forall (λ l, Z.of_nat (length l) = m * Z.of_nat G ∧ Forall instr_ok l) ls → Z.of_nat (length (concat ls)) < 2 ^ 64 →
  Init G index = Some s0 → Forall (λ x, 0 ≤ x) index →
  ∃ f s' o, trace G (m * Z.of_nat G) (λ _, true) pad RC (concat ls) s0 = Ok (f, s', o) ∧
    ∀ j l, ls !! j = Some l → Z.of_nat j ∈ index → ∃ file, files s' !! Z.of_nat j = Some file ∧
      ∀ k skip compressed buffer (s : scheduler simulation) st, (Z.to_nat m ≤ k)%nat →
        playing (BL := BL) n s → PTS.mcsim (pts s) = Live st → PTS.instr (pts s) = [] →
        ∃ s2 o2, play_file (BE := BE) G Mx RU k skip 0 compressed buffer file s =
            Ok (Returns (PlayedAll (m * Z.of_nat G)), s2, o2) ∧
          ∀ st2, PTS.mcsim (pts s2) = Live st2 →
          ∃ T, directly S M fuel T (mcsim_ st) = Ok (mcsim_ st2) ∧
            issued_as (drop (Z.to_nat skip) l) (instrs_of T ++ PTS.instr (pts s2)).
Proof.
  intros HG HGr Hm HL HM Hls Htot Hinit Hidx.
  destruct (trace_plays (BE := BE) G m pad RC RU Mx index ls s0) as (f & s' & o & Hrun & Hplay); try done.
  exists f, s', o. split; [done|]. intros j l Hj Hji. destruct (Hplay j l Hj Hji) as (file & Hfile & Hsame).
  exists file. split; [done|]. intros k skip compressed buffer s st Hk Hp Hst Hnil.
  rewrite (Hsame k skip compressed buffer s Hk).
  assert (PTS.issued [] (pts s) []) as HT by (split; [by rewrite Hnil|constructor]).
  destruct (wp_total _ _ _ (wpl_play_all (BL := BL) n (drop (Z.to_nat skip) l) s [] [] Hp HT))
    as (f2 & s2 & o2 & Hrun2 & -> & _ & T & L & [HT2 _] & HL2 & Hall).
  unfold mbind, proc_bind. rewrite Hrun2. eexists s2, _. split; [done|]. intros st2 Hst2.
  apply logged_play_all in Hrun2. rewrite Hst, Hst2 in Hrun2. cbn in Hrun2.
  assert (curr_pid st = 0) as Hpid.
  { pose proof (link_ok _ _ _ _ _ (so_link _ _ _ _ (pl_sched _ _ Hp))) as Hok. rewrite Hst in Hok. destruct Hok as [Hok _].
    pose proof (srv_pid _ _ Hok) as Hr. rewrite Hone in Hr. cbn in Hr. lia. }
  symmetry in Hrun2. apply (replay_direct S M fuel pr Hone (first_thread S OK pr Hone)) in Hrun2 as [Hd _]; [|done].
  exists (PTS.expand o2). split; [done|]. change ([] ++ o2) with o2 in HT2. rewrite <- HT2, instrs_of_piled in HL2.
  change (instrs_of [] ++ L) with L in HL2. by rewrite HL2.
Qed.
End Recorded.

(** ** A small trace on a small machine *)

Import GlobalEventQueue Machine MachineProofs McSim McSimProofs ProcessDescription Server ServerProofs System SystemProofs.
#[local] Existing Instance code_addresses.
#[local] Existing Instance toy_xed.
#[local] Existing Instance bare.

Definition player_table : table :=
  [("type", TString "trace"); ("trace_file", TString "t"); ("path", TString "/tmp"); ("arg", TString "")]%string.

Definition player_process : PTSProcess := Build_PTSProcess 1 0 0 "t" "/tmp" [""]%string.

Lemma player_moderate : runs_moderate [player_table].
Proof.
  intros prs k H. assert (ProcessDescription.make [player_table] = Ok ([player_process], 1)) as E by (vm_compute; reflexivity).
  rewrite H in E. injection E as -> ->. split; [by repeat constructor|]. cbn. lia.
Qed.

#[local] Notation on su := (simulated su (toy_machine su) 400).

(** The player as the tool starts it. *)
Definition started_player (su : setup) (st : server) : option (sim simulation) :=
  match PthreadSim.initiate (BE := on su) TracePlay.no_player 0 no_attr (PthreadSim.no_threads (Live st)) with
  | Ok (_, s, _) => Some s | Err _ => None
  end.

(** A slice of six groups of four, of which the first instruction is skipped. *)
Definition some_trace : list PTSInstrTrace := (λ k, a_load (4096 + 4 * k)) <$> seqZ 0 24.
Definition some_file : list Byte.byte := trace_file 4 plain 7 ((λ k, take 4 (drop (4 * k) some_trace)) <$> seq 0 6).

Definition some_tracer : tracer :=
  {| TraceGen.num_instrs := 0; TraceGen.num_ins_mem_rd := 0; TraceGen.num_ins_mem_wr := 0; TraceGen.num_ins_2nd_mem_rd := 0;
     TraceGen.slice_index_iter := [0];
     TraceGen.curr_file := None; TraceGen.files := ∅; TraceGen.curr_index := 0; TraceGen.tracing := false;
     TraceGen.instrs := replicate 4 no_instr;
     TraceGen.slice_count := 0; TraceGen.offset := 0 |}.

Lemma plain_laws_4 : snappy_laws 4 352 plain Some.
Proof. split; [done|unfold plain; intros b ->; unfold sizeof_instr; lia|unfold in_u64; lia]. Qed.

Lemma some_trace_ok : Forall (λ l, Z.of_nat (length l) = 6 * Z.of_nat 4 ∧ Forall instr_ok l) [some_trace].
Proof.
  apply Forall_singleton. split; [done|]. unfold some_trace. apply Forall_fmap, Forall_seqZ. intros k Hk.
  split; unfold in_u64, in_u32; cbn; lia.
Qed.

Lemma some_recorded f s' o :
  trace 4 (6 * Z.of_nat 4) (λ _, true) 7 plain (concat [some_trace]) some_tracer = Ok (f, s', o) → files s' !! 0 = Some some_file.
Proof.
  intros H. assert (match trace 4 (6 * Z.of_nat 4) (λ _, true) 7 plain (concat [some_trace]) some_tracer with
    | Ok (_, s, _) => files s !! 0 | Err _ => None end = Some some_file) as E by (vm_compute; reflexivity).
  by rewrite H in E.
Qed.

Definition toy_played (su : setup) (u : sim simulation) :=
  play_file (BE := on su) 4 352 Some 6 1 0 [] [] some_file (sched u).

(** What the tool sets up is a player that skips nothing and has piled up nothing. *)
Definition set_up (u : sim simulation) : bool :=
  bool_decide (view u = {[0 := true]}) && negb (ignore_skip_instrs (sched u)) &&
  bool_decide (PTS.instr (pts (sched u)) = []) &&
  match pthreads (sched u) !! 0 with Some p => started p && (skip_instrs p =? 0) | None => false end.

Definition live (s : scheduler simulation) : option server :=
  match PTS.mcsim (pts s) with Live st => Some st | Gone _ _ => None end.

Definition toy_replay : option (list PTSProcess * bool * bool * (flow played * Z * Z * list PTSInstr)) :=
  match start toy_params toy_leftovers [player_table] with
  | Ok (su, st) =>
      u ← started_player su st; _ ← live (sched u);
      match toy_played su u with
      | Ok (r, s2, _) =>
          st2 ← live s2;
          Some (pts_processes su, limit_reached su st, set_up u,
                (r, curr_time (global_q (mcsim_ st2)), num_fetched_instrs (mcsim_ st2), PTS.instr (pts s2)))
      | Err _ => None
      end
  | Err _ => None
  end.

Lemma live_is s st : live s = Some st → PTS.mcsim (pts s) = Live st.
Proof. unfold live. destruct (PTS.mcsim _); [|done]. by intros [= ->]. Qed.

Lemma toy_replayed :
  ∃ su st u st0 s2 o2 st2, start toy_params toy_leftovers [player_table] = Ok (su, st) ∧
    pts_processes su = [player_process] ∧ limit_reached su st = false ∧
    started_player su st = Some u ∧ set_up u = true ∧ PTS.mcsim (pts (sched u)) = Live st0 ∧
    toy_played su u = Ok (Returns (PlayedAll 24), s2, o2) ∧ PTS.mcsim (pts s2) = Live st2 ∧ PTS.instr (pts s2) = [] ∧
    curr_time (global_q (mcsim_ st2)) = 8320 ∧ num_fetched_instrs (mcsim_ st2) = 23.
Proof.
  assert (toy_replay = Some ([player_process], false, true, (Returns (PlayedAll 24), 8320, 23, []))) as E
    by (vm_compute; reflexivity).
  unfold toy_replay in E. destruct (start toy_params toy_leftovers [player_table]) as [[su st]|]; [|done].
  destruct (started_player su st) as [u|] eqn:Hu; [|done]. cbn in E.
  destruct (live (sched u)) as [st0|] eqn:H0; [|done]; apply live_is in H0. cbn in E.
  destruct (toy_played su u) as [[[r s2] o2]|] eqn:Hplay; [|done].
  destruct (live s2) as [st2|] eqn:H2; [|done]; apply live_is in H2. cbn in E. injection E as Hone Hlim Hset -> Ht Hn Hi.
  exists su, st, u, st0, s2, o2, st2. by split_and!.
Qed.

Lemma set_up_playing su st u (OK : setup_ok su) (Hone : pts_processes su = [player_process]) :
  start toy_params toy_leftovers [player_table] = Ok (su, st) → limit_reached su st = false →
  started_player su st = Some u → set_up u = true →
  playing (BL := simulated_laws su 400 OK player_process Hone) 2 (sched u) ∧ PTS.instr (pts (sched u)) = [].
Proof.
  intros Hst Hlim Hu Hset. unfold set_up in Hset. rewrite !andb_true_iff, !bool_decide_eq_true in Hset.
  destruct Hset as [[[Hv Hig] Hnil] Hp]. split; [|done].
  destruct (pthreads (sched u) !! 0) as [p|] eqn:Hp0; [|done]. apply andb_true_iff in Hp as [Hsd Hsk%Z.eqb_eq].
  unfold started_player in Hu. destruct (PthreadSim.initiate _ _ _ _) as [[[f u0] o]|] eqn:E; [|done]. injection Hu as ->.
  eapply (playing_reachable 2 (Live st) u p); [|by eapply (reach_initiate _ TracePlay.no_player)|done|done|done|by rewrite Hsk, andb_false_r].
  apply (start_boots toy_params toy_leftovers [player_table]);
    [exact Hst|exact toy_moderate|exact player_moderate|vm_compute; by split|exact Hlim].
Qed.

(** The 23 instructions that are not skipped, handed in one by one, are fetched within 8320
    ticks. *)
Example recorded_reaches_cores_witness :
  ∃ su st u st0 st2 T, start toy_params toy_leftovers [player_table] = Ok (su, st) ∧ started_player su st = Some u ∧
    PTS.mcsim (pts (sched u)) = Live st0 ∧ directly su (toy_machine su) 400 T (mcsim_ st0) = Ok (mcsim_ st2) ∧
    issued_as (drop 1 some_trace) (instrs_of T) ∧
    curr_time (global_q (mcsim_ st2)) = 8320 ∧ num_fetched_instrs (mcsim_ st2) = 23.
Proof.
  destruct toy_replayed as (su & st & u & st0 & s2 & o2 & st2 & Hst & Hone & Hlim & Hu & Hset & H0 & Hplay & H2 & Hnil & Ht & Hn).
  destruct (server_starts _ _ _ _ _ Hst toy_moderate player_moderate) as (OK & _).
  destruct (set_up_playing su st u OK Hone Hst Hlim Hu Hset) as [Hp Hempty].
  destruct (recorded_reaches_cores su OK player_process Hone 400 2 4 6 7 plain Some 352 [0] [some_trace] some_tracer)
    as (f & s' & o & Hrun & Hfile);
    [lia|unfold in_u32; lia|lia|exact plain_laws_4|lia|exact some_trace_ok|vm_compute; reflexivity|reflexivity|by repeat constructor|].
  destruct (Hfile 0%nat some_trace) as (file & Hf & Hplayed); [done|left|]. pose proof (some_recorded _ _ _ Hrun) as Hsome.
  assert (file = some_file) as -> by (apply Some_inj; by rewrite <- Hf, <- Hsome).
  destruct (Hplayed 6%nat 1 [] [] (sched u) st0) as (s3 & o3 & Hplay3 & Hd); [lia|exact Hp|exact H0|exact Hempty|].
  pose proof (eq_trans (eq_sym Hplay) Hplay3) as E. injection E as <- <-.
  destruct (Hd st2 H2) as (T & HT & Hall). rewrite Hnil, app_nil_r in Hall.
  exists su, st, u, st0, st2, T. by split_and!.
Defined.
End Replay.
