(* ===== verification/Launch.v ===== *)
(** * Starting the front ends (main.cc, EEPthreadSim.cpp)

    [main] starts each process of the run file in its directory and gives its tool the
    options on the command line of Pin; the constructor of [PthreadSim] reads them back.
    That a fork fails, and the process identifiers the parent notes to print a kill command,
    are left to the operating system.

    For three of the options [main] stores the pointer of a temporary string, which is gone
    when [execve] reads the text.  What the storage of the temporaries holds then, [freed],
    is a parameter of the model: nothing is assumed of it. *)

From S2P Require Import Server.
From stdpp Require Import pretty.
From Stdlib Require Import Ascii.
Import ProcessDescription ServerProofs.

Module Launch.
#[local] Open Scope Z_scope.
#[local] Open Scope string_scope.

(** ** Numbers as text *)

Definition to_string (n : Z) : string := pretty n.

Definition digit (c : ascii) : option Z :=
  let n := nat_of_ascii c in
  if ((48 <=? n) && (n <=? 57))%nat then Some (Z.of_nat n - 48) else None.

(** The digits at the start of a string, after the digits read so far. *)
Fixpoint digits (acc : Z) (s : string) : Z :=
  match s with
  | String c s => match digit c with Some d => digits (acc * 10 + d) s | None => acc end
  | EmptyString => acc
  end.

(** [strtol]: white space, a sign, digits; out of range is the nearest [long]. *)
Fixpoint atol (s : string) : Z :=
  match s with
  | String "-" s => Z.max (- 2 ^ 63) (- digits 0 s)
  | String "+" s => Z.min (2 ^ 63 - 1) (digits 0 s)
  | String c s' => if isspace c then atol s' else Z.min (2 ^ 63 - 1) (digits 0 s)
  | EmptyString => 0
  end.

(** [atoi] in the C library at hand is [atol], cut to an [int]. *)
Definition atoi (s : string) : Z := i32 (atol s).

(** ** The command line *)

(** [operator/=] of a path: a separator where there is none. *)
Definition append_path (p file : string) : string :=
  match last (String.list_ascii_of_string p) with
  | None => file
  | Some c => if decide (c = "/"%char) then p +:+ file else p +:+ "/" +:+ file
  end.

(** The name of the file of the shared page: [temp] is the directory, [getpid] the process
    of the server. *)
Definition tmp_shared_name (temp : string) (getpid : Z) (pr : PTSProcess) : string :=
  append_path temp (to_string getpid +:+ "_mcsim.tmp" +:+ to_string (tid_to_htid pr)).

(** [remove_tmpfile] removes the files of which this holds: the name up to its last
    character is that of the pages of the server. *)
Definition is_tmpfile (getpid : Z) (item : string) : bool :=
  String.eqb (match String.length item with O => item | S n => String.substring 0 n item end)
             (to_string getpid +:+ "_mcsim.tmp").

(** The texts of the numbers that are written for the [i]-th of [n] processes, in
    temporary strings. *)
Inductive temporary : Set := PidText | TotalText | SkipText.
Definition written (i n : Z) (pr : PTSProcess) (x : temporary) : string :=
  match x with
  | PidText => to_string i
  | TotalText => to_string n
  | SkipText => to_string (num_instrs_to_skip_first pr)
  end.

(** The arguments of [execve] for a process, when it reads them: [freed] is what it finds
    where the temporary strings were. *)
Definition argp (pin_ptr pintool_ptr instrs_skip tmp_shared : string) (freed : temporary → string) (pr : PTSProcess)
    : list string :=
  [pin_ptr; "-t"; pintool_ptr; "-pid"; freed PidText; "-total_num"; freed TotalText; "-tmp_shared"; tmp_shared] ++
  (if (0 <? String.length (trace_name pr))%nat
   then ["-trace_name"; trace_name pr; "-trace_skip_first"; default "" (trace_skip_first instrs_skip pr)]
   else ["-skip_first"; freed SkipText]) ++
  ["--"] ++ prog_n_argv pr.

(** What [main] takes from its environment: the file of Pin, that of the tool, and the
    environment of the processes.  Both files have to exist; without LD_LIBRARY_PATH a null
    pointer is appended to a string. *)
Definition environment (getenv : string → option string) (exists_file : string → bool) : outcome (string * string * list string) :=
  let pin_ptr := default "pinbin" (getenv "PIN") in
  let pintool_ptr := default "mypthreadtool" (getenv "PINTOOL") in
  if negb (exists_file pin_ptr) || negb (exists_file pintool_ptr) then Err Fatal
  else match getenv "LD_LIBRARY_PATH" with
       | None => Err Undef
       | Some l => Ok (pin_ptr, pintool_ptr, ["PATH=::$PATH:"; "LD_LIBRARY_PATH=" +:+ l])
       end.

(** What a child process does: [chdir], and [execve]. *)
Record launched := {
  chdir : string;
  executable : string;
  argv : list string;
  envp : list string }.

(** The loop that forks a process for each description. *)
Definition fork_n_execute (getenv : string → option string) (exists_file : string → bool) (temp : string) (getpid : Z)
    (instrs_skip : string) (freed : nat → temporary → string) (prs : list PTSProcess) : outcome (list launched) :=
  '(pin_ptr, pintool_ptr, env) ← environment getenv exists_file;
  Ok (imap (λ i pr, {|
        chdir := directory pr; executable := pin_ptr;
        argv := argp pin_ptr pintool_ptr instrs_skip (tmp_shared_name temp getpid pr) (freed i) pr;
        envp := env |}) prs).

(** With -run_manually the child prints the command instead, and ends. *)
Definition manual_command (l : launched) : string := String.concat "" ((λ a, a +:+ " ") <$> argv l).

(** ** The tool reads them *)

Record options := {
  pid : Z;
  total_num : Z;
  tmp_shared : string;
  skip_first : Z;
  opt_trace_name : string;
  opt_trace_skip_first : Z }.

Definition no_options : options :=
  {| pid := 0; total_num := 0; tmp_shared := ""; skip_first := 0; opt_trace_name := ""; opt_trace_skip_first := 0 |}.

(** The constructor of [PthreadSim]: an option without a value reads the null pointer at
    the end of the arguments. *)
Fixpoint parse (argv : list string) (o : options) : outcome options :=
  match argv with
  | [] => Ok o
  | a :: argv =>
      let value (f : string → options → options) :=
        match argv with [] => Err Undef | v :: argv => parse argv (f v o) end in
      if decide (a = "-pid") then value (λ v, set pid (λ _, u32 (atoi v)))
      else if decide (a = "-total_num") then value (λ v, set total_num (λ _, u32 (atoi v)))
      else if decide (a = "-tmp_shared") then value (λ v, set tmp_shared (λ _, v))
      else if decide (a = "-skip_first") then value (λ v, set skip_first (λ _, u64 (atol v)))
      else if decide (a = "-trace_skip_first") then value (λ v, set opt_trace_skip_first (λ _, u64 (atol v)))
      else if decide (a = "-trace_name") then value (λ v, set opt_trace_name (λ _, v))
      else if decide (a = "-h") then Err Fatal
      else if decide (a = "--") then Ok o
      else parse argv o
  end.
End Launch.

Module LaunchProofs.
Import Launch.
#[local] Open Scope Z_scope.
#[local] Open Scope string_scope.

(** ** Numbers *)

Lemma digit_char d : (d < 10)%N → digit (pretty_N_char d) = Some (Z.of_N d).
Proof.
  intros H. assert (d ∈ [0; 1; 2; 3; 4; 5; 6; 7; 8; 9]%N) as Hd by (rewrite !elem_of_cons; lia).
  repeat (apply elem_of_cons in Hd as [->|Hd]; [done|]). by apply elem_of_nil in Hd.
Qed.

Lemma digits_go x s : digits 0 (pretty_N_go x s) = digits (Z.of_N x) s.
Proof.
  revert s. induction (N.lt_wf_0 x) as [x _ IH]; intros s.
  destruct (decide (0 < x)%N); [|by replace x with 0%N by lia].
  rewrite pretty_N_go_step by done. rewrite IH by (apply N.div_lt; lia). cbn [digits].
  rewrite digit_char by (apply N.mod_lt; lia). f_equal. rewrite (N.div_mod x 10) at 3 by lia. lia.
Qed.

Lemma digits_pretty x : digits 0 (pretty x) = Z.of_N x.
Proof. unfold pretty, pretty_N. case_decide; [by subst|]. by rewrite digits_go. Qed.

(** A positive number begins with a digit. *)
Lemma go_head x s : (0 < x)%N → ∃ d s', (d < 10)%N ∧ pretty_N_go x s = String (pretty_N_char d) s'.
Proof.
  revert s. induction (N.lt_wf_0 x) as [x _ IH]; intros s H. rewrite pretty_N_go_step by done.
  destruct (decide (0 < x / 10)%N); [apply IH; [apply N.div_lt; lia|done]|].
  assert (x / 10 = 0)%N as -> by (apply N.le_0_r, N.nlt_ge; done). rewrite pretty_N_go_0. eexists _, _. split; [|done]. apply N.mod_lt; lia.
Qed.

Lemma pretty_head (x : N) : ∃ d s, (d < 10)%N ∧ (pretty x : string) = String (pretty_N_char d) s.
Proof.
  unfold pretty, pretty_N. case_decide; [by exists 0%N, ""|]. by apply go_head, N.neq_0_lt_0.
Qed.

Lemma atol_digit d s : (d < 10)%N → atol (String (pretty_N_char d) s) = Z.min (2 ^ 63 - 1) (digits 0 (String (pretty_N_char d) s)).
Proof.
  intros H. assert (d ∈ [0; 1; 2; 3; 4; 5; 6; 7; 8; 9]%N) as Hd by (rewrite !elem_of_cons; lia).
  repeat (apply elem_of_cons in Hd as [->|Hd]; [done|]). by apply elem_of_nil in Hd.
Qed.

Lemma atol_N (x : N) : atol (pretty x) = Z.min (2 ^ 63 - 1) (Z.of_N x).
Proof. rewrite <- digits_pretty. destruct (pretty_head x) as (d & s & Hd & ->). by apply atol_digit. Qed.

(** A number that fits is read back. *)
Lemma atol_to_string x : - 2 ^ 63 ≤ x < 2 ^ 63 → atol (to_string x) = x.
Proof.
  intros H. unfold to_string, pretty, pretty_Z. destruct x as [|p|p]; [done| |].
  - change (atol (pretty (N.pos p)) = Z.pos p). rewrite atol_N. lia.
  - change (Z.max (- 2 ^ 63) (- digits 0 (pretty (N.pos p))) = Z.neg p). rewrite digits_pretty. lia.
Qed.

Lemma u32_atoi x : 0 ≤ x < 2 ^ 32 → u32 (atoi (to_string x)) = x.
Proof.
  intros H. unfold atoi. rewrite atol_to_string by lia. unfold u32, i32. rewrite Zminus_mod, Zmod_mod, <- Zminus_mod.
  rewrite Z.mod_small; lia.
Qed.

(** ** The options *)

Definition option_names : list string :=
  ["-pid"; "-total_num"; "-tmp_shared"; "-skip_first"; "-trace_skip_first"; "-trace_name"; "-h"; "--"].

Lemma parse_other a argv o : a ∉ option_names → parse (a :: argv) o = parse argv o.
Proof.
  unfold option_names. intros H. cbn [parse].
  repeat (rewrite decide_False; [|set_solver]). done.
Qed.

(** An option and its value. *)
Section Values.
Context (v : string) (argv : list string) (o : options).
Lemma parse_pid : parse ("-pid" :: v :: argv) o = parse argv (o <| pid := u32 (atoi v) |>).
Proof. reflexivity. Qed.
Lemma parse_total : parse ("-total_num" :: v :: argv) o = parse argv (o <| total_num := u32 (atoi v) |>).
Proof. reflexivity. Qed.
Lemma parse_shared : parse ("-tmp_shared" :: v :: argv) o = parse argv (o <| tmp_shared := v |>).
Proof. reflexivity. Qed.
Lemma parse_skip : parse ("-skip_first" :: v :: argv) o = parse argv (o <| skip_first := u64 (atol v) |>).
Proof. reflexivity. Qed.
Lemma parse_trace_skip : parse ("-trace_skip_first" :: v :: argv) o = parse argv (o <| opt_trace_skip_first := u64 (atol v) |>).
Proof. reflexivity. Qed.
Lemma parse_name : parse ("-trace_name" :: v :: argv) o = parse argv (o <| opt_trace_name := v |>).
Proof. reflexivity. Qed.
Lemma parse_end : parse ("--" :: argv) o = Ok o.
Proof. reflexivity. Qed.
End Values.

(** ** The processes of a run file *)

Definition described (pr : PTSProcess) : Prop :=
  - 2 ^ 31 ≤ num_instrs_to_skip_first pr < 2 ^ 31 ∧ ∃ arg, prog_n_argv pr = split_args arg.

Lemma find_or_int_range key run d : - 2 ^ 31 ≤ d < 2 ^ 31 → - 2 ^ 31 ≤ find_or_int key run d < 2 ^ 31.
Proof.
  unfold find_or_int. intros Hd. destruct (find key run) as [[|i| | |]|]; try done.
  unfold i32. pose proof (Z.mod_pos_bound (i + 2 ^ 31) (2 ^ 32)). lia.
Qed.

Lemma read_run_described offset run pr : read_run offset run = Ok (Some pr) → described pr.
Proof.
  unfold read_run. destruct (find "type" run); [|done]. intros (ty & _ & H)%bind_Ok.
  apply bind_Ok in H as ([th tr] & _ & H). apply bind_Ok in H as (pa & _ & H). apply bind_Ok in H as (ar & _ & [= <-]).
  split; cbn [num_instrs_to_skip_first prog_n_argv]; [by apply find_or_int_range|by exists ar].
Qed.

Lemma read_runs_described runs offset prs n : read_runs offset runs = Ok (prs, n) → Forall described prs.
Proof.
  revert offset prs n. induction runs as [|run runs IH]; intros offset prs n; cbn [read_runs]; [by intros [= <- <-]|].
  intros (o & Ho & H)%bind_Ok. destruct o as [pr|]; [|by eapply IH].
  apply bind_Ok in H as ([prs' n'] & H & [= <- <-]). constructor; [by eapply read_run_described|by eapply IH].
Qed.
(** A described process has an empty last argument. *)
Lemma described_trace_skip instrs_skip pr : described pr →
  trace_skip_first instrs_skip pr = Some (if (length (prog_n_argv pr) =? 1)%nat then instrs_skip else "").
Proof.
  intros (_ & arg & Hargs). unfold trace_skip_first. rewrite Hargs. unfold split_args.
  rewrite last_snoc, length_app. cbn [length]. by destruct (words _ _) as [|w ws]; [|rewrite Nat.add_comm].
Qed.

(** What the tool reads of a process whose temporary strings were overwritten by [freed]. *)
Definition options_read (instrs_skip tmp : string) (freed : temporary → string) (pr : PTSProcess) : options :=
  let program := String.eqb (trace_name pr) "" in
  {| pid := u32 (atoi (freed PidText)); total_num := u32 (atoi (freed TotalText)); tmp_shared := tmp;
     skip_first := if program then u64 (atol (freed SkipText)) else 0;
     opt_trace_name := trace_name pr;
     opt_trace_skip_first :=
       if program then 0 else if (length (prog_n_argv pr) =? 1)%nat then u64 (atol instrs_skip) else 0 |}.

Lemma parse_argp pin tool instrs_skip tmp freed pr :
  pin ∉ option_names → tool ∉ option_names → described pr →
  parse (argp pin tool instrs_skip tmp freed pr) no_options = Ok (options_read instrs_skip tmp freed pr).
Proof.
  intros Hpin Htool Hd. pose proof (described_trace_skip instrs_skip pr Hd) as Hskip.
  unfold argp, options_read. cbn [app]. rewrite parse_other by done.
  rewrite parse_other by set_solver. rewrite parse_other by done. rewrite parse_pid, parse_total, parse_shared.
  destruct (trace_name pr) as [|c s]; cbn [String.length Nat.ltb Nat.leb app].
  - by rewrite parse_skip, parse_end.
  - rewrite parse_name, parse_trace_skip, parse_end, Hskip. by destruct (length _ =? 1)%nat.
Qed.

(** The options that were meant: when the strings are still there, the numbers are read
    back. *)
Definition options_meant (instrs_skip tmp : string) (i n : Z) (pr : PTSProcess) : options :=
  let program := String.eqb (trace_name pr) "" in
  {| pid := i; total_num := n; tmp_shared := tmp; skip_first := if program then u64 (num_instrs_to_skip_first pr) else 0;
     opt_trace_name := trace_name pr;
     opt_trace_skip_first :=
       if program then 0 else if (length (prog_n_argv pr) =? 1)%nat then u64 (atol instrs_skip) else 0 |}.

Lemma options_kept instrs_skip tmp i n pr :
  0 ≤ i < 2 ^ 32 → 0 ≤ n < 2 ^ 32 → described pr →
  options_read instrs_skip tmp (written i n pr) pr = options_meant instrs_skip tmp i n pr.
Proof.
  intros Hi Hn [Hd _]. unfold options_read, options_meant. cbn [written]. rewrite !u32_atoi, atol_to_string by lia. done.
Qed.

(** The pages of two processes differ. *)
Lemma append_path_inj p a b : append_path p a = append_path p b → a = b.
Proof.
  unfold append_path. destruct (last _) as [c|]; [|done]. destruct (decide _); intros H; repeat apply (inj _) in H; done.
Qed.

Lemma tmp_shared_name_inj temp getpid pr pr' :
  tmp_shared_name temp getpid pr = tmp_shared_name temp getpid pr' → tid_to_htid pr = tid_to_htid pr'.
Proof. unfold tmp_shared_name. intros H%append_path_inj. do 2 apply (inj _) in H. by apply (inj _) in H. Qed.

Lemma placed_apart off prs i j pr pr' :
  placed off prs → prs !! i = Some pr → prs !! j = Some pr' → (i < j)%nat → (0 < num_threads pr)%Z →
  (tid_to_htid pr < tid_to_htid pr')%Z.
Proof.
  assert (∀ prs (off : Z) k (q : PTSProcess), placed off prs → prs !! k = Some q → (off ≤ tid_to_htid q)%Z) as Hle.
  { clear. induction prs as [|p prs IH]; intros off [|k] q; cbn; try done.
    - intros (? & _) [= <-]. lia.
    - intros (_ & ? & Hp) Hq. specialize (IH _ _ _ Hp Hq). lia. }
  revert off i j. induction prs as [|p prs IH]; intros off [|i] [|j]; cbn; try done; try lia.
  - intros (Ho & _ & Hp) [= ->] Hj _ Hpos. specialize (Hle _ _ _ _ Hp Hj). lia.
  - intros (_ & _ & Hp) Hi Hj Hlt. apply (IH _ i j Hp Hi Hj). lia.
Qed.

(** Processes with threads have pages of their own. *)
Lemma pages_apart runs prs threads temp getpid i j pr pr' :
  make runs = Ok (prs, threads) → Forall (λ pr, (0 < num_threads pr)%Z) prs → (total_threads prs < 2 ^ 32)%Z →
  prs !! i = Some pr → prs !! j = Some pr' → i ≠ j → tmp_shared_name temp getpid pr ≠ tmp_shared_name temp getpid pr'.
Proof.
  intros Hmake Hpos Htot Hi Hj Hne E%tmp_shared_name_inj.
  destruct (read_runs_placed 0 runs prs threads Hmake) as [Hpl _]; [|lia|lia|].
  { eapply Forall_impl; [exact Hpos|]. cbn. lia. }
  pose proof (Forall_lookup_1 _ _ _ _ Hpos Hi). pose proof (Forall_lookup_1 _ _ _ _ Hpos Hj). cbn in *.
  destruct (decide (i < j)%nat).
  - pose proof (placed_apart 0 prs i j pr pr' Hpl Hi Hj). lia.
  - pose proof (placed_apart 0 prs j i pr' pr Hpl Hj Hi). lia.
Qed.

(** C24: what the tools read of what the server wrote.  When the server starts the
    processes of a run file, each in its directory, the tool of a process gets the name of
    its page and, for a trace, the name of the trace, whatever became of the temporary
    strings; nothing after [--] is read, whatever the arguments of the program are.  Its
    number, how many processes there are and how many instructions to skip are what is
    found where the temporary strings were: the right ones when the strings are still
    there.  Processes that have threads have pages of their own.  A player that is given
    any argument skips no instruction: what it reads is the empty last word, not the number
    on the command line of the server. *)
Theorem options_roundtrip runs prs threads getenv exists_file temp getpid instrs_skip freed ls :
  make runs = Ok (prs, threads) → Z.of_nat (length prs) < 2 ^ 32 →
  default "pinbin" (getenv "PIN") ∉ option_names → default "mypthreadtool" (getenv "PINTOOL") ∉ option_names →
  fork_n_execute getenv exists_file temp getpid instrs_skip freed prs = Ok ls →
  length ls = length prs ∧
  (∀ i pr, prs !! i = Some pr → ∃ l, ls !! i = Some l ∧ chdir l = directory pr ∧
     let tmp := tmp_shared_name temp getpid pr in
     parse (argv l) no_options = Ok (options_read instrs_skip tmp (freed i) pr) ∧
     (freed i = written (Z.of_nat i) (Z.of_nat (length prs)) pr →
      parse (argv l) no_options = Ok (options_meant instrs_skip tmp (Z.of_nat i) (Z.of_nat (length prs)) pr))) ∧
  (Forall (λ pr, (0 < num_threads pr)%Z) prs → (total_threads prs < 2 ^ 32)%Z →
   ∀ i j pr pr', prs !! i = Some pr → prs !! j = Some pr' → i ≠ j →
     tmp_shared_name temp getpid pr ≠ tmp_shared_name temp getpid pr').
Proof.
  intros Hmake Hlen Hpin Htool Hfork. unfold fork_n_execute in Hfork. apply bind_Ok in Hfork as ([[pin tool] env] & Henv & [= <-]).
  assert (pin ∉ option_names ∧ tool ∉ option_names) as [Hp Ht].
  { unfold environment in Henv. destruct (_ || _); [done|]. destruct (getenv "LD_LIBRARY_PATH"); [|done]. by injection Henv as <- <- _. }
  split; [by rewrite length_imap|]. split; [|intros; by eapply pages_apart].
  intros i pr Hi. pose proof (read_runs_described _ _ _ _ Hmake) as Hd. pose proof (Forall_lookup_1 _ _ _ _ Hd Hi) as Hpr.
  rewrite list_lookup_imap, Hi. cbn [fmap option_fmap option_map]. eexists. split; [reflexivity|]. split; [done|].
  cbn [argv]. apply lookup_lt_Some in Hi. cbv zeta. rewrite parse_argp by done. split; [done|]. intros ->.
  by rewrite options_kept by (done || lia).
Qed.

Definition toy_trace : table :=
  [("type", TString "trace"); ("trace_file", TString "gcc.snappy"); ("path", TString "/tmp"); ("arg", TString "gcc -pid 9")].

Definition toy_processes : list PTSProcess := match make [toy_table "/tmp"; toy_trace] with Ok (prs, _) => prs | Err _ => [] end.

Definition toy_getenv (name : string) : option string :=
  if decide (name = "PIN") then Some "/opt/pin/pin" else if decide (name = "LD_LIBRARY_PATH") then Some "/opt/pin/lib" else None.

(** The second process finds its temporary strings overwritten but for the second. *)
Definition toy_freed (i : nat) (x : temporary) : string := match x with TotalText => "2" | _ => "x" end.

Lemma options_roundtrip_witness :
  ∃ l, (λ ls, ls !! 1%nat) <$> match fork_n_execute toy_getenv (λ _, true) "/tmp" 7 "1000" toy_freed toy_processes with Ok ls => Some ls | Err _ => None end
      = Some (Some l) ∧ chdir l = "/tmp" ∧
  parse (argv l) no_options =
    Ok {| pid := 0; total_num := 2; tmp_shared := "/tmp/7_mcsim.tmp1"; skip_first := 0; opt_trace_name := "gcc.snappy";
          opt_trace_skip_first := 0 |}.
Proof.
  assert (∃ prs n, make [toy_table "/tmp"; toy_trace] = Ok (prs, n) ∧ toy_processes = prs) as (prs & n & Hm & Hp).
  { eexists _, _. split; reflexivity. }
  assert (∃ ls, fork_n_execute toy_getenv (λ _, true) "/tmp" 7 "1000" toy_freed toy_processes = Ok ls) as [ls Hls] by (eexists; reflexivity).
  assert (pin_ok : "/opt/pin/pin" ∉ option_names) by (apply (bool_decide_unpack _); vm_compute; exact I).
  assert (tool_ok : "mypthreadtool" ∉ option_names) by (apply (bool_decide_unpack _); vm_compute; exact I).
  assert (∃ pr, toy_processes !! 1%nat = Some pr ∧ directory pr = "/tmp" ∧
    options_read "1000" (tmp_shared_name "/tmp" 7 pr) (toy_freed 1) pr =
      {| pid := 0; total_num := 2; tmp_shared := "/tmp/7_mcsim.tmp1"; skip_first := 0; opt_trace_name := "gcc.snappy";
         opt_trace_skip_first := 0 |}) as (pr & Hpr & Hdir & Hread)
    by (eexists; split_and!; vm_compute; reflexivity).
  rewrite Hls. subst prs.
  destruct (options_roundtrip _ _ _ toy_getenv (λ _, true) "/tmp" 7 "1000" toy_freed ls Hm eq_refl pin_ok tool_ok Hls) as (_ & H & _).
  destruct (H 1%nat pr Hpr) as (l & Hl & Hc & Hparse & _). exists l. split; [cbn; by rewrite Hl|].
  split; [by rewrite Hc|]. rewrite Hparse, Hread. reflexivity.
Defined.

(** The page of a thread whose number has two digits survives the signal handler. *)
Example page_of_thread_10_stays :
  is_tmpfile 77 (to_string 77 +:+ "_mcsim.tmp" +:+ to_string 9) = true ∧
  is_tmpfile 77 (to_string 77 +:+ "_mcsim.tmp" +:+ to_string 10) = false.
Proof. split; reflexivity. Qed.
End LaunchProofs.
