(* ===== verification/Tests.v ===== *)
(** * The unit tests of the repository, on the model (src/McSim/test)

    Each example below runs a test of src/McSim/test on the definitions of the other files
    and shows that the model gives what the test expects of the program: the machine
    descriptions are those of the tests (src/Apps/md/test), the fields that a test sets are
    set, and what it looks at is computed.  Fields that a test leaves uninitialised are 0. *)

From S2P Require Import Containers McSim.

Module Tests.
Import OrdMap GlobalEventQueue Machine McSim McSimProofs.
#[local] Existing Instance code_addresses.
#[local] Open Scope Z_scope.
#[local] Open Scope string_scope.
#[local] Open Scope list_scope.

(** ** The machine descriptions *)

(** What test-md.toml and test-coherence.toml have in common. *)
Definition machine_description (total hthreads share l1_ways l2_ways : Z) (prefetch : list (string * toml)) : list (string * toml) := [
  ("max_total_instrs", TInt total); ("stack_sz", TInt 8388608); ("addr_offset_lsb", TInt 48);
  ("pts", TTable [
    ("skip_all_instrs", TBool false); ("simulate_only_data_caches", TBool false);
    ("show_l2_stat_per_interval", TBool false); ("num_hthreads", TInt hthreads);
    ("num_hthreads_per_l1$", TInt 1); ("num_l1$_per_l2$", TInt share); ("num_mcs", TInt 2);
    ("print_interval", TInt 1000000); ("is_race_free_application", TBool true);
    ("max_acc_queue_size", TInt 5);
    ("o3core", TTable [
      ("to_l1i_t_for_x87_op", TInt 10); ("to_l1i_t", TInt 2); ("to_l1d_t", TInt 2);
      ("branch_miss_penalty", TInt 80); ("process_interval", TInt 10); ("bypass_tlb", TBool false);
      ("consecutive_nack_threshold", TInt 200000); ("num_bp_entries", TInt 256);
      ("gp_size", TInt 60); ("spinning_slowdown", TInt 10); ("o3queue_max_size", TInt 128);
      ("o3rob_max_size", TInt 64); ("max_issue_width", TInt 4); ("max_commit_width", TInt 4)]);
    ("l1i$", TTable ([
      ("num_sets", TInt 64); ("num_ways", TInt l1_ways); ("set_lsb", TInt 6);
      ("process_interval", TInt 10); ("to_lsu_t", TInt 2); ("to_l2_t", TInt 20);
      ("num_sets_per_subarray", TInt 8); ("always_hit", TBool false)] ++ prefetch));
    ("l1d$", TTable ([
      ("num_banks", TInt 4); ("num_sets", TInt 64); ("num_ways", TInt l1_ways); ("set_lsb", TInt 6);
      ("process_interval", TInt 10); ("to_lsu_t", TInt 4); ("to_l2_t", TInt 40);
      ("num_sets_per_subarray", TInt 8); ("always_hit", TBool false)] ++ prefetch));
    ("l2$", TTable ([
      ("num_sets", TInt 1024); ("num_ways", TInt l2_ways); ("set_lsb", TInt 6);
      ("process_interval", TInt 10); ("to_l1_t", TInt 40); ("to_dir_t", TInt 40);
      ("to_xbar_t", TInt 40); ("num_banks", TInt 4); ("num_flits_per_packet", TInt 3);
      ("num_sets_per_subarray", TInt 16); ("always_hit", TBool false)] ++ prefetch));
    ("dir", TTable [
      ("set_lsb", TInt 6); ("process_interval", TInt 10); ("to_mc_t", TInt 10);
      ("to_l2_t", TInt 20); ("to_xbar_t", TInt 20); ("cache_sz", TInt 8192);
      ("num_flits_per_packet", TInt 3); ("num_sets", TInt 1024); ("num_ways", TInt 16);
      ("has_directory_cache", TBool false)]);
    ("noc_type", TString "xbar");
    ("xbar", TTable [
      ("to_dir_t", TInt 40); ("to_l2_t", TInt 40); ("process_interval", TInt 10)]);
    ("noc", TTable [
      ("num_node", TInt 2)]);
    ("mc", TTable [
      ("process_interval", TInt 30); ("to_dir_t", TInt 430); ("interleave_base_bit", TInt 12);
      ("interleave_xor_base_bit", TInt 18); ("num_ranks_per_mc", TInt 1);
      ("num_banks_per_rank", TInt 8); ("tRCD", TInt 14); ("tRAS", TInt 34); ("tRP", TInt 14);
      ("tRR", TInt 1); ("tCL", TInt 14); ("tBL", TInt 4); ("tWRBUB", TInt 0); ("RWBUB", TInt 0);
      ("tRRBUB", TInt 0); ("tWTR", TInt 0); ("use_bank_group", TBool true);
      ("num_bank_groups", TInt 4); ("req_window_sz", TInt 32);
      ("rank_interleave_base_bit", TInt 14); ("bank_interleave_base_bit", TInt 14);
      ("page_sz_base_bit", TInt 12); ("scheduling_policy", TString "open");
      ("refresh_interval", TInt 720000); ("num_pages_per_bank", TInt 8192); ("par_bs", TBool true);
      ("full_duplex", TBool false); ("is_fixed_latency", TBool false);
      ("display_os_page_usage", TBool false)]);
    ("l1dtlb", TTable [
      ("num_entries", TInt 64); ("process_interval", TInt 10); ("to_lsu_t", TInt 2);
      ("page_sz_log2", TInt 22); ("miss_penalty", TInt 80); ("speedup", TInt 4)]);
    ("l1itlb", TTable [
      ("num_entries", TInt 64); ("process_interval", TInt 10); ("to_lsu_t", TInt 2);
      ("page_sz_log2", TInt 12); ("miss_penalty", TInt 80); ("speedup", TInt 4)])]);
  ("print_md", TBool false)].


#[local] Close Scope string_scope.

Definition params_of (l : list (string * toml)) : params :=
  match md_table_decoding l "" no_params with Ok p => p | Err _ => no_params end.

Definition test_md : params := params_of (machine_description 1000000 16 1 4 16 []).
Definition test_coherence : params :=
  params_of (machine_description 10000000 4 2 1 1 [("use_prefetch"%string, TBool true)]).

Definition TEST_ADDR_I : Z := 0x401640.
Definition TEST_ADDR_D : Z := 0x7FFFFFFFE6D8.

(** The state a handler leaves. *)
Definition after {E S A} (h : proc E S A) (s : S) : outcome S := '(_, s, _) ← h s; Ok s.

Definition passes {A} (x : outcome A) (expected : A → Prop) : Prop :=
  match x with Ok a => expected a | Err _ => False end.

(** ** TLB_test.cc *)

Section TLBTest.
Import TLBL1.
Context (t : component_type) (addr : Z).
Let cfg : config := new_tlb test_md t 0.

Definition tlb_read (address time : Z) : state → outcome state :=
  after (TLBL1.add_req_event cfg time (new_lqe (Build_Comp ct_o3core 0) et_tlb_rd address 0)).
Definition tlb_wake (time : Z) : state → outcome state := after (TLBL1.process_event cfg time).

(** Misses, accesses, the two sizes, and the tick of the least recently used entry. *)
Definition tlb_counts (s : state) : Z * Z * nat * nat * Z :=
  (num_miss s, num_access s, size (LRU s), size (entries s), default 0 (fst <$> map_begin (LRU s))).

(** Two accesses of the same page, then as many of other pages as there are entries. *)
Definition tlb_twice : outcome state := s ← tlb_read addr 10 init; tlb_read addr 20 s.
Definition tlb_reread : outcome state := s ← tlb_twice; s ← tlb_wake 10 s; tlb_wake 20 s.
Definition tlb_filled : outcome state :=
  foldl (λ s i, s ← s; s ← tlb_read (addr + 2 ^ page_sz_log2 cfg * i) (20 + 10 * i) s; tlb_wake (20 + 10 * i) s)
    tlb_reread (seqZ 1 (num_entries cfg)).
Definition tlb_one_more : outcome state :=
  s ← tlb_filled; s ← tlb_read (addr - 2 ^ page_sz_log2 cfg) 1000 s; tlb_wake 1000 s.
End TLBTest.

Example ITLBReqEvent : passes (tlb_twice ct_tlbl1i TEST_ADDR_I) (λ s, length (req_event (TLBL1.queues s)) = 2%nat).
Proof. vm_compute. reflexivity. Qed.
Example ITLBProcessEvent :
  passes (tlb_reread ct_tlbl1i TEST_ADDR_I) (λ s, tlb_counts s = (1, 2, 1%nat, 1%nat, 20)) ∧
  passes (tlb_filled ct_tlbl1i TEST_ADDR_I) (λ s, tlb_counts s = (65, 66, 64%nat, 64%nat, 30)).
Proof. split; vm_compute; reflexivity. Qed.
Example DTLBReqEvent : passes (tlb_twice ct_tlbl1d TEST_ADDR_D) (λ s, length (req_event (TLBL1.queues s)) = 2%nat).
Proof. vm_compute. reflexivity. Qed.
Example DTLBProcessEvent :
  passes (tlb_reread ct_tlbl1d TEST_ADDR_D) (λ s, tlb_counts s = (1, 2, 1%nat, 1%nat, 20)) ∧
  passes (tlb_filled ct_tlbl1d TEST_ADDR_D) (λ s, tlb_counts s = (65, 66, 64%nat, 64%nat, 30)) ∧
  passes (tlb_one_more ct_tlbl1d TEST_ADDR_D) (λ s, tlb_counts s = (66, 67, 64%nat, 64%nat, 40)).
Proof. split_and!; vm_compute; reflexivity. Qed.

(** ** MC_scheduler_test.cc, AddressGen.cc *)

Section MCTest.
Import MemoryController.

(** [AddressGen]: addresses with a given controller, bank and page. *)
Record AddressGen := {
  gen_banks_per_rank : Z;
  gen_bank_base_bit : Z;
  gen_mc_base_bit : Z;
  gen_mcs : Z;
  gen_page_sz_base_bit : Z;
  gen_xor_base_bit : Z }.

Definition make_gen (p : params) : AddressGen := {|
  gen_banks_per_rank := u32 (pts_get_param_uint64 p "pts.mc.num_banks_per_rank" 8);
  gen_bank_base_bit := u32 (pts_get_param_uint64 p "pts.mc.bank_interleave_base_bit" 14);
  gen_mc_base_bit := u32 (pts_get_param_uint64 p "pts.mc.interleave_base_bit" 12);
  gen_mcs := u32 (pts_get_param_uint64 p "pts.num_mcs" 2);
  gen_page_sz_base_bit := u64 (pts_get_param_uint64 p "pts.mc.page_sz_base_bit" 12);
  gen_xor_base_bit := u32 (pts_get_param_uint64 p "pts.mc.interleave_xor_base_bit" 18) |}.

(** Its [log2] of a 32-bit number rounds down. *)
Definition generate (g : AddressGen) (mc bank page : Z) : Z :=
  let slice_bit := gen_bank_base_bit g ⊖₃₂ 1 ⊖₃₂ gen_mc_base_bit g in
  let slice := page mod 2 ^ slice_bit in
  let temp := gen_xor_base_bit g ⊖₃₂ 1 ⊖₃₂ gen_mc_base_bit g ⊖₃₂ Z.log2 (gen_banks_per_rank g) in
  let interleave := Z.shiftr page temp in
  let mc_bit := Z.lxor mc interleave mod gen_mcs g in
  let bank_bit := Z.lxor bank interleave mod gen_banks_per_rank g in
  let address := mc_bit + u32 (Z.shiftl slice 1)
    + u32 (Z.shiftl bank_bit (slice_bit + Z.log2 (gen_mcs g)))
    + u32 (Z.shiftl (Z.shiftr page slice_bit) (Z.log2 (gen_banks_per_rank g) + Z.log2 (gen_mcs g) + slice_bit)) in
  u64 (Z.shiftl address (gen_page_sz_base_bit g)).

Definition mc_cfg : config := new_mc test_md toy_leftovers 0.
Definition row_A (n : Z) : Z := generate (make_gen test_md) 0 0 0x10 + n.
Definition row_B (n : Z) : Z := generate (make_gen test_md) 0 0 0x20 + n.

(** The loop of the test wakes the controller only. *)
Definition own_event (w : call) : option (Z * Comp) :=
  match w with geq_add_event t p => if decide (p = this mc_cfg) then Some (t, p) else None | _ => None end.
Instance mc_alone : Machine state :=
  {| run_component c t s := '(r, s, o) ← MemoryController.process_event mc_cfg t s; Ok (r, s, omap (M := list) own_event o) |}.

Definition mc_reads (l : list Z) (s : state) : outcome state :=
  s ← foldl (λ s a, s ← s; after (MemoryController.add_req_event mc_cfg 0
    {| from := []; type := et_read; address := a; th_id := 0; dummy := false; rob_entry := -1 |}) s) (Ok s) l;
  '(_, _, s) ← GlobalEventQueue.process_event 200 (add_event 0 (this mc_cfg) (make test_md)) s;
  Ok s.

Definition mc_two : outcome state := mc_reads [row_A 10; row_B 10] (MemoryController.init mc_cfg).
Definition mc_six : outcome state :=
  s ← mc_two; mc_reads [row_A 10; row_B 10; row_A 11; row_B 11; row_A 12; row_B 12] s.
Definition mc_counts (s : state) : Z * Z * Z * Z := (num_read s, num_write s, num_activate s, num_precharge s).
Definition bank_0_0 (s : state) : option BankStatus := r ← bank_status s !! O; r !! O.
End MCTest.

Example MCBuild : MemoryController.par_bs mc_cfg = true ∧ MemoryController.policy mc_cfg = MemoryController.mc_scheduling_open.
Proof. split; vm_compute; reflexivity. Qed.
Example MCRequests :
  Forall (λ n, MemoryController.get_rank_num mc_cfg (row_A n) = Ok 0 ∧ MemoryController.get_bank_num mc_cfg (row_A n) = Ok 0 ∧
               MemoryController.get_page_num mc_cfg (row_A n) = Ok 0x10 ∧
               MemoryController.get_rank_num mc_cfg (row_B n) = Ok 0 ∧ MemoryController.get_bank_num mc_cfg (row_B n) = Ok 0 ∧
               MemoryController.get_page_num mc_cfg (row_B n) = Ok 0x20) [10; 11; 12].
Proof. repeat constructor; vm_compute; reflexivity. Qed.
Example MCProcessEvent :
  passes mc_two (λ s, mc_counts s = (2, 0, 2, 1) ∧
    (λ b, (MemoryController.page_num b, MemoryController.action_type b)) <$> bank_0_0 s = Some (0x20, MemoryController.mc_bank_read)).
Proof. vm_compute. split; reflexivity. Qed.
Example MCSchedulingOpen :
  passes mc_six (λ s, mc_counts s = (8, 0, 3, 2) ∧ MemoryController.action_type <$> bank_0_0 s = Some MemoryController.mc_bank_read).
Proof. vm_compute. split; reflexivity. Qed.

(** ** O3Core_test.cc *)

Section CoreTest.
Import O3Core.

Definition core_cfg : outcome config := new_core test_md 0.
Definition new_o3core : outcome state := cfg ← core_cfg; Ok (core_state test_md toy_leftovers cfg).

Definition wake (t : Z) (s : state) : outcome state := cfg ← core_cfg; after (O3Core.process_event cfg t) s.

(** The queue or the reorder buffer set by hand: its first entries, the head and the size. *)
Definition put {A} (l : list A) (i : nat) (k : list A) : list A := take i k ++ l ++ drop (i + length l) k.
Definition fill_queue (i : nat) (l : list O3Queue) (head size : Z) (s : state) : state :=
  s <| o3queue ::= put l i |> <| o3queue_head := head |> <| o3queue_size := size |>.
Definition fill_rob (l : list O3ROB) (s : state) : state :=
  s <| o3rob ::= put l 0 |> <| o3rob_head := 0 |> <| o3rob_size := Z.of_nat (length l) |>.

Definition q0 : O3Queue := Build_O3Queue o3iqs_invalid 0 0 0 0 0 0 0 no_mem 0 0 0 0 0 0 0 0.
Definition r0 : O3ROB := Build_O3ROB o3irs_invalid 0 0 0 false false (-1) (-1) (-1) no_mem (-1) (-1) (-1) (-1) (-1) (-1) (-1) (-1).

Definition q_states (s : state) : list o3_instr_queue_state := q_state <$> o3queue s.
Definition r_states (n : nat) (s : state) : list o3_instr_rob_state := take n (r_state <$> o3rob s).

(** Fetch *)
Definition not_fetched (ip : Z) : O3Queue := q0 <| q_state := o3iqs_not_in_queue |> <| q_ip := ip |>.
Definition fetch_one : outcome state :=
  s ← new_o3core; wake 10 (fill_queue 0 [not_fetched TEST_ADDR_I] 0 1 s).
Definition fetch_block : outcome state :=
  s ← fetch_one; wake 10 (fill_queue 0 [not_fetched TEST_ADDR_I; not_fetched (TEST_ADDR_I + 64);
                                       not_fetched (TEST_ADDR_I + 128); not_fetched TEST_ADDR_I] 0 4 s).

(** Dispatch *)
Definition ready (ip raddr_ raddr2_ waddr_ a b w : Z) : O3Queue :=
  Build_O3Queue o3iqs_ready 5 waddr_ 0 raddr_ raddr2_ 0 ip no_mem a b 0 0 w 0 0 0.
Definition dispatch_one : outcome state :=
  s ← new_o3core;
  let s := fill_queue 0 [ready TEST_ADDR_I 0 0 0 10 0 0] 0 1 s in
  wake 10 (fill_rob [r0 <| r_state := o3irs_executing |> <| r_ready_time := 15 |> <| r_rw0 := 10 |>] s).
Definition dispatch_three : outcome state :=
  s ← dispatch_one;
  wake 10 (fill_queue 1 [ready TEST_ADDR_I TEST_ADDR_D (TEST_ADDR_D + 64) (TEST_ADDR_D + 128) 0 0 0] 1 1 s).

(** Execute *)
Definition issued (t : ins_type) (addr : Z) (miss : bool) : O3ROB :=
  r0 <| r_state := o3irs_issued |> <| r_ready_time := 5 |> <| r_type := t |> <| memaddr := addr |> <| branch_miss := miss |>.
Definition execute_alu : outcome state :=
  s ← new_o3core;
  let x := issued ins_x87 0 false in wake 10 (fill_rob [x; x; x; issued no_mem 0 true; x; x] s).
Definition execute_rest : outcome state := s ← execute_alu; wake 20 s.
Definition execute_mem : outcome state :=
  s ← execute_rest;
  let x t := issued t TEST_ADDR_D false in
  wake 10 (fill_rob [x ins_x87; x ins_x87; x ins_x87; x no_mem; x ins_x87; x ins_x87] s).

(** Commit *)
Definition done_at (t : Z) : O3ROB := r0 <| r_state := o3irs_completed |> <| r_ready_time := t |>.
Definition commit_two : outcome state :=
  s ← new_o3core;
  wake 10 (fill_rob [done_at 0; done_at 0; r0 <| r_state := o3irs_executing |>; done_at 0; done_at 0; done_at 0; done_at 40] s).
Definition complete_slot (i : nat) (s : state) : state := s <| o3rob ::= alter (set r_state (λ _, o3irs_completed)) i |>.
Definition commit_four : outcome state := s ← commit_two; wake 20 (complete_slot 2 s).
Definition commit_all : outcome state := s ← commit_four; wake 50 s.

(** Scenario1: a load, an addition that needs it, a subtraction, and a division that needs
    the first two. *)
Definition scenario_start : outcome state :=
  s ← new_o3core;
  wake 10 (fill_queue 0 [ready TEST_ADDR_I 0 0 140737488348888 0 0 2; ready (TEST_ADDR_I + 64) 0 0 0 2 4 6;
                        ready (TEST_ADDR_I + 128) 0 0 0 4 8 8; ready (TEST_ADDR_I + 192) 0 0 0 6 2 8] 0 4 s).
Definition scenario_20 : outcome state := s ← scenario_start; wake 20 s.
Definition scenario_30 : outcome state :=
  s ← scenario_20; wake 30 (complete_slot 0 s <| o3rob ::= alter (set r_ready_time (λ _, 30)) 0%nat |>).
Definition scenario_40 : outcome state := s ← scenario_30; wake 40 s.
Definition scenario_50 : outcome state := s ← scenario_40; wake 50 s.
Definition scenario_60 : outcome state := s ← scenario_50; wake 60 s.
Definition scenario_70 : outcome state := s ← scenario_60; wake 70 s.
Definition deps (s : state) : list (Z * Z) := (λ r, (r_rr0 r, r_rr1 r)) <$> take 4 (o3rob s).
Definition sizes (s : state) : Z * Z * Z * Z := (o3queue_size s, o3queue_head s, o3rob_size s, o3rob_head s).
End CoreTest.

Import O3Core(o3iqs_not_in_queue, o3iqs_being_loaded, o3irs_issued, o3irs_executing, o3irs_completed, o3irs_invalid).
Example Fetch :
  passes fetch_one (λ s, take 1 (q_states s) = [o3iqs_being_loaded]) ∧
  passes fetch_block (λ s, take 4 (q_states s) = [o3iqs_being_loaded; o3iqs_not_in_queue; o3iqs_not_in_queue; o3iqs_being_loaded]).
Proof. split; vm_compute; reflexivity. Qed.
Example Dispatch :
  passes dispatch_one (λ s, (λ r, (O3Core.r_rr0 r, O3Core.r_rr1 r, O3Core.r_rr2 r, O3Core.r_rr3 r)) <$> (O3Core.o3rob s !! 1%nat) = Some (0, -1, -1, -1) ∧
    sizes s = (0, 1, 2, 0)) ∧
  passes dispatch_three (λ s, sizes s = (0, 2, 5, 0)).
Proof. vm_compute. split_and!; reflexivity. Qed.
Example Execute :
  passes execute_alu (λ s, r_states 6 s = [o3irs_completed; o3irs_completed; o3irs_completed; o3irs_completed; o3irs_issued; o3irs_issued] ∧
    passes core_cfg (λ cfg, take 4 (O3Core.r_ready_time <$> O3Core.o3rob s) =
      [10 + O3Core.sse_t cfg; 10 + O3Core.sse_t cfg; 10 + O3Core.sse_t cfg; 10 + O3Core.branch_miss_penalty cfg + O3Core.process_interval cfg])) ∧
  passes execute_rest (λ s, drop 4 (r_states 6 s) = [o3irs_completed; o3irs_completed]) ∧
  passes execute_mem (λ s, r_states 6 s = [o3irs_executing; o3irs_executing; o3irs_executing; o3irs_executing; o3irs_issued; o3irs_issued]).
Proof. vm_compute. split_and!; reflexivity. Qed.
Example Commit :
  passes commit_two (λ s, r_states 5 s = [o3irs_invalid; o3irs_invalid; o3irs_executing; o3irs_completed; o3irs_completed] ∧ sizes s = (0, 0, 5, 2)) ∧
  passes commit_four (λ s, drop 2 (r_states 7 s) = [o3irs_invalid; o3irs_invalid; o3irs_invalid; o3irs_invalid; o3irs_completed] ∧ sizes s = (0, 0, 1, 6)) ∧
  passes commit_all (λ s, drop 6 (r_states 7 s) = [o3irs_invalid] ∧ sizes s = (0, 0, 0, 7)).
Proof. vm_compute. split_and!; reflexivity. Qed.
Example Scenario1 :
  passes scenario_start (λ s, r_states 4 s = [o3irs_issued; o3irs_issued; o3irs_issued; o3irs_issued] ∧ sizes s = (0, 4, 4, 0) ∧
    drop 1 (deps s) = [(0, -1); (-1, -1); (1, 0)]) ∧
  passes scenario_20 (λ s, r_states 4 s = [o3irs_executing; o3irs_issued; o3irs_completed; o3irs_issued]) ∧
  passes scenario_30 (λ s, r_states 4 s = [o3irs_invalid; o3irs_issued; o3irs_completed; o3irs_issued] ∧ drop 1 (deps s) = [(-1, -1); (-1, -1); (1, -1)]) ∧
  passes scenario_40 (λ s, drop 1 (r_states 4 s) = [o3irs_completed; o3irs_completed; o3irs_issued]) ∧
  passes scenario_50 (λ s, drop 1 (r_states 4 s) = [o3irs_invalid; o3irs_invalid; o3irs_issued] ∧ drop 3 (deps s) = [(-1, -1)]) ∧
  passes scenario_60 (λ s, drop 3 (r_states 4 s) = [o3irs_completed]) ∧
  passes scenario_70 (λ s, drop 3 (r_states 4 s) = [o3irs_invalid] ∧ sizes s = (0, 4, 0, 4)).
Proof. vm_compute. split_and!; reflexivity. Qed.

(** ReqEvent and RepEvent: what the TLBs and the L1 caches send to a core. *)
Section ReplyTest.
Import O3Core.
Definition sent {A} (h : proc call state A) (s : state) : outcome (state * list (Comp * event_type)) :=
  '(_, s, o) ← h s; Ok (s, omap (M := list) (λ w, match w with Component.add_req_event c _ l _ => Some (c, type l) | _ => None end) o).
Definition from_l1i (n : Comp) (t : event_type) (s : state) : outcome (state * list (Comp * event_type)) :=
  cfg ← core_cfg; sent (O3Core.add_req_event cfg 10 (new_lqe n t TEST_ADDR_I 0)) s.
Definition from_l1d (n : Comp) (t : event_type) (time entry : Z) (s : state) : outcome (state * list (Comp * event_type)) :=
  cfg ← core_cfg; sent (O3Core.add_rep_event cfg time ((new_lqe n t TEST_ADDR_D 0) <| rob_entry := entry |>)) s.
Definition nacks (s : state) : Z * Z := (num_consecutive_nacks s, num_nacks s).

Definition req_tlb := s ← new_o3core; from_l1i (Build_Comp ct_tlbl1i 0) et_tlb_rd s.
Definition req_nack := '(s, _) ← req_tlb; from_l1i (Build_Comp ct_cachel1i 0) et_nack s.
Definition loading (ip : Z) : O3Queue := q0 <| q_state := o3iqs_being_loaded |> <| q_ip := ip |>.
Definition req_read :=
  '(s, _) ← req_nack;
  from_l1i (Build_Comp ct_cachel1i 0) et_read
    (fill_queue 0 [loading TEST_ADDR_I; not_fetched (TEST_ADDR_I + 64); loading (TEST_ADDR_I + 128); loading TEST_ADDR_I] 0 4 s).

Definition rep_read_tlb :=
  '(s, _) ← req_read;
  from_l1d (Build_Comp ct_tlbl1d 0) et_tlb_rd 10 0 (fill_rob [r0 <| isread := true |>; r0] s).
Definition rep_write_tlb := '(s, _) ← rep_read_tlb; from_l1d (Build_Comp ct_tlbl1d 0) et_tlb_rd 10 1 s.
Definition rep_nack :=
  '(s, _) ← rep_write_tlb;
  from_l1d (Build_Comp ct_cachel1d 0) et_nack 10 2 (fill_rob [r0 <| isread := true |>; r0; r0 <| isread := true |>] s).
Definition rep_read :=
  '(s, _) ← rep_nack;
  from_l1d (Build_Comp ct_cachel1d 0) et_read 20 3
    (s <| o3rob ::= alter (λ _, r0 <| isread := true |> <| r_state := o3irs_executing |>) 3%nat |>).
End ReplyTest.

Example ReqEvent :
  passes req_tlb (λ e, e.2 = [(Build_Comp ct_cachel1i 0, et_read)]) ∧
  passes req_nack (λ e, e.2 = [(Build_Comp ct_cachel1i 0, et_read)] ∧ nacks e.1 = (1, 1)) ∧
  passes req_read (λ e, nacks e.1 = (0, 1) ∧
    take 4 (q_states e.1) = [O3Core.o3iqs_ready; o3iqs_not_in_queue; o3iqs_being_loaded; O3Core.o3iqs_ready]).
Proof. vm_compute. split_and!; reflexivity. Qed.
Example RepEvent :
  passes rep_read_tlb (λ e, e.2 = [(Build_Comp ct_cachel1d 0, et_read)]) ∧
  passes rep_write_tlb (λ e, e.2 = [(Build_Comp ct_cachel1d 0, et_write)]) ∧
  passes rep_nack (λ e, e.2 = [(Build_Comp ct_cachel1d 0, et_read)] ∧ nacks e.1 = (1, 2)) ∧
  passes rep_read (λ e, drop 3 (r_states 4 e.1) = [o3irs_completed] ∧ nacks e.1 = (0, 2) ∧
    passes rep_nack (λ b, O3Core.total_mem_rd_time b.1 < O3Core.total_mem_rd_time e.1 ∧
                          O3Core.total_mem_wr_time b.1 = O3Core.total_mem_wr_time e.1)).
Proof. vm_compute. split_and!; reflexivity. Qed.

(** ** The machine of cache_test.cc and coherence_test.cc *)

(** The queue is emptied before each test. *)
Definition test_machine : outcome (wiring * (GEQ * world)) :=
  '(cfg, s) ← new_mcsim test_coherence toy_leftovers; Ok (wires cfg, ((global_q s) <| event_queue := ∅ |>, parts s)).

(** ** cache_test.cc *)

Definition in_world {A} (W : wiring) (h : proc call world A) (w : world) : outcome world := after (settled W h) w.

Definition cache_queued : outcome world :=
  '(W, (_, w)) ← test_machine;
  in_world W (receive W (Component.add_req_event (Build_Comp ct_cachel1d 0) 0
    (new_lqe (Build_Comp ct_o3core 0) et_read TEST_ADDR_D 0) None)) w.
Definition cache_l1 : outcome world :=
  '(W, _) ← test_machine; w ← cache_queued; in_world W (process_event W (Build_Comp ct_cachel1d 0) 0) w.
Definition cache_l2 : outcome world :=
  '(W, _) ← test_machine; w ← cache_l1; in_world W (process_event W (Build_Comp ct_cachel2 0) 40) w.

(** The requests and read misses of the first L1, the requests, accesses and misses of the
    first L2, and the requests that the crossbar took. *)
Definition cache_counts (w : world) : option (nat * Z * nat * Z * Z * Z) :=
  d ← l1ds w !! O; c ← l2s w !! O;
  Some (length (req_event (CacheL1.queues d)), CacheL1.num_rd_miss d, length (req_event (CacheL2.queues c)),
        CacheL2.num_rd_access c, CacheL2.num_rd_miss c, Crossbar.num_req (noc w)).

Example BasicCase :
  passes cache_queued (λ w, cache_counts w = Some (1%nat, 0, 0%nat, 0, 0, 0)) ∧
  passes cache_l1 (λ w, cache_counts w = Some (0%nat, 1, 1%nat, 0, 0, 0)) ∧
  passes cache_l2 (λ w, cache_counts w = Some (0%nat, 1, 0%nat, 1, 1, 1)).
Proof. vm_compute. split_and!; reflexivity. Qed.

(** ** coherence_test.cc *)

(** [set_rob_entry] *)
Definition access_entry (addr ready_time : Z) (isread : bool) : O3Core.O3ROB :=
  O3Core.Build_O3ROB O3Core.o3irs_issued ready_time 0 addr isread false (-1) (-1) (-1) O3Core.mem_rd
    (-1) (-1) (-1) (-1) (-1) (-1) (-1) (-1).


(** The test classes keep the states that a line goes through: at the directory 0, and at
    the two L2 caches towards the directory and towards the L1 caches. *)
Record observed := {
  inside : world;
  dir_states : list coherence_state_type;
  l2_states : list (list coherence_state_type);
  l1l2_states : list (list coherence_state_type) }.

Definition push_new (x : coherence_state_type) (l : list coherence_state_type) : list coherence_state_type :=
  if decide (last l = Some x) then l else l ++ [x].

Section Observed.
Context (W : wiring) (addr : Z).

Definition line_in {T} (geo : Cache.geometry) (tag_of : T → Z) (tags : list (list T)) : option T :=
  let line := addr / 2 ^ Cache.set_lsb geo in
  set ← tags !! Z.to_nat (line mod Cache.num_sets geo);
  find (λ x, tag_of x =? line / Cache.num_sets geo) set.

Definition in_l2 (w : world) (i : nat) : option CacheL2.L2Entry :=
  cfg ← cfg_l2s W !! i; c ← l2s w !! i; line_in (CacheL2.geo cfg) CacheL2.tag (CacheL2.tags c).
Definition in_l1d (w : world) (i : nat) : coherence_state_type :=
  default cs_invalid
    (cfg ← cfg_l1ds W !! i; c ← l1ds w !! i; x ← line_in (CacheL1.geo cfg) fst (CacheL1.tags c); Some x.2).
Definition in_dir (w : world) : option Directory.DirEntry :=
  cfg ← cfg_dirs W !! O; d ← dirs w !! O; Directory.dir d !! (addr / 2 ^ Directory.set_lsb cfg).

Definition observe (c : Comp) (o : observed) : observed :=
  match c_type c with
  | ct_cachel2 =>
      let i := Z.to_nat (c_num c) in
      match in_l2 (inside o) i with
      | Some e =>
          o <| l2_states ::= alter (push_new (CacheL2.cs_type e)) i |>
            <| l1l2_states ::= alter (push_new (CacheL2.type_l1l2 e)) i |>
      | None =>
          o <| l2_states ::= alter (λ l, l ++ [cs_invalid]) i |> <| l1l2_states ::= alter (λ l, l ++ [cs_invalid]) i |>
      end
  | ct_directory =>
      if c_num c =? 0 then
        o <| dir_states ::= λ l, match in_dir (inside o) with Some e => push_new (Directory.cs_type e) l | None => l ++ [cs_invalid] end |>
      else o
  | _ => o
  end.

Definition observing : Machine observed := {|
  run_component c t o :=
    '(r, w, evs) ← run_component (Machine := machine W) c t (inside o); Ok (r, observe c (o <| inside := w |>), evs) |}.

(** A load or a store of [core] at tick [t]: its reorder buffer holds just that, and all
    that follows is simulated. *)
Definition access (core t : Z) (isread : bool) (gw : GEQ * world) : outcome (GEQ * observed) :=
  let (g, w) := gw in
  c ← vec_get (o3cores w) core;
  let c := c <| O3Core.o3rob ::= vec_set 0 (access_entry addr t isread) |> <| O3Core.o3rob_head := 0 |>
             <| O3Core.o3rob_size := 1 |> in
  let o := {| inside := w <| o3cores ::= vec_set core c |>;
              dir_states := []; l2_states := [[]; []]; l1l2_states := [[]; []] |} in
  '(r, g, o) ←
    GlobalEventQueue.process_event (Machine0 := observing) 500 (add_event t (Build_Comp ct_o3core core) g) o;
  match r with Some r => if r =? num_hthreads g then Ok (g, o) else Err Fatal | None => Err Fatal end.
End Observed.


Definition addr1 : Z := 0x26C8.
Definition addr2 : Z := addr1 + 2 ^ 6 * 1024.

(** The accesses of the six cases, each after the one before. *)
Definition coherence_run (l : list (Z * (Z * Z * bool))) : outcome (wiring * (GEQ * observed)) :=
  '(W, (g, w)) ← test_machine;
  let o := {| inside := w; dir_states := []; l2_states := []; l1l2_states := [] |} in
  r ← foldl (λ r '(addr, (core, t, isread)), '(g, o) ← r; access W addr core t isread (g, inside o)) (Ok (g, o)) l;
  Ok (W, r).
Definition cases : list (Z * (Z * Z * bool)) :=
  [(addr1, (0, 0, true)); (addr1, (1, 1200, true)); (addr1, (2, 2400, true)); (addr1, (3, 3600, false));
   (addr1, (1, 4800, true)); (addr2, (1, 6000, true))].

(** What is seen of a line after the first [n] cases: its states in the L1 data caches, in
    the L2 caches (towards the directory and towards the L1 caches) and in the directory,
    and those that the directory went through. *)
Definition line_after (n : nat) (addr : Z) : outcome (list coherence_state_type *
    list (coherence_state_type * coherence_state_type) * option coherence_state_type * list coherence_state_type) :=
  '(W, (_, o)) ← coherence_run (take n cases);
  Ok (in_l1d W addr (inside o) <$> [0; 1; 2; 3]%nat,
      (λ i, match in_l2 W addr (inside o) i with
            | Some e => (CacheL2.cs_type e, CacheL2.type_l1l2 e)
            | None => (cs_invalid, cs_invalid)
            end) <$> [0; 1]%nat,
      Directory.cs_type <$> in_dir W addr (inside o), take 2 (dir_states o)).

Notation I := cs_invalid.
Notation S := cs_shared.
Notation E := cs_exclusive.
Notation M := cs_modified.

(** $: I to E, Dir: I to E *)
Example Case1 :
  line_after 0 addr1 = Ok ([I; I; I; I], [(I, I); (I, I)], None, []) ∧
  line_after 1 addr1 = Ok ([E; I; I; I], [(E, E); (I, I)], Some E, [cs_tr_to_e; E]).
Proof. split; vm_compute; reflexivity. Qed.
(** $: I to E, E to S, Dir: - *)
Example Case2 : line_after 2 addr1 = Ok ([E; E; I; I], [(E, S); (I, I)], Some E, []).
Proof. vm_compute. reflexivity. Qed.
(** $: I to E|S, E to S, Dir: E to S *)
Example Case3 : line_after 3 addr1 = Ok ([E; E; E; I], [(S, S); (S, E)], Some S, [cs_tr_to_s; S]).
Proof. vm_compute. reflexivity. Qed.
(** $: I to M, S|E to I, Dir: S to M *)
Example Case4 : line_after 4 addr1 = Ok ([I; I; I; M], [(I, I); (M, M)], Some M, [cs_tr_to_m; M]).
Proof. vm_compute. reflexivity. Qed.
(** $: I to E, M to E, Dir: M to S *)
Example Case5 : line_after 5 addr1 = Ok ([I; E; I; E], [(S, E); (S, E)], Some S, [cs_m_to_s; S]).
Proof. vm_compute. reflexivity. Qed.
(** The states that the line went through in the two L2 caches in this case: 0 to shared,
    and 1 through the transition to shared. *)
Example Case5_L2 :
  passes (coherence_run (take 5 cases)) (λ r, l2_states r.2.2 = [[I; S]; [cs_tr_to_s; S]] ∧
    l1l2_states r.2.2 = [[I; E]; [E]]).
Proof. vm_compute. split; reflexivity. Qed.
(** $: E to I, Dir: S to E: a line of the same set takes the place of the first one. *)
Example Case6 :
  line_after 6 addr1 = Ok ([I; I; I; E], [(I, I); (S, E)], Some S, [cs_tr_to_e; E]) ∧
  line_after 6 addr2 = Ok ([I; E; I; I], [(E, E); (I, I)], Some E, [cs_tr_to_e; E]).
Proof. split; vm_compute; reflexivity. Qed.
End Tests.
